(* ===== verification/_CoqProject ===== *)
-Q . S2P
Prelude.v
Hardforks.v
GoRng.v
Header.v
Snapshot.v
SnapshotProps.v
SnapshotClaims.v
Extra.v
ExtraProps.v
Backoff.v
BackoffProps.v
Validation.v
Seal.v
Attestation.v
AttestationProps.v
AttestationDemo.v
ForkChoice.v
Collections.v
VoteMonitor.v
VotePool.v
VotePoolProps.v
VotePoolClaims.v
VotePoolPromotion.v
VotePoolFinality.v
VotePoolDemo.v
VoteJournal.v
VoteProducer.v
VoteProducerDemo.v
Provider.v
PaymentLane.v
PaymentLaneProps.v
Election.v
EvmEnv.v
Sealing.v
SealingProps.v
SealingDemo.v
NodeConsensus.v
BidBlock.v
ForkChoiceEngine.v
ForkChoiceEngineProps.v
ForkChoiceEngineDemo.v
EvmEnvProps.v
NodeConsensusProps.v
BidBlockProps.v
BidBlockDemo.v
Precompiles.v
DoubleSign.v
DoubleSignProps.v
DoubleSignDemo.v
CometBft.v
CometBftProps.v
CometBftDemo.v
PrecompileTables.v
PrecompileTablesProps.v
PrecompileTablesDemo.v
Cas20Sigs.v
Cas20Frame.v
Cas20Meta.v
Cas20Abi.v
Cas20Storage.v
Cas20Policy.v
Cas20Token.v
Cas20Asset.v
Cas20Factory.v
Cas20Sound.v
Cas20Calls.v
Cas20Ledger.v
Cas20Keeps.v
Cas20Tokens.v
Cas20Roles.v
Cas20History.v
Cas20Demo.v
