(* ===== verification/Prelude.v ===== *)
(** * reth-bsc: a verification library for the consensus core and the native contracts

    reth-bsc is a node of the BNB Smart Chain.  Its own logic, as opposed to
    the one it inherits from reth and revm, is the Parlia consensus: a set of
    validators takes turns at proposing blocks, limited in how often each may
    sign; the validators vote for blocks with BLS signatures, and two thirds
    of the votes, aggregated into the header of the next block, justify a
    block and finalize its parent.  This library models that logic in Rocq,
    function by function, and proves what makes it correct.  It also models
    the contracts the node executes natively: the CAS20 tokens (BEP-702) and
    the precompiles of the bridge.

    ** The parts of the program and how they interact

    A header that arrives is first checked on its own ([validation.rs],
    extra data in [consensus.rs]), then against its ancestors
    ([pre_execution.rs]: time, attestation, seal).  Both sides of that second
    check read a _snapshot_ ([snapshot.rs]), the validator set and history at
    the parent block, which the _provider_ ([provider.rs]) finds in a cache,
    in the database, or rebuilds by applying headers.  A node that proposes
    asks the snapshot whether it may sign, takes its delay from the back-off
    ([ramanujan_fork.rs], [go_rng.rs]) and assembles an attestation from the
    _vote pool_ ([vote_pool.rs]) into the header it seals
    ([node/miner/util.rs]).  A node that validates casts a vote for each
    new head ([vote_producer.rs]), records it before it is released
    ([vote_journal.rs]) and puts it in the pool, where votes of the others
    arrive too and are watched for double votes
    ([malicious_vote_monitor.rs]).  Which of two heads is canonical is the
    fork choice ([forkchoice_rule.rs]); the engine is told of it, with the
    justified block as safe and the finalized one, by [node/consensus.rs],
    which also checks headers against their parents.  A validator may have its
    block built by others: it admits, signs and seals the best _bid block_
    ([parlia/bid_block.rs], [node/miner/bid_block.rs],
    [node/miner/bid_simulator.rs]).  The fork schedule ([hardforks/])
    decides at each block which rules apply.

    A call to a CAS20 address ([evm/precompiles/cas20/mod.rs]) does not run
    byte code: [run] meters it, finds the handler of the address (the factory
    that creates tokens, the activation or the policy registry, an asset or a
    stablecoin) and turns its result into an outcome.  A token asks the policy
    registry whether an account may hold or move it and its own storage for
    balances, roles and pauses; the factory runs the token's dispatcher for the
    calls that initialise it, and an asset runs its own for the calls of an
    announcement.

    An EVM ([evm/api/]) is made for the environment of a block
    ([evm/block_env.rs], [node/evm/config.rs]) with the table of precompiles of
    its fork ([evm/precompiles/mod.rs]): a light client of another chain
    ([cometbft.rs]), evidence against validators that sealed twice
    ([double_sign.rs]), signatures and proofs, and a clock.  Their entries are
    wrappers that look the contract up in a context which the handler and the
    executor push before each transaction.

    ** Files

    All source paths are below [src/].

    - [Prelude]: machine integers, the type [exec] of computations that
      return, fail or panic, tactics, the hint database, shared lemmas.
    - [Hardforks] ([hardforks/bsc.rs], [hardforks/mod.rs],
      [node/evm/config.rs]): forks, schedules of the four networks,
      predicates, the choice of EVM rules.
    - [GoRng] ([consensus/parlia/go_rng.rs]): the generator and the shuffle.
    - [Header] ([vote.rs], [util.rs], [constants.rs] of
      [consensus/parlia/]): headers, votes, millisecond time, seal preimage.
    - [Snapshot], [SnapshotProps], [SnapshotClaims] ([snapshot.rs]): the
      record [Snapshot], [apply] as the transition of every block, and the
      relation [reachable] of the snapshots it produces.
    - [Extra], [ExtraProps] ([consensus.rs], [error.rs]): readers and writers
      of the extra data.
    - [Backoff], [BackoffProps] ([consensus.rs], [ramanujan_fork.rs]): delays
      and block times.
    - [Validation] ([validation.rs], [eip4844/bep657.rs]): stateless checks.
    - [Seal] ([util.rs], [validation.rs]): what the seal covers.
    - [Attestation], [AttestationProps], [AttestationDemo] ([consensus.rs],
      [node/evm/pre_execution.rs], [node/evm/error.rs]): assembly and
      verification of attestations, the seal check, and which errors are
      final.
    - [ForkChoice] ([forkchoice_rule.rs]).
    - [Collections]: LRU caches and binary heaps, as interfaces with laws.
    - [VoteMonitor] ([malicious_vote_monitor.rs]).
    - [VotePool] and its companions [VotePoolProps], [VotePoolClaims],
      [VotePoolPromotion], [VotePoolFinality], [VotePoolDemo]
      ([vote_pool.rs], [bls_signer.rs]): the pool, its invariant under every
      interleaving of its callers, promotion, finality.
    - [VoteJournal] ([node/vote_journal.rs]): voting rules and their file.
    - [VoteProducer], [VoteProducerDemo] ([node/vote_producer.rs],
      [bls_signer.rs]).
    - [Provider] ([provider.rs]).
    - [PaymentLane], [PaymentLaneProps] ([consensus/payment_lane/],
      [node/evm/executor.rs]): gas reserved for payments.
    - [Election] ([system_contracts/feynman_fork.rs]): the validators with
      the most voting power.
    - [Sealing], [SealingProps], [SealingDemo] ([node/miner/util.rs],
      [signer.rs], [block_mev_info.rs], [node/evm/assembler.rs],
      [finalize_payload]): the miner's header from plan to seal.
    - [ForkChoiceEngine], [ForkChoiceEngineProps], [ForkChoiceEngineDemo]
      ([BscForkChoiceEngine] of [node/consensus.rs]): what the engine is told,
      difficulties and finality.
    - [NodeConsensus], [NodeConsensusProps] ([BscConsensus] of
      [node/consensus.rs]): headers against their parents.
    - [BidBlock], [BidBlockProps], [BidBlockDemo] ([parlia/bid_block.rs],
      [node/miner/bid_block.rs], [bid_simulator.rs]): blocks of builders, from
      the submission to the store of the best.
    - [EvmEnv], [EvmEnvProps] ([evm/block_env.rs], [node/evm/config.rs]): the
      environment a block executes in, from a header or for the next block.
    - [Precompiles] ([error.rs], [dedup.rs], [bls.rs], [tm_secp256k1.rs],
      [tendermint.rs], [iavl.rs], [milli_timestamp.rs] of
      [evm/precompiles/]): results, and the smaller contracts of the bridge.
    - [DoubleSign], [DoubleSignProps], [DoubleSignDemo] ([double_sign.rs]):
      evidence against validators.
    - [CometBft], [CometBftProps], [CometBftDemo] ([cometbft.rs]): the light
      client and the bytes of its state.
    - [PrecompileTables], [PrecompileTablesProps], [PrecompileTablesDemo]
      ([evm/precompiles/mod.rs], [evm/handler.rs], [evm/api/]): the contracts
      of each fork, the wrappers around them and the stack of contexts.
    - [Cas20Sigs] ([sigs.rs] of [evm/precompiles/cas20/], like the files
      named below): selectors, errors, topics, roles.
    - [Cas20Frame] ([ctx.rs], [errors.rs]): journal, meter, frame, programs.
    - [Cas20Meta]: laws of programs: gas is spent, only named accounts change.
    - [Cas20Abi] ([abi.rs]), [Cas20Storage] ([storage.rs]): encoding, slots.
    - [Cas20Policy] ([activation.rs], [policy.rs]): both registries.
    - [Cas20Token] ([token.rs], [admin.rs], [metadata.rs], [permit.rs],
      [memo.rs]), [Cas20Asset] ([asset.rs], [stablecoin.rs]): the tokens.
    - [Cas20Factory] ([factory.rs], [mod.rs]): creation, routing, [run].
    - [Cas20Sound], [Cas20Calls]: every handler returns within its gas and
      account, and refines [ideal].
    - [Cas20Ledger], [Cas20Keeps], [Cas20Tokens]: balances, supply and admins
      of a token; the class [TokenInvariant] of what the dispatchers need of
      an invariant, and the dispatchers proved against it.
    - [Cas20Roles]: the second instance, a token without admins.
    - [Cas20History]: both over every sequence of calls; [Cas20Demo].

    ** How the code is modelled

    Structs are records, enums inductive types, with the source's names.
    [HashMap], [BTreeMap] and [HashSet] are [gmap] and [gset]; [Vec] is
    [list]; hashes, addresses and keys are the big-endian numbers of their
    bytes.  Integers are [Z] with wrap-around and saturation written out
    ([add64], [sat_sub64], ...).  A function that returns [Result] or
    [Option] or that may panic is a function into [exec]: [Fail] is the error
    return, [Panics] the panic, so that the absence of panics is a theorem.
    State is passed explicitly.  Code that runs under a lock is one function;
    programs of many such calls are inductive relations ([reachable],
    [pool_reach], [journal_run], [producer_run], [history], [evm_made], [call]),
    and invariants go by induction on them.

    Code of other crates is an argument, as a class with the operations and,
    where a theorem relies on them, a class with their documented laws:
    [ForkConditionApi], [HashApi], [RlpApi], [BlsApi], [BlsSecretApi],
    [EcdsaApi], [SecretKeyApi], [BlobApi], [LruApi], [HeapApi], [JsonApi],
    [Keccak], [StorageGas], [Cas20Host], [Ecrecover], [RlpDecode],
    [EvmEcrecover], [CometApi], [BlsCurve], [TmSecp256k1], [TmLightClient],
    [RevmPrecompiles].  Every class of laws has an instance in one of the
    [Demo] modules or next to a witness, which the witnesses use.

    A CAS20 handler is a program ([prog]) over the operations of its frame:
    read or write a slot, charge, log, look at the code of an account.
    [exec_prog] runs it on a journal with gas ([handle], one case per operation
    of [Ctx], [Frame] and [Store]); [ideal] runs the same program on the state
    alone, and is the specification the metered run refines.  The theorems on
    token ledgers assume that the slots of one account do not collide
    ([Layout]: keys hashed into different mappings and constants differ) and
    that the hash of the marker code is the constant of [sigs.rs]
    ([MarkerHash]), which is what a collision-free hash gives.

    ** What the theorems show

    - Snapshots: reachable ones are well formed and respect the signing
      limit; [apply] accepts exactly the blocks it should and never panics;
      half of the validators may always sign next; the check on the parent
      snapshot is enough; finality only advances over consecutive blocks; the
      provider returns exactly the snapshot the chain defines.
    - Attestations: what a producer assembles every node accepts; what a node
      accepts rests on two thirds of the validators, so two of them share a
      third; a verdict never changes as the node learns more of the chain.
    - Votes: the pool's invariant and its bounds hold under every
      interleaving; promotion and pruning are exact; a finality notification
      rests on a quorum; the monitor finds every recorded double vote in its
      scope and reports nothing else; the journal and the producer never
      release two conflicting votes within the journal's window, across
      restarts and rolled-back writes, unless a write was torn or the votes
      before a restart were in memory only.
    - Headers: round trips of the extra data and of the block time, the exact
      acceptance conditions of the checks, no panics, and that the seal binds
      every field.
    - Order: out-of-turn validators never share a delay; the fork choice is
      the lexicographic order it is meant to be; EVM rules never go back.
    - Engine: the head, the safe and the finalized block the engine hears of
      are determined, and finality rests on a quorum; a child of the head
      becomes the head.
    - Bids: which payloads a validator accepts and what it signs blindly is
      exact; what it seals every node accepts and executes in the builder's
      environment; a signature covers one body unless a hash collides; the
      store keeps the best bid.
    - Blocks: a block packed by the miner passes the payment-lane rule of the
      importers, which classify its transactions themselves, and keeps the reservation free; the cached configuration is
      the one the contract has; the election equals sorting.
    - Sealing: what the miner plans, assembles, finalizes and refreshes is
      accepted by [Validation] and [Attestation] of every other node.
    - Environment: the miner executes in the environment the importers compute
      from its header, to the millisecond.
    - Bridge: a validator that seals two headers can be convicted and nobody
      else is, and the outcome of every evidence is determined; the state of the light client is linked to its first one by
      blocks that enough validators signed, its bytes read back, and when it
      panics is exact; a call reaches the contract of its fork whatever
      earlier transactions left behind, which is exact too, and costs its
      price.
    - Tokens: every call returns and uses no more than its gas; gas decides
      whether a call completes and nothing else; static calls change nothing
      and every call only its own account; over every history balances add up
      to the supply, the supply stays within its cap, admins are counted
      right, and a token without an admin never gets one.

    ** Fuel and bounds

    Loops that are structural in the source are structural here.  The others
    carry fuel, and each has a theorem that it is enough: the monitor's scan
    ([scan_fuel] = 268, since a vote spans at most 267 heights: it returns on
    every vote), the journal's rule loops ([rules_fuel] = 257), the
    provider's walk (the height of the block), the pool's pops (the length of
    the queue).  The rejection loops of the generator have no bound; their
    fuel is an argument and more fuel never changes a result
    ([back_off_time_fuel]).  A policy may name another, so [is_authorized]
    recurses on the contents of storage: [policy_depth] levels are enough,
    since every level pays for a hash ([run_refines] holds for every larger
    depth).  Internal calls nest twice at most: [asset_dispatch] carries 2.
    A wrapper leads to a contract and never to another wrapper:
    [execute_precompile] carries 1 ([precompile_dispatch]).

    ** Not modelled

    Everything that drives other crates: the network, RPC, payload building,
    the tasks and channels around bids, the execution of system transactions by revm, codecs
    and database tables, metrics and logs, and start-up.  Contract byte code
    and ABI tables are data.
    Of the executor only the gas and lane accounting and the trace contexts are
    modelled, of the handler the latter and [validate_env], since the rest
    changes accounts of the journal of revm, whose steps are booleans that say
    whether they fail ([RevmSteps]); of the system contracts only the election; of CAS20
    not the metrics, the names for the RPC and the access lists.  Block
    import and the recovery of forks are asynchronous services around channels,
    peers and the engine of reth, with little logic of their own.

    ** Idealisations

    The theorems on the pool take the hash of a vote as free of collisions; it
    only identifies votes.  That no header is its own ancestor is a hypothesis
    where a walk over parents needs it ([older_parent]: a known parent has a
    lower number). *)

From stdpp Require Import base tactics numbers option list sorting gmap.
From Stdlib Require Import ZArith Lia Bool.

#[global] Open Scope Z_scope.
#[global] Set Default Goal Selector "!".

(** ** Machine integers

    Every Rust integer is a [Z].  The release profile of [Cargo.toml] does not
    switch overflow checks on, so the plain operators of the source wrap; the
    [saturating_*] and [wrapping_*] methods are the functions of that name. *)

Definition u64_max : Z := 2 ^ 64 - 1.
Definition wrap64 (z : Z) : Z := z mod 2 ^ 64.
Definition wrap32 (z : Z) : Z := z mod 2 ^ 32.
Definition wrap8 (z : Z) : Z := z mod 2 ^ 8.
(** Reinterpretation of the low [w] bits as a two's complement integer ([as iN]). *)
Definition to_signed (w z : Z) : Z :=
  let u := z mod 2 ^ w in if u <? 2 ^ (w - 1) then u else u - 2 ^ w.

Definition add64 (a b : Z) : Z := wrap64 (a + b).
Definition sub64 (a b : Z) : Z := wrap64 (a - b).
Definition mul64 (a b : Z) : Z := wrap64 (a * b).
Definition sat_add64 (a b : Z) : Z := Z.min (a + b) u64_max.
Definition sat_sub64 (a b : Z) : Z := Z.max (a - b) 0.
Definition div_ceil (a b : Z) : Z := (a + b - 1) / b.
Definition is_multiple_of (a b : Z) : bool :=
  if b =? 0 then a =? 0 else a mod b =? 0.

Definition is_u64 (z : Z) : Prop := 0 <= z < 2 ^ 64.
Definition is_u8 (z : Z) : Prop := 0 <= z < 2 ^ 8.

(** ** Computations: a value, an error return, or a panic

    [Fail] is an early [return Err(e)] (or [return None], with [E := unit]);
    [Panics] is a Rust panic: an index out of range, a failed [assert_eq!], a
    division by zero. *)

Inductive exec (E A : Type) : Type :=
| Done (a : A)
| Fail (e : E)
| Panics.
Arguments Done {_ _} _.
Arguments Fail {_ _} _.
Arguments Panics {_ _}.

#[export] Instance exec_ret {E} : MRet (exec E) := λ A a, Done a.
#[export] Instance exec_bind {E} : MBind (exec E) := λ A B f m,
  match m with
  | Done a => f a
  | Fail e => Fail e
  | Panics => Panics
  end.
#[export] Instance exec_fmap {E} : FMap (exec E) := λ A B f m,
  match m with
  | Done a => Done (f a)
  | Fail e => Fail e
  | Panics => Panics
  end.

(** [ensure b e]: go on when [b], otherwise return the error [e]. *)
Definition ensure {E} (b : bool) (e : E) : exec E unit := if b then Done tt else Fail e.
(** [assert!(b)]. *)
Definition rassert {E} (b : bool) : exec E unit := if b then Done tt else Panics.
(** [r.map_err(f)] and [o.ok_or(e)]. *)
Definition map_err {E F A} (f : E → F) (m : exec E A) : exec F A :=
  match m with Done a => Done a | Fail e => Fail (f e) | Panics => Panics end.
Definition ok_or {E A} (o : option A) (e : E) : exec E A :=
  match o with Some a => Done a | None => Fail e end.
(** Division and remainder panic on a zero divisor. *)
Definition rdiv {E} (a b : Z) : exec E Z := if b =? 0 then Panics else Done (a / b).
Definition rmod {E} (a b : Z) : exec E Z := if b =? 0 then Panics else Done (a mod b).

Definition exec_ok {E A} (m : exec E A) : bool :=
  match m with Done _ => true | _ => false end.

(** ** Byte strings: a byte is a [Z] in [0, 256) *)

Abbreviation bytes := (list Z).
Definition byte_ok (b : Z) : Prop := 0 <= b < 256.
Definition zlen {A} (l : list A) : Z := Z.of_nat (length l).

(** [l[i]] and [&l[a..b]] with the bounds checks of the language. *)
Definition index {E A} (l : list A) (i : Z) : exec E A :=
  match l !! Z.to_nat i with
  | Some a => if 0 <=? i then Done a else Panics
  | None => Panics
  end.
Definition slice {E A} (l : list A) (a b : Z) : exec E (list A) :=
  if (0 <=? a) && (a <=? b) && (b <=? zlen l)
  then Done (take (Z.to_nat (b - a)) (drop (Z.to_nat a) l))
  else Panics.

(** [l.iter().enumerate()] *)
Definition enumerate {A} (l : list A) : list (Z * A) := imap (λ i a, (Z.of_nat i, a)) l.

(** Big-endian numbers: [to_be_bytes] of a [n]-byte integer and its inverse. *)
Definition be_decode (l : bytes) : Z := fold_left (λ acc b, acc * 256 + b) l 0.
Fixpoint be_encode (n : nat) (z : Z) : bytes :=
  match n with
  | O => []
  | S n => be_encode n (z / 256) ++ [z mod 256]
  end.

(** ** Lemmas on machine integers *)

Create HintDb bsc discriminated.
Create Rewrite HintDb bsc_simp.

Lemma wrap64_small z : is_u64 z → wrap64 z = z.
Proof. intros H. apply Z.mod_small, H. Qed.

Lemma wrap64_range z : is_u64 (wrap64 z).
Proof. apply Z.mod_pos_bound. lia. Qed.

Lemma add64_small a b : 0 <= a → 0 <= b → a + b < 2 ^ 64 → add64 a b = a + b.
Proof. intros. apply wrap64_small. unfold is_u64. lia. Qed.

Lemma sub64_small a b : 0 <= b <= a → a < 2 ^ 64 → sub64 a b = a - b.
Proof. intros. apply wrap64_small. unfold is_u64. lia. Qed.

Lemma mul64_small a b : 0 <= a → 0 <= b → a * b < 2 ^ 64 → mul64 a b = a * b.
Proof. intros. apply wrap64_small. unfold is_u64. nia. Qed.

Lemma is_multiple_of_true a b :
  b ≠ 0 → is_multiple_of a b = true ↔ a mod b = 0.
Proof.
  intros Hb. unfold is_multiple_of.
  destruct (Z.eqb_spec b 0); [done|]. apply Z.eqb_eq.
Qed.

Lemma div_ceil_spec a b : 0 <= a → 0 < b → a <= div_ceil a b * b < a + b.
Proof.
  intros Ha Hb. unfold div_ceil.
  pose proof (Z.div_mod (a + b - 1) b). pose proof (Z.mod_pos_bound (a + b - 1) b). nia.
Qed.

#[export] Hint Resolve wrap64_range : bsc.

(** ** Inversion of computations *)

Lemma bind_Done {E A B} (m : exec E A) (f : A → exec E B) b :
  m ≫= f = Done b ↔ ∃ a, m = Done a ∧ f a = Done b.
Proof.
  split.
  - destruct m as [a|e|]; simpl; intros H; [by exists a | discriminate..].
  - by intros (a & -> & H).
Qed.

Lemma seq_Done {E B} (m : exec E unit) (k : exec E B) b :
  (_ ← m; k) = Done b ↔ m = Done tt ∧ k = Done b.
Proof. destruct m as [[]| |]; cbn; naive_solver. Qed.

Lemma ensure_Done {E} b (e : E) : ensure b e = Done tt ↔ b = true.
Proof. unfold ensure. destruct b; split; congruence. Qed.

Lemma ok_or_Done {E A} (o : option A) (e : E) a : ok_or o e = Done a ↔ o = Some a.
Proof. destruct o; simpl; split; congruence. Qed.

Lemma map_err_Done {E F A} (f : E → F) (m : exec E A) a : map_err f m = Done a ↔ m = Done a.
Proof. destruct m; simpl; split; congruence. Qed.

(** Split a [Done] of a chain of binds into its steps. *)
Ltac inv_done :=
  repeat match goal with
  | H : _ ≫= _ = Done _ |- _ => apply bind_Done in H as (? & ? & H)
  | H : ensure _ _ = Done ?u |- _ =>
      destruct u; apply ensure_Done in H
  | H : ok_or _ _ = Done _ |- _ => apply ok_or_Done in H
  | H : map_err _ _ = Done _ |- _ => apply map_err_Done in H
  | H : Done _ = Done _ |- _ => injection H as H; try subst
  | H : mret _ = Done _ |- _ => injection H as H; try subst
  | H : Fail _ = Done _ |- _ => discriminate H
  | H : Panics = Done _ |- _ => discriminate H
  end.

(** Case analysis on the tests of the code, with their arithmetic meaning. *)
Ltac split_tests :=
  repeat match goal with
  | H : _ && _ = true |- _ => apply andb_true_iff in H as [? ?]
  | H : _ || _ = false |- _ => apply orb_false_iff in H as [? ?]
  | H : negb _ = true |- _ => apply negb_true_iff in H
  | H : negb _ = false |- _ => apply negb_false_iff in H
  | H : (_ <=? _) = true |- _ => apply Z.leb_le in H
  | H : (_ <=? _) = false |- _ => apply Z.leb_gt in H
  | H : (_ <? _) = true |- _ => apply Z.ltb_lt in H
  | H : (_ <? _) = false |- _ => apply Z.ltb_ge in H
  | H : (_ =? _) = true |- _ => apply Z.eqb_eq in H
  | H : (_ =? _) = false |- _ => apply Z.eqb_neq in H
  end.

Ltac case_if :=
  match goal with
  | |- context [if ?b then _ else _] => let E := fresh "Eif" in destruct b eqn:E
  | H : context [if ?b then _ else _] |- _ => let E := fresh "Eif" in destruct b eqn:E
  end.

(** ** Byte strings *)

Lemma zlen_app {A} (l k : list A) : zlen (l ++ k) = zlen l + zlen k.
Proof. unfold zlen. rewrite length_app. lia. Qed.

Lemma zlen_nonneg {A} (l : list A) : 0 <= zlen l.
Proof. unfold zlen. lia. Qed.

Lemma zlen_nil {A} : zlen ([] : list A) = 0.
Proof. done. Qed.

Lemma zlen_cons {A} (a : A) l : zlen (a :: l) = 1 + zlen l.
Proof. unfold zlen. cbn [length]. lia. Qed.

#[export] Instance zlen_Permutation {A} : Proper ((≡ₚ) ==> (=)) (@zlen A).
Proof. intros l k Hp. unfold zlen. by rewrite Hp. Qed.

#[export] Hint Rewrite @zlen_app @zlen_nil @zlen_cons : bsc_simp.

Lemma be_decode_app l b : be_decode (l ++ [b]) = be_decode l * 256 + b.
Proof. unfold be_decode. by rewrite fold_left_app. Qed.

Lemma be_encode_length n z : length (be_encode n z) = n.
Proof.
  revert z. induction n as [|n IH]; intros z; [done|].
  cbn [be_encode]. rewrite length_app, IH. simpl. lia.
Qed.

Lemma be_encode_ok n z : Forall byte_ok (be_encode n z).
Proof.
  revert z. induction n as [|n IH]; intros z; cbn [be_encode]; [constructor|].
  apply Forall_app_2; [apply IH|].
  constructor; [|constructor]. apply Z.mod_pos_bound. lia.
Qed.

Lemma be_decode_encode n z :
  0 <= z < 256 ^ Z.of_nat n → be_decode (be_encode n z) = z.
Proof.
  revert z. induction n as [|n IH]; intros z Hz.
  { simpl in *. unfold be_decode. simpl. lia. }
  cbn [be_encode]. rewrite be_decode_app, IH.
  - pose proof (Z.div_mod z 256). lia.
  - rewrite Nat2Z.inj_succ, Z.pow_succ_r in Hz by lia.
    split; [apply Z.div_pos; lia | apply Z.div_lt_upper_bound; lia].
Qed.

Lemma be_decode_bound l :
  Forall byte_ok l → 0 <= be_decode l < 256 ^ zlen l.
Proof.
  induction l as [|b l IH] using rev_ind; intros Hl.
  { unfold be_decode, zlen. simpl. lia. }
  apply Forall_app in Hl as [Hl Hb]. inversion Hb as [|? ? Hb' _]; subst.
  rewrite be_decode_app. autorewrite with bsc_simp.
  rewrite Z.pow_add_r by (unfold zlen; lia).
  specialize (IH Hl). unfold byte_ok in Hb'. lia.
Qed.

Lemma be_encode_decode l :
  Forall byte_ok l → be_encode (length l) (be_decode l) = l.
Proof.
  induction l as [|b l IH] using rev_ind; intros Hl; [done|].
  apply Forall_app in Hl as [Hl Hb]. inversion Hb as [|? ? Hb' _]; subst.
  rewrite length_app. cbn [length]. rewrite Nat.add_1_r. cbn [be_encode].
  unfold byte_ok in Hb'.
  rewrite be_decode_app, Z.div_add_l, Z.div_small, Z.add_0_r, IH by (lia || done).
  by rewrite Z.add_comm, Z.mod_add, Z.mod_small by lia.
Qed.

(** Slices of a concatenation. *)
Lemma slice_app {E A} (l m r : list A) :
  @slice E _ (l ++ m ++ r) (zlen l) (zlen l + zlen m) = Done m.
Proof.
  unfold slice. autorewrite with bsc_simp.
  pose proof (zlen_nonneg l). pose proof (zlen_nonneg m). pose proof (zlen_nonneg r).
  replace (0 <=? zlen l) with true by lia.
  replace (zlen l <=? zlen l + zlen m) with true by lia.
  replace (zlen l + zlen m <=? zlen l + (zlen m + zlen r)) with true by lia.
  simpl. f_equal. unfold zlen.
  replace (Z.to_nat (Z.of_nat (length l) + Z.of_nat (length m) - Z.of_nat (length l)))
    with (length m) by lia.
  rewrite Nat2Z.id, drop_app_length. apply take_app_length.
Qed.

Lemma slice_app_at {E A} (l m r : list A) a b :
  a = zlen l → b = zlen l + zlen m → @slice E _ (l ++ m ++ r) a b = Done m.
Proof. intros -> ->. apply slice_app. Qed.

Lemma slice_ok {E A} (l : list A) a b :
  0 <= a <= b → b <= zlen l →
  @slice E _ l a b = Done (take (Z.to_nat (b - a)) (drop (Z.to_nat a) l)).
Proof.
  intros. unfold slice.
  replace (0 <=? a) with true by lia. replace (a <=? b) with true by lia.
  by replace (b <=? zlen l) with true by lia.
Qed.

Lemma slice_Done {E A} (l : list A) a b s :
  @slice E _ l a b = Done s →
  0 <= a <= b ∧ b <= zlen l ∧ s = take (Z.to_nat (b - a)) (drop (Z.to_nat a) l).
Proof.
  unfold slice. case_if; intros H; inv_done; split_tests; done.
Qed.

Lemma slice_length {E A} (l : list A) a b s :
  @slice E _ l a b = Done s → zlen s = b - a.
Proof.
  intros (?&?&->)%slice_Done. unfold zlen in *.
  rewrite length_take, length_drop. lia.
Qed.

Lemma index_ok {E A} (l : list A) i :
  0 <= i < zlen l → ∃ a, @index E _ l i = Done a ∧ l !! Z.to_nat i = Some a.
Proof.
  intros Hi. unfold index.
  destruct (l !! Z.to_nat i) as [a|] eqn:El.
  - replace (0 <=? i) with true by lia. eauto.
  - apply lookup_ge_None in El. unfold zlen in Hi. lia.
Qed.

Lemma index_app_mid {E A} (l r : list A) a i :
  i = zlen l → @index E _ (l ++ a :: r) i = Done a.
Proof.
  intros ->. unfold index, zlen. rewrite Nat2Z.id, list_lookup_middle by done.
  by rewrite (proj2 (Z.leb_le _ _) (Nat2Z.is_nonneg _)).
Qed.

(** ** Filters *)

Lemma filter_ext_in {A} (P Q : A → Prop) `{∀ x, Decision (P x), ∀ x, Decision (Q x)} (l : list A) :
  (∀ x, x ∈ l → P x ↔ Q x) → filter P l = filter Q l.
Proof.
  induction l as [|x l IH]; intros Hl; [done|].
  rewrite (filter_cons P), (filter_cons Q).
  rewrite IH by (intros; apply Hl; by apply list_elem_of_further).
  specialize (Hl x (list_elem_of_here _ _)). repeat case_decide; naive_solver.
Qed.

Lemma mjoin_cons {A} (l : list A) ls : mjoin (l :: ls) = l ++ mjoin ls.
Proof. done. Qed.

Lemma filter_all {A} (P : A → Prop) `{∀ x, Decision (P x)} (l : list A) :
  (∀ x, x ∈ l → P x) → filter P l = l.
Proof.
  intros Hall. induction l as [|x l IH]; [done|].
  rewrite filter_cons_True by (apply Hall; by left). f_equal. apply IH. intros y Hy. apply Hall. by right.
Qed.

Lemma filter_none {A} (P : A → Prop) `{∀ x, Decision (P x)} (l : list A) :
  (∀ x, x ∈ l → ¬ P x) → filter P l = [].
Proof.
  induction l as [|x l IH]; intros Hl; [done|]. rewrite (filter_cons P).
  case_decide as Hx; [by destruct (Hl x (list_elem_of_here _ _))|].
  apply IH. intros y Hy. apply Hl. by apply list_elem_of_further.
Qed.

(** ** Sorting: [Vec::sort] on integers *)

Definition sort_Z (l : list Z) : list Z := merge_sort Z.le l.

Lemma sort_Z_perm l : sort_Z l ≡ₚ l.
Proof. apply merge_sort_Permutation. Qed.

Lemma sort_Z_sorted l : Sorted Z.le (sort_Z l).
Proof. apply Sorted_merge_sort. intros x y. lia. Qed.

Lemma sort_Z_id l : Sorted Z.le l → sort_Z l = l.
Proof.
  intros Hl. apply (Sorted_unique Z.le); [apply sort_Z_sorted | done | apply sort_Z_perm].
Qed.

Lemma sort_Z_length l : length (sort_Z l) = length l.
Proof. by rewrite sort_Z_perm. Qed.

Lemma sort_Z_elem x l : x ∈ sort_Z l ↔ x ∈ l.
Proof. by rewrite sort_Z_perm. Qed.

Lemma sort_Z_NoDup l : NoDup l → NoDup (sort_Z l).
Proof. by rewrite sort_Z_perm. Qed.

#[export] Hint Resolve sort_Z_sorted sort_Z_NoDup : bsc.

(** ** Stable sort by a comparison ([sort_by], [sort_by_key]) *)

Section StableSort.
Context {A : Type} (le : A → A → bool).

Fixpoint insert_by (x : A) (l : list A) : list A :=
  match l with
  | [] => [x]
  | y :: k => if le x y then x :: y :: k else y :: insert_by x k
  end.

Definition sort_by (l : list A) : list A := foldr insert_by [] l.

Lemma insert_by_perm x l : insert_by x l ≡ₚ x :: l.
Proof.
  induction l as [|y k IH]; simpl; [done|].
  destruct (le x y); [done|]. rewrite IH. apply Permutation_swap.
Qed.

Lemma sort_by_perm l : sort_by l ≡ₚ l.
Proof.
  induction l as [|x l IH]; [done|]. cbn [sort_by foldr].
  rewrite insert_by_perm. by apply perm_skip.
Qed.

Hypothesis le_total : ∀ x y, le x y = true ∨ le y x = true.
Hypothesis le_trans : ∀ x y z, le x y = true → le y z = true → le x z = true.

Lemma insert_by_sorted x l :
  StronglySorted (λ a b, le a b = true) l →
  StronglySorted (λ a b, le a b = true) (insert_by x l).
Proof.
  induction 1 as [|y k Hk IH Hy]; simpl; [repeat constructor|].
  destruct (le x y) eqn:Exy.
  - constructor; [by constructor|]. constructor; [done|].
    eapply Forall_impl; [exact Hy|]. simpl. eauto.
  - constructor; [done|]. rewrite insert_by_perm. constructor; [|done].
    destruct (le_total x y); congruence.
Qed.

Lemma sort_by_sorted l : StronglySorted (λ a b, le a b = true) (sort_by l).
Proof.
  induction l as [|x l IH]; [constructor|]. by apply insert_by_sorted.
Qed.
End StableSort.
