(* ===== verification/Hardforks.v ===== *)
(** * Hardforks: the fork schedule and the [BscHardforks] trait

    Models [src/hardforks/bsc.rs] (the fork names, the schedules of the four
    networks, the EVM rule set of each fork) and [src/hardforks/mod.rs] (the
    activation and transition predicates every other component asks).

    [ForkCondition] is an enum of [reth_ethereum_forks], not of this repository:
    it is the interface [ForkConditionApi], with the documented behaviour the
    code relies on stated in [ForkConditionLaws].  [ThresholdForks] is a concrete
    instance, used by the witnesses. *)

From stdpp Require Import base tactics numbers option list sorting.
From Stdlib Require Import ZArith Lia Bool.
From S2P Require Import Prelude.

(** ** The interface of [ForkCondition] *)

Class ForkConditionApi := {
  ForkCondition : Type;
  Block : Z → ForkCondition;
  Timestamp : Z → ForkCondition;
  active_at_block : ForkCondition → Z → bool;
  active_at_timestamp : ForkCondition → Z → bool;
  transitions_at_block : ForkCondition → Z → bool;
  (** [match fc { ForkCondition::Block(b) => Some(b), _ => None }] *)
  as_block : ForkCondition → option Z;
}.

(** Documented behaviour of the two kinds of condition this code builds. *)
Class ForkConditionLaws (F : ForkConditionApi) := {
  active_at_timestamp_mono : ∀ c t t',
    t <= t' → active_at_timestamp c t = true → active_at_timestamp c t' = true;
  active_at_block_mono : ∀ c n n',
    n <= n' → active_at_block c n = true → active_at_block c n' = true;
  active_at_block_Block : ∀ n b, active_at_block (Block n) b = (n <=? b);
  active_at_timestamp_Timestamp : ∀ t s, active_at_timestamp (Timestamp t) s = (t <=? s);
  active_at_timestamp_Block : ∀ n s, active_at_timestamp (Block n) s = false;
  transitions_at_block_Block : ∀ n b, transitions_at_block (Block n) b = (b =? n);
  as_block_Block : ∀ n, as_block (Block n) = Some n;
}.

(** ** Fork names *)

Inductive BscHardfork : Set :=
| Frontier
| Ramanujan
| Niels
| MirrorSync
| Bruno
| Euler
| Nano
| Moran
| Gibbs
| Planck
| Luban
| Plato
| Hertz
| HertzFix
| Kepler
| Feynman
| FeynmanFix
| Cancun
| Haber
| HaberFix
| Bohr
| Tycho
| Pascal
| Lorentz
| Maxwell
| Fermi
| Osaka
| Mendel
| Pasteur
| Jenner.

#[export] Instance BscHardfork_eq_dec : EqDecision BscHardfork.
Proof. solve_decision. Defined.

(** The forks of Ethereum the schedules mention ([EthereumHardfork]). *)

Inductive EthereumHardfork : Set :=
| EthFrontier
| EthHomestead
| EthTangerine
| EthSpuriousDragon
| EthByzantium
| EthConstantinople
| EthPetersburg
| EthIstanbul
| EthMuirGlacier
| EthBerlin
| EthLondon
| EthShanghai
| EthCancun
| EthPrague.

#[export] Instance EthereumHardfork_eq_dec : EqDecision EthereumHardfork.
Proof. solve_decision. Defined.

(** A boxed fork of either family. *)
Inductive AnyFork : Set :=
| EthFork (f : EthereumHardfork)
| BscFork (f : BscHardfork).

#[export] Instance AnyFork_eq_dec : EqDecision AnyFork.
Proof. solve_decision. Defined.

(** The derived order of the enum is the order of declaration. *)
Definition fork_rank (f : BscHardfork) : Z :=
  match f with
  | Frontier => 0
  | Ramanujan => 1
  | Niels => 2
  | MirrorSync => 3
  | Bruno => 4
  | Euler => 5
  | Nano => 6
  | Moran => 7
  | Gibbs => 8
  | Planck => 9
  | Luban => 10
  | Plato => 11
  | Hertz => 12
  | HertzFix => 13
  | Kepler => 14
  | Feynman => 15
  | FeynmanFix => 16
  | Cancun => 17
  | Haber => 18
  | HaberFix => 19
  | Bohr => 20
  | Tycho => 21
  | Pascal => 22
  | Lorentz => 23
  | Maxwell => 24
  | Fermi => 25
  | Osaka => 26
  | Mendel => 27
  | Pasteur => 28
  | Jenner => 29
  end.

(** ** EVM rule set of a fork *)

Inductive SpecId : Set := MUIR_GLACIER | LONDON | SHANGHAI | CANCUN | PRAGUE | OSAKA.

Definition spec_id_from (spec : BscHardfork) : SpecId :=
  match spec with
  | Frontier | Ramanujan | Niels | MirrorSync | Bruno | Euler | Gibbs | Nano | Moran | Planck | Luban | Plato => MUIR_GLACIER
  | Hertz | HertzFix => LONDON
  | Kepler | Feynman | FeynmanFix => SHANGHAI
  | Cancun | Haber | HaberFix | Bohr | Tycho => CANCUN
  | Pascal | Lorentz | Maxwell | Fermi => PRAGUE
  | Osaka | Mendel | Pasteur | Jenner => OSAKA
  end.

Definition spec_rank (s : SpecId) : Z :=
  match s with
  | MUIR_GLACIER => 0 | LONDON => 1 | SHANGHAI => 2 | CANCUN => 3 | PRAGUE => 4 | OSAKA => 5
  end.

(** ** Schedules: the vectors given to [ChainHardforks::new] *)

Section Schedules.
Context {F : ForkConditionApi}.

Definition bsc_mainnet : list (AnyFork * ForkCondition) :=
  [ (EthFork EthFrontier, Block 0);
    (EthFork EthHomestead, Block 0);
    (EthFork EthTangerine, Block 0);
    (EthFork EthSpuriousDragon, Block 0);
    (EthFork EthByzantium, Block 0);
    (EthFork EthConstantinople, Block 0);
    (EthFork EthPetersburg, Block 0);
    (EthFork EthIstanbul, Block 0);
    (EthFork EthMuirGlacier, Block 0);
    (BscFork Ramanujan, Block 0);
    (BscFork Niels, Block 0);
    (BscFork MirrorSync, Block 5184000);
    (BscFork Bruno, Block 13082000);
    (BscFork Euler, Block 18907621);
    (BscFork Nano, Block 21962149);
    (BscFork Moran, Block 22107423);
    (BscFork Gibbs, Block 23846001);
    (BscFork Planck, Block 27281024);
    (BscFork Luban, Block 29020050);
    (BscFork Plato, Block 30720096);
    (EthFork EthBerlin, Block 31302048);
    (EthFork EthLondon, Block 31302048);
    (BscFork Hertz, Block 31302048);
    (BscFork HertzFix, Block 34140700);
    (EthFork EthShanghai, Timestamp 1705996800);
    (BscFork Kepler, Timestamp 1705996800);
    (BscFork Feynman, Timestamp 1713419340);
    (BscFork FeynmanFix, Timestamp 1713419340);
    (EthFork EthCancun, Timestamp 1718863500);
    (BscFork Cancun, Timestamp 1718863500);
    (BscFork Haber, Timestamp 1718863500);
    (BscFork Tycho, Timestamp 1718863500);
    (BscFork HaberFix, Timestamp 1727316120);
    (BscFork Bohr, Timestamp 1727317200);
    (EthFork EthPrague, Timestamp 1742436600);
    (BscFork Pascal, Timestamp 1742436600);
    (BscFork Lorentz, Timestamp 1745903100);
    (BscFork Maxwell, Timestamp 1751250600);
    (BscFork Fermi, Timestamp 1768357800);
    (BscFork Osaka, Timestamp 1777343400);
    (BscFork Mendel, Timestamp 1777343400);
    (BscFork Pasteur, Timestamp 1787625000);
    (BscFork Jenner, Timestamp 1796697000) ].

Definition bsc_testnet : list (AnyFork * ForkCondition) :=
  [ (EthFork EthFrontier, Block 0);
    (EthFork EthHomestead, Block 0);
    (EthFork EthTangerine, Block 0);
    (EthFork EthSpuriousDragon, Block 0);
    (EthFork EthByzantium, Block 0);
    (EthFork EthConstantinople, Block 0);
    (EthFork EthPetersburg, Block 0);
    (EthFork EthIstanbul, Block 0);
    (EthFork EthMuirGlacier, Block 0);
    (BscFork Ramanujan, Block 1010000);
    (BscFork Niels, Block 1014369);
    (BscFork MirrorSync, Block 5582500);
    (BscFork Bruno, Block 13837000);
    (BscFork Euler, Block 19203503);
    (BscFork Gibbs, Block 22800220);
    (BscFork Nano, Block 23482428);
    (BscFork Moran, Block 23603940);
    (BscFork Planck, Block 28196022);
    (BscFork Luban, Block 29295050);
    (BscFork Plato, Block 29861024);
    (EthFork EthBerlin, Block 31103030);
    (EthFork EthLondon, Block 31103030);
    (BscFork Hertz, Block 31103030);
    (BscFork HertzFix, Block 35682300);
    (EthFork EthShanghai, Timestamp 1702972800);
    (BscFork Kepler, Timestamp 1702972800);
    (BscFork Feynman, Timestamp 1710136800);
    (BscFork FeynmanFix, Timestamp 1711342800);
    (EthFork EthCancun, Timestamp 1713330442);
    (BscFork Cancun, Timestamp 1713330442);
    (BscFork Haber, Timestamp 1716962820);
    (BscFork HaberFix, Timestamp 1719986788);
    (BscFork Bohr, Timestamp 1724116996);
    (BscFork Tycho, Timestamp 1713330442);
    (EthFork EthPrague, Timestamp 1740452880);
    (BscFork Pascal, Timestamp 1740452880);
    (BscFork Lorentz, Timestamp 1744097580);
    (BscFork Maxwell, Timestamp 1748243100);
    (BscFork Fermi, Timestamp 1762741500);
    (BscFork Osaka, Timestamp 1774319400);
    (BscFork Mendel, Timestamp 1774319400);
    (BscFork Pasteur, Timestamp 1784601000);
    (BscFork Jenner, Timestamp 1793241000) ].

Definition bsc_qanet : list (AnyFork * ForkCondition) :=
  [ (EthFork EthFrontier, Block 0);
    (EthFork EthHomestead, Block 0);
    (EthFork EthTangerine, Block 0);
    (EthFork EthSpuriousDragon, Block 0);
    (EthFork EthByzantium, Block 0);
    (EthFork EthConstantinople, Block 0);
    (EthFork EthPetersburg, Block 0);
    (EthFork EthIstanbul, Block 0);
    (EthFork EthMuirGlacier, Block 0);
    (BscFork Ramanujan, Block 0);
    (BscFork Niels, Block 0);
    (BscFork MirrorSync, Block 1);
    (BscFork Bruno, Block 1);
    (BscFork Euler, Block 2);
    (BscFork Nano, Block 3);
    (BscFork Moran, Block 3);
    (BscFork Gibbs, Block 4);
    (BscFork Planck, Block 5);
    (BscFork Luban, Block 6);
    (BscFork Plato, Block 7);
    (EthFork EthBerlin, Block 8);
    (EthFork EthLondon, Block 8);
    (BscFork Hertz, Block 8);
    (BscFork HertzFix, Block 8);
    (EthFork EthShanghai, Timestamp 1754967081);
    (BscFork Kepler, Timestamp 1754967081);
    (BscFork Feynman, Timestamp 1754967081);
    (BscFork FeynmanFix, Timestamp 1754967081);
    (EthFork EthCancun, Timestamp 1754967081);
    (BscFork Cancun, Timestamp 1754967081);
    (BscFork Haber, Timestamp 1754967081);
    (BscFork HaberFix, Timestamp 1754967081);
    (BscFork Bohr, Timestamp 1754967081);
    (EthFork EthPrague, Timestamp 1754967081);
    (BscFork Pascal, Timestamp 1754967081);
    (BscFork Lorentz, Timestamp 1754967081);
    (BscFork Maxwell, Timestamp 1754967101);
    (BscFork Fermi, Timestamp 1761030900);
    (BscFork Osaka, Timestamp 1785897000);
    (BscFork Mendel, Timestamp 1785897000);
    (BscFork Pasteur, Timestamp 1785920400);
    (BscFork Jenner, Timestamp 1791176400) ].

Definition bsc_local : list (AnyFork * ForkCondition) :=
  [ (EthFork EthFrontier, Block 0);
    (BscFork Bohr, Block 0) ].

End Schedules.

(** ** The trait

    [ChainSpec] is what an implementation of [BscHardforks] provides: the
    condition of every BSC fork and, from the supertrait [EthereumHardforks], the
    London and Prague tests. *)

Record ChainSpec `{F : ForkConditionApi} := {
  bsc_fork_activation : BscHardfork → ForkCondition;
  is_london_active_at_block : Z → bool;
  is_prague_active_at_timestamp : Z → bool;
  chain_id : Z;
}.

Section BscHardforks.
Context `{F : ForkConditionApi}.
Implicit Types (self : ChainSpec).

Definition is_ramanujan_transition_at_block self (block_number : Z) : bool :=
  transitions_at_block (bsc_fork_activation self Ramanujan) block_number.

Definition is_ramanujan_active_at_block self (block_number : Z) : bool :=
  active_at_block (bsc_fork_activation self Ramanujan) block_number.

Definition is_niels_transition_at_block self (block_number : Z) : bool :=
  transitions_at_block (bsc_fork_activation self Niels) block_number.

Definition is_niels_active_at_block self (block_number : Z) : bool :=
  active_at_block (bsc_fork_activation self Niels) block_number.

Definition is_mirror_sync_transition_at_block self (block_number : Z) : bool :=
  transitions_at_block (bsc_fork_activation self MirrorSync) block_number.

Definition is_mirror_sync_active_at_block self (block_number : Z) : bool :=
  active_at_block (bsc_fork_activation self MirrorSync) block_number.

Definition is_bruno_transition_at_block self (block_number : Z) : bool :=
  transitions_at_block (bsc_fork_activation self Bruno) block_number.

Definition is_bruno_active_at_block self (block_number : Z) : bool :=
  active_at_block (bsc_fork_activation self Bruno) block_number.

Definition is_euler_transition_at_block self (block_number : Z) : bool :=
  transitions_at_block (bsc_fork_activation self Euler) block_number.

Definition is_euler_active_at_block self (block_number : Z) : bool :=
  active_at_block (bsc_fork_activation self Euler) block_number.

Definition is_nano_transition_at_block self (block_number : Z) : bool :=
  transitions_at_block (bsc_fork_activation self Nano) block_number.

Definition is_nano_active_at_block self (block_number : Z) : bool :=
  active_at_block (bsc_fork_activation self Nano) block_number.

Definition is_moran_transition_at_block self (block_number : Z) : bool :=
  transitions_at_block (bsc_fork_activation self Moran) block_number.

Definition is_moran_active_at_block self (block_number : Z) : bool :=
  active_at_block (bsc_fork_activation self Moran) block_number.

Definition is_gibbs_transition_at_block self (block_number : Z) : bool :=
  transitions_at_block (bsc_fork_activation self Gibbs) block_number.

Definition is_gibbs_active_at_block self (block_number : Z) : bool :=
  active_at_block (bsc_fork_activation self Gibbs) block_number.

Definition is_planck_transition_at_block self (block_number : Z) : bool :=
  transitions_at_block (bsc_fork_activation self Planck) block_number.

Definition is_planck_active_at_block self (block_number : Z) : bool :=
  active_at_block (bsc_fork_activation self Planck) block_number.

Definition is_luban_transition_at_block self (block_number : Z) : bool :=
  transitions_at_block (bsc_fork_activation self Luban) block_number.

Definition is_luban_active_at_block self (block_number : Z) : bool :=
  active_at_block (bsc_fork_activation self Luban) block_number.

Definition is_plato_transition_at_block self (block_number : Z) : bool :=
  transitions_at_block (bsc_fork_activation self Plato) block_number.

Definition is_plato_active_at_block self (block_number : Z) : bool :=
  active_at_block (bsc_fork_activation self Plato) block_number.

Definition is_hertz_active_at_block self (block_number : Z) : bool :=
  active_at_block (bsc_fork_activation self Hertz) block_number.

Definition is_hertz_fix_active_at_block self (block_number : Z) : bool :=
  active_at_block (bsc_fork_activation self HertzFix) block_number.

Definition is_kepler_active_at_timestamp self (block_number timestamp : Z) : bool :=
  is_london_active_at_block self block_number
  && active_at_timestamp (bsc_fork_activation self Kepler) timestamp.

Definition is_kepler_transition_at_timestamp self (block_number timestamp parent_timestamp : Z) : bool :=
  let parent_number := sat_sub64 block_number 1 in
  negb (is_kepler_active_at_timestamp self parent_number parent_timestamp)
  && is_kepler_active_at_timestamp self block_number timestamp.

Definition is_feynman_active_at_timestamp self (block_number timestamp : Z) : bool :=
  is_london_active_at_block self block_number
  && active_at_timestamp (bsc_fork_activation self Feynman) timestamp.

Definition is_feynman_transition_at_timestamp self (block_number timestamp parent_timestamp : Z) : bool :=
  let parent_number := sat_sub64 block_number 1 in
  negb (is_feynman_active_at_timestamp self parent_number parent_timestamp)
  && is_feynman_active_at_timestamp self block_number timestamp.

Definition is_feynman_fix_active_at_timestamp self (block_number timestamp : Z) : bool :=
  is_london_active_at_block self block_number
  && active_at_timestamp (bsc_fork_activation self FeynmanFix) timestamp.

Definition is_feynman_fix_transition_at_timestamp self (block_number timestamp parent_timestamp : Z) : bool :=
  let parent_number := sat_sub64 block_number 1 in
  negb (is_feynman_fix_active_at_timestamp self parent_number parent_timestamp)
  && is_feynman_fix_active_at_timestamp self block_number timestamp.

Definition is_haber_active_at_timestamp self (block_number timestamp : Z) : bool :=
  is_london_active_at_block self block_number
  && active_at_timestamp (bsc_fork_activation self Haber) timestamp.

Definition is_haber_transition_at_timestamp self (block_number timestamp parent_timestamp : Z) : bool :=
  let parent_number := sat_sub64 block_number 1 in
  negb (is_haber_active_at_timestamp self parent_number parent_timestamp)
  && is_haber_active_at_timestamp self block_number timestamp.

Definition is_tycho_active_at_timestamp self (block_number timestamp : Z) : bool :=
  is_london_active_at_block self block_number
  && active_at_timestamp (bsc_fork_activation self Tycho) timestamp.

Definition is_tycho_transition_at_timestamp self (block_number timestamp parent_timestamp : Z) : bool :=
  let parent_number := sat_sub64 block_number 1 in
  negb (is_tycho_active_at_timestamp self parent_number parent_timestamp)
  && is_tycho_active_at_timestamp self block_number timestamp.

Definition is_haber_fix_active_at_timestamp self (block_number timestamp : Z) : bool :=
  is_london_active_at_block self block_number
  && active_at_timestamp (bsc_fork_activation self HaberFix) timestamp.

Definition is_haber_fix_transition_at_timestamp self (block_number timestamp parent_timestamp : Z) : bool :=
  let parent_number := sat_sub64 block_number 1 in
  negb (is_haber_fix_active_at_timestamp self parent_number parent_timestamp)
  && is_haber_fix_active_at_timestamp self block_number timestamp.

Definition is_cancun_active_at_timestamp self (block_number timestamp : Z) : bool :=
  is_london_active_at_block self block_number
  && active_at_timestamp (bsc_fork_activation self Cancun) timestamp.

Definition is_cancun_transition_at_timestamp self (block_number timestamp parent_timestamp : Z) : bool :=
  let parent_number := sat_sub64 block_number 1 in
  negb (is_cancun_active_at_timestamp self parent_number parent_timestamp)
  && is_cancun_active_at_timestamp self block_number timestamp.

Definition is_bohr_active_at_timestamp self (block_number timestamp : Z) : bool :=
  is_london_active_at_block self block_number
  && active_at_timestamp (bsc_fork_activation self Bohr) timestamp.

Definition is_bohr_transition_at_timestamp self (block_number timestamp parent_timestamp : Z) : bool :=
  let parent_number := sat_sub64 block_number 1 in
  negb (is_bohr_active_at_timestamp self parent_number parent_timestamp)
  && is_bohr_active_at_timestamp self block_number timestamp.

Definition is_prague_active_at_block_and_timestamp self (block_number timestamp : Z) : bool :=
  is_london_active_at_block self block_number && is_prague_active_at_timestamp self timestamp.

Definition is_prague_transition_at_block_and_timestamp self (block_number timestamp parent_timestamp : Z) : bool :=
  let parent_number := sat_sub64 block_number 1 in
  is_prague_active_at_block_and_timestamp self block_number timestamp
  && negb (is_prague_active_at_block_and_timestamp self parent_number parent_timestamp).

Definition is_pascal_active_at_timestamp self (block_number timestamp : Z) : bool :=
  is_london_active_at_block self block_number
  && active_at_timestamp (bsc_fork_activation self Pascal) timestamp.

Definition is_pascal_transition_at_timestamp self (block_number timestamp parent_timestamp : Z) : bool :=
  let parent_number := sat_sub64 block_number 1 in
  negb (is_pascal_active_at_timestamp self parent_number parent_timestamp)
  && is_pascal_active_at_timestamp self block_number timestamp.

Definition is_lorentz_active_at_timestamp self (block_number timestamp : Z) : bool :=
  is_london_active_at_block self block_number
  && active_at_timestamp (bsc_fork_activation self Lorentz) timestamp.

Definition is_lorentz_transition_at_timestamp self (block_number timestamp parent_timestamp : Z) : bool :=
  let parent_number := sat_sub64 block_number 1 in
  negb (is_lorentz_active_at_timestamp self parent_number parent_timestamp)
  && is_lorentz_active_at_timestamp self block_number timestamp.

Definition is_maxwell_active_at_timestamp self (block_number timestamp : Z) : bool :=
  is_london_active_at_block self block_number
  && active_at_timestamp (bsc_fork_activation self Maxwell) timestamp.

Definition is_maxwell_transition_at_timestamp self (block_number timestamp parent_timestamp : Z) : bool :=
  let parent_number := sat_sub64 block_number 1 in
  negb (is_maxwell_active_at_timestamp self parent_number parent_timestamp)
  && is_maxwell_active_at_timestamp self block_number timestamp.

Definition is_fermi_active_at_timestamp self (block_number timestamp : Z) : bool :=
  is_london_active_at_block self block_number
  && active_at_timestamp (bsc_fork_activation self Fermi) timestamp.

Definition is_fermi_transition_at_timestamp self (block_number timestamp parent_timestamp : Z) : bool :=
  let parent_number := sat_sub64 block_number 1 in
  negb (is_fermi_active_at_timestamp self parent_number parent_timestamp)
  && is_fermi_active_at_timestamp self block_number timestamp.

Definition is_osaka_active_at_timestamp self (block_number timestamp : Z) : bool :=
  is_london_active_at_block self block_number
  && active_at_timestamp (bsc_fork_activation self Osaka) timestamp.

Definition is_osaka_transition_at_timestamp self (block_number timestamp parent_timestamp : Z) : bool :=
  let parent_number := sat_sub64 block_number 1 in
  negb (is_osaka_active_at_timestamp self parent_number parent_timestamp)
  && is_osaka_active_at_timestamp self block_number timestamp.

Definition is_mendel_active_at_timestamp self (block_number timestamp : Z) : bool :=
  is_london_active_at_block self block_number
  && active_at_timestamp (bsc_fork_activation self Mendel) timestamp.

Definition is_mendel_transition_at_timestamp self (block_number timestamp parent_timestamp : Z) : bool :=
  let parent_number := sat_sub64 block_number 1 in
  negb (is_mendel_active_at_timestamp self parent_number parent_timestamp)
  && is_mendel_active_at_timestamp self block_number timestamp.

Definition is_pasteur_active_at_timestamp self (block_number timestamp : Z) : bool :=
  is_london_active_at_block self block_number
  && active_at_timestamp (bsc_fork_activation self Pasteur) timestamp.

Definition is_pasteur_transition_at_timestamp self (block_number timestamp parent_timestamp : Z) : bool :=
  let parent_number := sat_sub64 block_number 1 in
  negb (is_pasteur_active_at_timestamp self parent_number parent_timestamp)
  && is_pasteur_active_at_timestamp self block_number timestamp.

Definition is_jenner_active_at_timestamp self (block_number timestamp : Z) : bool :=
  is_london_active_at_block self block_number
  && active_at_timestamp (bsc_fork_activation self Jenner) timestamp.

Definition is_jenner_transition_at_timestamp self (block_number timestamp parent_timestamp : Z) : bool :=
  let parent_number := sat_sub64 block_number 1 in
  negb (is_jenner_active_at_timestamp self parent_number parent_timestamp)
  && is_jenner_active_at_timestamp self block_number timestamp.

End BscHardforks.

(** ** The fork in force at a block

    [revm_spec_by_timestamp_and_block_number] of [src/node/evm/config.rs]. *)

Section SpecSelection.
Context `{F : ForkConditionApi}.
Implicit Types (self : ChainSpec).

(** [Option<u64>] order: [None] is below every [Some]. *)
Definition opt_leb (a b : option Z) : bool :=
  match a, b with
  | None, _ => true
  | Some _, None => false
  | Some x, Some y => x <=? y
  end.

(** The block-scheduled forks whose order differs between networks, newest first. *)
Definition moran_nano_gibbs self : list (option Z * BscHardfork) :=
  sort_by (λ a b, opt_leb b.1 a.1)
    [ (as_block (bsc_fork_activation self Gibbs), Gibbs);
      (as_block (bsc_fork_activation self Moran), Moran);
      (as_block (bsc_fork_activation self Nano), Nano) ].

Definition revm_spec_by_timestamp_and_block_number self (timestamp block_number : Z)
    : BscHardfork :=
  if is_jenner_active_at_timestamp self block_number timestamp then Jenner
  else if is_pasteur_active_at_timestamp self block_number timestamp then Pasteur
  else if is_mendel_active_at_timestamp self block_number timestamp then Mendel
  else if is_osaka_active_at_timestamp self block_number timestamp then Osaka
  else if is_fermi_active_at_timestamp self block_number timestamp then Fermi
  else if is_maxwell_active_at_timestamp self block_number timestamp then Maxwell
  else if is_lorentz_active_at_timestamp self block_number timestamp then Lorentz
  else if is_pascal_active_at_timestamp self block_number timestamp then Pascal
  else if is_bohr_active_at_timestamp self block_number timestamp then Bohr
  else if is_haber_fix_active_at_timestamp self block_number timestamp then HaberFix
  else if is_haber_active_at_timestamp self block_number timestamp then Haber
  else if is_cancun_active_at_timestamp self block_number timestamp then Cancun
  else if is_feynman_fix_active_at_timestamp self block_number timestamp then FeynmanFix
  else if is_feynman_active_at_timestamp self block_number timestamp then Feynman
  else if is_kepler_active_at_timestamp self block_number timestamp then Kepler
  else if is_hertz_fix_active_at_block self block_number then HertzFix
  else if is_hertz_active_at_block self block_number then Hertz
  else if is_plato_active_at_block self block_number then Plato
  else if is_luban_active_at_block self block_number then Luban
  else if is_planck_active_at_block self block_number then Planck
  else
    match find (λ p, active_at_block (bsc_fork_activation self p.2) block_number)
               (moran_nano_gibbs self) with
    | Some (_, fork) => fork
    | None =>
        if is_euler_active_at_block self block_number then Euler
        else if is_bruno_active_at_block self block_number then Bruno
        else if is_mirror_sync_active_at_block self block_number then MirrorSync
        else if is_niels_active_at_block self block_number then Niels
        else if is_ramanujan_active_at_block self block_number then Ramanujan
        else Frontier
    end.

(** The activation test the trait has for each fork. *)
Definition fork_active self (f : BscHardfork) (n t : Z) : bool :=
  match f with
  | Frontier => true
  | Ramanujan => is_ramanujan_active_at_block self n
  | Niels => is_niels_active_at_block self n
  | MirrorSync => is_mirror_sync_active_at_block self n
  | Bruno => is_bruno_active_at_block self n
  | Euler => is_euler_active_at_block self n
  | Nano => is_nano_active_at_block self n
  | Moran => is_moran_active_at_block self n
  | Gibbs => is_gibbs_active_at_block self n
  | Planck => is_planck_active_at_block self n
  | Luban => is_luban_active_at_block self n
  | Plato => is_plato_active_at_block self n
  | Hertz => is_hertz_active_at_block self n
  | HertzFix => is_hertz_fix_active_at_block self n
  | Kepler => is_kepler_active_at_timestamp self n t
  | Feynman => is_feynman_active_at_timestamp self n t
  | FeynmanFix => is_feynman_fix_active_at_timestamp self n t
  | Cancun => is_cancun_active_at_timestamp self n t
  | Haber => is_haber_active_at_timestamp self n t
  | HaberFix => is_haber_fix_active_at_timestamp self n t
  | Bohr => is_bohr_active_at_timestamp self n t
  | Tycho => is_tycho_active_at_timestamp self n t
  | Pascal => is_pascal_active_at_timestamp self n t
  | Lorentz => is_lorentz_active_at_timestamp self n t
  | Maxwell => is_maxwell_active_at_timestamp self n t
  | Fermi => is_fermi_active_at_timestamp self n t
  | Osaka => is_osaka_active_at_timestamp self n t
  | Mendel => is_mendel_active_at_timestamp self n t
  | Pasteur => is_pasteur_active_at_timestamp self n t
  | Jenner => is_jenner_active_at_timestamp self n t
  end.

(** The order the selection follows: declaration order, except that Nano, Moran
    and Gibbs are ordered by their activation block. *)
Definition block_ordered (f : BscHardfork) : bool :=
  match f with Nano | Moran | Gibbs => true | _ => false end.

Definition precedes self (f g : BscHardfork) : bool :=
  if block_ordered f && block_ordered g
  then opt_leb (as_block (bsc_fork_activation self f)) (as_block (bsc_fork_activation self g))
  else fork_rank f <=? fork_rank g.

(** The transition test the trait has for each timestamp-scheduled fork. *)
Definition ts_fork_transition self (f : BscHardfork) (n t parent_t : Z) : option bool :=
  match f with
  | Kepler => Some (is_kepler_transition_at_timestamp self n t parent_t)
  | Feynman => Some (is_feynman_transition_at_timestamp self n t parent_t)
  | FeynmanFix => Some (is_feynman_fix_transition_at_timestamp self n t parent_t)
  | Cancun => Some (is_cancun_transition_at_timestamp self n t parent_t)
  | Haber => Some (is_haber_transition_at_timestamp self n t parent_t)
  | HaberFix => Some (is_haber_fix_transition_at_timestamp self n t parent_t)
  | Bohr => Some (is_bohr_transition_at_timestamp self n t parent_t)
  | Tycho => Some (is_tycho_transition_at_timestamp self n t parent_t)
  | Pascal => Some (is_pascal_transition_at_timestamp self n t parent_t)
  | Lorentz => Some (is_lorentz_transition_at_timestamp self n t parent_t)
  | Maxwell => Some (is_maxwell_transition_at_timestamp self n t parent_t)
  | Fermi => Some (is_fermi_transition_at_timestamp self n t parent_t)
  | Osaka => Some (is_osaka_transition_at_timestamp self n t parent_t)
  | Mendel => Some (is_mendel_transition_at_timestamp self n t parent_t)
  | Pasteur => Some (is_pasteur_transition_at_timestamp self n t parent_t)
  | Jenner => Some (is_jenner_transition_at_timestamp self n t parent_t)
  | _ => None
  end.

(** *** Lemmas *)

Lemma opt_leb_total a b : opt_leb a b = true ∨ opt_leb b a = true.
Proof. destruct a, b; simpl; lia. Qed.

Lemma opt_leb_trans a b c : opt_leb a b = true → opt_leb b c = true → opt_leb a c = true.
Proof. destruct a, b, c; simpl; (lia || congruence). Qed.

Lemma opt_leb_refl a : opt_leb a a = true.
Proof. destruct a; simpl; lia. Qed.

Lemma precedes_refl self f : precedes self f f = true.
Proof.
  unfold precedes. destruct (_ && _); [apply opt_leb_refl | apply Z.leb_refl].
Qed.

(** The first match in a list sorted newest-first is the newest match. *)
Lemma find_newest {A} (key : A → option Z) (P : A → bool) l x :
  StronglySorted (λ a b, opt_leb (key b) (key a) = true) l →
  find P l = Some x →
  P x = true ∧ x ∈ l ∧ ∀ y, y ∈ l → P y = true → opt_leb (key y) (key x) = true.
Proof.
  induction 1 as [|a l Hl IH Ha]; simpl; [done|].
  destruct (P a) eqn:Pa; intros Hx.
  - injection Hx as ->. split; [done|]. split; [apply list_elem_of_here|].
    intros y [->|Hy]%elem_of_cons _; [apply opt_leb_refl|].
    rewrite Forall_forall in Ha. by apply Ha.
  - destruct (IH Hx) as (? & ? & Hmax). split; [done|].
    split; [by apply list_elem_of_further|].
    intros y [->|Hy]%elem_of_cons; [congruence|]. by apply Hmax.
Qed.

Lemma moran_nano_gibbs_sorted self :
  StronglySorted (λ a b, opt_leb b.1 a.1 = true) (moran_nano_gibbs self).
Proof.
  apply sort_by_sorted.
  - intros x y. apply opt_leb_total.
  - intros x y z H1 H2. by eapply opt_leb_trans.
Qed.

Lemma moran_nano_gibbs_elem self o f :
  (o, f) ∈ moran_nano_gibbs self ↔
  block_ordered f = true ∧ o = as_block (bsc_fork_activation self f).
Proof.
  unfold moran_nano_gibbs. rewrite sort_by_perm.
  rewrite !elem_of_cons, elem_of_nil. split.
  - intros [E|[E|[E|[]]]]; injection E as -> ->; done.
  - intros [Hf ->]. destruct f; try discriminate Hf; auto.
Qed.

Lemma moran_nano_gibbs_find self n o f :
  find (λ p, active_at_block (bsc_fork_activation self p.2) n) (moran_nano_gibbs self)
    = Some (o, f) →
  block_ordered f = true ∧ active_at_block (bsc_fork_activation self f) n = true ∧
  ∀ g, block_ordered g = true → active_at_block (bsc_fork_activation self g) n = true →
       precedes self g f = true.
Proof.
  intros Hfind. apply (find_newest fst) in Hfind as (Hact & Hin & Hmax);
    [|apply moran_nano_gibbs_sorted].
  apply moran_nano_gibbs_elem in Hin as [Hf ->]. split; [done|]. split; [done|].
  intros g Hg Hgact. unfold precedes. rewrite Hf, Hg. simpl.
  apply (Hmax (as_block (bsc_fork_activation self g), g)); [|done].
  by apply moran_nano_gibbs_elem.
Qed.

Lemma moran_nano_gibbs_none self n :
  find (λ p, active_at_block (bsc_fork_activation self p.2) n) (moran_nano_gibbs self) = None →
  ∀ g, block_ordered g = true → active_at_block (bsc_fork_activation self g) n = false.
Proof.
  intros Hnone g Hg.
  apply (find_none _ _ Hnone (as_block (bsc_fork_activation self g), g)).
  apply list_elem_of_In. by apply moran_nano_gibbs_elem.
Qed.

End SpecSelection.

(** ** Properties *)

Section ForkProperties.
Context `{FL : !ForkConditionLaws F}.
Implicit Types (self : ChainSpec).

(** One test of the selection cascade: it succeeds, or the fork is inactive. *)
Ltac cascade :=
  match goal with
  | |- context [if ?b then _ else _] =>
      let E := fresh "E" in destruct b eqn:E; [split; [exact E|]|]
  end.

(** The fork is declared earlier, is Tycho, or failed its test. *)
Ltac clash Hf :=
  solve [ match goal with
          | H1 : ?b = false, H2 : ?b = true |- _ => rewrite H1 in H2; discriminate H2
          end
        | exact eq_refl
        | destruct Hf; reflexivity ].

(** Every other active fork is declared earlier, or contradicts a failed test. *)
Ltac latest :=
  let f := fresh "f" in let Hf := fresh in let Hact := fresh in
  intros f Hf Hact; destruct f; cbn [fork_active] in Hact; clash Hf.

Lemma revm_latest_active self t n :
  let r := revm_spec_by_timestamp_and_block_number self t n in
  fork_active self r n t = true ∧
  ∀ f, f ≠ Tycho → fork_active self f n t = true → precedes self f r = true.
Proof.
  intros r. subst r. unfold revm_spec_by_timestamp_and_block_number.
  do 20 (cascade; [latest|]).
  destruct (find _ _) as [[o fork]|] eqn:Efind.
  - apply moran_nano_gibbs_find in Efind as (Hb & Hact & Hmax).
    split; [by destruct fork; try discriminate Hb|].
    intros f Hf Hfact. destruct (block_ordered f) eqn:Hbf.
    + apply Hmax; [done|]. by destruct f; try discriminate Hbf.
    + unfold precedes. rewrite Hbf. simpl.
      destruct fork; try discriminate Hb; destruct f; try discriminate Hbf;
        cbn [fork_active] in Hfact; clash Hf.
  - pose proof (moran_nano_gibbs_none _ _ Efind) as Hnone.
    pose proof (Hnone Nano eq_refl : is_nano_active_at_block self n = false).
    pose proof (Hnone Moran eq_refl : is_moran_active_at_block self n = false).
    pose proof (Hnone Gibbs eq_refl : is_gibbs_active_at_block self n = false).
    clear Hnone Efind.
    repeat (cascade; [latest|]). split; [done|]. latest.
Qed.

(** The fork the EVM runs under is active at the block, and every fork the
    selection knows (all but Tycho, which has no rule set of its own) that is
    active at the block comes no later in the selection order. *)
Theorem revm_spec_is_latest_active self t n :
  let r := revm_spec_by_timestamp_and_block_number self t n in
  fork_active self r n t = true ∧
  ∀ f, f ≠ Tycho → fork_active self f n t = true → precedes self f r = true.
Proof. apply revm_latest_active. Qed.

(** London is scheduled by block, so once active it stays active. *)
Definition london_monotone self : Prop := ∀ n n',
  n <= n' → is_london_active_at_block self n = true → is_london_active_at_block self n' = true.

Lemma fork_active_mono self f n n' t t' :
  london_monotone self → n <= n' → t <= t' →
  fork_active self f n t = true → fork_active self f n' t' = true.
Proof.
  intros HL Hn Ht. destruct f; cbn [fork_active]; try done;
    try (intros [H1 H2]%andb_true_iff; apply andb_true_iff; split;
         [by eapply HL | by eapply active_at_timestamp_mono]);
    by apply active_at_block_mono.
Qed.

Lemma spec_id_monotone self f g :
  precedes self f g = true → spec_rank (spec_id_from f) <= spec_rank (spec_id_from g).
Proof.
  unfold precedes. destruct (block_ordered f && block_ordered g) eqn:Hb.
  - intros _. apply andb_true_iff in Hb as [Hf Hg].
    destruct f; try discriminate Hf; destruct g; try discriminate Hg; vm_compute; discriminate.
  - intros H%Z.leb_le. destruct f, g; vm_compute; first [discriminate | by vm_compute in H].
Qed.

Lemma revm_spec_not_tycho self t n :
  revm_spec_by_timestamp_and_block_number self t n ≠ Tycho.
Proof.
  unfold revm_spec_by_timestamp_and_block_number.
  repeat (case_if; [discriminate|]).
  destruct (find _ _) as [[o fork]|] eqn:Efind.
  - apply moran_nano_gibbs_find in Efind as (Hb & _). by intros ->.
  - repeat (case_if; [discriminate|]). discriminate.
Qed.

(** The EVM rule set never goes back along a chain: with block number and
    timestamp both non-decreasing, the [SpecId] selected for the later block is
    the same or newer. *)
Theorem evm_spec_never_regresses self n n' t t' :
  london_monotone self → n <= n' → t <= t' →
  spec_rank (spec_id_from (revm_spec_by_timestamp_and_block_number self t n)) <=
  spec_rank (spec_id_from (revm_spec_by_timestamp_and_block_number self t' n')).
Proof.
  intros HL Hn Ht. apply (spec_id_monotone self).
  destruct (revm_latest_active self t n) as [Hact _].
  destruct (revm_latest_active self t' n') as [_ Hmax].
  apply Hmax; [apply revm_spec_not_tycho|]. by eapply fork_active_mono.
Qed.

Lemma ts_fork_transition_spec self f n t p :
  ts_fork_transition self f n t p =
  if bool_decide (fork_rank Kepler <= fork_rank f)
  then Some (negb (fork_active self f (sat_sub64 n 1) p) && fork_active self f n t)
  else None.
Proof. by destruct f. Qed.

(** A timestamp fork transitions at most once on a chain: after the block
    where the trait reports the transition, no later block (whose parent is at
    or after that block) reports it again. *)
Theorem fork_transitions_once self f n1 t1 p1 n2 t2 p2 :
  london_monotone self → 0 <= n1 < n2 → t1 <= p2 →
  ts_fork_transition self f n1 t1 p1 = Some true →
  ts_fork_transition self f n2 t2 p2 = Some false.
Proof.
  intros HL Hn Ht. rewrite !ts_fork_transition_spec. case_bool_decide; [|done].
  intros [= [_ Hact]%andb_true_iff]. f_equal. apply andb_false_iff. left.
  apply negb_false_iff. eapply fork_active_mono; [done| |done|done].
  unfold sat_sub64. lia.
Qed.

End ForkProperties.

(** ** A concrete instance: thresholds, and the network schedules as specs *)

Module ThresholdForks.

Inductive condition : Set := AtBlock (n : Z) | AtTime (t : Z) | Never.

#[export] Instance threshold_api : ForkConditionApi := {|
  ForkCondition := condition;
  Block := AtBlock;
  Timestamp := AtTime;
  active_at_block c b := match c with AtBlock n => n <=? b | _ => false end;
  active_at_timestamp c s := match c with AtTime t => t <=? s | _ => false end;
  transitions_at_block c b := match c with AtBlock n => b =? n | _ => false end;
  as_block c := match c with AtBlock n => Some n | _ => None end;
|}.

#[export] Instance threshold_laws : ForkConditionLaws threshold_api.
Proof.
  split; simpl; try done.
  - intros c t t'. destruct c; simpl; (done || lia).
  - intros c n n'. destruct c; simpl; (done || lia).
Qed.

Definition lookup_fork (l : list (AnyFork * condition)) (f : AnyFork) : condition :=
  match find (λ p, bool_decide (p.1 = f)) l with Some (_, c) => c | None => Never end.

Definition spec_of (l : list (AnyFork * condition)) (id : Z) : ChainSpec := {|
  bsc_fork_activation f := lookup_fork l (BscFork f);
  is_london_active_at_block b := active_at_block (lookup_fork l (EthFork EthLondon)) b;
  is_prague_active_at_timestamp t := active_at_timestamp (lookup_fork l (EthFork EthPrague)) t;
  chain_id := id;
|}.

Definition mainnet : ChainSpec := spec_of bsc_mainnet 56.
Definition chapel : ChainSpec := spec_of bsc_testnet 97.

Lemma spec_of_london_monotone l id : london_monotone (spec_of l id).
Proof. intros n n' Hn. cbn [is_london_active_at_block spec_of]. by apply active_at_block_mono. Qed.

End ThresholdForks.

Section ForkWitnesses.
Import ThresholdForks.

(** Mainnet goes from Shanghai rules (block 38,000,000) to Osaka rules. *)
Lemma evm_spec_never_regresses_witness :
  revm_spec_by_timestamp_and_block_number mainnet 1713419339 38000000 = Kepler ∧
  revm_spec_by_timestamp_and_block_number mainnet 1777343400 90000000 = Mendel ∧
  spec_rank (spec_id_from (revm_spec_by_timestamp_and_block_number mainnet 1713419339 38000000)) <=
  spec_rank (spec_id_from (revm_spec_by_timestamp_and_block_number mainnet 1777343400 90000000)).
Proof.
  split; [reflexivity|]. split; [reflexivity|].
  apply (evm_spec_never_regresses mainnet 38000000 90000000 1713419339 1777343400);
    [apply spec_of_london_monotone | lia | lia].
Defined.

(** The Lorentz transition on mainnet is reported once. *)
Lemma fork_transitions_once_witness :
  ts_fork_transition mainnet Lorentz 48773576 1745903100 1745903097 = Some true ∧
  ts_fork_transition mainnet Lorentz 48773577 1745903102 1745903100 = Some false.
Proof.
  split; [reflexivity|].
  apply (fork_transitions_once mainnet Lorentz 48773576 1745903100 1745903097);
    [apply spec_of_london_monotone | lia | lia | reflexivity].
Defined.

End ForkWitnesses.
