(* ===== verification/GoRng.v ===== *)
(** * GoRng: the port of Go's additive lagged Fibonacci generator

    Models [src/consensus/parlia/go_rng.rs], the generator that decides the
    back-off order of the validators: every client must draw the same numbers, so
    the table, the seeding, the generator and the Fisher-Yates shuffle are
    translated number for number.  [i64] values are signed [Z]s, re-wrapped with
    [to_signed 64] after every operation that can leave the range.

    The rejection loops of [int31n] and [int63n] take fuel: [None] means the fuel
    ran out before a draw was accepted. *)

From stdpp Require Import base tactics numbers option list sorting.
From Stdlib Require Import ZArith Lia Bool Znumtheory Zpow_facts.
From S2P Require Import Prelude.

Definition RNG_LEN : Z := 607.
Definition RNG_TAP : Z := 273.
Definition RNG_MAX : Z := 2 ^ 63.
Definition RNG_MASK : Z := RNG_MAX - 1.
Definition INT32_MAX : Z := 2 ^ 31 - 1.

(** The additive table used for seeding. *)

Definition RNG_COOKED_0 : list Z :=
  [ -4181792142133755926;
    -4576982950128230565;
    1395769623340756751;
    5333664234075297259;
    -6347679516498800754;
    9033628115061424579;
    7143218595135194537;
    4812947590706362721;
    7937252194349799378;
    5307299880338848416;
    8209348851763925077;
    -7107630437535961764;
    4593015457530856296;
    8140875735541888011;
    -5903942795589686782;
    -603556388664454774;
    -7496297993371156308;
    113108499721038619;
    4569519971459345583;
    -4160538177779461077;
    -6835753265595711384;
    -6507240692498089696;
    6559392774825876886;
    7650093201692370310;
    7684323884043752161;
    -8965504200858744418;
    -2629915517445760644;
    271327514973697897;
    -6433985589514657524;
    1065192797246149621;
    3344507881999356393;
    -4763574095074709175;
    7465081662728599889;
    1014950805555097187;
    -4773931307508785033;
    -5742262670416273165;
    2418672789110888383;
    5796562887576294778;
    4484266064449540171;
    3738982361971787048;
    -4699774852342421385;
    10530508058128498;
    -589538253572429690;
    -6598062107225984180;
    8660405965245884302;
    10162832508971942;
    -2682657355892958417;
    7031802312784620857;
    6240911277345944669;
    831864355460801054;
    -1218937899312622917;
    2116287251661052151;
    2202309800992166967;
    9161020366945053561;
    4069299552407763864;
    4936383537992622449;
    457351505131524928;
    -8881176990926596454;
    -6375600354038175299;
    -7155351920868399290;
    4368649989588021065;
    887231587095185257;
    -3659780529968199312;
    -2407146836602825512;
    5616972787034086048;
    -751562733459939242;
    1686575021641186857;
    -5177887698780513806;
    -4979215821652996885;
    -1375154703071198421;
    5632136521049761902;
    -8390088894796940536;
    -193645528485698615;
    -5979788902190688516;
    -4907000935050298721;
    -285522056888777828;
    -2776431630044341707;
    1679342092332374735;
    6050638460742422078;
    -2229851317345194226;
    -1582494184340482199;
    5881353426285907985;
    812786550756860885;
    4541845584483343330;
    -6497901820577766722;
    4980675660146853729;
    -4012602956251539747;
    -329088717864244987;
    -2896929232104691526;
    1495812843684243920;
    -2153620458055647789;
    7370257291860230865;
    -2466442761497833547;
    4706794511633873654;
    -1398851569026877145;
    8549875090542453214;
    -9189721207376179652;
    -7894453601103453165;
    7297902601803624459;
    1011190183918857495;
    -6985347000036920864;
    5147159997473910359;
    -8326859945294252826;
    2659470849286379941;
    6097729358393448602;
    -7491646050550022124;
    -5117116194870963097;
    -896216826133240300;
    -745860416168701406;
    5803876044675762232;
    -787954255994554146;
    -3234519180203704564;
    -4507534739750823898;
    -1657200065590290694;
    505808562678895611;
    -4153273856159712438;
    -8381261370078904295;
    572156825025677802;
    1791881013492340891;
    3393267094866038768;
    -5444650186382539299;
    2352769483186201278;
    -7930912453007408350;
    -325464993179687389;
    -3441562999710612272;
    -6489413242825283295;
    5092019688680754699;
    -227247482082248967;
    4234737173186232084;
    5027558287275472836;
    4635198586344772304;
    -536033143587636457;
    5907508150730407386;
    -8438615781380831356;
    972392927514829904;
    -3801314342046600696;
    -4064951393885491917;
    -174840358296132583;
    2407211146698877100;
    -1640089820333676239;
    3940796514530962282;
    -5882197405809569433;
    3095313889586102949;
    -1818050141166537098;
    5832080132947175283;
    7890064875145919662;
    8184139210799583195;
    -8073512175445549678;
    -7758774793014564506;
    -4581724029666783935 ].

Definition RNG_COOKED_1 : list Z :=
  [ 3516491885471466898;
    -8267083515063118116;
    6657089965014657519;
    5220884358887979358;
    1796677326474620641;
    5340761970648932916;
    1147977171614181568;
    5066037465548252321;
    2574765911837859848;
    1085848279845204775;
    -5873264506986385449;
    6116438694366558490;
    2107701075971293812;
    -7420077970933506541;
    2469478054175558874;
    -1855128755834809824;
    -5431463669011098282;
    -9038325065738319171;
    -6966276280341336160;
    7217693971077460129;
    -8314322083775271549;
    7196649268545224266;
    -3585711691453906209;
    -5267827091426810625;
    8057528650917418961;
    -5084103596553648165;
    -2601445448341207749;
    -7850010900052094367;
    6527366231383600011;
    3507654575162700890;
    9202058512774729859;
    1954818376891585542;
    -2582991129724600103;
    8299563319178235687;
    -5321504681635821435;
    7046310742295574065;
    -2376176645520785576;
    -7650733936335907755;
    8850422670118399721;
    3631909142291992901;
    5158881091950831288;
    -6340413719511654215;
    4763258931815816403;
    6280052734341785344;
    -4979582628649810958;
    2043464728020827976;
    -2678071570832690343;
    4562580375758598164;
    5495451168795427352;
    -7485059175264624713;
    553004618757816492;
    6895160632757959823;
    -989748114590090637;
    7139506338801360852;
    -672480814466784139;
    5535668688139305547;
    2430933853350256242;
    -3821430778991574732;
    -1063731997747047009;
    -3065878205254005442;
    7632066283658143750;
    6308328381617103346;
    3681878764086140361;
    3289686137190109749;
    6587997200611086848;
    244714774258135476;
    -5143583659437639708;
    8090302575944624335;
    2945117363431356361;
    -8359047641006034763;
    3009039260312620700;
    -793344576772241777;
    401084700045993341;
    -1968749590416080887;
    4707864159563588614;
    -3583123505891281857;
    -3240864324164777915;
    -5908273794572565703;
    -3719524458082857382;
    -5281400669679581926;
    8118566580304798074;
    3839261274019871296;
    7062410411742090847;
    -8481991033874568140;
    6027994129690250817;
    -6725542042704711878;
    -2971981702428546974;
    -7854441788951256975;
    8809096399316380241;
    6492004350391900708;
    2462145737463489636;
    -8818543617934476634;
    -5070345602623085213;
    -8961586321599299868;
    -3758656652254704451;
    -8630661632476012791;
    6764129236657751224;
    -709716318315418359;
    -3403028373052861600;
    -8838073512170985897;
    -3999237033416576341;
    -2920240395515973663;
    -2073249475545404416;
    368107899140673753;
    -6108185202296464250;
    -6307735683270494757;
    4782583894627718279;
    6718292300699989587;
    8387085186914375220;
    3387513132024756289;
    4654329375432538231;
    -292704475491394206;
    -3848998599978456535;
    7623042350483453954;
    7725442901813263321;
    9186225467561587250;
    -5132344747257272453;
    -6865740430362196008;
    2530936820058611833;
    1636551876240043639;
    -3658707362519810009;
    1452244145334316253;
    -7161729655835084979;
    -7943791770359481772;
    9108481583171221009;
    -3200093350120725999;
    5007630032676973346;
    2153168792952589781;
    6720334534964750538;
    -3181825545719981703;
    3433922409283786309;
    2285479922797300912;
    3110614940896576130;
    -2856812446131932915;
    -3804580617188639299;
    7163298419643543757;
    4891138053923696990;
    580618510277907015;
    1684034065251686769;
    4429514767357295841;
    -8893025458299325803;
    -8103734041042601133;
    7177515271653460134;
    4589042248470800257;
    -1530083407795771245;
    143607045258444228;
    246994305896273627;
    -8356954712051676521;
    6473547110565816071;
    3092379936208876896 ].

Definition RNG_COOKED_2 : list Z :=
  [ 2058427839513754051;
    -4089587328327907870;
    8785882556301281247;
    -3074039370013608197;
    -637529855400303673;
    6137678347805511274;
    -7152924852417805802;
    5708223427705576541;
    -3223714144396531304;
    4358391411789012426;
    325123008708389849;
    6837621693887290924;
    4843721905315627004;
    -3212720814705499393;
    -3825019837890901156;
    4602025990114250980;
    1044646352569048800;
    9106614159853161675;
    -8394115921626182539;
    -4304087667751778808;
    2681532557646850893;
    3681559472488511871;
    -3915372517896561773;
    -2889241648411946534;
    -6564663803938238204;
    -8060058171802589521;
    581945337509520675;
    3648778920718647903;
    -4799698790548231394;
    -7602572252857820065;
    220828013409515943;
    -1072987336855386047;
    4287360518296753003;
    -4633371852008891965;
    5513660857261085186;
    -2258542936462001533;
    -8744380348503999773;
    8746140185685648781;
    228500091334420247;
    1356187007457302238;
    3019253992034194581;
    3152601605678500003;
    -8793219284148773595;
    5559581553696971176;
    4916432985369275664;
    -8559797105120221417;
    -5802598197927043732;
    2868348622579915573;
    -7224052902810357288;
    -5894682518218493085;
    2587672709781371173;
    -7706116723325376475;
    3092343956317362483;
    -5561119517847711700;
    972445599196498113;
    -1558506600978816441;
    1708913533482282562;
    -2305554874185907314;
    -6005743014309462908;
    -6653329009633068701;
    -483583197311151195;
    2488075924621352812;
    -4529369641467339140;
    -4663743555056261452;
    2997203966153298104;
    1282559373026354493;
    240113143146674385;
    8665713329246516443;
    628141331766346752;
    -4651421219668005332;
    -7750560848702540400;
    7596648026010355826;
    -3132152619100351065;
    7834161864828164065;
    7103445518877254909;
    4390861237357459201;
    -4780718172614204074;
    -319889632007444440;
    622261699494173647;
    -3186110786557562560;
    -8718967088789066690;
    -1948156510637662747;
    -8212195255998774408;
    -7028621931231314745;
    2623071828615234808;
    -4066058308780939700;
    -5484966924888173764;
    -6683604512778046238;
    -6756087640505506466;
    5256026990536851868;
    7841086888628396109;
    6640857538655893162;
    -8021284697816458310;
    -7109857044414059830;
    -1689021141511844405;
    -4298087301956291063;
    -4077748265377282003;
    -998231156719803476;
    2719520354384050532;
    9132346697815513771;
    4332154495710163773;
    -2085582442760428892;
    6994721091344268833;
    -2556143461985726874;
    -8567931991128098309;
    59934747298466858;
    -3098398008776739403;
    -265597256199410390;
    2332206071942466437;
    -7522315324568406181;
    3154897383618636503;
    -7585605855467168281;
    -6762850759087199275;
    197309393502684135;
    -8579694182469508493;
    2543179307861934850;
    4350769010207485119;
    -4468719947444108136;
    -7207776534213261296;
    -1224312577878317200;
    4287946071480840813;
    8362686366770308971;
    6486469209321732151;
    -5605644191012979782;
    -1669018511020473564;
    4450022655153542367;
    -7618176296641240059;
    -3896357471549267421;
    -4596796223304447488;
    -6531150016257070659;
    -8982326463137525940;
    -4125325062227681798;
    -1306489741394045544;
    -8338554946557245229;
    5329160409530630596;
    7790979528857726136;
    4955070238059373407;
    -4304834761432101506;
    -6215295852904371179;
    3007769226071157901;
    -6753025801236972788;
    8928702772696731736;
    7856187920214445904;
    -4748497451462800923;
    7900176660600710914;
    -7082800908938549136;
    -6797926979589575837;
    -6737316883512927978;
    4186670094382025798;
    1883939007446035042 ].

Definition RNG_COOKED_3 : list Z :=
  [ -414705992779907823;
    3734134241178479257;
    4065968871360089196;
    6953124200385847784;
    -7917685222115876751;
    -7585632937840318161;
    -5567246375906782599;
    -5256612402221608788;
    3106378204088556331;
    -2894472214076325998;
    4565385105440252958;
    1979884289539493806;
    -6891578849933910383;
    3783206694208922581;
    8464961209802336085;
    2843963751609577687;
    3030678195484896323;
    -4429654462759003204;
    4459239494808162889;
    402587895800087237;
    8057891408711167515;
    4541888170938985079;
    1042662272908816815;
    -3666068979732206850;
    2647678726283249984;
    2144477441549833761;
    -3417019821499388721;
    -2105601033380872185;
    5916597177708541638;
    -8760774321402454447;
    8833658097025758785;
    5970273481425315300;
    563813119381731307;
    -6455022486202078793;
    1598828206250873866;
    -4016978389451217698;
    -2988328551145513985;
    -6071154634840136312;
    8469693267274066490;
    125672920241807416;
    -3912292412830714870;
    -2559617104544284221;
    -486523741806024092;
    -4735332261862713930;
    5923302823487327109;
    -9082480245771672572;
    -1808429243461201518;
    7990420780896957397;
    4317817392807076702;
    3625184369705367340;
    -6482649271566653105;
    -3480272027152017464;
    -3225473396345736649;
    -368878695502291645;
    -3981164001421868007;
    -8522033136963788610;
    7609280429197514109;
    3020985755112334161;
    -2572049329799262942;
    2635195723621160615;
    5144520864246028816;
    -8188285521126945980;
    1567242097116389047;
    8172389260191636581;
    -2885551685425483535;
    -7060359469858316883;
    -6480181133964513127;
    -7317004403633452381;
    6011544915663598137;
    5932255307352610768;
    2241128460406315459;
    -8327867140638080220;
    3094483003111372717;
    4583857460292963101;
    9079887171656594975;
    -384082854924064405;
    -3460631649611717935;
    4225072055348026230;
    -7385151438465742745;
    3801620336801580414;
    -399845416774701952;
    -7446754431269675473;
    7899055018877642622;
    5421679761463003041;
    5521102963086275121;
    -4975092593295409910;
    8735487530905098534;
    -7462844945281082830;
    -2080886987197029914;
    -1000715163927557685;
    -4253840471931071485;
    -5828896094657903328;
    6424174453260338141;
    359248545074932887;
    -5949720754023045210;
    -2426265837057637212;
    3030918217665093212;
    -9077771202237461772;
    -3186796180789149575;
    740416251634527158;
    -2142944401404840226;
    6951781370868335478;
    399922722363687927;
    -8928469722407522623;
    -1378421100515597285;
    -8343051178220066766;
    -3030716356046100229;
    -8811767350470065420;
    9026808440365124461;
    6440783557497587732;
    4615674634722404292;
    539897290441580544;
    2096238225866883852;
    8751955639408182687;
    -7316147128802486205;
    7381039757301768559;
    6157238513393239656;
    -1473377804940618233;
    8629571604380892756;
    5280433031239081479;
    7101611890139813254;
    2479018537985767835;
    7169176924412769570;
    -1281305539061572506;
    -7865612307799218120;
    2278447439451174845;
    3625338785743880657;
    6477479539006708521;
    8976185375579272206;
    -3712000482142939688;
    1326024180520890843;
    7537449876596048829;
    5464680203499696154;
    3189671183162196045;
    6346751753565857109;
    -8982212049534145501;
    -6127578587196093755;
    -245039190118465649;
    -6320577374581628592;
    7208698530190629697;
    7276901792339343736;
    -7490986807540332668;
    4133292154170828382;
    2918308698224194548;
    -7703910638917631350;
    -3929437324238184044;
    -4300543082831323144;
    -6344160503358350167;
    5896236396443472108;
    -758328221503023383 ].

Definition RNG_COOKED_4 : list Z :=
  [ -1894351639983151068;
    -307900319840287220;
    -6278469401177312761;
    -2171292963361310674;
    8382142935188824023;
    9103922860780351547;
    4152330101494654406 ].

Definition RNG_COOKED : list Z :=
  RNG_COOKED_0 ++ RNG_COOKED_1 ++ RNG_COOKED_2 ++ RNG_COOKED_3 ++ RNG_COOKED_4.

(** ** Seeding *)

(** [i32] arithmetic; [/] and [%] truncate towards zero. *)
Definition seed_rand (x : Z) : Z :=
  let A := 48271 in
  let Q := 44488 in
  let R := 3399 in
  let hi := Z.quot x Q in
  let lo := Z.rem x Q in
  let x := to_signed 32 (A * lo - R * hi) in
  if x <? 0 then to_signed 32 (x + INT32_MAX) else x.

Record RngSource := {
  tap : Z;
  feed : Z;
  vec : list Z;
}.

(** [(x as i64) << k] drops the bits above 64. *)
Definition shl_i64 (x k : Z) : Z := to_signed 64 (Z.shiftl x k).

(** The loop [while i < RNG_LEN] of [seed], from [i = -20]: 627 iterations. *)
Fixpoint seed_loop (fuel : nat) (i x : Z) (v : list Z) : list Z :=
  match fuel with
  | O => v
  | S fuel =>
      if i <? RNG_LEN then
        let x := seed_rand x in
        if 0 <=? i then
          let u := shl_i64 x 40 in
          let x := seed_rand x in
          let u := Z.lxor u (shl_i64 x 20) in
          let x := seed_rand x in
          let u := Z.lxor u x in
          let u := Z.lxor u (default 0 (RNG_COOKED !! Z.to_nat i)) in
          seed_loop fuel (i + 1) x (<[Z.to_nat i := u]> v)
        else seed_loop fuel (i + 1) x v
      else v
  end.

Definition seed_start (seed : Z) : Z :=
  let seed := Z.rem seed INT32_MAX in
  let seed := if seed <? 0 then seed + INT32_MAX else seed in
  if seed =? 0 then 89482311 else seed.

Definition seed (rng : RngSource) (s : Z) : RngSource := {|
  tap := 0;
  feed := RNG_LEN - RNG_TAP;
  vec := seed_loop 627 (-20) (seed_start s) (vec rng);
|}.

Definition rng_new (s : Z) : RngSource :=
  seed {| tap := 0; feed := 0; vec := replicate 607 0 |} s.

(** ** Drawing *)

Definition uint64 (rng : RngSource) : Z * RngSource :=
  let t := (tap rng + RNG_LEN - 1) mod RNG_LEN in
  let f := (feed rng + RNG_LEN - 1) mod RNG_LEN in
  let x := to_signed 64 (default 0 (vec rng !! Z.to_nat f) + default 0 (vec rng !! Z.to_nat t)) in
  (wrap64 x, {| tap := t; feed := f; vec := <[Z.to_nat f := x]> (vec rng) |}).

Definition int63 (rng : RngSource) : Z * RngSource :=
  let '(x, rng) := uint64 rng in (Z.land x RNG_MASK, rng).

Definition uint32 (rng : RngSource) : Z * RngSource :=
  let '(x, rng) := int63 rng in (wrap32 (Z.shiftr x 31), rng).

(** [while v > max { v = self.int63() }] *)
Fixpoint int63n_loop (fuel : nat) (max v : Z) (rng : RngSource) : option (Z * RngSource) :=
  if max <? v then
    match fuel with
    | O => None
    | S fuel => let '(v, rng) := int63 rng in int63n_loop fuel max v rng
    end
  else Some (v, rng).

Definition int63n (fuel : nat) (n : Z) (rng : RngSource) : exec unit (Z * RngSource) :=
  _ ← rassert (0 <? n);
  if Z.land n (n - 1) =? 0 then
    let '(v, rng) := int63 rng in Done (Z.land v (n - 1), rng)
  else
    let min := to_signed 64 (Z.shiftl 1 63) in
    let tmp := to_signed 64 (min - 1) in
    let max := to_signed 64 (tmp - Z.rem min n) in
    let '(v, rng) := int63 rng in
    '(v, rng) ← ok_or (int63n_loop fuel max v rng) tt;
    Done (Z.rem v n, rng).

(** [while low < thresh { .. }] of [int31n]; returns the accepted product. *)
Fixpoint int31n_loop (fuel : nat) (n thresh prod : Z) (rng : RngSource)
    : option (Z * RngSource) :=
  if wrap32 prod <? thresh then
    match fuel with
    | O => None
    | S fuel =>
        let '(v, rng) := uint32 rng in int31n_loop fuel n thresh (mul64 v n) rng
    end
  else Some (prod, rng).

Definition int31n (fuel : nat) (n : Z) (rng : RngSource) : option (Z * RngSource) :=
  let '(v, rng) := uint32 rng in
  let prod := mul64 v n in
  let low := wrap32 prod in
  '(prod, rng) ←
    (if low <? n then
       let thresh := wrap32 (- n) mod n in
       int31n_loop fuel n thresh prod rng
     else Some (prod, rng));
  Some (to_signed 32 (Z.shiftr prod 32), rng).

(** ** Fisher-Yates *)

(** [self.swap(i, j)]: panics when an index is out of range. *)
Definition swap {A} (l : list A) (i j : nat) : option (list A) :=
  x ← l !! i; y ← l !! j; Some (<[j := x]> (<[i := y]> l)).

(** Both [while] loops of [shuffle], which differ in the draw only: [int63n]
    above index 2^31 - 2, [int31n] below. *)
Definition draw_index (fuel : nat) (i : nat) (rng : RngSource) : option (Z * RngSource) :=
  if 2 ^ 31 - 1 - 1 <? Z.of_nat i then
    match int63n fuel (Z.of_nat i + 1) rng with Done r => Some r | _ => None end
  else int31n fuel (Z.of_nat i + 1) rng.

Fixpoint shuffle_loop {A} (fuel : nat) (i : nat) (l : list A) (rng : RngSource)
    : option (list A * RngSource) :=
  match i with
  | O => Some (l, rng)
  | S i' =>
      '(j, rng) ← draw_index fuel i rng;
      l ← swap l i (Z.to_nat j);
      shuffle_loop fuel i' l rng
  end.

Definition shuffle {A} (fuel : nat) (l : list A) (rng : RngSource)
    : option (list A * RngSource) :=
  match l with
  | [] => Some (l, rng)
  | _ => shuffle_loop fuel (length l - 1) l rng
  end.

Example rng_vector_1 : fst (int63 (rng_new 4037200794235010051)) = 7039896061028515893.
Proof. vm_compute. reflexivity. Qed.
Example rng_vector_2 : fst (int63 (rng_new 51)) mod 10000 = 5853.
Proof. vm_compute. reflexivity. Qed.
Example rng_vector_3 : fst (int63 (rng_new 1661493340433845000)) = 6987264066974383553.
Proof. vm_compute. reflexivity. Qed.
(** [validators_shuffle_idx(6378, 1109, 237) = 889] of the source's tests. *)
Example shuffle_vector_1 :
  ((λ r, r.1 !! 237%nat) <$> shuffle 5 (seqZ 0 1109) (rng_new 6378)) = Some (Some 889).
Proof. vm_compute. reflexivity. Qed.

(** ** Ranges *)

Definition is_i64 (z : Z) : Prop := - 2 ^ 63 <= z < 2 ^ 63.

Lemma to_signed_range w z : 0 < w → - 2 ^ (w - 1) <= to_signed w z < 2 ^ (w - 1).
Proof.
  intros Hw. unfold to_signed.
  assert (Hp : 2 ^ w = 2 * 2 ^ (w - 1)).
  { rewrite <- Z.pow_succ_r by lia. f_equal. lia. }
  pose proof (Z.mod_pos_bound z (2 ^ w)) as Hm.
  pose proof (Z.pow_pos_nonneg 2 (w - 1)).
  destruct (Z.ltb_spec (z mod 2 ^ w) (2 ^ (w - 1))); lia.
Qed.

Lemma to_signed_small w z :
  0 < w → - 2 ^ (w - 1) <= z < 2 ^ (w - 1) → to_signed w z = z.
Proof.
  intros Hw Hz. unfold to_signed.
  assert (Hp : 2 ^ w = 2 * 2 ^ (w - 1)).
  { rewrite <- Z.pow_succ_r by lia. f_equal. lia. }
  destruct (Z.le_gt_cases 0 z).
  - rewrite Z.mod_small by lia. destruct (Z.ltb_spec z (2 ^ (w - 1))); lia.
  - replace (z mod 2 ^ w) with (z + 2 ^ w).
    + destruct (Z.ltb_spec (z + 2 ^ w) (2 ^ (w - 1))); lia.
    + rewrite <- (Z.mod_add z 1), Z.mod_small by lia. lia.
Qed.

Lemma lxor_i64 a b : is_i64 a → is_i64 b → is_i64 (Z.lxor a b).
Proof.
  unfold is_i64. rewrite !(Z.bounded_iff_bits 63) by lia.
  intros Ha Hb l Hl. rewrite Z.lxor_spec, Ha, Hb by done.
  do 3 case_bool_decide; try done.
  - exfalso. assert (0 <= Z.lxor a b); [|lia]. apply Z.lxor_nonneg. lia.
  - exfalso. assert (Z.lxor a b < 0); [|lia]. apply Z.lt_nge.
    rewrite Z.lxor_nonneg. lia.
  - exfalso. assert (Z.lxor a b < 0); [|lia]. apply Z.lt_nge.
    rewrite Z.lxor_nonneg. lia.
  - exfalso. assert (0 <= Z.lxor a b); [|lia]. apply Z.lxor_nonneg. lia.
Qed.

Lemma shl_i64_range x k : is_i64 (shl_i64 x k).
Proof. apply (to_signed_range 64). lia. Qed.

(** ** Seeding *)

Lemma seed_rand_mod x :
  0 <= x < INT32_MAX → seed_rand x = (48271 * x) mod INT32_MAX.
Proof.
  intros Hx. unfold seed_rand, INT32_MAX in *.
  rewrite Z.quot_div_nonneg, Z.rem_mod_nonneg by lia.
  pose proof (Z.div_mod x 44488). pose proof (Z.mod_pos_bound x 44488).
  set (hi := x / 44488) in *. set (lo := x mod 44488) in *.
  assert (0 <= hi <= 48271) by lia.
  rewrite (to_signed_small 32 (48271 * lo - 3399 * hi)) by lia.
  destruct (Z.ltb_spec (48271 * lo - 3399 * hi) 0).
  - rewrite to_signed_small by lia.
    apply (Z.mod_unique _ _ (hi - 1)); lia.
  - apply (Z.mod_unique _ _ hi); lia.
Qed.

Lemma seed_rand_range x : 1 <= x < INT32_MAX → 1 <= seed_rand x < INT32_MAX.
Proof.
  intros Hx. rewrite seed_rand_mod by lia.
  pose proof (Z.mod_pos_bound (48271 * x) INT32_MAX).
  assert ((48271 * x) mod INT32_MAX ≠ 0); [|unfold INT32_MAX in *; lia].
  intros H0. apply Z.mod_divide in H0; [|done].
  apply Z.gauss in H0; [|reflexivity].
  apply Z.divide_pos_le in H0; lia.
Qed.

Lemma seed_start_range s : 1 <= seed_start s < INT32_MAX.
Proof.
  unfold seed_start, INT32_MAX.
  pose proof (Z.rem_bound_abs s (2 ^ 31 - 1)).
  destruct (Z.ltb_spec (Z.rem s (2 ^ 31 - 1)) 0);
    match goal with |- context [?a =? 0] => destruct (Z.eqb_spec a 0) end; lia.
Qed.

(** ** The state invariant *)

Record rng_wf (rng : RngSource) : Prop := {
  wf_tap : 0 <= tap rng < RNG_LEN;
  wf_feed : 0 <= feed rng < RNG_LEN;
  wf_len : length (vec rng) = 607%nat;
  wf_vec : Forall is_i64 (vec rng);
}.

Lemma cooked_i64 : Forall is_i64 RNG_COOKED.
Proof.
  assert (forallb (λ z, (- 2 ^ 63 <=? z) && (z <? 2 ^ 63)) RNG_COOKED = true) as H
    by (vm_compute; reflexivity).
  rewrite forallb_forall in H. apply Forall_forall. intros z Hz%list_elem_of_In.
  specialize (H z Hz). unfold is_i64. lia.
Qed.

Lemma default_i64 l i : Forall is_i64 l → is_i64 (default 0 (l !! i)).
Proof.
  intros Hl. destruct (l !! i) as [z|] eqn:E; simpl.
  - eapply Forall_lookup_1; eassumption.
  - unfold is_i64. lia.
Qed.

Lemma insert_i64 i u (v : list Z) :
  is_i64 u → Forall is_i64 v → Forall is_i64 (<[i := u]> v).
Proof. intros. by apply Forall_insert. Qed.

Lemma seed_loop_wf fuel i x v :
  1 <= x < INT32_MAX → Forall is_i64 v →
  Forall is_i64 (seed_loop fuel i x v) ∧ length (seed_loop fuel i x v) = length v.
Proof.
  revert i x v. induction fuel as [|fuel IH]; intros i x v Hx Hv; [done|].
  cbn [seed_loop]. destruct (i <? RNG_LEN); [|done].
  pose proof (seed_rand_range x Hx) as H1. destruct (0 <=? i); [|by apply IH].
  pose proof (seed_rand_range _ H1) as H2. pose proof (seed_rand_range _ H2) as H3.
  match goal with |- context [seed_loop _ _ _ (<[?k := ?u]> v)] =>
    rewrite <- (length_insert v k u) end.
  apply IH; [done|]. apply insert_i64; [|done].
  repeat apply lxor_i64; auto using shl_i64_range, default_i64, cooked_i64.
  unfold is_i64. unfold INT32_MAX in *. lia.
Qed.

Lemma rng_new_wf s : rng_wf (rng_new s).
Proof.
  unfold rng_new, seed. cbn [vec].
  pose proof (seed_loop_wf 627 (-20) (seed_start s) (replicate 607 0)
    (seed_start_range s)) as Hl.
  destruct Hl as [Hok Hlen].
  { apply Forall_replicate. unfold is_i64. lia. }
  split; cbn [tap feed vec].
  - unfold RNG_LEN. lia.
  - unfold RNG_LEN, RNG_TAP. lia.
  - exact (eq_trans Hlen (length_replicate _ _)).
  - exact Hok.
Qed.

Lemma uint64_wf rng x rng' :
  rng_wf rng → uint64 rng = (x, rng') → is_u64 x ∧ rng_wf rng'.
Proof.
  intros [Ht Hf Hl Hv] [= <- <-]. split; [apply wrap64_range|].
  split; simpl.
  - apply Z.mod_pos_bound. done.
  - apply Z.mod_pos_bound. done.
  - by rewrite length_insert.
  - apply insert_i64; [|done]. apply (to_signed_range 64). lia.
Qed.

Lemma int63_wf rng x rng' :
  rng_wf rng → int63 rng = (x, rng') → 0 <= x < 2 ^ 63 ∧ rng_wf rng'.
Proof.
  unfold int63. intros Hwf. destruct (uint64 rng) as [y r] eqn:E. intros [= <- <-].
  destruct (uint64_wf _ _ _ Hwf E) as [Hy ?]. split; [|done].
  change RNG_MASK with (Z.ones 63). rewrite Z.land_ones by lia.
  apply Z.mod_pos_bound. lia.
Qed.

Lemma uint32_wf rng x rng' :
  rng_wf rng → uint32 rng = (x, rng') → 0 <= x < 2 ^ 32 ∧ rng_wf rng'.
Proof.
  unfold uint32. intros Hwf. destruct (int63 rng) as [y r] eqn:E. intros [= <- <-].
  destruct (int63_wf _ _ _ Hwf E). split; [|done]. apply Z.mod_pos_bound. lia.
Qed.

(** ** [int31n] *)

(** The threshold of the code is [2^32 mod n]. *)
Lemma thresh_mod n : 0 < n < 2 ^ 31 → wrap32 (- n) mod n = 2 ^ 32 mod n.
Proof.
  intros Hn. unfold wrap32.
  rewrite <- (Z.mod_add (- n) 1 (2 ^ 32)), (Z.mod_small (_ + _)) by lia.
  replace (- n + 1 * 2 ^ 32) with (2 ^ 32 + (-1) * n) by lia. apply Z.mod_add. lia.
Qed.

Lemma prod_small v n : 0 <= v < 2 ^ 32 → 0 < n < 2 ^ 31 → mul64 v n = v * n.
Proof. intros. apply mul64_small; nia. Qed.

Lemma quotient_small v n :
  0 <= v < 2 ^ 32 → 0 < n < 2 ^ 31 → 0 <= v * n / 2 ^ 32 < n.
Proof.
  intros. split; [apply Z.div_pos; nia | apply Z.div_lt_upper_bound; nia].
Qed.

(** A draw is rejected when the low half of the product is below the threshold. *)
Definition rejects (n v : Z) : bool := (v * n) mod 2 ^ 32 <? 2 ^ 32 mod n.

Fixpoint rng_after (k : nat) (rng : RngSource) : RngSource :=
  match k with O => rng | S k => rng_after k (uint32 rng).2 end.
Definition draw (k : nat) (rng : RngSource) : Z := (uint32 (rng_after k rng)).1.

(** [int31n] as a search through the stream of draws. *)
Fixpoint first_accepted (fuel : nat) (n : Z) (rng : RngSource) : option (Z * RngSource) :=
  let '(v, rng) := uint32 rng in
  if rejects n v then
    match fuel with O => None | S fuel => first_accepted fuel n rng end
  else Some (v * n / 2 ^ 32, rng).

Lemma first_accepted_eq fuel n rng v r :
  uint32 rng = (v, r) → first_accepted fuel n rng =
  if rejects n v then match fuel with O => None | S f => first_accepted f n r end
  else Some (v * n / 2 ^ 32, r).
Proof. intros E. destruct fuel; cbn [first_accepted]; rewrite E; reflexivity. Qed.

Lemma int31n_loop_search fuel n v rng :
  0 < n < 2 ^ 31 → 0 <= v < 2 ^ 32 → rng_wf rng →
  ('(p, r) ← int31n_loop fuel n (2 ^ 32 mod n) (v * n) rng;
    Some (to_signed 32 (Z.shiftr p 32), r)) =
  if rejects n v
  then match fuel with O => None | S fuel => first_accepted fuel n rng end
  else Some (v * n / 2 ^ 32, rng).
Proof.
  intros Hn. revert v rng. induction fuel as [|fuel IH]; intros v rng Hv Hwf;
    cbn [int31n_loop]; fold (rejects n v); unfold wrap32; fold (rejects n v);
    destruct (rejects n v).
  - done.
  - simpl. rewrite Z.shiftr_div_pow2 by lia. pose proof (quotient_small v n Hv Hn).
    by rewrite to_signed_small by lia.
  - destruct (uint32 rng) as [w r] eqn:E. rewrite (first_accepted_eq _ _ _ _ _ E).
    destruct (uint32_wf _ _ _ Hwf E). rewrite prod_small by done. by apply IH.
  - simpl. rewrite Z.shiftr_div_pow2 by lia. pose proof (quotient_small v n Hv Hn).
    by rewrite to_signed_small by lia.
Qed.

Lemma int31n_search fuel n rng :
  0 < n < 2 ^ 31 → rng_wf rng → int31n fuel n rng = first_accepted fuel n rng.
Proof.
  intros Hn Hwf. unfold int31n.
  destruct (uint32 rng) as [v r] eqn:E. rewrite (first_accepted_eq _ _ _ _ _ E).
  destruct (uint32_wf _ _ _ Hwf E) as [Hv Hr]. rewrite prod_small, thresh_mod by done.
  destruct (Z.ltb_spec (wrap32 (v * n)) n) as [Hlow|Hlow]; [by apply int31n_loop_search|].
  unfold rejects. fold (wrap32 (v * n)).
  pose proof (Z.mod_pos_bound (2 ^ 32) n).
  destruct (Z.ltb_spec (wrap32 (v * n)) (2 ^ 32 mod n)); [lia|].
  simpl. rewrite Z.shiftr_div_pow2 by lia. pose proof (quotient_small v n Hv Hn).
  by rewrite to_signed_small by lia.
Qed.

Lemma first_accepted_range fuel n rng r rng' :
  0 < n < 2 ^ 31 → rng_wf rng → first_accepted fuel n rng = Some (r, rng') →
  0 <= r < n ∧ rng_wf rng'.
Proof.
  intros Hn. revert rng. induction fuel as [|fuel IH]; intros rng Hwf; cbn [first_accepted];
    destruct (uint32 rng) as [v s] eqn:E; destruct (uint32_wf _ _ _ Hwf E) as [Hv Hs];
    destruct (rejects n v); try done; try (intros [= <- <-]; auto using quotient_small).
  by apply IH.
Qed.

Lemma draw_0 rng v s : uint32 rng = (v, s) → draw 0 rng = v.
Proof. intros E. unfold draw. cbn [rng_after]. by rewrite E. Qed.

Lemma draw_S k rng v s : uint32 rng = (v, s) → draw (S k) rng = draw k s.
Proof. intros E. unfold draw. cbn [rng_after]. by rewrite E. Qed.

Lemma first_accepted_none fuel n rng :
  first_accepted fuel n rng = None ↔ ∀ k, (k <= fuel)%nat → rejects n (draw k rng) = true.
Proof.
  revert rng. induction fuel as [|fuel IH]; intros rng;
    destruct (uint32 rng) as [v s] eqn:E; rewrite (first_accepted_eq _ _ _ _ _ E);
    rewrite <- (draw_0 _ _ _ E); destruct (rejects n (draw 0 rng)) eqn:R;
    try (split; [done|]; intros H; specialize (H 0%nat ltac:(lia)); congruence).
  - split; [|done]. intros _ k Hk. by assert (k = 0%nat) as -> by lia.
  - rewrite IH. split; intros H k Hk.
    + destruct k as [|k]; [done|]. rewrite (draw_S _ _ _ _ E). apply H. lia.
    + rewrite <- (draw_S _ _ _ _ E). apply H. lia.
Qed.

(** ** Counting the accepted draws *)

(** The draws that give [r] form one interval, of a length that does not depend on [r]. *)
Lemma accepted_interval n r :
  0 < n < 2 ^ 31 → 0 <= r < n →
  let s := (r * 2 ^ 32 + 2 ^ 32 mod n + n - 1) / n in
  0 <= s ∧ s + 2 ^ 32 / n <= 2 ^ 32 ∧
  ∀ v, 0 <= v < 2 ^ 32 →
    rejects n v = false ∧ v * n / 2 ^ 32 = r ↔ s <= v < s + 2 ^ 32 / n.
Proof.
  intros Hn Hr s. unfold rejects.
  pose proof (Z.div_mod (2 ^ 32) n) as HN. pose proof (Z.mod_pos_bound (2 ^ 32) n) as Ht.
  set (k := 2 ^ 32 / n) in *. set (t := 2 ^ 32 mod n) in *.
  pose proof (Z.div_mod (r * 2 ^ 32 + t + n - 1) n) as Hs.
  pose proof (Z.mod_pos_bound (r * 2 ^ 32 + t + n - 1) n) as Hs'. fold s in Hs.
  assert (Hs_lo : n * (s - 1) < r * 2 ^ 32 + t) by lia.
  assert (Hs_hi : r * 2 ^ 32 + t <= n * s) by lia.
  clear Hs Hs'. split; [nia|]. split; [nia|]. intros v Hv.
  pose proof (Z.div_mod (v * n) (2 ^ 32)) as Hd.
  pose proof (Z.mod_pos_bound (v * n) (2 ^ 32)) as Hm.
  split.
  - intros [Hrej%Z.ltb_ge Hq]. nia.
  - intros Hrange.
    assert (v * n / 2 ^ 32 = r) as Hq.
    { symmetry. apply (Z.div_unique _ _ _ (v * n - r * 2 ^ 32)); nia. }
    split; [|done]. apply Z.ltb_ge. nia.
Qed.

(** ** The shuffle *)

Lemma swap_perm {A} (l l' : list A) i j : swap l i j = Some l' → l' ≡ₚ l.
Proof.
  unfold swap. intros H.
  destruct (l !! i) as [x|] eqn:Hi; [|done]. simpl in H.
  destruct (l !! j) as [y|] eqn:Hj; [|done]. simpl in H. injection H as <-.
  apply Permutation_inj. split; [by rewrite !length_insert|].
  exists (λ k, if decide (k = i) then j else if decide (k = j) then i else k). split.
  - intros a b. repeat case_decide; congruence.
  - intros k. pose proof (lookup_lt_Some _ _ _ Hi). pose proof (lookup_lt_Some _ _ _ Hj).
    repeat case_decide; subst.
    + destruct (decide (i = j)) as [->|].
      * rewrite list_lookup_insert_eq by (rewrite length_insert; done). congruence.
      * rewrite list_lookup_insert_ne, list_lookup_insert_eq by done. congruence.
    + rewrite list_lookup_insert_eq by (rewrite length_insert; done). congruence.
    + by rewrite !list_lookup_insert_ne by done.
Qed.

Lemma swap_is_Some {A} (l : list A) i j :
  (i < length l)%nat → (j < length l)%nat → is_Some (swap l i j).
Proof.
  intros [x Hx]%lookup_lt_is_Some_2 [y Hy]%lookup_lt_is_Some_2.
  unfold swap. rewrite Hx. simpl. rewrite Hy. eauto.
Qed.

(** What the shuffle promises to its caller, whatever the fuel. *)
Lemma shuffle_loop_spec {A} fuel i (l : list A) rng :
  rng_wf rng → (i < length l)%nat → zlen l < 2 ^ 31 →
  match shuffle_loop fuel i l rng with
  | Some (l', rng') => l' ≡ₚ l ∧ rng_wf rng'
  | None => ∃ n rng', 2 <= n <= zlen l ∧ rng_wf rng' ∧ int31n fuel n rng' = None
  end.
Proof.
  revert l rng. induction i as [|i IH]; intros l rng Hwf Hi Hl; [done|].
  cbn [shuffle_loop]. unfold draw_index, zlen in *.
  destruct (Z.ltb_spec (2 ^ 31 - 1 - 1) (Z.of_nat (S i))); [lia|].
  destruct (int31n fuel (Z.of_nat (S i) + 1) rng) as [[j r]|] eqn:Ej; simpl.
  - pose proof Ej as Ej'. rewrite int31n_search in Ej' by (done || lia).
    apply first_accepted_range in Ej' as [Hj Hr]; [|lia|done].
    destruct (swap_is_Some l (S i) (Z.to_nat j)) as [l1 Hl1]; [done|lia|].
    cbn [shuffle_loop] in *. rewrite Hl1. simpl.
    pose proof (swap_perm _ _ _ _ Hl1) as Hp.
    specialize (IH l1 r Hr). rewrite (Permutation_length Hp) in IH.
    specialize (IH ltac:(lia) Hl).
    destruct (shuffle_loop fuel i l1 r) as [[l' r']|]; [|done].
    destruct IH as [IH ?]. split; [by rewrite IH|done].
  - exists (Z.of_nat (S i) + 1), rng. split; [lia|]. by split.
Qed.

Lemma shuffle_spec {A} fuel (l : list A) rng :
  rng_wf rng → zlen l < 2 ^ 31 →
  match shuffle fuel l rng with
  | Some (l', rng') => l' ≡ₚ l ∧ rng_wf rng'
  | None => ∃ n rng', 2 <= n <= zlen l ∧ rng_wf rng' ∧ int31n fuel n rng' = None
  end.
Proof.
  intros Hwf Hl. destruct l as [|x l]; [done|].
  apply shuffle_loop_spec; [done|simpl; lia|done].
Qed.

Lemma int63n_loop_diverges fuel max v rng :
  max < 0 → 0 <= v → rng_wf rng → int63n_loop fuel max v rng = None.
Proof.
  intros Hm. revert v rng. induction fuel as [|fuel IH]; intros v rng Hv Hwf;
    cbn [int63n_loop]; rewrite (proj2 (Z.ltb_lt max v)) by lia; [done|].
  destruct (int63 rng) as [w r] eqn:E. destruct (int63_wf _ _ _ Hwf E). apply IH; (done || lia).
Qed.

(** The bound of the rejection loop of [int63n] after the wrap. *)
Lemma int63n_max_negative n :
  0 < n < 2 ^ 63 → Z.land n (n - 1) ≠ 0 →
  to_signed 64 (to_signed 64 (to_signed 64 (Z.shiftl 1 63) - 1)
                - Z.rem (to_signed 64 (Z.shiftl 1 63)) n) < 0.
Proof.
  intros Hn Hpow.
  change (to_signed 64 (Z.shiftl 1 63)) with (- 2 ^ 63).
  change (to_signed 64 (- 2 ^ 63 - 1)) with (2 ^ 63 - 1).
  rewrite Z.rem_opp_l', Z.rem_mod_nonneg by lia.
  pose proof (Z.mod_pos_bound (2 ^ 63) n ltac:(lia)) as Hr.
  assert (2 ^ 63 mod n ≠ 0) as Hne.
  { intros H0%Z.mod_divide; [|lia]. apply Hpow.
    destruct (Zdivide_power_2 n 2 63) as [m ->]; [lia|lia|apply prime_2|done|].
    destruct (Z.le_gt_cases 0 m); [|rewrite Z.pow_neg_r in Hn by done; lia].
    replace (2 ^ m - 1) with (Z.ones m) by (rewrite Z.ones_equiv; lia).
    rewrite Z.land_ones, Z.mod_same by lia. done. }
  set (r := 2 ^ 63 mod n) in *. clearbody r.
  unfold to_signed. change (2 ^ (64 - 1)) with (2 ^ 63).
  rewrite Z.mod_small by lia.
  destruct (Z.ltb_spec (2 ^ 63 - 1 - - r) (2 ^ 63)); lia.
Qed.

(** ** Properties *)

(** [seed_rand] computes the Lehmer step [48271 * x mod (2^31 - 1)] with
    Schrage's method and no intermediate overflow, and stays in the group
    [1, 2^31 - 1): the seeding never degenerates to zero. *)
Theorem seed_rand_is_lehmer x :
  1 <= x < INT32_MAX →
  seed_rand x = (48271 * x) mod INT32_MAX ∧ 1 <= seed_rand x < INT32_MAX.
Proof. intros Hx. split; [apply seed_rand_mod; lia | by apply seed_rand_range]. Qed.

Lemma seed_rand_is_lehmer_witness :
  seed_rand 89482311 = 811020164 ∧ 1 <= seed_rand 89482311 < INT32_MAX.
Proof.
  destruct (seed_rand_is_lehmer 89482311 ltac:(unfold INT32_MAX; lia)) as [H1 H2].
  split; [exact H1 | exact H2].
Defined.

(** The generator's state is well formed from any seed and stays so: indices
    inside the register, 607 words of 64 bits; every draw is in its range. *)
Theorem generator_invariant s rng x rng' :
  rng_wf (rng_new s) ∧
  (rng_wf rng → uint64 rng = (x, rng') → is_u64 x ∧ rng_wf rng') ∧
  (rng_wf rng → int63 rng = (x, rng') → 0 <= x < 2 ^ 63 ∧ rng_wf rng') ∧
  (rng_wf rng → uint32 rng = (x, rng') → 0 <= x < 2 ^ 32 ∧ rng_wf rng').
Proof.
  split; [apply rng_new_wf|]. split; [apply uint64_wf|]. split; [apply int63_wf|apply uint32_wf].
Qed.

(** [int31n] is unbiased.  For every result [r] below [n] the 32-bit draws
    that make it return [r] at once form an interval of exactly [2^32 / n]
    values: every result is equally likely under a uniform draw. *)
Theorem int31n_unbiased n r :
  0 < n < 2 ^ 31 → 0 <= r < n →
  ∃ s, 0 <= s ∧ s + 2 ^ 32 / n <= 2 ^ 32 ∧
    ∀ rng v rng', rng_wf rng → uint32 rng = (v, rng') →
      int31n 0 n rng = Some (r, rng') ↔ s <= v < s + 2 ^ 32 / n.
Proof.
  intros Hn Hr. destruct (accepted_interval n r Hn Hr) as (Hs & Hk & Hint).
  eexists. split; [exact Hs|]. split; [exact Hk|]. intros rng v rng' Hwf E.
  destruct (uint32_wf _ _ _ Hwf E) as [Hv _]. rewrite <- (Hint v Hv).
  rewrite int31n_search, (first_accepted_eq _ _ _ _ _ E) by done.
  destruct (rejects n v); split; try done.
  - by intros [? ?].
  - by intros [= ->].
  - by intros [_ ->].
Qed.

Lemma int31n_unbiased_witness :
  ∃ s, 0 <= s ∧ s + 2 ^ 32 / 21 <= 2 ^ 32 ∧
    ∀ rng v rng', rng_wf rng → uint32 rng = (v, rng') →
      int31n 0 21 rng = Some (4, rng') ↔ s <= v < s + 2 ^ 32 / 21.
Proof. apply (int31n_unbiased 21 4); lia. Defined.

(** [int31n] with fuel [k] returns a number below [n], unless each of the
    first [k + 1] draws of the stream has its low product below
    [2^32 mod n]; in particular for [n] a power of two it always returns. *)
Theorem int31n_returns fuel n rng :
  0 < n < 2 ^ 31 → rng_wf rng →
  match int31n fuel n rng with
  | Some (r, rng') => 0 <= r < n ∧ rng_wf rng'
  | None => 2 ^ 32 mod n ≠ 0 ∧ ∀ k, (k <= fuel)%nat → rejects n (draw k rng) = true
  end.
Proof.
  intros Hn Hwf. rewrite int31n_search by done.
  destruct (first_accepted fuel n rng) as [[r rng']|] eqn:E.
  - by eapply first_accepted_range.
  - rewrite first_accepted_none in E. split; [|done].
    intros H0. specialize (E 0%nat ltac:(lia)). unfold rejects in E. rewrite H0 in E.
    pose proof (Z.mod_pos_bound (draw 0 rng * n) (2 ^ 32)). lia.
Qed.

Lemma int31n_returns_witness :
  match int31n 3 21 (rng_new 51) with
  | Some (r, rng') => 0 <= r < 21 ∧ rng_wf rng'
  | None => 2 ^ 32 mod 21 ≠ 0 ∧ ∀ k, (k <= 3)%nat → rejects 21 (draw k (rng_new 51)) = true
  end.
Proof. apply (int31n_returns 3 21 (rng_new 51)); [lia | apply rng_new_wf]. Defined.

(** The shuffle returns a rearrangement of its input and never indexes out
    of range; it fails to return only when a rejection loop of [int31n] does. *)
Theorem shuffle_is_permutation {A} fuel (l : list A) rng :
  rng_wf rng → zlen l < 2 ^ 31 →
  match shuffle fuel l rng with
  | Some (l', rng') => l' ≡ₚ l ∧ rng_wf rng'
  | None => ∃ n rng', 2 <= n <= zlen l ∧ rng_wf rng' ∧ int31n fuel n rng' = None
  end.
Proof. apply shuffle_spec. Qed.

Lemma shuffle_is_permutation_witness :
  match shuffle 3 (seqZ 0 21) (rng_new 51) with
  | Some (l', rng') => l' ≡ₚ seqZ 0 21 ∧ rng_wf rng'
  | None => ∃ n rng', 2 <= n <= zlen (seqZ 0 21) ∧ rng_wf rng' ∧ int31n 3 n rng' = None
  end.
Proof. apply (shuffle_is_permutation 3 (seqZ 0 21) (rng_new 51)); [apply rng_new_wf | done]. Defined.

(** [int63n] never returns for a bound that is not a power of two: the
    wrapped [max] is negative, so the rejection loop accepts nothing. *)
Theorem int63n_diverges n rng fuel :
  0 < n < 2 ^ 63 → Z.land n (n - 1) ≠ 0 → rng_wf rng → int63n fuel n rng = Fail tt.
Proof.
  intros Hn Hpow Hwf. unfold int63n. rewrite (proj2 (Z.ltb_lt 0 n)) by lia.
  cbn [rassert mbind exec_bind].
  rewrite (proj2 (Z.eqb_neq _ 0)) by done.
  destruct (int63 rng) as [v r] eqn:E. destruct (int63_wf _ _ _ Hwf E) as [Hv Hr].
  rewrite int63n_loop_diverges; [done | by apply int63n_max_negative | apply Hv | done].
Qed.

Lemma int63n_diverges_witness : int63n 1000 3000000000 (rng_new 51) = Fail tt.
Proof. apply (int63n_diverges 3000000000 (rng_new 51) 1000); [lia | done | apply rng_new_wf]. Defined.
