(* ===== verification/Header.v ===== *)
(** * Header: votes, block headers and the millisecond timestamp

    Models [src/consensus/parlia/vote.rs] (vote data, envelopes, attestations) and
    [src/consensus/parlia/util.rs] (millisecond timestamps in the mix hash, the
    breathe-block test, the preimage of the Parlia seal).  The header is the
    struct of [alloy_consensus] restricted to its fields; hashing and RLP are
    code of other crates and enter as the interfaces [HashApi] and [RlpApi].

    Hashes, addresses and keys are the unsigned big-endian value of their bytes,
    so that the byte-wise order of the source is the order of [Z]. *)

From stdpp Require Import base tactics numbers option list.
From Stdlib Require Import ZArith Lia Bool.
From S2P Require Import Prelude.

(** ** Votes *)

Definition MAX_ATTESTATION_EXTRA_LENGTH : Z := 256.

Record VoteData := {
  source_number : Z;
  source_hash : Z;
  target_number : Z;
  target_hash : Z;
}.

Record VoteEnvelope := {
  vote_address : Z;
  signature : Z;
  data : VoteData;
}.

Record VoteAttestation := {
  vote_address_set : Z;
  agg_signature : Z;
  att_data : VoteData;
  att_extra : bytes;
}.

#[export] Instance VoteData_eq_dec : EqDecision VoteData.
Proof. solve_decision. Defined.
#[export] Instance VoteEnvelope_eq_dec : EqDecision VoteEnvelope.
Proof. solve_decision. Defined.
#[export] Instance VoteAttestation_eq_dec : EqDecision VoteAttestation.
Proof. solve_decision. Defined.

(** [VoteData::default()]. *)
Definition VoteData_default : VoteData :=
  {| source_number := 0; source_hash := 0; target_number := 0; target_hash := 0 |}.

Definition new_with_vote_data (d : VoteData) : VoteAttestation :=
  {| vote_address_set := 0; agg_signature := 0; att_data := d; att_extra := [] |}.

(** ** Block headers *)

Record Header := {
  parent_hash : Z;
  ommers_hash : Z;
  beneficiary : Z;
  state_root : Z;
  transactions_root : Z;
  receipts_root : Z;
  logs_bloom : Z;
  difficulty : Z;
  number : Z;
  gas_limit : Z;
  gas_used : Z;
  timestamp : Z;
  extra_data : bytes;
  mix_hash : Z;
  nonce : Z;
  base_fee_per_gas : option Z;
  withdrawals_root : option Z;
  blob_gas_used : option Z;
  excess_blob_gas : option Z;
  parent_beacon_block_root : option Z;
  requests_hash : option Z;
  block_access_list_hash : option Z;
  slot_number : option Z;
}.

#[export] Instance Header_eq_dec : EqDecision Header.
Proof. solve_decision. Defined.

(** [Header::default()] of [alloy_consensus], used by the witnesses only: the
    number-valued fields are zero and the optional ones absent. *)
Definition blank_header : Header := {|
  parent_hash := 0; ommers_hash := 0; beneficiary := 0; state_root := 0;
  transactions_root := 0; receipts_root := 0; logs_bloom := 0; difficulty := 0;
  number := 0; gas_limit := 0; gas_used := 0; timestamp := 0; extra_data := [];
  mix_hash := 0; nonce := 0; base_fee_per_gas := None; withdrawals_root := None;
  blob_gas_used := None; excess_blob_gas := None; parent_beacon_block_root := None;
  requests_hash := None; block_access_list_hash := None; slot_number := None |}.

(** The assignments the code makes to a [&mut Header]. *)
Definition set_timestamp (t : Z) (h : Header) : Header :=
  {| parent_hash := parent_hash h; ommers_hash := ommers_hash h; beneficiary := beneficiary h;
     state_root := state_root h; transactions_root := transactions_root h;
     receipts_root := receipts_root h; logs_bloom := logs_bloom h; difficulty := difficulty h;
     number := number h; gas_limit := gas_limit h; gas_used := gas_used h; timestamp := t;
     extra_data := extra_data h; mix_hash := mix_hash h; nonce := nonce h;
     base_fee_per_gas := base_fee_per_gas h; withdrawals_root := withdrawals_root h;
     blob_gas_used := blob_gas_used h; excess_blob_gas := excess_blob_gas h;
     parent_beacon_block_root := parent_beacon_block_root h; requests_hash := requests_hash h;
     block_access_list_hash := block_access_list_hash h; slot_number := slot_number h |}.

Definition set_mix_hash (m : Z) (h : Header) : Header :=
  {| parent_hash := parent_hash h; ommers_hash := ommers_hash h; beneficiary := beneficiary h;
     state_root := state_root h; transactions_root := transactions_root h;
     receipts_root := receipts_root h; logs_bloom := logs_bloom h; difficulty := difficulty h;
     number := number h; gas_limit := gas_limit h; gas_used := gas_used h; timestamp := timestamp h;
     extra_data := extra_data h; mix_hash := m; nonce := nonce h;
     base_fee_per_gas := base_fee_per_gas h; withdrawals_root := withdrawals_root h;
     blob_gas_used := blob_gas_used h; excess_blob_gas := excess_blob_gas h;
     parent_beacon_block_root := parent_beacon_block_root h; requests_hash := requests_hash h;
     block_access_list_hash := block_access_list_hash h; slot_number := slot_number h |}.

Definition set_extra_data (e : bytes) (h : Header) : Header :=
  {| parent_hash := parent_hash h; ommers_hash := ommers_hash h; beneficiary := beneficiary h;
     state_root := state_root h; transactions_root := transactions_root h;
     receipts_root := receipts_root h; logs_bloom := logs_bloom h; difficulty := difficulty h;
     number := number h; gas_limit := gas_limit h; gas_used := gas_used h; timestamp := timestamp h;
     extra_data := e; mix_hash := mix_hash h; nonce := nonce h;
     base_fee_per_gas := base_fee_per_gas h; withdrawals_root := withdrawals_root h;
     blob_gas_used := blob_gas_used h; excess_blob_gas := excess_blob_gas h;
     parent_beacon_block_root := parent_beacon_block_root h; requests_hash := requests_hash h;
     block_access_list_hash := block_access_list_hash h; slot_number := slot_number h |}.

Definition set_trailing (bal slot : option Z) (h : Header) : Header :=
  {| parent_hash := parent_hash h; ommers_hash := ommers_hash h; beneficiary := beneficiary h;
     state_root := state_root h; transactions_root := transactions_root h;
     receipts_root := receipts_root h; logs_bloom := logs_bloom h; difficulty := difficulty h;
     number := number h; gas_limit := gas_limit h; gas_used := gas_used h; timestamp := timestamp h;
     extra_data := extra_data h; mix_hash := mix_hash h; nonce := nonce h;
     base_fee_per_gas := base_fee_per_gas h; withdrawals_root := withdrawals_root h;
     blob_gas_used := blob_gas_used h; excess_blob_gas := excess_blob_gas h;
     parent_beacon_block_root := parent_beacon_block_root h; requests_hash := requests_hash h;
     block_access_list_hash := bal; slot_number := slot |}.

Definition set_beneficiary (a : Z) (h : Header) : Header :=
  {| parent_hash := parent_hash h; ommers_hash := ommers_hash h; beneficiary := a;
     state_root := state_root h; transactions_root := transactions_root h;
     receipts_root := receipts_root h; logs_bloom := logs_bloom h; difficulty := difficulty h;
     number := number h; gas_limit := gas_limit h; gas_used := gas_used h; timestamp := timestamp h;
     extra_data := extra_data h; mix_hash := mix_hash h; nonce := nonce h;
     base_fee_per_gas := base_fee_per_gas h; withdrawals_root := withdrawals_root h;
     blob_gas_used := blob_gas_used h; excess_blob_gas := excess_blob_gas h;
     parent_beacon_block_root := parent_beacon_block_root h; requests_hash := requests_hash h;
     block_access_list_hash := block_access_list_hash h; slot_number := slot_number h |}.

Definition set_difficulty (d : Z) (h : Header) : Header :=
  {| parent_hash := parent_hash h; ommers_hash := ommers_hash h; beneficiary := beneficiary h;
     state_root := state_root h; transactions_root := transactions_root h;
     receipts_root := receipts_root h; logs_bloom := logs_bloom h; difficulty := d;
     number := number h; gas_limit := gas_limit h; gas_used := gas_used h; timestamp := timestamp h;
     extra_data := extra_data h; mix_hash := mix_hash h; nonce := nonce h;
     base_fee_per_gas := base_fee_per_gas h; withdrawals_root := withdrawals_root h;
     blob_gas_used := blob_gas_used h; excess_blob_gas := excess_blob_gas h;
     parent_beacon_block_root := parent_beacon_block_root h; requests_hash := requests_hash h;
     block_access_list_hash := block_access_list_hash h; slot_number := slot_number h |}.

(** ** Constants of [constants.rs] used across the components *)

Definition EXTRA_VANITY_LEN : Z := 32.
Definition EXTRA_SEAL_LEN : Z := 65.
Definition VALIDATOR_NUMBER_SIZE : Z := 1.
Definition VALIDATOR_BYTES_LEN_BEFORE_LUBAN : Z := 20.
Definition VALIDATOR_BYTES_LEN_AFTER_LUBAN : Z := 68.
Definition TURN_LENGTH_SIZE : Z := 1.
Definition DIFF_INTURN : Z := 2.
Definition DIFF_NOTURN : Z := 1.
Definition BACKOFF_TIME_OF_INITIAL : Z := 1000.
Definition LORENTZ_BACKOFF_TIME_OF_INITIAL : Z := 2000.
Definition DEFAULT_TURN_LENGTH : Z := 1.
Definition BACKOFF_TIME_OF_WIGGLE : Z := 1000.
Definition SYSTEM_TXS_GAS_HARD_LIMIT : Z := 20000000.
Definition SYSTEM_TXS_GAS_SOFT_LIMIT : Z := 1000000.
Definition FIXED_BACKOFF_TIME_BEFORE_FORK_MILLIS : Z := 200.
Definition WIGGLE_TIME_BEFORE_FORK_MILLIS : Z := 500.
Definition MILLISECONDS_UNIT : Z := 50.
Definition K_ANCESTOR_GENERATION_DEPTH : Z := 3.
Definition EMPTY_WITHDRAWALS_HASH : Z :=
  0x56e81f171bcc55a6ff8345e692c0f86e5b48e01b996cadc001622fb5e363b421.

(** ** Hashing of headers and votes: [Header::hash_slow], [VoteData::hash],
    [VoteEnvelope::hash] are Keccak-256 of an RLP encoding, code of other crates. *)

Class HashApi := {
  hash_slow : Header → Z;
  vote_data_hash : VoteData → Z;
  envelope_hash : VoteEnvelope → Z;
}.

(** ** Breathe blocks *)

Definition SECONDS_PER_DAY : Z := 86400.

(** [breathe_interval] is the parsed environment variable [BREATHE_BLOCK_INTERVAL]. *)
Definition is_same_day_in_utc (breathe_interval : option Z) (first second : Z) : exec unit bool :=
  let interval := default SECONDS_PER_DAY breathe_interval in
  a ← rdiv first interval;
  b ← rdiv second interval;
  Done (a =? b).

Definition is_breathe_block (breathe_interval : option Z) (last_block_time block_time : Z)
    : exec unit bool :=
  if negb (last_block_time =? 0)
  then same ← is_same_day_in_utc breathe_interval last_block_time block_time; Done (negb same)
  else Done false.

(** ** Millisecond timestamps *)

(** [result = (result << 8) | u64::from(byte)] *)
Definition push_byte (result byte : Z) : Z := Z.lor (wrap64 (Z.shiftl result 8)) byte.

Definition millisecond_remainder (header : Header) : Z :=
  if negb (mix_hash header =? 0)
  then fold_left push_byte (take 8 (drop 24 (be_encode 32 (mix_hash header)))) 0
  else 0.

Definition calculate_millisecond_timestamp (header : Header) : Z :=
  add64 (mul64 (timestamp header) 1000) (millisecond_remainder header).

Definition set_millisecond_part_of_timestamp (timestamp_ms : Z) (header : Header) : Header :=
  let milliseconds_part := timestamp_ms mod 1000 in
  set_mix_hash (be_decode (replicate 24 0 ++ be_encode 8 milliseconds_part)) header.

(** ** The preimage of the seal *)

(** What [alloy_rlp] encodes here. *)
Inductive RlpItem :=
| RlpU256 (z : Z)
| RlpB256 (z : Z)
| RlpAddress (z : Z)
| RlpBloom (z : Z)
| RlpU64 (z : Z)
| RlpB64 (z : Z)
| RlpSlice (l : bytes).

Class RlpApi := {
  rlp_encode : RlpItem → bytes;
  rlp_length : RlpItem → Z;
  rlp_list_header : Z → bytes;
  keccak256 : bytes → Z;
}.

(** [Encodable::length] is documented to be the length of the encoding. *)
Class RlpLaws (R : RlpApi) := {
  rlp_length_ok : ∀ x, rlp_length x = zlen (rlp_encode x);
}.

Section Seal.
Context `{R : RlpApi}.

(** [&header.extra_data[..header.extra_data.len().saturating_sub(EXTRA_SEAL_LEN)]] *)
Definition signed_extra_data (header : Header) : bytes :=
  take (Z.to_nat (sat_sub64 (zlen (extra_data header)) EXTRA_SEAL_LEN)) (extra_data header).

Definition rlp_header (header : Header) (chain_id : Z) : Z :=
  let payload_length := 0 in
  let payload_length := payload_length + rlp_length (RlpU256 chain_id) in
  let payload_length := payload_length + rlp_length (RlpB256 (parent_hash header)) in
  let payload_length := payload_length + rlp_length (RlpB256 (ommers_hash header)) in
  let payload_length := payload_length + rlp_length (RlpAddress (beneficiary header)) in
  let payload_length := payload_length + rlp_length (RlpB256 (state_root header)) in
  let payload_length := payload_length + rlp_length (RlpB256 (transactions_root header)) in
  let payload_length := payload_length + rlp_length (RlpB256 (receipts_root header)) in
  let payload_length := payload_length + rlp_length (RlpBloom (logs_bloom header)) in
  let payload_length := payload_length + rlp_length (RlpU256 (difficulty header)) in
  let payload_length := payload_length + rlp_length (RlpU256 (number header)) in
  let payload_length := payload_length + rlp_length (RlpU64 (gas_limit header)) in
  let payload_length := payload_length + rlp_length (RlpU64 (gas_used header)) in
  let payload_length := payload_length + rlp_length (RlpU64 (timestamp header)) in
  let payload_length := payload_length + rlp_length (RlpSlice (signed_extra_data header)) in
  let payload_length := payload_length + rlp_length (RlpB256 (mix_hash header)) in
  let payload_length := payload_length + rlp_length (RlpB64 (nonce header)) in
  match parent_beacon_block_root header with
  | Some root =>
      if root =? 0 then
        let payload_length := payload_length
          + rlp_length (RlpU256 (default 0 (base_fee_per_gas header))) in
        let payload_length := payload_length
          + rlp_length (RlpB256 (default 0 (withdrawals_root header))) in
        let payload_length := payload_length
          + rlp_length (RlpU64 (default 0 (blob_gas_used header))) in
        let payload_length := payload_length
          + rlp_length (RlpU64 (default 0 (excess_blob_gas header))) in
        let payload_length := payload_length + rlp_length (RlpB256 root) in
        match requests_hash header with
        | Some requests_hash => payload_length + rlp_length (RlpB256 requests_hash)
        | None => payload_length
        end
      else payload_length
  | None => payload_length
  end.

(** [out] is appended to, as [BufMut] is. *)
Definition encode_header_with_chain_id (header : Header) (out : bytes) (chain_id : Z) : bytes :=
  let out := out ++ rlp_list_header (rlp_header header chain_id) in
  let out := out ++ rlp_encode (RlpU256 chain_id) in
  let out := out ++ rlp_encode (RlpB256 (parent_hash header)) in
  let out := out ++ rlp_encode (RlpB256 (ommers_hash header)) in
  let out := out ++ rlp_encode (RlpAddress (beneficiary header)) in
  let out := out ++ rlp_encode (RlpB256 (state_root header)) in
  let out := out ++ rlp_encode (RlpB256 (transactions_root header)) in
  let out := out ++ rlp_encode (RlpB256 (receipts_root header)) in
  let out := out ++ rlp_encode (RlpBloom (logs_bloom header)) in
  let out := out ++ rlp_encode (RlpU256 (difficulty header)) in
  let out := out ++ rlp_encode (RlpU256 (number header)) in
  let out := out ++ rlp_encode (RlpU64 (gas_limit header)) in
  let out := out ++ rlp_encode (RlpU64 (gas_used header)) in
  let out := out ++ rlp_encode (RlpU64 (timestamp header)) in
  let out := out ++ rlp_encode (RlpSlice (signed_extra_data header)) in
  let out := out ++ rlp_encode (RlpB256 (mix_hash header)) in
  let out := out ++ rlp_encode (RlpB64 (nonce header)) in
  match parent_beacon_block_root header with
  | Some root =>
      if root =? 0 then
        let out := out ++ rlp_encode (RlpU256 (default 0 (base_fee_per_gas header))) in
        let out := out ++ rlp_encode (RlpB256 (default 0 (withdrawals_root header))) in
        let out := out ++ rlp_encode (RlpU64 (default 0 (blob_gas_used header))) in
        let out := out ++ rlp_encode (RlpU64 (default 0 (excess_blob_gas header))) in
        let out := out ++ rlp_encode (RlpB256 root) in
        match requests_hash header with
        | Some requests_hash => out ++ rlp_encode (RlpB256 requests_hash)
        | None => out
        end
      else out
  | None => out
  end.

Definition hash_with_chain_id (header : Header) (chain_id : Z) : Z :=
  keccak256 (encode_header_with_chain_id header [] chain_id).
End Seal.

(** ** Lemmas *)

Lemma be_encode_app n m z :
  be_encode (n + m) z = be_encode n (z / 256 ^ Z.of_nat m) ++ be_encode m z.
Proof.
  revert z. induction m as [|m IH]; intros z.
  { by rewrite Nat.add_0_r, app_nil_r, Z.div_1_r. }
  rewrite Nat.add_succ_r. cbn [be_encode]. rewrite IH, app_assoc. do 3 f_equal.
  by rewrite Z.div_div, Nat2Z.inj_succ, Z.pow_succ_r by lia.
Qed.

Lemma be_decode_encode_mod n z : be_decode (be_encode n z) = z mod 256 ^ Z.of_nat n.
Proof.
  revert z. induction n as [|n IH]; intros z.
  { by rewrite Z.mod_1_r. }
  cbn [be_encode]. rewrite be_decode_app, IH, Nat2Z.inj_succ, Z.pow_succ_r by lia.
  rewrite Z.rem_mul_r by lia. lia.
Qed.

Lemma push_byte_small acc b :
  0 <= acc < 2 ^ 56 → byte_ok b → push_byte acc b = acc * 256 + b.
Proof.
  unfold push_byte, byte_ok. intros Ha Hb.
  rewrite wrap64_small by (rewrite Z.shiftl_mul_pow2 by lia; unfold is_u64; lia).
  assert (Hland : Z.land (Z.shiftl acc 8) b = 0).
  { apply Z.bits_inj'. intros n Hn. rewrite Z.land_spec, Z.bits_0.
    destruct (Z.lt_ge_cases n 8).
    - by rewrite Z.shiftl_spec_low.
    - rewrite andb_false_iff. right.
      replace b with (b mod 2 ^ 8) by (apply Z.mod_small; lia).
      by apply Z.mod_pow2_bits_high. }
  rewrite <- Z.lxor_lor, <- Z.add_nocarry_lxor by done.
  by rewrite Z.shiftl_mul_pow2 by lia.
Qed.

Lemma push_bytes_decode l acc :
  Forall byte_ok l → 0 <= acc → acc * 256 ^ zlen l + 256 ^ zlen l <= 2 ^ 64 →
  fold_left push_byte l acc = fold_left (λ a b, a * 256 + b) l acc.
Proof.
  revert acc. induction l as [|b l IH]; intros acc Hl Ha Hb; [done|].
  inversion Hl; subst. cbn [fold_left].
  autorewrite with bsc_simp in Hb. pose proof (zlen_nonneg l).
  rewrite Z.pow_add_r in Hb by lia. change (256 ^ 1) with 256 in Hb.
  assert (1 <= 256 ^ zlen l) by (pose proof (Z.pow_pos_nonneg 256 (zlen l)); lia).
  unfold byte_ok in *.
  rewrite push_byte_small by (unfold byte_ok; nia). apply IH; [done|nia|nia].
Qed.

(** The remainder is the low 64 bits of the mix hash. *)
Lemma millisecond_remainder_mod h :
  millisecond_remainder h = mix_hash h mod 2 ^ 64.
Proof.
  unfold millisecond_remainder. destruct (Z.eqb_spec (mix_hash h) 0) as [->|_]; [done|].
  cbn [negb]. change 32%nat with (24 + 8)%nat. rewrite be_encode_app.
  rewrite drop_app_length' by (symmetry; apply be_encode_length).
  rewrite take_ge by (rewrite be_encode_length; lia).
  rewrite push_bytes_decode.
  - exact (be_decode_encode_mod 8 (mix_hash h)).
  - apply be_encode_ok.
  - lia.
  - unfold zlen. rewrite be_encode_length. lia.
Qed.

Lemma be_decode_zeros n l : be_decode (replicate n 0 ++ l) = be_decode l.
Proof.
  unfold be_decode. rewrite fold_left_app. f_equal.
  induction n as [|n IH]; [done|]. exact IH.
Qed.

Lemma set_ms_remainder ms h :
  millisecond_remainder (set_millisecond_part_of_timestamp ms h) = ms mod 1000.
Proof.
  rewrite millisecond_remainder_mod. cbn [mix_hash set_millisecond_part_of_timestamp set_mix_hash].
  rewrite be_decode_zeros, be_decode_encode_mod.
  pose proof (Z.mod_pos_bound ms 1000). rewrite !(Z.mod_small (ms mod 1000)); lia.
Qed.

Lemma millisecond_remainder_range h : is_u64 (millisecond_remainder h).
Proof. rewrite millisecond_remainder_mod. apply wrap64_range. Qed.

Lemma set_ms_roundtrip ms h :
  is_u64 ms →
  calculate_millisecond_timestamp
    (set_millisecond_part_of_timestamp ms (set_timestamp (ms / 1000) h)) = ms.
Proof.
  intros Hms. unfold calculate_millisecond_timestamp. rewrite set_ms_remainder.
  cbn [timestamp set_millisecond_part_of_timestamp set_mix_hash set_timestamp].
  unfold is_u64 in Hms. pose proof (Z.div_mod ms 1000). pose proof (Z.mod_pos_bound ms 1000).
  pose proof (Z.div_pos ms 1000).
  rewrite mul64_small, add64_small by lia. lia.
Qed.

(** ** Properties *)

(** A millisecond timestamp written into a header (seconds in [timestamp],
    the remainder in the tail of the mix hash) is read back unchanged. *)
Theorem millisecond_timestamp_roundtrip ms h :
  is_u64 ms →
  calculate_millisecond_timestamp
    (set_millisecond_part_of_timestamp ms (set_timestamp (ms / 1000) h)) = ms.
Proof. apply set_ms_roundtrip. Qed.

Lemma millisecond_timestamp_roundtrip_witness :
  calculate_millisecond_timestamp
    (set_millisecond_part_of_timestamp 1780000000750 (set_timestamp (1780000000750 / 1000) blank_header))
  = 1780000000750.
Proof. apply (millisecond_timestamp_roundtrip 1780000000750 blank_header). unfold is_u64. lia. Defined.

Section SealProperties.
Context `{RL : !RlpLaws R}.

(** The list header of the seal preimage declares exactly the number of
    bytes that follow it, on every branch of the optional fields. *)
Theorem seal_preimage_framed h cid :
  ∃ payload, encode_header_with_chain_id h [] cid = rlp_list_header (zlen payload) ++ payload.
Proof.
  unfold encode_header_with_chain_id.
  destruct (parent_beacon_block_root h) as [root|] eqn:Er;
    [destruct (root =? 0) eqn:E0; [destruct (requests_hash h) eqn:Eq|]|];
    rewrite app_nil_l, <- !app_assoc;
    match goal with |- ∃ _, _ ++ ?p = _ => exists p end; do 2 f_equal;
    unfold rlp_header; rewrite Er, ?E0, ?Eq, !rlp_length_ok; autorewrite with bsc_simp; lia.
Qed.

(** The seal is computed over everything but itself: replacing the last 65
    bytes of the extra data, or the two trailing optional fields, changes no bit
    of the preimage. *)
Theorem seal_excludes_itself h cid v s s' bal slot :
  zlen s = EXTRA_SEAL_LEN → zlen s' = EXTRA_SEAL_LEN →
  hash_with_chain_id (set_extra_data (v ++ s) h) cid =
  hash_with_chain_id (set_trailing bal slot (set_extra_data (v ++ s') h)) cid.
Proof.
  intros Hs Hs'.
  assert (Hsig : ∀ t, zlen t = EXTRA_SEAL_LEN → signed_extra_data (set_extra_data (v ++ t) h) = v).
  { intros t Ht. unfold signed_extra_data. cbn [extra_data set_extra_data].
    autorewrite with bsc_simp. rewrite Ht. unfold sat_sub64, zlen.
    rewrite Z.max_l by lia. rewrite Z.add_simpl_r, Nat2Z.id. apply take_app_length. }
  unfold hash_with_chain_id, encode_header_with_chain_id, rlp_header.
  change (signed_extra_data (set_trailing bal slot (set_extra_data (v ++ s') h)))
    with (signed_extra_data (set_extra_data (v ++ s') h)).
  by rewrite (Hsig s Hs), (Hsig s' Hs').
Qed.

End SealProperties.

(** A concrete encoder for the witnesses: fixed-width items behind a tag byte. *)
Module TaggedRlp.

Definition enc (x : RlpItem) : bytes :=
  match x with
  | RlpU256 z => 1 :: be_encode 32 z
  | RlpB256 z => 2 :: be_encode 32 z
  | RlpAddress z => 3 :: be_encode 20 z
  | RlpBloom z => 4 :: be_encode 256 z
  | RlpU64 z => 5 :: be_encode 8 z
  | RlpB64 z => 6 :: be_encode 8 z
  | RlpSlice l => 7 :: be_encode 8 (zlen l) ++ l
  end.

#[export] Instance tagged_rlp : RlpApi := {|
  rlp_encode := enc;
  rlp_length x := zlen (enc x);
  rlp_list_header n := 192 :: be_encode 8 n;
  keccak256 l := be_decode l mod (2 ^ 256 - 189);
|}.

#[export] Instance tagged_rlp_laws : RlpLaws tagged_rlp.
Proof. by split. Qed.

Lemma seal_preimage_framed_witness :
  ∃ payload, encode_header_with_chain_id (set_timestamp 7 blank_header) [] 56
             = rlp_list_header (zlen payload) ++ payload.
Proof. apply (seal_preimage_framed (set_timestamp 7 blank_header) 56). Defined.

Lemma seal_excludes_itself_witness :
  hash_with_chain_id (set_extra_data (replicate 32 9 ++ replicate 65 1) blank_header) 56 =
  hash_with_chain_id
    (set_trailing (Some 5) None (set_extra_data (replicate 32 9 ++ replicate 65 2) blank_header)) 56.
Proof.
  apply (seal_excludes_itself blank_header 56 (replicate 32 9) (replicate 65 1) (replicate 65 2)
           (Some 5) None);
    reflexivity.
Defined.
End TaggedRlp.
