(* ===== verification/Snapshot.v ===== *)
(** * Snapshot: the validator set and the proposer history

    Models [src/consensus/parlia/snapshot.rs]: the state Parlia derives from the
    chain, one block at a time.  [new] builds it at an epoch boundary, [apply]
    is the transition taken for every block (continuity, proposer window,
    signing limit, attestation, Maxwell clean-up, epoch switch), and the
    remaining functions answer whose turn it is.

    [HashMap] and [BTreeMap] are [gmap]s; a [u8] counter wraps at 256; the two
    [assert_eq!], the index and the divisions of the source are the [Panics] of
    the model. *)

From stdpp Require Import base tactics numbers option list sorting strings gmap.
From Stdlib Require Import ZArith Lia Bool.
From S2P Require Import Prelude.
From S2P Require Import Hardforks.
From S2P Require Import Header.

Definition CHECKPOINT_INTERVAL : Z := 1024.
Definition DEFAULT_EPOCH_LENGTH : Z := 200.
Definition LORENTZ_EPOCH_LENGTH : Z := 500.
Definition LORENTZ_TURN_LENGTH : Z := 8.
Definition MAXWELL_EPOCH_LENGTH : Z := 1000.
Definition MAXWELL_TURN_LENGTH : Z := 16.
Definition DEFAULT_BLOCK_INTERVAL : Z := 3000.
Definition LORENTZ_BLOCK_INTERVAL : Z := 1500.
Definition MAXWELL_BLOCK_INTERVAL : Z := 750.
Definition FERMI_BLOCK_INTERVAL : Z := 450.

(** [hex::encode], of the crate [hex]. *)
Class HexApi := { hex_encode : bytes → string }.

Record ValidatorInfo := {
  index_of_info : Z;
  vote_addr : Z;
}.

#[export] Instance ValidatorInfo_eq_dec : EqDecision ValidatorInfo.
Proof. solve_decision. Defined.

Record Snapshot := {
  epoch_num : Z;
  block_number : Z;
  block_hash : Z;
  validators : list Z;
  validators_map : gmap Z ValidatorInfo;
  recent_proposers : gmap Z Z;
  vote_data : VoteData;
  turn_length : option Z;
  block_interval : Z;
  recent_fork_hashes : gmap Z string;
}.

#[export] Instance Snapshot_eq_dec : EqDecision Snapshot.
Proof. solve_decision. Defined.

(** Field updates of [let mut snap]. *)
Definition with_epoch_num (x : Z) (s : Snapshot) : Snapshot :=
  {| epoch_num := x; block_number := block_number s; block_hash := block_hash s;
     validators := validators s; validators_map := validators_map s; recent_proposers :=
     recent_proposers s; vote_data := vote_data s; turn_length := turn_length s;
     block_interval := block_interval s; recent_fork_hashes := recent_fork_hashes s |}.
Definition with_block_number (x : Z) (s : Snapshot) : Snapshot :=
  {| epoch_num := epoch_num s; block_number := x; block_hash := block_hash s; validators
     := validators s; validators_map := validators_map s; recent_proposers :=
     recent_proposers s; vote_data := vote_data s; turn_length := turn_length s;
     block_interval := block_interval s; recent_fork_hashes := recent_fork_hashes s |}.
Definition with_block_hash (x : Z) (s : Snapshot) : Snapshot :=
  {| epoch_num := epoch_num s; block_number := block_number s; block_hash := x;
     validators := validators s; validators_map := validators_map s; recent_proposers :=
     recent_proposers s; vote_data := vote_data s; turn_length := turn_length s;
     block_interval := block_interval s; recent_fork_hashes := recent_fork_hashes s |}.
Definition with_validators (x : list Z) (s : Snapshot) : Snapshot :=
  {| epoch_num := epoch_num s; block_number := block_number s; block_hash := block_hash
     s; validators := x; validators_map := validators_map s; recent_proposers :=
     recent_proposers s; vote_data := vote_data s; turn_length := turn_length s;
     block_interval := block_interval s; recent_fork_hashes := recent_fork_hashes s |}.
Definition with_validators_map (x : gmap Z ValidatorInfo) (s : Snapshot) : Snapshot :=
  {| epoch_num := epoch_num s; block_number := block_number s; block_hash := block_hash
     s; validators := validators s; validators_map := x; recent_proposers :=
     recent_proposers s; vote_data := vote_data s; turn_length := turn_length s;
     block_interval := block_interval s; recent_fork_hashes := recent_fork_hashes s |}.
Definition with_recent_proposers (x : gmap Z Z) (s : Snapshot) : Snapshot :=
  {| epoch_num := epoch_num s; block_number := block_number s; block_hash := block_hash
     s; validators := validators s; validators_map := validators_map s; recent_proposers
     := x; vote_data := vote_data s; turn_length := turn_length s; block_interval :=
     block_interval s; recent_fork_hashes := recent_fork_hashes s |}.
Definition with_vote_data (x : VoteData) (s : Snapshot) : Snapshot :=
  {| epoch_num := epoch_num s; block_number := block_number s; block_hash := block_hash
     s; validators := validators s; validators_map := validators_map s; recent_proposers
     := recent_proposers s; vote_data := x; turn_length := turn_length s; block_interval
     := block_interval s; recent_fork_hashes := recent_fork_hashes s |}.
Definition with_turn_length (x : option Z) (s : Snapshot) : Snapshot :=
  {| epoch_num := epoch_num s; block_number := block_number s; block_hash := block_hash
     s; validators := validators s; validators_map := validators_map s; recent_proposers
     := recent_proposers s; vote_data := vote_data s; turn_length := x; block_interval
     := block_interval s; recent_fork_hashes := recent_fork_hashes s |}.
Definition with_block_interval (x : Z) (s : Snapshot) : Snapshot :=
  {| epoch_num := epoch_num s; block_number := block_number s; block_hash := block_hash
     s; validators := validators s; validators_map := validators_map s; recent_proposers
     := recent_proposers s; vote_data := vote_data s; turn_length := turn_length s;
     block_interval := x; recent_fork_hashes := recent_fork_hashes s |}.
Definition with_recent_fork_hashes (x : gmap Z string) (s : Snapshot) : Snapshot :=
  {| epoch_num := epoch_num s; block_number := block_number s; block_hash := block_hash
     s; validators := validators s; validators_map := validators_map s; recent_proposers
     := recent_proposers s; vote_data := vote_data s; turn_length := turn_length s;
     block_interval := block_interval s; recent_fork_hashes := x |}.

(** ** Building the validator map

    The same statements occur in [new] and in [apply]: with vote addresses the
    map is filled in the order given, the list is sorted, and the 1-based sorted
    positions are written back; without, the sorted list is entered directly. *)

Definition insert_vote_addr (m : gmap Z ValidatorInfo) (p : Z * Z) : gmap Z ValidatorInfo :=
  <[p.1 := {| index_of_info := 0; vote_addr := p.2 |}]> m.

Definition set_index (m : gmap Z ValidatorInfo) (p : Z * Z) : gmap Z ValidatorInfo :=
  alter (λ info, {| index_of_info := p.1 + 1; vote_addr := vote_addr info |}) p.2 m.

Definition insert_indexed (m : gmap Z ValidatorInfo) (p : Z * Z) : gmap Z ValidatorInfo :=
  <[p.2 := {| index_of_info := p.1 + 1; vote_addr := 0 |}]> m.

Definition index_validators (validators : list Z) (vote_addrs : option (list Z))
    : exec unit (list Z * gmap Z ValidatorInfo) :=
  match vote_addrs with
  | Some vote_addrs =>
      _ ← rassert (zlen validators =? zlen vote_addrs);
      let m := fold_left insert_vote_addr (zip validators vote_addrs) ∅ in
      let sorted := sort_Z validators in
      Done (sorted, fold_left set_index (enumerate sorted) m)
  | None =>
      let sorted := sort_Z validators in
      Done (sorted, fold_left insert_indexed (enumerate sorted) ∅)
  end.

Definition snapshot_new (validators : list Z) (block_number block_hash epoch_num : Z)
    (vote_addrs : option (list Z)) : exec unit Snapshot :=
  let epoch_num := if epoch_num =? 0 then DEFAULT_EPOCH_LENGTH else epoch_num in
  '(validators, validators_map) ← index_validators validators vote_addrs;
  Done {| epoch_num := epoch_num;
          block_number := block_number;
          block_hash := block_hash;
          validators := validators;
          validators_map := validators_map;
          recent_proposers := ∅;
          vote_data := VoteData_default;
          turn_length := Some DEFAULT_TURN_LENGTH;
          block_interval := DEFAULT_BLOCK_INTERVAL;
          recent_fork_hashes := ∅ |}.

(** ** Windows and turns *)

Definition miner_history_check_len (self : Snapshot) : Z :=
  let turn := default 1 (turn_length self) in
  sub64 (mul64 (zlen (validators self) / 2 + 1) turn) 1.

Definition version_history_check_len (self : Snapshot) : Z :=
  let turn := default 1 (turn_length self) in
  mul64 (zlen (validators self)) turn.

Definition inturn_validator (self : Snapshot) : exec unit Z :=
  let turn_length := default DEFAULT_TURN_LENGTH (turn_length self) in
  let next_block := add64 (block_number self) 1 in
  q ← rdiv next_block turn_length;
  offset ← rmod q (zlen (validators self));
  index (validators self) offset.

Definition is_inturn (self : Snapshot) (proposer : Z) : exec unit bool :=
  v ← inturn_validator self; Done (v =? proposer).

Definition index_of (self : Snapshot) (validator : Z) : option nat :=
  fst <$> list_find (λ v, v = validator) (validators self).

Definition last_block_in_one_turn (self : Snapshot) (block_number : Z) : bool :=
  let tl := default DEFAULT_TURN_LENGTH (turn_length self) in
  if tl <=? 1 then true else block_number mod tl =? tl - 1.

Definition first_block_in_one_turn (self : Snapshot) (block_number : Z) : bool :=
  let tl := default DEFAULT_TURN_LENGTH (turn_length self) in
  if tl <=? 1 then true else is_multiple_of block_number tl.

(** ** The signing limit *)

Definition left_bound (self : Snapshot) : Z :=
  if miner_history_check_len self <? block_number self
  then block_number self - miner_history_check_len self
  else 0.

(** One entry of the history; the counter is a [u8]. *)
Definition count_entry (left_bound : Z) (block v : Z) (counts : gmap Z Z) : gmap Z Z :=
  if (block <=? left_bound) || (v =? 0) then counts
  else <[v := wrap8 (default 0 (counts !! v) + 1)]> counts.

Definition count_recent_proposers (self : Snapshot) : gmap Z Z :=
  map_fold (count_entry (left_bound self)) ∅ (recent_proposers self).

Definition sign_recently_by_counts (self : Snapshot) (validator : Z) (counts : gmap Z Z) : bool :=
  match counts !! validator with
  | Some times => let allowed := default 1 (turn_length self) in allowed <=? times
  | None => false
  end.

Definition sign_recently (self : Snapshot) (validator : Z) : bool :=
  sign_recently_by_counts self validator (count_recent_proposers self).

Definition get_finalized_number (self : Snapshot) : Z :=
  if 0 <? source_number (vote_data self) then source_number (vote_data self) else 0.

(** [calculate_difficulty] of [util.rs]. *)
Definition calculate_difficulty (snap : Snapshot) (signer : Z) : exec unit Z :=
  inturn ← is_inturn snap signer;
  Done (if (inturn : bool) then DIFF_INTURN else DIFF_NOTURN).

(** ** Applying a block *)

Section Apply.
Context `{F : ForkConditionApi, HashApi, HexApi}.

Definition update_attestation (self : Snapshot) (chain_spec : ChainSpec) (header : Header)
    (attestation : option VoteAttestation) : Snapshot :=
  match attestation with
  | None => self
  | Some att =>
      let d := att_data att in
      if negb (is_fermi_active_at_timestamp chain_spec (number header) (timestamp header))
         && (negb (add64 (target_number d) 1 =? number header)
             || negb (target_hash d =? parent_hash header))
      then self
      else
        let v := vote_data self in
        let has_existing_attestation :=
          negb (source_number v =? 0) || negb (source_hash v =? 0)
          || negb (target_number v =? 0) || negb (target_hash v =? 0) in
        if has_existing_attestation && negb (add64 (source_number d) 1 =? target_number d)
        then with_vote_data {| source_number := source_number v; source_hash := source_hash v;
                               target_number := target_number d; target_hash := target_hash d |} self
        else with_vote_data d self
  end.

(** The windows of recent proposers and fork hashes slide to the new block. *)
Definition slide_windows (self : Snapshot) (next_header : Header) : exec unit Snapshot :=
  let bn := number next_header in
  let snap := with_block_number bn (with_block_hash (hash_slow next_header) self) in
  let limit := add64 (miner_history_check_len self) 1 in
  let snap :=
    if limit <=? bn
    then with_recent_proposers (delete (bn - limit) (recent_proposers snap)) snap else snap in
  let version_limit := version_history_check_len self in
  let snap :=
    if version_limit <=? bn
    then with_recent_fork_hashes (delete (bn - version_limit) (recent_fork_hashes snap)) snap
    else snap in
  let extra := extra_data next_header in
  if EXTRA_VANITY_LEN <=? zlen extra
  then
    fork ← slice extra (EXTRA_VANITY_LEN - 4) EXTRA_VANITY_LEN;
    Done (with_recent_fork_hashes (<[bn := hex_encode fork]> (recent_fork_hashes snap)) snap)
  else Done snap.

(** The proposer belongs to the set and has not signed too often. *)
Definition check_proposer (snap : Snapshot) (validator : Z) (is_bohr : bool) : exec unit unit :=
  _ ← ensure (bool_decide (validator ∈ validators snap)) tt;
  if is_bohr then ensure (negb (sign_recently snap validator)) tt
  else ensure (negb (existsb (λ p, p.2 =? validator) (map_to_list (recent_proposers snap)))) tt.

(** BEP-524: entries up to the finalized block are dropped. *)
Definition clear_finalized (snap : Snapshot) : Snapshot :=
  let fin := get_finalized_number snap in
  with_recent_proposers (filter (λ p, ¬ p.1 <= fin) (recent_proposers snap)) snap.

Definition update_interval (snap : Snapshot) (is_fermi is_maxwell is_lorentz : bool) : Snapshot :=
  if is_fermi then with_block_interval FERMI_BLOCK_INTERVAL snap
  else if is_maxwell then with_block_interval MAXWELL_BLOCK_INTERVAL snap
  else if is_lorentz then with_block_interval LORENTZ_BLOCK_INTERVAL snap
  else snap.

Definition update_epoch_num (snap : Snapshot) (is_maxwell is_lorentz : bool) (bn : Z) : Snapshot :=
  let next_block_number := add64 bn 1 in
  let snap :=
    if (epoch_num snap =? DEFAULT_EPOCH_LENGTH) && is_lorentz
       && is_multiple_of next_block_number LORENTZ_EPOCH_LENGTH
    then with_epoch_num LORENTZ_EPOCH_LENGTH snap else snap in
  if (epoch_num snap =? LORENTZ_EPOCH_LENGTH) && is_maxwell
     && is_multiple_of next_block_number MAXWELL_EPOCH_LENGTH
  then with_epoch_num MAXWELL_EPOCH_LENGTH snap else snap.

(** [for i in 0..n { map.remove(&f(i)) }] *)
Definition remove_range {A} (f : Z → Z) (lo hi : Z) (m : gmap Z A) : gmap Z A :=
  fold_left (λ m i, delete (f i) m) (seqZ lo (hi - lo)) m.

(** The switch to a new validator set. *)
Definition switch_validators (original_snap snap : Snapshot) (bn epoch_key : Z) (is_bohr : bool)
    (new_validators : list Z) (vote_addrs : option (list Z)) (turn_length' : option Z)
    : exec unit Snapshot :=
  let snap := match turn_length' with
              | Some tl => with_turn_length (Some tl) snap
              | None => snap end in
  let snap :=
    if is_bohr then with_recent_proposers {[ epoch_key := 0 ]} snap
    else
      let old_limit := zlen (validators snap) / 2 + 1 in
      let new_limit := zlen new_validators / 2 + 1 in
      if new_limit <? old_limit
      then with_recent_proposers
             (remove_range (λ i, sub64 (sub64 bn new_limit) i) 0 (old_limit - new_limit)
                (recent_proposers snap)) snap
      else snap in
  '(new_validators, validators_map) ← index_validators new_validators vote_addrs;
  let old_version_len := version_history_check_len original_snap in
  let new_version_len := version_history_check_len snap in
  let snap :=
    if new_version_len <? old_version_len
    then with_recent_fork_hashes
           (remove_range (λ i, sat_sub64 bn i) new_version_len old_version_len
              (recent_fork_hashes snap)) snap
    else snap in
  Done (with_validators_map validators_map (with_validators new_validators snap)).

(** From the attestation to the block interval: the block enters the snapshot. *)
Definition record_block (snap : Snapshot) (validator : Z) (next_header : Header)
    (attestation : option VoteAttestation) (chain_spec : ChainSpec) : Snapshot :=
  let bn := number next_header in
  let ts := timestamp next_header in
  let snap := update_attestation snap chain_spec next_header attestation in
  let snap := with_recent_proposers (<[bn := validator]> (recent_proposers snap)) snap in
  let is_maxwell := is_maxwell_active_at_timestamp chain_spec bn ts in
  let snap := if is_maxwell then clear_finalized snap else snap in
  update_interval snap (is_fermi_active_at_timestamp chain_spec bn ts) is_maxwell
    (is_lorentz_active_at_timestamp chain_spec bn ts).

Definition apply (self : Snapshot) (validator : Z) (next_header : Header)
    (new_validators : list Z) (vote_addrs : option (list Z))
    (attestation : option VoteAttestation) (turn_length' : option Z)
    (chain_spec : ChainSpec) : exec unit Snapshot :=
  let bn := number next_header in
  let ts := timestamp next_header in
  _ ← ensure (negb (negb (add64 (block_number self) 1 =? bn)
                    || negb (block_hash self =? parent_hash next_header))) tt;
  snap ← slide_windows self next_header;
  let is_bohr := is_bohr_active_at_timestamp chain_spec bn ts in
  _ ← check_proposer snap validator is_bohr;
  let snap := record_block snap validator next_header attestation chain_spec in
  let epoch_length := epoch_num snap in
  let snap := update_epoch_num snap (is_maxwell_active_at_timestamp chain_spec bn ts)
                (is_lorentz_active_at_timestamp chain_spec bn ts) bn in
  q ← rdiv bn epoch_length;
  let epoch_key := u64_max - q in
  if negb (bool_decide (new_validators = []))
     && (negb is_bohr || negb (bool_decide (is_Some (recent_proposers snap !! epoch_key))))
  then switch_validators self snap bn epoch_key is_bohr new_validators vote_addrs turn_length'
  else Done snap.
End Apply.

(** ** The validator map *)

(** What the map records of a list of validators: exactly its members, each with
    a 1-based position in the list. *)
Record map_indexes (vs : list Z) (m : gmap Z ValidatorInfo) : Prop := {
  mi_dom : ∀ v, is_Some (m !! v) ↔ v ∈ vs;
  mi_index : ∀ v info, m !! v = Some info →
    1 <= index_of_info info ∧ vs !! Z.to_nat (index_of_info info - 1) = Some v;
}.

Lemma enumerate_elem {A} (l : list A) i a :
  (i, a) ∈ enumerate l ↔ ∃ k, i = Z.of_nat k ∧ l !! k = Some a.
Proof.
  unfold enumerate. rewrite elem_of_lookup_imap. split.
  - intros (k & b & [= -> ->] & H). eauto.
  - intros (k & -> & H). eauto.
Qed.

Lemma fold_vote_addr_dom ps m v :
  is_Some (fold_left insert_vote_addr ps m !! v) ↔ v ∈ ps.*1 ∨ is_Some (m !! v).
Proof.
  revert m. induction ps as [|[a b] ps IH]; intros m; simpl.
  { rewrite elem_of_nil. naive_solver. }
  rewrite IH, elem_of_cons. unfold insert_vote_addr. simpl.
  rewrite lookup_insert. case_decide; naive_solver.
Qed.

Lemma fold_set_index_dom ps m v :
  is_Some (fold_left set_index ps m !! v) ↔ is_Some (m !! v).
Proof.
  revert m. induction ps as [|[i a] ps IH]; intros m; [done|]. cbn [fold_left].
  rewrite IH. unfold set_index. simpl. rewrite lookup_alter.
  case_decide; subst; [by rewrite fmap_is_Some|done].
Qed.

Lemma fold_insert_indexed_dom ps m v :
  is_Some (fold_left insert_indexed ps m !! v) ↔ v ∈ ps.*2 ∨ is_Some (m !! v).
Proof.
  revert m. induction ps as [|[i a] ps IH]; intros m; simpl.
  { rewrite elem_of_nil. naive_solver. }
  rewrite IH, elem_of_cons. unfold insert_indexed. simpl.
  rewrite lookup_insert. case_decide; naive_solver.
Qed.

(** Every entry either carries the index of a processed pair or is untouched. *)
Lemma fold_set_index_index ps m v info :
  fold_left set_index ps m !! v = Some info →
  (∃ i, (i, v) ∈ ps ∧ index_of_info info = i + 1) ∨ (m !! v = Some info ∧ v ∉ ps.*2).
Proof.
  revert m. induction ps as [|[i a] ps IH]; intros m; cbn [fold_left].
  { intros H. right. split; [done|]. apply not_elem_of_nil. }
  intros [(j & Hj & E)|[Hm Hnot]]%IH.
  - left. exists j. split; [by apply list_elem_of_further|done].
  - unfold set_index in Hm. simpl in Hm. rewrite lookup_alter in Hm. case_decide as Ha.
    + subst. apply fmap_Some in Hm as (x & _ & ->). left. exists i.
      split; [apply list_elem_of_here|done].
    + right. split; [done|]. cbn. rewrite not_elem_of_cons. naive_solver.
Qed.

Lemma fold_insert_indexed_index ps m v info :
  fold_left insert_indexed ps m !! v = Some info →
  (∃ i, (i, v) ∈ ps ∧ index_of_info info = i + 1) ∨ m !! v = Some info.
Proof.
  revert m. induction ps as [|[i a] ps IH]; intros m; cbn [fold_left]; [by right|].
  intros [(j & Hj & E)|Hm]%IH.
  - left. exists j. split; [by apply list_elem_of_further|done].
  - unfold insert_indexed in Hm. simpl in Hm. rewrite lookup_insert in Hm.
    case_decide as Ha; [|by right]. subst. injection Hm as <-. left. exists i.
    split; [apply list_elem_of_here|done].
Qed.

Lemma enumerate_snd {A} (l : list A) : (enumerate l).*2 = l.
Proof.
  unfold enumerate. apply list_eq. intros i. rewrite list_lookup_fmap, list_lookup_imap.
  by destruct (l !! i).
Qed.

Lemma index_from_pair (vs : list Z) i v info :
  (i, v) ∈ enumerate vs → index_of_info info = i + 1 →
  1 <= index_of_info info ∧ vs !! Z.to_nat (index_of_info info - 1) = Some v.
Proof.
  intros (k & -> & Hk)%enumerate_elem ->. split; [lia|].
  by replace (Z.to_nat (Z.of_nat k + 1 - 1)) with k by lia.
Qed.

Lemma index_validators_spec vs vas vs' m :
  index_validators vs vas = Done (vs', m) → vs' = sort_Z vs ∧ map_indexes vs' m.
Proof.
  unfold index_validators. destruct vas as [vas|]; intros H; inv_done.
  - unfold rassert in *. destruct (_ =? _) eqn:Elen; [|done]. split_tests.
    split; [done|]. split.
    + intros v. rewrite fold_set_index_dom, fold_vote_addr_dom, lookup_empty.
      rewrite fst_zip by (unfold zlen in *; lia). rewrite sort_Z_elem.
      split; [intros [?|[]%is_Some_None]|]; auto.
    + intros v info [(i & Hi & E)|[Hm Hnot]]%fold_set_index_index.
      * by eapply index_from_pair.
      * exfalso. apply Hnot. rewrite enumerate_snd, sort_Z_elem.
        assert (v ∈ (zip vs vas).*1 ∨ is_Some ((∅ : gmap Z ValidatorInfo) !! v)) as [Hv|[? ?]].
        { apply fold_vote_addr_dom. eauto. }
        -- by rewrite fst_zip in Hv by (unfold zlen in *; lia).
        -- by rewrite lookup_empty in *.
  - split; [done|]. split.
    + intros v. rewrite fold_insert_indexed_dom, enumerate_snd, lookup_empty.
      split; [intros [?|[]%is_Some_None]|]; auto.
    + intros v info [(i & Hi & E)|Hm]%fold_insert_indexed_index; [by eapply index_from_pair|].
      by rewrite lookup_empty in Hm.
Qed.

(** With distinct validators the vote addresses keep their owners through the sort. *)
Lemma fold_set_index_vote ps m v info :
  fold_left set_index ps m !! v = Some info →
  ∃ info0, m !! v = Some info0 ∧ vote_addr info = vote_addr info0.
Proof.
  revert m. induction ps as [|[i a] ps IH]; intros m; cbn [fold_left]; [eauto|].
  intros (x & Hx & E)%IH. unfold set_index in Hx. simpl in Hx. rewrite lookup_alter in Hx.
  case_decide; [|eauto]. subst. apply fmap_Some in Hx as (y & Hy & ->). eauto.
Qed.

Lemma fold_vote_addr_lookup ps m v a :
  NoDup ps.*1 → (v, a) ∈ ps →
  fold_left insert_vote_addr ps m !! v = Some {| index_of_info := 0; vote_addr := a |}.
Proof.
  revert m. induction ps as [|[w b] ps IH]; intros m Hnd Hin; [by apply elem_of_nil in Hin|].
  cbn in Hnd. apply NoDup_cons in Hnd as [Hw Hnd]. cbn [fold_left].
  apply elem_of_cons in Hin as [[= -> ->]|Hin]; [|by apply IH].
  assert (Hkeep : ∀ qs m', w ∉ qs.*1 → fold_left insert_vote_addr qs m' !! w = m' !! w).
  { induction qs as [|[x c] qs IHq]; intros m' Hq; [done|]. cbn in Hq.
    apply not_elem_of_cons in Hq as [Hx Hq]. cbn [fold_left]. rewrite IHq by done.
    unfold insert_vote_addr. simpl. by rewrite lookup_insert_ne by done. }
  rewrite Hkeep by done. unfold insert_vote_addr. simpl. by rewrite lookup_insert_eq.
Qed.

Lemma index_validators_vote_addr vs vas vs' m i v a :
  NoDup vs → index_validators vs (Some vas) = Done (vs', m) →
  vs !! i = Some v → vas !! i = Some a →
  ∃ info, m !! v = Some info ∧ vote_addr info = a.
Proof.
  intros Hnd H Hv Ha. pose proof (index_validators_spec _ _ _ _ H) as [-> Hmi].
  destruct (proj2 (mi_dom _ _ Hmi v)) as [info Hinfo].
  { rewrite sort_Z_elem. by eapply list_elem_of_lookup_2. }
  exists info. split; [done|]. unfold index_validators in H. inv_done.
  unfold rassert in *. destruct (_ =? _) eqn:Elen; [|done]. split_tests.
  apply fold_set_index_vote in Hinfo as (i0 & Hi0 & ->).
  rewrite (fold_vote_addr_lookup _ _ v a) in Hi0.
  - by injection Hi0 as <-.
  - by rewrite fst_zip by (unfold zlen in *; lia).
  - apply list_elem_of_lookup. exists i. apply lookup_zip_with_Some. eauto 10.
Qed.

(** ** Concrete instances for the witnesses *)

Module DemoApis.

(** A header hash that is injective on the block number, enough to link blocks. *)
#[export] Instance demo_hash : HashApi := {|
  hash_slow h := 7000 + number h;
  vote_data_hash d := (source_number d * 31 + source_hash d) * 31 * 31 + target_number d * 31 + target_hash d;
  envelope_hash e := Zpos (encode (vote_address e, signature e,
    (source_number (data e), source_hash (data e), target_number (data e), target_hash (data e))));
|}.

Definition hex_digit (n : Z) : string :=
  if n <? 5 then (if n <? 2 then (if n =? 0 then "0" else "1") else if n =? 2 then "2" else if n =? 3 then "3" else "4")
  else if n <? 10 then (if n =? 5 then "5" else if n =? 6 then "6" else if n =? 7 then "7" else if n =? 8 then "8" else "9")
  else if n =? 10 then "a" else if n =? 11 then "b" else if n =? 12 then "c" else if n =? 13 then "d"
  else if n =? 14 then "e" else "f".

#[export] Instance demo_hex : HexApi := {|
  hex_encode l := foldr (λ b acc, hex_digit (b / 16) +:+ hex_digit (b mod 16) +:+ acc) EmptyString l;
|}.

(** A header at height [n] and time [t] on top of the block of height [n - 1]. *)
Definition demo_header (n t : Z) : Header :=
  {| parent_hash := 7000 + (n - 1); ommers_hash := 0; beneficiary := 0; state_root := 0;
     transactions_root := 0; receipts_root := 0; logs_bloom := 0; difficulty := 2;
     number := n; gas_limit := 0; gas_used := 0; timestamp := t;
     extra_data := replicate 28 0 ++ [n mod 256; 0; 0; 0]; mix_hash := 0; nonce := 0;
     base_fee_per_gas := None; withdrawals_root := None; blob_gas_used := None;
     excess_blob_gas := None; parent_beacon_block_root := None; requests_hash := None;
     block_access_list_hash := None; slot_number := None |}.

End DemoApis.
