(* ===== verification/SnapshotProps.v ===== *)
(** * SnapshotProps: what the snapshot guarantees

    The invariant of the snapshot and its preservation by [apply], the exact
    rejection conditions, the signing limit, the fairness of the turn order and
    the epoch schedule. *)

From stdpp Require Import base tactics numbers option list sorting strings gmap fin_maps.
From Stdlib Require Import ZArith Lia Bool.
From S2P Require Import Prelude.
From S2P Require Import Hardforks.
From S2P Require Import Header.
From S2P Require Import Snapshot.

(** ** The invariant *)

Record snap_wf (s : Snapshot) : Prop := {
  wf_sorted : Sorted Z.le (validators s);
  wf_nonempty : validators s ≠ [];
  wf_map : map_indexes (validators s) (validators_map s);
  wf_epoch : 0 < epoch_num s;
  wf_turn : 1 <= default 1 (turn_length s) < 256;
  wf_number : is_u64 (block_number s);
  wf_size : zlen (validators s) < 2 ^ 32;
}.

(** The checks the callers make before [apply]: a new set has distinct sizes in
    range and a positive turn length. *)
Definition set_args_ok (new_validators : list Z) (vote_addrs : option (list Z))
    (turn_length' : option Z) : Prop :=
  zlen new_validators < 2 ^ 32 ∧
  (∀ vas, vote_addrs = Some vas → zlen vas = zlen new_validators) ∧
  (∀ tl, turn_length' = Some tl → 1 <= tl < 256).

Section ApplyPhases.
Context `{F : ForkConditionApi, HashApi, HexApi}.
Implicit Types (s snap : Snapshot) (h : Header) (spec : ChainSpec).

(** [apply] never touches the validators before the switch. *)
Record same_set s snap : Prop := {
  ss_validators : validators snap = validators s;
  ss_map : validators_map snap = validators_map s;
  ss_turn : turn_length snap = turn_length s;
}.

Lemma slide_windows_Done s h :
  ∃ snap, slide_windows s h = Done snap ∧ same_set s snap ∧
    block_number snap = number h ∧ block_hash snap = hash_slow h ∧
    epoch_num snap = epoch_num s ∧ vote_data snap = vote_data s ∧
    block_interval snap = block_interval s ∧
    recent_proposers snap =
      (let limit := add64 (miner_history_check_len s) 1 in
       if limit <=? number h then delete (number h - limit) (recent_proposers s)
       else recent_proposers s).
Proof.
  unfold slide_windows.
  destruct (Z.leb_spec EXTRA_VANITY_LEN (zlen (extra_data h))) as [Hlen|Hlen].
  - rewrite slice_ok by (unfold EXTRA_VANITY_LEN in *; lia). cbn [mbind exec_bind].
    eexists. split; [reflexivity|].
    repeat case_match; repeat split; reflexivity.
  - eexists. split; [reflexivity|].
    repeat case_match; repeat split; reflexivity.
Qed.

Lemma update_attestation_same s spec h att :
  same_set s (update_attestation s spec h att) ∧
  block_number (update_attestation s spec h att) = block_number s ∧
  block_hash (update_attestation s spec h att) = block_hash s ∧
  epoch_num (update_attestation s spec h att) = epoch_num s ∧
  recent_proposers (update_attestation s spec h att) = recent_proposers s.
Proof.
  unfold update_attestation. repeat case_match; repeat split; reflexivity.
Qed.

Lemma record_block_same s v h att spec :
  let r := record_block s v h att spec in
  same_set s r ∧ block_number r = block_number s ∧ block_hash r = block_hash s ∧
  epoch_num r = epoch_num s.
Proof.
  unfold record_block. destruct (update_attestation_same s spec h att) as ([? ? ?] & ? & ? & ? & ?).
  unfold update_interval, clear_finalized.
  repeat case_match; repeat split; simpl; done.
Qed.

Lemma update_epoch_num_same s m l bn :
  let r := update_epoch_num s m l bn in
  same_set s r ∧ block_number r = block_number s ∧ block_hash r = block_hash s ∧
  recent_proposers r = recent_proposers s ∧ vote_data r = vote_data s.
Proof.
  unfold update_epoch_num. repeat case_match; repeat split; done.
Qed.

Lemma update_epoch_num_pos s m l bn : 0 < epoch_num s → 0 < epoch_num (update_epoch_num s m l bn).
Proof.
  unfold update_epoch_num, LORENTZ_EPOCH_LENGTH, MAXWELL_EPOCH_LENGTH.
  repeat case_match; simpl; lia.
Qed.

Lemma switch_validators_Done s snap bn ek b nv va tl s' :
  switch_validators s snap bn ek b nv va tl = Done s' →
  validators s' = sort_Z nv ∧ map_indexes (validators s') (validators_map s') ∧
  turn_length s' = (match tl with Some t => Some t | None => turn_length snap end) ∧
  epoch_num s' = epoch_num snap ∧ block_number s' = block_number snap ∧
  block_hash s' = block_hash snap ∧ vote_data s' = vote_data snap ∧
  (b = true → recent_proposers s' = {[ ek := 0 ]}).
Proof.
  unfold switch_validators. intros H1.
  apply bind_Done in H1 as ([vs m] & Hiv & H1).
  apply index_validators_spec in Hiv as [-> Hm]. injection H1 as <-.
  destruct tl, b; repeat case_match; simpl; split_and!; done.
Qed.

Lemma switch_validators_total s snap bn ek b nv va tl :
  (∀ vas, va = Some vas → zlen vas = zlen nv) →
  ∃ s', switch_validators s snap bn ek b nv va tl = Done s'.
Proof.
  intros Hva. unfold switch_validators, index_validators. destruct va as [vas|].
  - rewrite (Hva vas eq_refl), Z.eqb_refl. eexists. reflexivity.
  - eexists. reflexivity.
Qed.

Definition is_bohr_at spec h := is_bohr_active_at_timestamp spec (number h) (timestamp h).

(** The snapshot after the block entered it, before a switch of the set. *)
Definition advanced snap v h att spec : Snapshot :=
  update_epoch_num (record_block snap v h att spec)
    (is_maxwell_active_at_timestamp spec (number h) (timestamp h))
    (is_lorentz_active_at_timestamp spec (number h) (timestamp h)) (number h).

Definition epoch_key_of s h : Z := u64_max - number h / epoch_num s.

(** [apply] unfolded once, for a positive epoch length. *)
Lemma apply_eq s v h nv va att tl spec :
  0 < epoch_num s →
  ∃ snap, slide_windows s h = Done snap ∧
  apply s v h nv va att tl spec =
    (if negb ((add64 (block_number s) 1 =? number h) && (block_hash s =? parent_hash h))
     then Fail tt
     else
       _ ← check_proposer snap v (is_bohr_at spec h);
       let r := advanced snap v h att spec in
       if negb (bool_decide (nv = []))
          && (negb (is_bohr_at spec h)
              || negb (bool_decide (is_Some (recent_proposers r !! epoch_key_of s h))))
       then switch_validators s r (number h) (epoch_key_of s h) (is_bohr_at spec h) nv va tl
       else Done r).
Proof.
  intros He. destruct (slide_windows_Done s h) as (snap & Hs & _ & _ & _ & Hep & _).
  exists snap. split; [done|]. unfold apply. rewrite Hs. unfold ensure, is_bohr_at.
  destruct (add64 (block_number s) 1 =? number h); [|done].
  destruct (block_hash s =? parent_hash h); [|done].
  cbn [negb orb andb mbind exec_bind].
  destruct (check_proposer _ _ _) as [[]|[]|]; cbn [mbind exec_bind]; [|done|done].
  destruct (record_block_same snap v h att spec) as (_ & _ & _ & Her).
  unfold rdiv. rewrite Her, Hep, (proj2 (Z.eqb_neq _ 0)) by lia. reflexivity.
Qed.

Lemma apply_Done s v h nv va att tl spec s' :
  0 < epoch_num s → apply s v h nv va att tl spec = Done s' →
  add64 (block_number s) 1 = number h ∧ block_hash s = parent_hash h ∧
  ∃ snap, slide_windows s h = Done snap ∧
    check_proposer snap v (is_bohr_at spec h) = Done tt ∧
    (s' = advanced snap v h att spec ∨
     nv ≠ [] ∧ switch_validators s (advanced snap v h att spec) (number h) (epoch_key_of s h)
                 (is_bohr_at spec h) nv va tl = Done s').
Proof.
  intros He H1. destruct (apply_eq s v h nv va att tl spec He) as (snap & Hs & E).
  rewrite E in H1. clear E.
  case_match eqn:Ec; [done|]. split_tests.
  apply bind_Done in H1 as ([] & Hc & H1). split; [done|]. split; [done|].
  exists snap. split; [done|]. split; [done|].
  cbv zeta in H1. case_match eqn:Esw; [right|left; by injection H1 as <-]. split_tests.
  split; [by eapply bool_decide_eq_false_1|done].
Qed.
End ApplyPhases.

(** ** Counting proposals *)

(** The blocks above [lo] recorded for [v]. *)
Definition proposals (m : gmap Z Z) (v lo : Z) : Z :=
  Z.of_nat (size (filter (λ p : Z * Z, lo < p.1 ∧ p.2 = v) m)).

Lemma proposals_nonneg m v lo : 0 <= proposals m v lo.
Proof. unfold proposals. lia. Qed.

Lemma proposals_empty v lo : proposals ∅ v lo = 0.
Proof. unfold proposals. by rewrite map_filter_empty, map_size_empty. Qed.

Lemma proposals_insert m k w v lo :
  m !! k = None →
  proposals (<[k := w]> m) v lo =
    proposals m v lo + (if decide (lo < k ∧ w = v) then 1 else 0).
Proof.
  intros Hk. unfold proposals. rewrite map_filter_insert. simpl. case_decide as Hd.
  - rewrite map_size_insert_None by by apply map_lookup_filter_None_2; left. lia.
  - rewrite delete_id by done. lia.
Qed.

Lemma proposals_mono m1 m2 v lo1 lo2 :
  lo2 <= lo1 → (∀ k, m1 !! k = Some v → lo1 < k → m2 !! k = Some v) →
  proposals m1 v lo1 <= proposals m2 v lo2.
Proof.
  intros Hlo Hm. unfold proposals. apply inj_le, map_subseteq_size, map_subseteq_spec.
  intros k w [Hk [Hlt Hw]]%map_lookup_filter_Some. simpl in Hlt, Hw. subst w.
  apply map_lookup_filter_Some. split; [by apply Hm | simpl; lia].
Qed.

Lemma proposals_insert_le m k w v lo :
  proposals (<[k := w]> m) v lo <= proposals m v lo + (if decide (lo < k ∧ w = v) then 1 else 0).
Proof.
  destruct (m !! k) as [x|] eqn:Ek; [|by rewrite proposals_insert by done].
  rewrite <- insert_delete_eq, proposals_insert by apply lookup_delete_eq.
  apply Z.add_le_mono_r, proposals_mono; [lia|]. intros j Hj _. by apply lookup_delete_Some in Hj as [_ ?].
Qed.

(** The counters of the source: the number of proposals, modulo 256. *)
Definition counted (m : gmap Z Z) (lo v : Z) : option Z :=
  if decide (v ≠ 0 ∧ 0 < proposals m v lo) then Some (wrap8 (proposals m v lo)) else None.

Lemma fold_counts m lo v : map_fold (count_entry lo) ∅ m !! v = counted m lo v.
Proof.
  revert m. apply (map_fold_weak_ind (λ r m, r !! v = counted m lo v)).
  { unfold counted. by rewrite proposals_empty, decide_False by lia. }
  intros k w m r Hk IH. unfold counted in *. rewrite proposals_insert by done.
  pose proof (proposals_nonneg m v lo). unfold count_entry.
  destruct ((k <=? lo) || (w =? 0)) eqn:Eskip.
  - rewrite IH. apply orb_true_iff in Eskip. rewrite Z.leb_le, Z.eqb_eq in Eskip.
    destruct (decide (lo < k ∧ w = v)) as [[? ->]|].
    + by rewrite !decide_False by lia.
    + by rewrite Z.add_0_r.
  - split_tests. rewrite lookup_insert. destruct (decide (w = v)) as [->|Hne].
    + rewrite IH, (decide_True (P := lo < k ∧ v = v)) by done.
      rewrite (decide_True (P := v ≠ 0 ∧ 0 < proposals m v lo + 1)) by lia.
      f_equal. destruct (decide _) as [|Hn]; simpl.
      * unfold wrap8. by rewrite Zplus_mod_idemp_l.
      * by replace (proposals m v lo) with 0 by lia.
    + rewrite IH, (decide_False (P := lo < k ∧ w = v)), Z.add_0_r by naive_solver. done.
Qed.

Lemma sign_recently_spec s v :
  proposals (recent_proposers s) v (left_bound s) < 256 →
  sign_recently s v = true ↔
    v ≠ 0 ∧ 0 < proposals (recent_proposers s) v (left_bound s) ∧
    default 1 (turn_length s) <= proposals (recent_proposers s) v (left_bound s).
Proof.
  intros Hlt. unfold sign_recently, sign_recently_by_counts, count_recent_proposers.
  rewrite fold_counts. unfold counted. pose proof (proposals_nonneg (recent_proposers s) v (left_bound s)).
  destruct (decide _) as [Hd|Hd].
  - unfold wrap8. rewrite Z.mod_small, Z.leb_le by lia. naive_solver.
  - split; [done|]. intros (?&?&?). destruct Hd. done.
Qed.

(** ** The signing limit along the chain *)

(** No validator has signed more than its turn in the window; outside markers
    (the zero address) every entry belongs to a block of the past. *)
Record limit_inv (s : Snapshot) : Prop := {
  li_turn : ∀ v, v ≠ 0 →
    proposals (recent_proposers s) v (left_bound s) <= default 1 (turn_length s);
  li_past : ∀ k v, recent_proposers s !! k = Some v → v ≠ 0 → 0 <= k <= block_number s;
}.

(** Before Bohr a validator appears at most once in the whole history. *)
Definition signs_once (s : Snapshot) : Prop :=
  ∀ v, v ≠ 0 → proposals (recent_proposers s) v (-1) <= 1.

(** The lower end of the window in which block [n] is counted. *)
Definition window_start (s : Snapshot) (n : Z) : Z :=
  if miner_history_check_len s <? n then n - miner_history_check_len s else 0.

(** What [check_proposer] asks of the proposer of block [n], on the parent. *)
Definition may_sign (s : Snapshot) (bohr : bool) (n v : Z) : Prop :=
  if bohr then v ≠ 0 → proposals (recent_proposers s) v (window_start s n) < default 1 (turn_length s)
  else ∀ k, recent_proposers s !! k = Some v →
            add64 (miner_history_check_len s) 1 <= n ∧ k = n - add64 (miner_history_check_len s) 1.

Lemma mhcl_small s :
  snap_wf s →
  miner_history_check_len s = (zlen (validators s) / 2 + 1) * default 1 (turn_length s) - 1 ∧
  0 <= miner_history_check_len s < 2 ^ 40.
Proof.
  intros [_ _ _ _ Ht _ Hs]. pose proof (zlen_nonneg (validators s)).
  pose proof (Z.div_mod (zlen (validators s)) 2). pose proof (Z.mod_pos_bound (zlen (validators s)) 2).
  unfold miner_history_check_len, mul64, sub64, wrap64.
  set (n := zlen (validators s) / 2 + 1) in *. assert (1 <= n <= 2 ^ 31) by lia.
  assert (1 <= n * default 1 (turn_length s) <= 2 ^ 31 * 255) by nia.
  rewrite (Z.mod_small (n * _)), Z.mod_small by lia. lia.
Qed.

Lemma same_set_mhcl s snap : same_set s snap → miner_history_check_len snap = miner_history_check_len s.
Proof. intros [Hv _ Ht]. unfold miner_history_check_len. by rewrite Hv, Ht. Qed.

Lemma same_set_left_bound s snap :
  same_set s snap → left_bound snap = window_start s (block_number snap).
Proof. intros H. unfold left_bound, window_start. by rewrite (same_set_mhcl s snap H). Qed.

Section Limit.
Context `{F : ForkConditionApi, HashApi, HexApi}.
Implicit Types (s snap : Snapshot) (h : Header) (spec : ChainSpec).

(** The entry leaving the window was not counted any more. *)
Lemma slid_proposals s h snap v :
  snap_wf s → slide_windows s h = Done snap →
  proposals (recent_proposers snap) v (window_start s (number h)) =
  proposals (recent_proposers s) v (window_start s (number h)).
Proof.
  intros Hwf Hs. destruct (slide_windows_Done s h) as (? & Hs' & _ & _ & _ & _ & _ & _ & Hr).
  rewrite Hs in Hs'. injection Hs' as <-. rewrite Hr. clear Hr.
  destruct (mhcl_small s Hwf) as [_ Hm]. cbv zeta. rewrite add64_small by lia.
  case_if; [|done]. split_tests. apply Z.le_antisymm; apply proposals_mono; try lia.
  - by intros k [_ ?]%lookup_delete_Some _.
  - intros k Hk Hlt. rewrite lookup_delete_Some. split; [|done].
    unfold window_start in Hlt. case_if; split_tests; lia.
Qed.

Lemma slid_lookup s h snap k v :
  slide_windows s h = Done snap →
  recent_proposers snap !! k = Some v ↔
    recent_proposers s !! k = Some v ∧
    ¬ (add64 (miner_history_check_len s) 1 <= number h ∧ k = number h - add64 (miner_history_check_len s) 1).
Proof.
  intros Hs. destruct (slide_windows_Done s h) as (? & Hs' & _ & _ & _ & _ & _ & _ & Hr).
  rewrite Hs in Hs'. injection Hs' as <-. rewrite Hr. cbv zeta.
  case_if; split_tests; [rewrite lookup_delete_Some|]; intuition lia.
Qed.

Lemma window_start_mono s n m : n <= m → window_start s n <= window_start s m.
Proof. intros. unfold window_start. repeat case_if; split_tests; lia. Qed.

Lemma slid_sign_recently s h snap v :
  snap_wf s → limit_inv s → block_number s <= number h → slide_windows s h = Done snap →
  sign_recently snap v = false ↔ may_sign s true (number h) v.
Proof.
  intros Hwf Hli Hn Hs. destruct (slide_windows_Done s h) as (? & Hs' & Hss & Hbn & _).
  rewrite Hs in Hs'. injection Hs' as <-.
  pose proof (same_set_left_bound s snap Hss) as Hlb. rewrite Hbn in Hlb.
  pose proof (slid_proposals s h snap v Hwf Hs) as Hp. pose proof (wf_turn s Hwf) as Ht.
  destruct (decide (v = 0)) as [->|Hv0].
  { unfold sign_recently, sign_recently_by_counts, count_recent_proposers.
    rewrite fold_counts. unfold counted. rewrite decide_False by naive_solver.
    split; [|done]. intros _ ?. done. }
  assert (proposals (recent_proposers s) v (window_start s (number h)) <= default 1 (turn_length s)).
  { etransitivity; [|by apply (li_turn s Hli v)].
    apply proposals_mono; [|done]. by apply window_start_mono. }
  pose proof (sign_recently_spec snap v) as Hsr. rewrite Hlb, Hp, (ss_turn _ _ Hss) in Hsr.
  specialize (Hsr ltac:(lia)). unfold may_sign. rewrite <- not_true_iff_false, Hsr.
  split; [intros Hno _; apply Z.nle_gt; intros ?; apply Hno; split_and!; done || lia|].
  intros Hlt (_ & _ & ?). specialize (Hlt Hv0). lia.
Qed.

Lemma slid_not_recorded s h snap v :
  slide_windows s h = Done snap →
  existsb (λ p, p.2 =? v) (map_to_list (recent_proposers snap)) = false ↔
  may_sign s false (number h) v.
Proof.
  intros Hs. rewrite <- not_true_iff_false, existsb_exists. split.
  - intros Hno k Hk. apply dec_stable. intros Hk'. apply Hno. exists (k, v).
    split; [|simpl; lia]. by apply list_elem_of_In, elem_of_map_to_list, (slid_lookup _ _ _ _ _ Hs).
  - intros Hk ([k w] & Hin & E). simpl in E. split_tests. subst w.
    apply list_elem_of_In, elem_of_map_to_list, (slid_lookup _ _ _ _ _ Hs) in Hin as [Hin Hno].
    by apply Hno, Hk.
Qed.

Lemma check_proposer_spec s h snap v bohr :
  snap_wf s → limit_inv s → block_number s <= number h → slide_windows s h = Done snap →
  (check_proposer snap v bohr = Done tt ↔ v ∈ validators s ∧ may_sign s bohr (number h) v) ∧
  check_proposer snap v bohr ≠ Panics.
Proof.
  intros Hwf Hli Hn Hs. destruct (slide_windows_Done s h) as (? & Hs' & Hss & _).
  rewrite Hs in Hs'. injection Hs' as <-. unfold check_proposer.
  rewrite (ss_validators _ _ Hss). unfold ensure.
  destruct (bool_decide_reflect (v ∈ validators s)) as [Hv|Hv]; cbn [mbind exec_bind];
    [|by split; [split; [|intros []]|]].
  destruct bohr.
  - rewrite <- (slid_sign_recently s h snap v) by done.
    destruct (sign_recently snap v); simpl; naive_solver.
  - rewrite <- (slid_not_recorded s h snap v) by done.
    destruct (existsb _ _); simpl; naive_solver.
Qed.
End Limit.

Section Preservation.
Context `{F : ForkConditionApi, HashApi, HexApi}.
Implicit Types (s snap : Snapshot) (h : Header) (spec : ChainSpec).

Lemma advanced_same snap v h att spec :
  let r := advanced snap v h att spec in
  same_set snap r ∧ block_number r = block_number snap ∧ block_hash r = block_hash snap ∧
  (0 < epoch_num snap → 0 < epoch_num r).
Proof.
  cbv zeta. unfold advanced.
  destruct (record_block_same snap v h att spec) as ([? ? ?] & ? & ? & Hep).
  destruct (update_epoch_num_same (record_block snap v h att spec)
    (is_maxwell_active_at_timestamp spec (number h) (timestamp h))
    (is_lorentz_active_at_timestamp spec (number h) (timestamp h)) (number h))
    as ([? ? ?] & ? & ? & _).
  split_and!; [split|..]; try congruence.
  intros ?. apply update_epoch_num_pos. congruence.
Qed.

(** What is recorded after the block: the block itself and what survives. *)
Lemma advanced_recent snap v h att spec k w :
  recent_proposers (advanced snap v h att spec) !! k = Some w →
  <[number h := v]> (recent_proposers snap) !! k = Some w.
Proof.
  unfold advanced.
  destruct (update_epoch_num_same (record_block snap v h att spec)
    (is_maxwell_active_at_timestamp spec (number h) (timestamp h))
    (is_lorentz_active_at_timestamp spec (number h) (timestamp h)) (number h))
    as (_ & _ & _ & -> & _).
  unfold record_block, update_interval, clear_finalized.
  destruct (update_attestation_same snap spec h att) as (_ & _ & _ & _ & Hr).
  repeat case_match; simpl; rewrite Hr;
    try (intros [? _]%map_lookup_filter_Some); done.
Qed.

Lemma remove_range_sub {A} f lo hi (m : gmap Z A) k a :
  remove_range f lo hi m !! k = Some a → m !! k = Some a.
Proof.
  unfold remove_range. generalize (seqZ lo (hi - lo)). intros l. revert m.
  induction l as [|i l IH]; intros m; simpl; [done|].
  by intros [_ ?]%IH%lookup_delete_Some.
Qed.

(** A switch either keeps entries or starts over from the epoch marker. *)
Lemma switch_recent s snap bn ek b nv va tl s' k w :
  switch_validators s snap bn ek b nv va tl = Done s' →
  recent_proposers s' !! k = Some w →
  if b then k = ek ∧ w = 0 else recent_proposers snap !! k = Some w.
Proof.
  intros H1 H2. destruct b.
  - apply switch_validators_Done in H1 as (_&_&_&_&_&_&_&E). rewrite E in H2 by done.
    by apply lookup_singleton_Some in H2 as [<- <-].
  - unfold switch_validators in H1. apply bind_Done in H1 as ([vs m] & _ & H1). injection H1 as <-.
    revert H2. destruct tl; repeat case_match; simpl; try done; apply remove_range_sub.
Qed.

(** The proposers recorded by an accepted block. *)
Lemma apply_recent s v h nv va att tl spec s' snap :
  snap_wf s → apply s v h nv va att tl spec = Done s' → slide_windows s h = Done snap →
  (∀ k w, recent_proposers s' !! k = Some w → w ≠ 0 →
     <[number h := v]> (recent_proposers snap) !! k = Some w) ∧
  (is_bohr_at spec h = true →
   same_set s s' ∨ ∀ k w, recent_proposers s' !! k = Some w → w = 0).
Proof.
  intros Hwf Ha Hs'. pose proof (wf_epoch s Hwf) as Hep.
  apply apply_Done in Ha as (_ & _ & ? & Hs & _ & Hcase); [|done].
  rewrite Hs in Hs'. injection Hs' as ->.
  destruct (slide_windows_Done s h) as (? & Hs' & Hss & _).
  rewrite Hs in Hs'. injection Hs' as <-.
  destruct (advanced_same snap v h att spec) as (Hsa & _).
  pose proof (advanced_recent snap v h att spec) as Hadv.
  destruct Hcase as [->|[_ Hsw]].
  - split; [by eauto|]. intros _. left. destruct Hss, Hsa. split; congruence.
  - split.
    + intros k w Hk Hw. apply (switch_recent _ _ _ _ _ _ _ _ _ _ _ Hsw) in Hk.
      case_match; [by destruct Hk|by apply Hadv].
    + intros Hb. right. intros k w Hk. apply (switch_recent _ _ _ _ _ _ _ _ _ _ _ Hsw) in Hk.
      rewrite Hb in Hk. by destruct Hk.
Qed.

Lemma apply_fields s v h nv va att tl spec s' :
  snap_wf s → apply s v h nv va att tl spec = Done s' →
  block_number s' = number h ∧ block_hash s' = hash_slow h ∧
  (validators s' = validators s ∨ nv ≠ [] ∧ validators s' = sort_Z nv).
Proof.
  intros Hwf Ha. pose proof (wf_epoch s Hwf) as Hep.
  apply apply_Done in Ha as (_ & _ & snap & Hs & _ & Hcase); [|done].
  destruct (slide_windows_Done s h) as (? & Hs' & [? ? ?] & Hb & Hh & _).
  rewrite Hs in Hs'. injection Hs' as <-.
  destruct (advanced_same snap v h att spec) as ([? ? ?] & ? & ? & _).
  destruct Hcase as [->|[Hne Hsw]].
  - split_and!; try congruence. left. congruence.
  - apply switch_validators_Done in Hsw as (? & _ & _ & _ & ? & ? & _).
    split_and!; try congruence. by right.
Qed.

Lemma apply_preserves_wf s v h nv va att tl spec s' :
  snap_wf s → set_args_ok nv va tl → apply s v h nv va att tl spec = Done s' → snap_wf s'.
Proof.
  intros Hwf (Hn & Hva & Htl) Ha. pose proof Ha as Ha'.
  pose proof (wf_epoch s Hwf) as Hep.
  apply apply_Done in Ha as (Hnum & _ & snap & Hs & _ & Hcase); [|done].
  destruct (slide_windows_Done s h) as (? & Hs' & [Ev Em Et] & Hb & _ & He & _).
  rewrite Hs in Hs'. injection Hs' as <-.
  destruct (advanced_same snap v h att spec) as ([Ev' Em' Et'] & Hb' & _ & He').
  assert (is_u64 (number h)) by (rewrite <- Hnum; apply wrap64_range).
  destruct Hwf. destruct Hcase as [->|[Hne Hsw]].
  - split; rewrite ?Ev', ?Em', ?Et', ?Hb', ?Ev, ?Em, ?Et, ?Hb; auto. apply He'. lia.
  - apply switch_validators_Done in Hsw as (Evs & Hmi & Etl & Een & Ebn & _).
    split; rewrite ?Etl, ?Een, ?Ebn, ?Hb', ?Hb; auto.
    + rewrite Evs. apply sort_Z_sorted.
    + rewrite Evs. intros E. apply Hne. apply length_zero_iff_nil.
      by rewrite <- (sort_Z_length nv), E.
    + apply He'. lia.
    + destruct tl as [t|]; [by apply Htl|]. by rewrite Et', Et.
    + rewrite Evs. unfold zlen in *. by rewrite sort_Z_length.
Qed.
End Preservation.

(** ** Reachable snapshots *)

Section Reachable.
Context `{F : ForkConditionApi, HashApi, HexApi}.
Implicit Types (s snap : Snapshot) (h : Header) (spec : ChainSpec).

(** Snapshots built by the program: [new] at an epoch boundary, then accepted
    blocks.  The flag tells whether Bohr was active at the last block; it does
    not become inactive again. *)
Inductive reachable spec : bool → Snapshot → Prop :=
| reach_new vs bn bh en va s :
    vs ≠ [] → zlen vs < 2 ^ 32 → is_u64 bn → 0 <= en →
    snapshot_new vs bn bh en va = Done s → reachable spec false s
| reach_apply b s v h nv va att tl s' :
    reachable spec b s → block_number s < u64_max → set_args_ok nv va tl →
    (b = true → is_bohr_at spec h = true) →
    apply s v h nv va att tl spec = Done s' → reachable spec (is_bohr_at spec h) s'.

Lemma snapshot_new_wf vs bn bh en va s :
  vs ≠ [] → zlen vs < 2 ^ 32 → is_u64 bn → 0 <= en →
  snapshot_new vs bn bh en va = Done s →
  snap_wf s ∧ recent_proposers s = ∅ ∧ block_number s = bn.
Proof.
  unfold snapshot_new. intros Hne Hlen Hbn Hen Hs. apply bind_Done in Hs as ([vs' m] & Hi & Hs).
  apply index_validators_spec in Hi as [-> Hm]. injection Hs as <-. split; [|done].
  split; simpl; auto with bsc.
  - intros E. apply Hne, length_zero_iff_nil. by rewrite <- (sort_Z_length vs), E.
  - unfold DEFAULT_EPOCH_LENGTH. case_if; split_tests; lia.
  - unfold DEFAULT_TURN_LENGTH. lia.
  - unfold zlen in *. by rewrite sort_Z_length.
Qed.

Lemma left_bound_nonneg s : 0 <= left_bound s.
Proof. unfold left_bound. case_if; split_tests; lia. Qed.

(** The proposals counted after a block: at most one more, for its proposer. *)
Lemma apply_proposals s v h nv va att tl spec s' snap w lo :
  snap_wf s → apply s v h nv va att tl spec = Done s' → slide_windows s h = Done snap → w ≠ 0 →
  proposals (recent_proposers s') w lo <=
    proposals (recent_proposers snap) w lo + (if decide (lo < number h ∧ v = w) then 1 else 0).
Proof.
  intros Hwf Ha Hs Hw. rewrite <- proposals_insert_le. apply proposals_mono; [lia|].
  intros k Hk _. by apply (apply_recent _ _ _ _ _ _ _ _ _ _ Hwf Ha Hs).
Qed.

Lemma slid_proposals_le s h snap w lo :
  slide_windows s h = Done snap →
  proposals (recent_proposers snap) w lo <= proposals (recent_proposers s) w lo.
Proof.
  intros Hs. apply proposals_mono; [lia|]. by intros k [? _]%(slid_lookup _ _ _ _ _ Hs) _.
Qed.

(** What an accepted block says of its header and its proposer. *)
Lemma apply_checked s v h nv va att tl spec s' :
  snap_wf s → limit_inv s → block_number s < u64_max →
  apply s v h nv va att tl spec = Done s' →
  number h = block_number s + 1 ∧ parent_hash h = block_hash s ∧ v ∈ validators s ∧
  may_sign s (is_bohr_at spec h) (number h) v.
Proof.
  intros Hwf Hli Hmax Ha.
  apply apply_Done in Ha as (Hnum & Hph & snap & Hs & Hc & _); [|by apply wf_epoch].
  rewrite add64_small in Hnum by (pose proof (wf_number s Hwf); unfold is_u64, u64_max in *; lia).
  apply (check_proposer_spec s h) in Hc as [Hv Hmay]; [|done|done|lia|done].
  by split_and!.
Qed.

Lemma apply_preserves_once s v h nv va att tl spec s' :
  snap_wf s → limit_inv s → block_number s < u64_max → signs_once s →
  is_bohr_at spec h = false → apply s v h nv va att tl spec = Done s' → signs_once s'.
Proof.
  intros Hwf Hli Hmax Honce Hb Ha w Hw.
  destruct (slide_windows_Done s h) as (snap & Hs & _).
  rewrite (apply_proposals _ _ _ _ _ _ _ _ _ snap w) by done.
  destruct (apply_checked _ _ _ _ _ _ _ _ _ Hwf Hli Hmax Ha) as (_ & _ & _ & Hmay).
  case_decide as Hd.
  - destruct Hd as [_ ->]. rewrite Hb in Hmay.
    enough (proposals (recent_proposers snap) w (-1) <= proposals ∅ w (-1)) as Hle
      by (rewrite proposals_empty in Hle; lia).
    apply proposals_mono; [lia|]. intros k [Hk Hno]%(slid_lookup _ _ _ _ _ Hs) _.
    destruct Hno. by apply Hmay.
  - pose proof (slid_proposals_le s h snap w (-1) Hs). specialize (Honce w Hw). lia.
Qed.

(** One accepted block keeps the limit. *)
Lemma apply_preserves_limit s v h nv va att tl spec s' :
  snap_wf s → limit_inv s → block_number s < u64_max →
  (is_bohr_at spec h = false → signs_once s) → set_args_ok nv va tl →
  apply s v h nv va att tl spec = Done s' → limit_inv s'.
Proof.
  intros Hwf Hli Hmax Honce Hargs Ha. pose proof (wf_number s Hwf) as Hu. unfold is_u64 in Hu.
  pose proof (wf_turn s' (apply_preserves_wf _ _ _ _ _ _ _ _ _ Hwf Hargs Ha)) as Ht.
  destruct (slide_windows_Done s h) as (snap & Hs & _).
  destruct (apply_recent _ _ _ _ _ _ _ _ _ _ Hwf Ha Hs) as [Hrec Hbohr].
  destruct (apply_fields _ _ _ _ _ _ _ _ _ Hwf Ha) as (Hbn & _).
  destruct (apply_checked _ _ _ _ _ _ _ _ _ Hwf Hli Hmax Ha) as (Hnum & _ & _ & Hmay).
  split.
  - intros w Hw. destruct (is_bohr_at spec h) eqn:Hb; [destruct (Hbohr eq_refl) as [Hss|Hz]|].
    + rewrite (same_set_left_bound s s' Hss), Hbn, (ss_turn _ _ Hss).
      pose proof (apply_proposals _ _ _ _ _ _ _ _ _ snap w (window_start s (number h)) Hwf Ha Hs Hw) as Hle.
      pose proof (slid_proposals_le s h snap w (window_start s (number h)) Hs).
      case_decide as Hd; [destruct Hd as [_ <-]; specialize (Hmay Hw); lia|].
      pose proof (li_turn s Hli w Hw). pose proof (window_start_mono s (block_number s) (number h)).
      enough (proposals (recent_proposers s) w (window_start s (number h)) <=
              proposals (recent_proposers s) w (left_bound s)) by lia.
      apply proposals_mono; [apply window_start_mono; lia|done].
    + enough (proposals (recent_proposers s') w (left_bound s') <= proposals ∅ w 0) as Hle
        by (rewrite proposals_empty in Hle; lia).
      apply proposals_mono; [apply left_bound_nonneg|]. intros k Hk _. by apply Hz in Hk.
    + transitivity (proposals (recent_proposers s') w (-1)).
      * apply proposals_mono; [pose proof (left_bound_nonneg s'); lia|done].
      * pose proof (apply_preserves_once _ _ _ _ _ _ _ _ _ Hwf Hli Hmax (Honce eq_refl) Hb Ha w Hw). lia.
  - intros k w Hk Hw. specialize (Hrec k w Hk Hw). rewrite lookup_insert in Hrec.
    case_decide; [lia|]. apply (slid_lookup _ _ _ _ _ Hs) in Hrec as [Hk' _].
    pose proof (li_past s Hli k w Hk' Hw). lia.
Qed.

(** The full invariant, by induction over the history of the snapshot. *)
Lemma reachable_inv spec b s :
  reachable spec b s → snap_wf s ∧ limit_inv s ∧ (b = false → signs_once s).
Proof.
  induction 1 as [vs bn bh en va s Hne Hlen Hbn Hen Hs
                 |b s v h nv va att tl s' Hr (Hwf & Hli & Honce) Hmax Hargs Hmono Ha].
  - destruct (snapshot_new_wf _ _ _ _ _ _ Hne Hlen Hbn Hen Hs) as (Hwf & Er & _).
    split; [done|]. pose proof (wf_turn s Hwf). split; [split|].
    + intros w Hw. rewrite Er, proposals_empty. lia.
    + intros k w. by rewrite Er, lookup_empty.
    + intros _ w Hw. rewrite Er, proposals_empty. lia.
  - split_and!.
    + by eapply apply_preserves_wf.
    + eapply apply_preserves_limit; eauto. intros Hb. apply Honce. destruct b; [|done].
      rewrite Hmono in Hb by done. done.
    + intros Hb. eapply apply_preserves_once; eauto. apply Honce. destruct b; [|done].
      rewrite Hmono in Hb by done. done.
Qed.
End Reachable.
