(* ===== verification/SnapshotClaims.v ===== *)
(** * SnapshotClaims: the theorems about the snapshot

    Reachable snapshots keep their invariants, the exact acceptance condition
    of [apply], the liveness of the signing limit, the rotation of the turns,
    the epoch schedule and the Maxwell clean-up. *)

From stdpp Require Import base tactics numbers option list sorting strings gmap fin_maps fin_map_dom.
From Stdlib Require Import ZArith Lia Bool.
From S2P Require Import Prelude.
From S2P Require Import Hardforks.
From S2P Require Import Header.
From S2P Require Import Snapshot.
From S2P Require Import SnapshotProps.

(** ** Counting the signers of a window *)

Lemma size_filter_or {A} (P Q : Z * A → Prop) `{∀ x, Decision (P x), ∀ x, Decision (Q x)} (m : gmap Z A) :
  (∀ x, P x → Q x → False) →
  size (filter (λ x, P x ∨ Q x) m) = (size (filter P m) + size (filter Q m))%nat.
Proof.
  intros Hex. rewrite <- map_size_disj_union.
  - f_equal. apply map_eq. intros k. apply option_eq. intros a.
    rewrite lookup_union_Some, !map_lookup_filter_Some; [naive_solver|].
    apply map_disjoint_spec. intros j x y [? ?]%map_lookup_filter_Some [? ?]%map_lookup_filter_Some.
    simplify_eq. eauto.
  - apply map_disjoint_spec. intros j x y [? ?]%map_lookup_filter_Some [? ?]%map_lookup_filter_Some.
    simplify_eq. eauto.
Qed.

(** [t] proposals each of distinct validators occupy [t] entries each. *)
Lemma distinct_signers_entries (t lo : Z) (m : gmap Z Z) l :
  NoDup l → (∀ v, v ∈ l → t <= proposals m v lo) →
  t * zlen l <= Z.of_nat (size (filter (λ p : Z * Z, lo < p.1 ∧ p.2 ∈ l) m)).
Proof.
  induction 1 as [|v l Hv Hnd IH]; intros Hl.
  { rewrite zlen_nil. lia. }
  assert (filter (λ p : Z * Z, lo < p.1 ∧ p.2 ∈ v :: l) m =
          filter (λ p : Z * Z, (lo < p.1 ∧ p.2 = v) ∨ (lo < p.1 ∧ p.2 ∈ l)) m) as ->.
  { apply map_filter_ext. intros k w _. simpl. rewrite elem_of_cons. naive_solver. }
  rewrite size_filter_or by naive_solver. rewrite zlen_cons.
  specialize (IH ltac:(intros w Hw; apply Hl; by apply list_elem_of_further)).
  specialize (Hl v ltac:(apply list_elem_of_here)). unfold proposals in Hl. lia.
Qed.

Lemma size_window {A} (m : gmap Z A) lo hi :
  lo <= hi → (∀ k, is_Some (m !! k) → lo < k <= hi) → Z.of_nat (size m) <= hi - lo.
Proof.
  intros Hlh Hk. rewrite <- (size_dom (D := gset Z)).
  assert (dom m ⊆@{gset Z} list_to_set (seqZ (lo + 1) (hi - lo))) as Hsub.
  { intros k Hin%elem_of_dom%Hk. rewrite elem_of_list_to_set, elem_of_seqZ. lia. }
  apply subseteq_size in Hsub. rewrite size_list_to_set, length_seqZ in Hsub by apply NoDup_seqZ. lia.
Qed.

Lemma recent_signers_few s :
  snap_wf s → limit_inv s → NoDup (validators s) → 0 ∉ validators s →
  zlen (filter (λ v, sign_recently s v = true) (validators s)) <= zlen (validators s) / 2.
Proof.
  intros Hwf Hli Hnd H0. destruct (mhcl_small s Hwf) as [Em Hm].
  pose proof (wf_turn s Hwf) as Ht. pose proof (wf_number s Hwf) as Hu. unfold is_u64 in Hu.
  set (l := filter (λ v, sign_recently s v = true) (validators s)).
  assert (default 1 (turn_length s) * zlen l <=
    Z.of_nat (size (filter (λ p : Z * Z, left_bound s < p.1 ∧ p.2 ∈ l) (recent_proposers s)))) as Hle.
  { apply distinct_signers_entries; [by apply NoDup_filter|].
    intros v [Hs Hv]%list_elem_of_filter. apply sign_recently_spec in Hs; [naive_solver|].
    pose proof (li_turn s Hli v ltac:(congruence)). lia. }
  assert (Z.of_nat (size (filter (λ p : Z * Z, left_bound s < p.1 ∧ p.2 ∈ l) (recent_proposers s)))
            <= block_number s - left_bound s) as Hsize.
  { apply size_window; [unfold left_bound; case_if; split_tests; lia|].
    intros k [w [Hk [Hlt Hw]]%map_lookup_filter_Some]. simpl in *.
    apply list_elem_of_filter in Hw as [_ Hw].
    pose proof (li_past s Hli k w Hk ltac:(congruence)). lia. }
  assert (block_number s - left_bound s <= miner_history_check_len s).
  { unfold left_bound. case_if; split_tests; lia. }
  pose proof (zlen_nonneg l). nia.
Qed.

(** ** Claims on reachable snapshots *)

Section Claims.
Context `{F : ForkConditionApi, HashApi, HexApi}.
Implicit Types (s snap : Snapshot) (h : Header) (spec : ChainSpec).

(** C1: every snapshot the program can build is well formed: sorted non-empty
    validators, a validator map that records exactly the members with their
    1-based sorted positions, positive epoch and turn lengths; and no validator
    has more blocks in the signing window than its turn length, which also
    keeps the u8 counters of [count_recent_proposers] from wrapping. *)
Theorem reachable_invariant spec b s :
  reachable spec b s → snap_wf s ∧ limit_inv s.
Proof. intros Hr. by destruct (reachable_inv spec b s Hr) as (? & ? & _). Qed.

(** The acceptance condition on any snapshot satisfying the invariants. *)
Lemma apply_accepts s v h nv va att tl spec :
  snap_wf s → limit_inv s → block_number s < u64_max → set_args_ok nv va tl →
  apply s v h nv va att tl spec ≠ Panics ∧
  ((∃ s', apply s v h nv va att tl spec = Done s') ↔
   number h = block_number s + 1 ∧ parent_hash h = block_hash s ∧
   v ∈ validators s ∧ may_sign s (is_bohr_at spec h) (number h) v).
Proof.
  intros Hwf Hli Hmax (Hn & Hva & Htl).
  pose proof (wf_number s Hwf) as Hu. unfold is_u64, u64_max in *.
  assert (Hgo : number h = block_number s + 1 → parent_hash h = block_hash s →
    apply s v h nv va att tl spec ≠ Panics ∧
    ((∃ s', apply s v h nv va att tl spec = Done s') ↔
     v ∈ validators s ∧ may_sign s (is_bohr_at spec h) (number h) v)).
  { intros En Eh. destruct (apply_eq s v h nv va att tl spec (wf_epoch s Hwf)) as (snap & Hs & ->).
    rewrite add64_small, <- En, Z.eqb_refl, <- Eh, Z.eqb_refl by lia. cbn [andb negb].
    destruct (check_proposer_spec s h snap v (is_bohr_at spec h) Hwf Hli ltac:(lia) Hs) as [Hc Hnp].
    rewrite <- Hc. destruct (check_proposer snap v _) as [[]|[]|]; cbn [mbind exec_bind]; [|naive_solver|done].
    cbv zeta. case_if; [|naive_solver].
    edestruct (switch_validators_total s) as [s' ->]; [exact Hva|]. naive_solver. }
  destruct (decide (number h = block_number s + 1 ∧ parent_hash h = block_hash s)) as [[En Eh]|Hno].
  - destruct (Hgo En Eh) as [? ->]. naive_solver.
  - destruct (apply_eq s v h nv va att tl spec (wf_epoch s Hwf)) as (snap & Hs & ->).
    rewrite add64_small by lia.
    replace ((block_number s + 1 =? number h) && (block_hash s =? parent_hash h)) with false
      by (symmetry; apply andb_false_iff; rewrite !Z.eqb_neq; lia).
    naive_solver.
Qed.

(** C2: [apply] never panics on a reachable snapshot, and it accepts a block
    exactly when it extends the snapshot's block, its proposer is a validator,
    and the proposer has signed less than its turn in the window (from Bohr), or
    does not occur in the history at all (before Bohr). *)
Theorem apply_accepts_iff spec b s v h nv va att tl :
  reachable spec b s → block_number s < u64_max → set_args_ok nv va tl →
  apply s v h nv va att tl spec ≠ Panics ∧
  ((∃ s', apply s v h nv va att tl spec = Done s') ↔
   number h = block_number s + 1 ∧ parent_hash h = block_hash s ∧
   v ∈ validators s ∧ may_sign s (is_bohr_at spec h) (number h) v).
Proof. intros (? & ? & _)%reachable_inv ? ?. by apply apply_accepts. Qed.

(** C9: the check made before a block is built or verified
    ([parent_snap.sign_recently]) is enough: from Bohr on, a validator that
    passes it on the parent snapshot is never rejected by [apply]. *)
Theorem parent_check_suffices spec b s v h nv va att tl :
  reachable spec b s → block_number s < u64_max → set_args_ok nv va tl →
  is_bohr_at spec h = true → number h = block_number s + 1 → parent_hash h = block_hash s →
  v ∈ validators s → sign_recently s v = false →
  ∃ s', apply s v h nv va att tl spec = Done s'.
Proof.
  intros (Hwf & Hli & _)%reachable_inv Hmax Hargs Hb Hn Hh Hv Hs.
  apply apply_accepts; try done. rewrite Hb. split_and!; try done. intros Hv0.
  pose proof (li_turn s Hli v Hv0) as Hle. pose proof (wf_turn s Hwf).
  assert (proposals (recent_proposers s) v (window_start s (number h)) <=
          proposals (recent_proposers s) v (left_bound s)).
  { apply proposals_mono; [|done]. apply (window_start_mono s (block_number s)). lia. }
  apply Z.nle_gt. intros ?. apply not_true_iff_false in Hs. apply Hs, sign_recently_spec; [lia|].
  split_and!; [done|lia|lia].
Qed.

(** C8: the signing limit never stops the chain: on a reachable snapshot with
    distinct validators at least half of them (rounded up) may sign next. *)
Theorem half_may_sign spec b s :
  reachable spec b s → NoDup (validators s) → 0 ∉ validators s →
  zlen (validators s) - zlen (validators s) / 2 <=
    zlen (filter (λ v, sign_recently s v = false) (validators s)).
Proof.
  intros (Hwf & Hli & _)%reachable_inv Hnd Hz.
  pose proof (recent_signers_few s Hwf Hli Hnd Hz) as Hfew.
  enough (zlen (filter (λ v, sign_recently s v = true) (validators s)) +
          zlen (filter (λ v, sign_recently s v = false) (validators s)) = zlen (validators s)) by lia.
  clear. induction (validators s) as [|v l IH]; [done|].
  rewrite !filter_cons. destruct (sign_recently s v); simpl;
    repeat case_decide; try done; rewrite !zlen_cons; lia.
Qed.
End Claims.

(** ** Turns *)

Lemma inturn_validator_eq s :
  snap_wf s → block_number s < u64_max →
  ∃ v, inturn_validator s = Done v ∧
    validators s !! Z.to_nat (((block_number s + 1) / default 1 (turn_length s)) mod zlen (validators s))
      = Some v.
Proof.
  intros Hwf Hmax. pose proof (wf_turn s Hwf). pose proof (wf_number s Hwf) as Hu.
  unfold is_u64, u64_max in *. unfold inturn_validator, DEFAULT_TURN_LENGTH.
  rewrite add64_small by lia. unfold rdiv, rmod.
  assert (0 < zlen (validators s)).
  { pose proof (wf_nonempty s Hwf). destruct (validators s); [done|]. rewrite zlen_cons.
    pose proof (zlen_nonneg l). lia. }
  rewrite (proj2 (Z.eqb_neq (default 1 (turn_length s)) 0)) by lia. cbn [mbind exec_bind].
  rewrite (proj2 (Z.eqb_neq _ 0)) by lia. cbn [mbind exec_bind].
  destruct (index_ok (E := unit) (validators s)
    (((block_number s + 1) / default 1 (turn_length s)) mod zlen (validators s))) as (v & Hi & Hl).
  { by apply Z.mod_pos_bound. }
  eauto.
Qed.

(** The turns rotate through the sorted validators: from a height that is a
    multiple of [validators * turn_length], block [base + i] is the turn of the
    validator at position [i / turn_length], so that each validator gets its
    [turn_length] consecutive blocks, in order, and nobody else does. *)
Theorem turn_rotation s base i :
  snap_wf s → block_number s < u64_max →
  base mod (zlen (validators s) * default 1 (turn_length s)) = 0 →
  0 <= i < zlen (validators s) * default 1 (turn_length s) →
  block_number s + 1 = base + i →
  ∃ v, inturn_validator s = Done v ∧
       validators s !! Z.to_nat (i / default 1 (turn_length s)) = Some v ∧
       (NoDup (validators s) → ∀ w,
          is_inturn s w = Done true ↔
            ∃ j, validators s !! j = Some w ∧
                 Z.of_nat j * default 1 (turn_length s) <= i < (Z.of_nat j + 1) * default 1 (turn_length s)).
Proof.
  intros Hwf Hmax Hbase Hi Hb. destruct (inturn_validator_eq s Hwf Hmax) as (v & Hv & Hl).
  pose proof (wf_turn s Hwf) as Ht. set (t := default 1 (turn_length s)) in *.
  set (n := zlen (validators s)) in *.
  assert (((block_number s + 1) / t) mod n = i / t) as E.
  { rewrite Hb. apply Z.div_exact in Hbase; [|lia]. rewrite Hbase.
    replace (n * t * (base / (n * t)) + i) with (i + (n * (base / (n * t))) * t) by lia.
    rewrite Z.div_add by lia. rewrite Z.add_comm, Z.mul_comm, Z.add_comm, Z.mod_add by lia.
    apply Z.mod_small. split; [apply Z.div_pos; lia|]. apply Z.div_lt_upper_bound; lia. }
  rewrite E in Hl. exists v. split; [done|]. split; [done|]. intros Hnd w.
  unfold is_inturn. rewrite Hv. cbn [mbind exec_bind].
  assert (0 <= i / t) by (apply Z.div_pos; lia).
  pose proof (Z.div_mod i t ltac:(lia)). pose proof (Z.mod_pos_bound i t ltac:(lia)).
  split.
  - intros [= <-%Z.eqb_eq]. exists (Z.to_nat (i / t)). split; [done|]. nia.
  - intros (j & Hj & Hr). f_equal. apply Z.eqb_eq.
    assert (Z.of_nat j = i / t) as Ej by nia.
    replace (Z.to_nat (i / t)) with j in Hl by lia. congruence.
Qed.

Lemma div_step b t :
  0 < t →
  (b + 1) / t = b / t + (if b mod t =? t - 1 then 1 else 0) ∧
  ((b + 1) mod t =? 0) = (b mod t =? t - 1).
Proof.
  intros Ht. pose proof (Z.div_mod b t ltac:(lia)). pose proof (Z.mod_pos_bound b t ltac:(lia)).
  destruct (Z.eqb_spec (b mod t) (t - 1)) as [E|E].
  - assert ((b + 1) = (b / t + 1) * t) as -> by lia. rewrite Z.div_mul, Z.mod_mul by lia. lia.
  - assert ((b + 1) / t = b / t) as Ed.
    { symmetry. apply (Z.div_unique _ _ _ (b mod t + 1)); lia. }
    rewrite Ed. split; [lia|]. apply Z.eqb_neq. pose proof (Z.div_mod (b + 1) t ltac:(lia)). lia.
Qed.

Lemma mod_succ_neq q n : 1 < n → (q + 1) mod n ≠ q mod n.
Proof.
  intros Hn E. pose proof (Z.mod_pos_bound q n ltac:(lia)).
  rewrite Z.add_mod, (Z.mod_small 1) in E by lia.
  destruct (Z.eq_dec (q mod n) (n - 1)) as [E'|E'].
  - rewrite E' in E. replace (n - 1 + 1) with (1 * n) in E by lia. rewrite Z.mod_mul in E by lia. lia.
  - rewrite (Z.mod_small (_ + 1)) in E by lia. lia.
Qed.

(** With several distinct validators the proposer in turn changes exactly
    after the blocks for which [last_block_in_one_turn] holds, and
    [first_block_in_one_turn] holds of the next block. *)
Theorem turn_boundary s s' :
  snap_wf s → snap_wf s' → same_set s s' → NoDup (validators s) → 1 < zlen (validators s) →
  block_number s' = block_number s + 1 → block_number s' < u64_max →
  (inturn_validator s ≠ inturn_validator s' ↔ last_block_in_one_turn s (block_number s + 1) = true) ∧
  first_block_in_one_turn s (block_number s + 2) = last_block_in_one_turn s (block_number s + 1).
Proof.
  intros Hwf Hwf' [Ev _ Et] Hnd Hn Hb Hmax.
  destruct (inturn_validator_eq s Hwf ltac:(lia)) as (v & -> & Hv).
  destruct (inturn_validator_eq s' Hwf' Hmax) as (v' & -> & Hv').
  rewrite Ev, Et, Hb in Hv'. replace (block_number s + 2) with (block_number s + 1 + 1) by lia.
  unfold last_block_in_one_turn, first_block_in_one_turn, DEFAULT_TURN_LENGTH, is_multiple_of.
  pose proof (wf_turn s Hwf) as Ht.
  clear Et Hb. generalize dependent (default 1 (turn_length s)). intros t Hv Hv' Ht.
  generalize dependent (block_number s + 1). intros b Hv Hv'.
  destruct (div_step b t ltac:(lia)) as [Hd Hm]. rewrite Hd in Hv'. rewrite Hm.
  assert (Hneq : v ≠ v' ↔ (b mod t =? t - 1) = true).
  { destruct (b mod t =? t - 1).
    - split; [done|]. intros _ ->. pose proof (NoDup_lookup _ _ _ _ Hnd Hv Hv') as E.
      apply Z2Nat.inj in E; [|apply Z.mod_pos_bound; lia..]. by eapply mod_succ_neq.
    - rewrite Z.add_0_r in Hv'. split; [|done]. congruence. }
  rewrite (proj2 (Z.eqb_neq t 0)) by lia. destruct (Z.leb_spec t 1) as [H1|H1].
  - assert (t = 1) as -> by lia. rewrite Z.mod_1_r in Hneq. simpl in Hneq. naive_solver congruence.
  - split; [|done]. rewrite <- Hneq. naive_solver congruence.
Qed.

(** ** Finality, epochs and the validator set *)

Section MoreClaims.
Context `{F : ForkConditionApi, HashApi, HexApi}.
Implicit Types (s snap : Snapshot) (h : Header) (spec : ChainSpec).

Lemma slid_of s h snap : slide_windows s h = Done snap →
  vote_data snap = vote_data s ∧ epoch_num snap = epoch_num s ∧ same_set s snap.
Proof.
  intros Hs. destruct (slide_windows_Done s h) as (? & Hs' & ? & _ & _ & ? & ? & _).
  rewrite Hs in Hs'. by injection Hs' as <-.
Qed.

Lemma record_block_vote_data snap v h att spec :
  vote_data (record_block snap v h att spec) = vote_data (update_attestation snap spec h att).
Proof. unfold record_block, update_interval, clear_finalized. repeat case_match; done. Qed.

Lemma update_attestation_vote_data s s' spec h att :
  vote_data s = vote_data s' →
  vote_data (update_attestation s spec h att) = vote_data (update_attestation s' spec h att).
Proof. intros E. unfold update_attestation. rewrite E. repeat case_match; done. Qed.

Lemma apply_vote_data s v h nv va att tl spec s' :
  snap_wf s → apply s v h nv va att tl spec = Done s' →
  vote_data s' = vote_data (update_attestation s spec h att).
Proof.
  intros Hwf Ha. apply apply_Done in Ha as (_ & _ & snap & Hs & _ & Hcase); [|by apply wf_epoch].
  assert (vote_data s' = vote_data (advanced snap v h att spec)) as ->.
  { destruct Hcase as [->|[_ Hsw]]; [done|]. by apply switch_validators_Done in Hsw as (_&_&_&_&_&_&?&_). }
  unfold advanced. destruct (update_epoch_num_same (record_block snap v h att spec)
    (is_maxwell_active_at_timestamp spec (number h) (timestamp h))
    (is_lorentz_active_at_timestamp spec (number h) (timestamp h)) (number h)) as (_&_&_&_&->).
  rewrite record_block_vote_data. by apply update_attestation_vote_data, (slid_of s h snap).
Qed.

(** The source (the finalized checkpoint) of the snapshot's vote data only
    moves to the source of the block's attestation, which justifies the direct
    child of that source unless there was no attestation before; before Fermi
    the attested target is the parent of the block. *)
Theorem finality_needs_consecutive s v h nv va att tl spec s' :
  snap_wf s → apply s v h nv va att tl spec = Done s' →
  source_number (vote_data s') ≠ source_number (vote_data s) →
  ∃ a, att = Some a ∧ vote_data s' = att_data a ∧
    (add64 (source_number (att_data a)) 1 = target_number (att_data a) ∨ vote_data s = VoteData_default) ∧
    (is_fermi_active_at_timestamp spec (number h) (timestamp h) = false →
       add64 (target_number (att_data a)) 1 = number h ∧ target_hash (att_data a) = parent_hash h).
Proof.
  intros Hwf Ha. rewrite (apply_vote_data _ _ _ _ _ _ _ _ _ Hwf Ha).
  unfold update_attestation. destruct att as [a|]; [|done].
  case_if; [done|]. case_if; [done|]. simpl. intros _. exists a.
  split_and!; [done|done| |].
  - apply andb_false_iff in Eif0 as [E|E]; [|split_tests; by left].
    right. split_tests. destruct (vote_data s) as [sn sh tn th]. simpl in *. unfold VoteData_default. congruence.
  - intros Hf. rewrite Hf in Eif. simpl in Eif. split_tests. done.
Qed.

Lemma advanced_maxwell_cleared snap v h att spec k w :
  is_maxwell_active_at_timestamp spec (number h) (timestamp h) = true →
  recent_proposers (advanced snap v h att spec) !! k = Some w →
  get_finalized_number (advanced snap v h att spec) < k.
Proof.
  intros Hm. unfold advanced. rewrite Hm.
  destruct (update_epoch_num_same (record_block snap v h att spec) true
    (is_lorentz_active_at_timestamp spec (number h) (timestamp h)) (number h)) as (_&_&_&Er&Ev).
  unfold get_finalized_number. rewrite Er, Ev. unfold record_block. rewrite Hm.
  unfold update_interval, clear_finalized. repeat case_match; simpl;
    intros [_ Hk]%map_lookup_filter_Some; unfold get_finalized_number in Hk; simpl in Hk;
    repeat case_match; lia.
Qed.

(** From Maxwell on (BEP-524) no proposer of a finalized block is left in
    the history: every entry but the epoch marker lies above the finalized
    block of the new snapshot. *)
Theorem maxwell_clears_finalized s v h nv va att tl spec s' k w :
  snap_wf s → apply s v h nv va att tl spec = Done s' →
  is_bohr_at spec h = true → is_maxwell_active_at_timestamp spec (number h) (timestamp h) = true →
  recent_proposers s' !! k = Some w → w ≠ 0 → get_finalized_number s' < k.
Proof.
  intros Hwf Ha Hb Hm Hk Hw.
  apply apply_Done in Ha as (_ & _ & snap & Hs & _ & Hcase); [|by apply wf_epoch].
  destruct Hcase as [->|[_ Hsw]].
  - by eapply advanced_maxwell_cleared.
  - apply (switch_recent _ _ _ _ _ _ _ _ _ _ _ Hsw) in Hk. rewrite Hb in Hk. by destruct Hk.
Qed.

(** The epoch length in force after the block [h] on top of length [e]. *)
Definition next_epoch_length spec h (e : Z) : Z :=
  let lorentz := is_lorentz_active_at_timestamp spec (number h) (timestamp h) in
  let maxwell := is_maxwell_active_at_timestamp spec (number h) (timestamp h) in
  let e := if decide (e = 200 ∧ lorentz = true ∧ (number h + 1) mod 500 = 0) then 500 else e in
  if decide (e = 500 ∧ maxwell = true ∧ (number h + 1) mod 1000 = 0) then 1000 else e.

(** The epoch length grows 200, 500, 1000 and only on a block whose
    successor is a boundary of the longer epoch, so that the first block of the
    new length is an epoch block; it never shrinks. *)
Theorem epoch_schedule s v h nv va att tl spec s' :
  snap_wf s → block_number s < u64_max - 1 → apply s v h nv va att tl spec = Done s' →
  epoch_num s' = next_epoch_length spec h (epoch_num s) ∧ epoch_num s <= epoch_num s' ∧
  (epoch_num s' ≠ epoch_num s → (number h + 1) mod epoch_num s' = 0).
Proof.
  intros Hwf Hmax Ha.
  apply apply_Done in Ha as (Hn & _ & snap & Hs & _ & Hcase); [|by apply wf_epoch].
  pose proof (wf_number s Hwf) as Hu. unfold is_u64, u64_max in *. rewrite add64_small in Hn by lia.
  destruct (slid_of _ _ _ Hs) as (_ & Ee & _).
  destruct (record_block_same snap v h att spec) as (_ & _ & _ & Er).
  assert (epoch_num s' = next_epoch_length spec h (epoch_num s)) as E.
  { assert (epoch_num s' = epoch_num (advanced snap v h att spec)) as ->.
    { destruct Hcase as [->|[_ Hsw]]; [done|]. by apply switch_validators_Done in Hsw as (_&_&_&?&_). }
    unfold advanced, update_epoch_num, next_epoch_length. rewrite add64_small by lia.
    unfold is_multiple_of, DEFAULT_EPOCH_LENGTH, LORENTZ_EPOCH_LENGTH, MAXWELL_EPOCH_LENGTH. simpl (_ =? 0).
    cbv zeta. rewrite Er, Ee.
    destruct (is_lorentz_active_at_timestamp spec _ _), (is_maxwell_active_at_timestamp spec _ _);
      repeat (case_decide || case_if); simpl in *; rewrite ?Er, ?Ee in *; split_tests; try lia. }
  split; [done|]. rewrite E. unfold next_epoch_length. cbv zeta.
  repeat case_decide; split; try lia; naive_solver.
Qed.

(** When a set of distinct validators with vote addresses is installed, the
    snapshot lists it sorted, and each validator keeps its own vote address
    through the sort, beside its 1-based sorted position. *)
Theorem switch_keeps_vote_addresses s v h nv vas att tl spec s' i w a :
  snap_wf s → NoDup nv → apply s v h nv (Some vas) att tl spec = Done s' →
  validators s' = validators s ∨
  (validators s' = sort_Z nv ∧
   (nv !! i = Some w → vas !! i = Some a →
    ∃ info, validators_map s' !! w = Some info ∧ vote_addr info = a ∧
            validators s' !! Z.to_nat (index_of_info info - 1) = Some w)).
Proof.
  intros Hwf Hnd Ha. pose proof (apply_fields _ _ _ _ _ _ _ _ _ Hwf Ha) as (_ & _ & Hv).
  apply apply_Done in Ha as (_ & _ & snap & Hs & _ & Hcase); [|by apply wf_epoch].
  destruct Hcase as [->|[_ Hsw]].
  { left. destruct (slid_of _ _ _ Hs) as (_ & _ & [E _ _]).
    destruct (advanced_same snap v h att spec) as ([E' _ _] & _). congruence. }
  right. pose proof (switch_validators_Done _ _ _ _ _ _ _ _ _ Hsw) as (Ev & Hmi & _).
  split; [done|]. intros Hi Hva. unfold switch_validators in Hsw.
  apply bind_Done in Hsw as ([vs m] & Hiv & E).
  destruct (index_validators_vote_addr _ _ _ _ _ _ _ Hnd Hiv Hi Hva) as (info & Hm & Hinfo).
  injection E as <-. exists info. split; [done|]. split; [done|]. by apply (mi_index _ _ Hmi).
Qed.
End MoreClaims.

(** ** Fork hashes and a change of the set *)

Section ForkHashes.
Context `{F : ForkConditionApi, HashApi, HexApi}.
Implicit Types (s snap : Snapshot) (h : Header) (spec : ChainSpec).

Lemma advanced_fork_hashes snap v h att spec :
  recent_fork_hashes (advanced snap v h att spec) = recent_fork_hashes snap.
Proof.
  unfold advanced, update_epoch_num, record_block, update_interval, clear_finalized, update_attestation.
  repeat case_match; done.
Qed.

(** A change of the validator set that keeps the turn length removes no
    fork hash at all, however much smaller the new set is: the new length of the
    version window is taken from the snapshot before the new validators are
    stored in it, so it always equals the old one. *)
Theorem set_change_keeps_fork_hashes s v h nv va att spec s' snap :
  snap_wf s → slide_windows s h = Done snap →
  apply s v h nv va att None spec = Done s' →
  recent_fork_hashes s' = recent_fork_hashes snap.
Proof.
  intros Hwf Hs Ha. apply apply_Done in Ha as (_ & _ & ? & Hs' & _ & Hcase); [|by apply wf_epoch].
  rewrite Hs in Hs'. injection Hs' as <-. destruct Hcase as [->|[_ Hsw]]; [apply advanced_fork_hashes|].
  unfold switch_validators in Hsw. apply bind_Done in Hsw as ([vs m] & _ & E).
  destruct (slid_of _ _ _ Hs) as (_ & _ & [Ev _ Et]).
  destruct (advanced_same snap v h att spec) as ([Ev' _ Et'] & _).
  assert (Hlen : version_history_check_len (advanced snap v h att spec) = version_history_check_len s).
  { unfold version_history_check_len. congruence. }
  assert (Hrp : ∀ m' x, version_history_check_len (with_recent_proposers m' x) = version_history_check_len x) by done.
  apply (f_equal (λ r, match r with Done x => recent_fork_hashes x | _ => ∅ end)) in E. cbv beta iota zeta in E.
  rewrite <- E. destruct (is_bohr_at spec h); [|destruct (zlen nv / 2 + 1 <? _)]; rewrite ?Hrp, Hlen, Z.ltb_irrefl;
    apply advanced_fork_hashes.
Qed.
End ForkHashes.

(** ** Witnesses: a short chain on mainnet's schedule *)

Module DemoChain.
Import ThresholdForks DemoApis.

(** After London (block 31,302,048) and Bohr (1727317200). *)
Definition top : Z := 45000000.
Definition bohr_time : Z := 1727400000.

Definition get_done {E A} (d : A) (m : exec E A) : A := match m with Done a => a | _ => d end.
Definition no_snapshot : Snapshot :=
  {| epoch_num := 0; block_number := 0; block_hash := 0; validators := []; validators_map := ∅;
     recent_proposers := ∅; vote_data := VoteData_default; turn_length := None; block_interval := 0;
     recent_fork_hashes := ∅ |}.

Definition s0 : Snapshot :=
  get_done no_snapshot (snapshot_new [30; 10; 20] top (7000 + top) 200 (Some [3; 1; 2])).
(** Block [top + 1] of validator 20. *)
Definition h1 : Header := demo_header (top + 1) bohr_time.
Definition s1 : Snapshot := get_done no_snapshot (apply s0 20 h1 [] None None None mainnet).
Definition h2 : Header := demo_header (top + 2) bohr_time.

Lemma no_args : set_args_ok [] None None.
Proof. split_and!; done. Qed.

Lemma s0_reachable : reachable mainnet false s0.
Proof.
  apply (reach_new _ [30; 10; 20] top (7000 + top) 200 (Some [3; 1; 2]));
    [done|done|unfold is_u64, top; lia|lia|by vm_compute].
Qed.

Lemma s1_reachable : reachable mainnet true s1.
Proof.
  change true with (is_bohr_at mainnet h1).
  apply (reach_apply _ false s0 20 h1 [] None None None s1);
    [apply s0_reachable|by vm_compute|apply no_args|done|by vm_compute].
Qed.

Lemma s1_wf : snap_wf s1 ∧ limit_inv s1.
Proof. by destruct (reachable_inv _ _ _ s1_reachable) as (? & ? & _). Qed.

Lemma reachable_invariant_witness :
  map_to_list (recent_proposers s1) = [(top + 1, 20)] ∧ snap_wf s1 ∧ limit_inv s1.
Proof. split; [by vm_compute|]. apply (reachable_invariant mainnet true s1), s1_reachable. Defined.

(** Validator 10 may sign the next block, 99 is not a validator. *)
Lemma apply_accepts_iff_witness :
  exec_ok (apply s1 99 h2 [] None None None mainnet) = false ∧
  exec_ok (apply s1 10 h2 [] None None None mainnet) = true ∧
  apply s1 99 h2 [] None None None mainnet ≠ Panics.
Proof.
  split; [by vm_compute|]. split; [by vm_compute|].
  apply (apply_accepts_iff mainnet true s1 99 h2 [] None None None);
    [apply s1_reachable|by vm_compute|apply no_args].
Defined.

Lemma parent_check_suffices_witness :
  ∃ s', apply s1 10 h2 [] None None None mainnet = Done s'.
Proof.
  apply (parent_check_suffices mainnet true s1 10 h2 [] None None None);
    [apply s1_reachable|by vm_compute|apply no_args|by vm_compute|by vm_compute|by vm_compute| |by vm_compute].
  apply (bool_decide_unpack _). by vm_compute.
Defined.

Lemma half_may_sign_witness :
  validators s1 = [10; 20; 30] ∧
  2 <= zlen (filter (λ v, sign_recently s1 v = false) (validators s1)).
Proof.
  split; [by vm_compute|].
  apply (half_may_sign mainnet true s1); [apply s1_reachable| |].
  - apply (bool_decide_unpack _). by vm_compute.
  - apply (bool_decide_unpack _). by vm_compute.
Defined.

(** 45,000,000 is a multiple of 3: block [top + 2] is the turn of the third. *)
Lemma turn_rotation_witness : inturn_validator s1 = Done 30.
Proof.
  destruct (turn_rotation s1 top 2) as (v & E & Hv & _);
    [apply s1_wf|by vm_compute|by vm_compute|by vm_compute|by vm_compute|].
  vm_compute in Hv. injection Hv as <-. exact E.
Defined.

Lemma turn_boundary_witness :
  inturn_validator s0 ≠ inturn_validator s1 ↔ last_block_in_one_turn s0 (block_number s0 + 1) = true.
Proof.
  apply (turn_boundary s0 s1);
    [by destruct (reachable_inv _ _ _ s0_reachable)|apply s1_wf|by split; vm_compute| |
     by vm_compute|by vm_compute|by vm_compute].
  apply (bool_decide_unpack _). by vm_compute.
Defined.

(** Validator 20 signed the last block and [sign_recently] says so, yet [apply]
    accepts its next block: the window of [apply] starts one block later. *)
Theorem apply_looser_than_parent_check :
  reachable mainnet true s1 ∧ is_bohr_at mainnet h2 = true ∧
  sign_recently s1 20 = true ∧ exec_ok (apply s1 20 h2 [] None None None mainnet) = true.
Proof. split; [apply s1_reachable|]. by vm_compute. Qed.

(** Maxwell is active at 1752000000; the next block number is 60,000,000. *)
Definition maxwell_time : Z := 1752000000.
Definition m0 : Snapshot :=
  get_done no_snapshot (snapshot_new [30; 10; 20] 59999998 (7000 + 59999998) 500 (Some [3; 1; 2])).
Definition mh : Header := demo_header 59999999 maxwell_time.
Definition m_att : VoteAttestation :=
  {| vote_address_set := 7; agg_signature := 0; att_extra := [];
     att_data := {| source_number := 59999997; source_hash := 1; target_number := 59999998;
                    target_hash := 7000 + 59999998 |} |}.
(** The block also installs a set of one validator. *)
Definition m1 : Snapshot := get_done no_snapshot (apply m0 20 mh [40] (Some [4]) (Some m_att) None mainnet).
(** The same block without a new set. *)
Definition m1' : Snapshot := get_done no_snapshot (apply m0 20 mh [] None (Some m_att) None mainnet).

Lemma m0_wf : snap_wf m0.
Proof.
  apply (snapshot_new_wf [30; 10; 20] 59999998 (7000 + 59999998) 500 (Some [3; 1; 2]));
    [done|done|unfold is_u64; lia|lia|by vm_compute].
Qed.

Lemma finality_needs_consecutive_witness :
  get_finalized_number m1 = 59999997 ∧
  ∃ a, Some m_att = Some a ∧ vote_data m1 = att_data a.
Proof.
  split; [by vm_compute|].
  destruct (finality_needs_consecutive m0 20 mh [40] (Some [4]) (Some m_att) None mainnet m1)
    as (a & E & Hv & _); [apply m0_wf|by vm_compute|by vm_compute|].
  exact (ex_intro _ a (conj E Hv)).
Defined.

Lemma maxwell_clears_finalized_witness :
  get_finalized_number m1' < 59999999.
Proof.
  apply (maxwell_clears_finalized m0 20 mh [] None (Some m_att) None mainnet m1' 59999999 20);
    [apply m0_wf|by vm_compute..].
Defined.

Lemma epoch_schedule_witness : epoch_num m0 = 500 ∧ epoch_num m1 = 1000 ∧ (number mh + 1) mod epoch_num m1 = 0.
Proof.
  split; [by vm_compute|]. split; [by vm_compute|].
  apply (epoch_schedule m0 20 mh [40] (Some [4]) (Some m_att) None mainnet m1);
    [apply m0_wf|by vm_compute..].
Defined.

Lemma switch_keeps_vote_addresses_witness :
  ∃ info, validators_map m1 !! 40 = Some info ∧ vote_addr info = 4.
Proof.
  destruct (switch_keeps_vote_addresses m0 20 mh [40] [4] (Some m_att) None mainnet m1 0 40 4)
    as [E|[_ Hi]]; [apply m0_wf|apply NoDup_singleton|by vm_compute|by vm_compute in E|].
  destruct (Hi eq_refl eq_refl) as (info & Hm & Ha & _).
  exact (ex_intro _ info (conj Hm Ha)).
Defined.

(** Three validators, turn 1: the window holds three hashes.  The set shrinks to
    one validator (a window of one block), and all three hashes stay. *)
Definition f0 : Snapshot :=
  with_recent_fork_hashes {[ 59999996 := "a"; 59999997 := "b"; 59999998 := "c" ]}%string m0.
Definition f_snap : Snapshot := get_done no_snapshot (slide_windows f0 mh).
Definition f1 : Snapshot := get_done no_snapshot (apply f0 20 mh [40] (Some [4]) None None mainnet).

Lemma set_change_keeps_fork_hashes_witness :
  version_history_check_len f0 = 3 ∧ version_history_check_len f1 = 1 ∧
  size (recent_fork_hashes f1) = 3%nat ∧
  recent_fork_hashes f1 = recent_fork_hashes f_snap.
Proof.
  split; [by vm_compute|]. split; [by vm_compute|]. split; [by vm_compute|].
  apply (set_change_keeps_fork_hashes f0 20 mh [40] (Some [4]) None mainnet f1 f_snap);
    [|by vm_compute|by vm_compute].
  destruct m0_wf. split; done.
Defined.
End DemoChain.
