(* ===== verification/Extra.v ===== *)
(** * Extra: the layout of the header's extra data

    Models the parts of [src/consensus/parlia/consensus.rs] that read and write
    the extra data of a header:

      vanity (32) | [count (1) | validators (20 or 68 each) | turn length (1)] | [attestation] | seal (65)

    (the middle part on epoch blocks, the count from Luban on, the turn length
    from Bohr on, the attestation from Luban on), with the errors of
    [error.rs].  Addresses and vote addresses are the big-endian numbers of
    their 20 and 48 bytes.  The RLP coding of an attestation is code of another
    crate and a parameter. *)

From stdpp Require Import base tactics numbers option list sorting gmap.
From Stdlib Require Import ZArith Lia Bool.
From S2P Require Import Prelude.
From S2P Require Import Hardforks.
From S2P Require Import Header.
From S2P Require Import Snapshot.

Inductive ParliaConsensusError : Set :=
| ExtraVanityMissing
| ExtraSignatureMissing
| InvalidHeaderExtraLen (header_extra_len : Z)
| InvalidHeaderExtraValidatorBytesLen (is_epoch : bool) (validator_bytes_len : Z)
| InvalidHeaderExtra
| HeaderNotFound (block_hash : Z)
| SnapshotNotFound (block_hash : Z)
| NotInEpoch (block_number : Z)
| RecoverECDSAInnerError
| ExtraInvalidTurnLength
| ExtraInvalidAttestation
| FetchVoteError (address : Z)
| AggregateSignatureError
| InvalidAttestationVoteCount (got expected : Z)
| TurnLengthNotFound (block_hash : Z).

#[export] Instance ParliaConsensusError_eq_dec : EqDecision ParliaConsensusError.
Proof. solve_decision. Defined.

Definition ADDRESS_LENGTH : Z := 20.

(** [alloy_rlp::encode(&attestation)] and [Decodable::decode]. *)
Class AttestationRlp := {
  encode_attestation : VoteAttestation → bytes;
  decode_attestation : bytes → option VoteAttestation;
}.

(** The coding is invertible and never empty (an RLP list has a header byte). *)
Class AttestationRlpLaws (A : AttestationRlp) := {
  decode_encode_attestation a : decode_attestation (encode_attestation a) = Some a;
  encode_attestation_nonempty a : 0 < zlen (encode_attestation a);
}.

(** [ValidatorsInfo] of [provider.rs]. *)
Record ValidatorsInfo := {
  consensus_addrs : list Z;
  vote_addrs : option (list Z);
}.

Section Parlia.
Context `{F : ForkConditionApi}.

Record Parlia := {
  parlia_spec : ChainSpec;
  parlia_epoch : Z;
}.

Implicit Types (self : Parlia) (header new_header : Header).

Definition get_epoch_length self header : Z :=
  if is_maxwell_active_at_timestamp (parlia_spec self) (number header) (timestamp header)
  then MAXWELL_EPOCH_LENGTH
  else if is_lorentz_active_at_timestamp (parlia_spec self) (number header) (timestamp header)
  then LORENTZ_EPOCH_LENGTH
  else parlia_epoch self.

(** ** Reading *)

Definition get_validator_bytes_from_header self header (epoch_length : Z)
    : exec unit bytes :=
  let extra := extra_data header in
  let extra_len := zlen extra in
  if extra_len <=? EXTRA_VANITY_LEN + EXTRA_SEAL_LEN then Fail tt
  else
    let is_epoch := is_multiple_of (number header) epoch_length in
    if is_luban_active_at_block (parlia_spec self) (number header)
    then
      if negb is_epoch then Fail tt
      else
        count ← index extra EXTRA_VANITY_LEN;
        let start := EXTRA_VANITY_LEN + VALIDATOR_NUMBER_SIZE in
        let end_ := start + count * VALIDATOR_BYTES_LEN_AFTER_LUBAN in
        let extra_min_len := end_ + EXTRA_SEAL_LEN in
        let extra_min_len :=
          if is_bohr_active_at_timestamp (parlia_spec self) (number header) (timestamp header)
          then extra_min_len + TURN_LENGTH_SIZE else extra_min_len in
        if (count =? 0) || (extra_len <? extra_min_len) then Fail tt
        else slice extra start end_
    else
      if is_epoch && negb (is_multiple_of (extra_len - EXTRA_VANITY_LEN - EXTRA_SEAL_LEN)
                             VALIDATOR_BYTES_LEN_BEFORE_LUBAN)
      then Fail tt
      else slice extra EXTRA_VANITY_LEN (extra_len - EXTRA_SEAL_LEN).

Definition get_turn_length_from_header self header (epoch_length : Z)
    : exec ParliaConsensusError (option Z) :=
  let extra := extra_data header in
  if negb (is_multiple_of (number header) epoch_length)
     || negb (is_bohr_active_at_timestamp (parlia_spec self) (number header) (timestamp header))
  then Done None
  else if zlen extra <=? EXTRA_VANITY_LEN + EXTRA_SEAL_LEN
  then Fail (InvalidHeaderExtraLen (zlen extra))
  else
    num ← index extra EXTRA_VANITY_LEN;
    let pos := EXTRA_VANITY_LEN + 1 + num * VALIDATOR_BYTES_LEN_AFTER_LUBAN in
    if zlen extra <=? pos then Fail ExtraInvalidTurnLength
    else turn_length ← index extra pos; Done (Some turn_length).

Definition get_vote_attestation_from_header `{AttestationRlp} self header (epoch_length : Z)
    : exec ParliaConsensusError (option VoteAttestation) :=
  let extra := extra_data header in
  let extra_len := zlen extra in
  if extra_len <=? EXTRA_VANITY_LEN + EXTRA_SEAL_LEN then Done None
  else if negb (is_luban_active_at_block (parlia_spec self) (number header)) then Done None
  else
    raw ←
      (if negb (is_multiple_of (number header) epoch_length)
       then slice extra EXTRA_VANITY_LEN (extra_len - EXTRA_SEAL_LEN)
       else
         validator_count ← index extra (EXTRA_VANITY_LEN + VALIDATOR_NUMBER_SIZE - 1);
         let start := EXTRA_VANITY_LEN + VALIDATOR_NUMBER_SIZE
                      + validator_count * VALIDATOR_BYTES_LEN_AFTER_LUBAN in
         let start :=
           if is_bohr_active_at_timestamp (parlia_spec self) (number header) (timestamp header)
           then start + TURN_LENGTH_SIZE else start in
         let end_ := extra_len - EXTRA_SEAL_LEN in
         if end_ <=? start then Done [] else slice extra start end_);
    if bool_decide (raw = []) then Done None
    else
      att ← ok_or (decode_attestation raw) ExtraInvalidAttestation;
      Done (Some att).

Definition get_validator_len_from_header self header : exec ParliaConsensusError Z :=
  let is_epoch := is_multiple_of (number header) (get_epoch_length self header) in
  let extra_len := zlen (extra_data header) in
  if negb is_epoch
  then if is_luban_active_at_block (parlia_spec self) (number header) then Done 0
       else Done (sub64 (sub64 extra_len EXTRA_VANITY_LEN) EXTRA_SEAL_LEN)
  else if negb (is_luban_active_at_block (parlia_spec self) (number header))
  then Done (sub64 (sub64 extra_len EXTRA_VANITY_LEN) EXTRA_SEAL_LEN)
  else
    count ← index (extra_data header) (EXTRA_VANITY_LEN + VALIDATOR_NUMBER_SIZE - 1);
    Done (count * VALIDATOR_BYTES_LEN_AFTER_LUBAN).

Definition check_header_extra_len self header : exec ParliaConsensusError unit :=
  let extra_len := zlen (extra_data header) in
  if extra_len <? EXTRA_VANITY_LEN then Fail ExtraVanityMissing
  else if extra_len <? EXTRA_VANITY_LEN + EXTRA_SEAL_LEN then Fail ExtraSignatureMissing
  else if negb (is_multiple_of (number header) (get_epoch_length self header)) then Done tt
  else if is_luban_active_at_block (parlia_spec self) (number header)
  then
    count ← index (extra_data header) (EXTRA_VANITY_LEN + VALIDATOR_NUMBER_SIZE - 1);
    let expect := EXTRA_VANITY_LEN + VALIDATOR_NUMBER_SIZE + EXTRA_SEAL_LEN
                  + count * VALIDATOR_BYTES_LEN_AFTER_LUBAN in
    if (count =? 0) || (extra_len <? expect) then Fail (InvalidHeaderExtraLen extra_len)
    else Done tt
  else
    let validator_bytes_len := extra_len - EXTRA_VANITY_LEN - EXTRA_SEAL_LEN in
    if (validator_bytes_len / VALIDATOR_BYTES_LEN_BEFORE_LUBAN =? 0)
       || negb (is_multiple_of validator_bytes_len VALIDATOR_BYTES_LEN_BEFORE_LUBAN)
    then Fail (InvalidHeaderExtraLen extra_len)
    else Done tt.

Definition check_header_extra self header : exec ParliaConsensusError unit :=
  _ ← check_header_extra_len self header;
  let is_epoch := is_multiple_of (number header) (get_epoch_length self header) in
  validator_bytes_len ← get_validator_len_from_header self header;
  if (negb is_epoch && negb (validator_bytes_len =? 0))
     || (is_epoch && (validator_bytes_len =? 0))
  then Fail (InvalidHeaderExtraValidatorBytesLen is_epoch validator_bytes_len)
  else Done tt.

(** One record of the validator bytes. *)
Definition parse_record_after_luban (validator_bytes : bytes) (i : Z)
    : exec ParliaConsensusError (Z * Z) :=
  let consensus_start := i * VALIDATOR_BYTES_LEN_AFTER_LUBAN in
  let consensus_end := consensus_start + ADDRESS_LENGTH in
  consensus_address ← slice validator_bytes consensus_start consensus_end;
  let vote_start := consensus_start + ADDRESS_LENGTH in
  let vote_end := consensus_start + VALIDATOR_BYTES_LEN_AFTER_LUBAN in
  vote_address ← slice validator_bytes vote_start vote_end;
  Done (be_decode consensus_address, be_decode vote_address).

Definition parse_validators_after_luban (validator_bytes : bytes)
    : exec ParliaConsensusError ValidatorsInfo :=
  let count := zlen validator_bytes / VALIDATOR_BYTES_LEN_AFTER_LUBAN in
  records ← mapM (parse_record_after_luban validator_bytes) (seqZ 0 count);
  Done {| consensus_addrs := records.*1; vote_addrs := Some (records.*2) |}.

Definition parse_record_before_luban (validator_bytes : bytes) (i : Z)
    : exec ParliaConsensusError Z :=
  let start := i * VALIDATOR_BYTES_LEN_BEFORE_LUBAN in
  let end_ := start + VALIDATOR_BYTES_LEN_BEFORE_LUBAN in
  address ← slice validator_bytes start end_;
  Done (be_decode address).

Definition parse_validators_before_luban (validator_bytes : bytes)
    : exec ParliaConsensusError ValidatorsInfo :=
  let count := zlen validator_bytes / VALIDATOR_BYTES_LEN_BEFORE_LUBAN in
  addrs ← mapM (parse_record_before_luban validator_bytes) (seqZ 0 count);
  Done {| consensus_addrs := addrs; vote_addrs := None |}.

Definition parse_validators_from_header self header (epoch_length : Z)
    : exec ParliaConsensusError ValidatorsInfo :=
  val_bytes ← map_err (λ _, InvalidHeaderExtraLen (zlen (extra_data header)))
                (get_validator_bytes_from_header self header epoch_length);
  if bool_decide (val_bytes = []) then Fail (InvalidHeaderExtraValidatorBytesLen true 0)
  else if is_luban_active_at_block (parlia_spec self) (number header)
  then parse_validators_after_luban val_bytes
  else parse_validators_before_luban val_bytes.

(** ** Writing *)

(** The vote addresses by validator, zero at the Luban transition and for the
    validators beyond the end of the list. *)
Definition vote_map_of (transition : bool) (new_validators vote_addresses : list Z) : gmap Z Z :=
  fold_left (λ m p, <[p.2 := if transition then 0 else default 0 (vote_addresses !! Z.to_nat p.1)]> m)
    (enumerate new_validators) ∅.

(** [vote_map.get(validator).unwrap()] *)
Definition push_validator (vote_map : gmap Z Z) (extra : bytes) (validator : Z) : exec unit bytes :=
  match vote_map !! validator with
  | Some va => Done (extra ++ be_encode 20 validator ++ be_encode 48 va)
  | None => Panics
  end.

Fixpoint push_validators (vote_map : gmap Z Z) (extra : bytes) (vs : list Z) : exec unit bytes :=
  match vs with
  | [] => Done extra
  | v :: vs => extra ← push_validator vote_map extra v; push_validators vote_map extra vs
  end.

Definition prepare_validators self (snap : Snapshot) (validators' : option (list Z * list Z))
    new_header : exec unit Header :=
  let epoch_length := epoch_num snap in
  if negb (is_multiple_of (number new_header) epoch_length) then Done new_header
  else match validators' with
  | None => Done new_header
  | Some (new_validators, vote_addresses) =>
      extra ←
        (if negb (is_luban_active_at_block (parlia_spec self) (number new_header))
         then Done (fold_left (λ extra v, extra ++ be_encode 20 v) (sort_Z new_validators)
                      (extra_data new_header))
         else
           let extra := extra_data new_header ++ [wrap8 (zlen new_validators)] in
           let vote_map :=
             vote_map_of (is_luban_transition_at_block (parlia_spec self) (number new_header))
               new_validators vote_addresses in
           push_validators vote_map extra (sort_Z new_validators));
      Done (set_extra_data extra new_header)
  end.

(** The turn-length cache maps a parent hash to the turn length of its children.
    It holds at most 1024 entries; an eviction is a lookup that misses. *)
Definition prepare_turn_length self (parent_snap : Snapshot) (cache : gmap Z Z) new_header
    : gmap Z Z * Header :=
  let epoch_length := epoch_num parent_snap in
  if negb (is_multiple_of (number new_header) epoch_length)
     || negb (is_bohr_active_at_timestamp (parlia_spec self) (number new_header) (timestamp new_header))
  then (cache, new_header)
  else
    let tl :=
      match cache !! parent_hash new_header with
      | Some tl => tl
      | None => default DEFAULT_TURN_LENGTH (turn_length parent_snap)
      end in
    (<[parent_hash new_header := tl]> cache,
     set_extra_data (extra_data new_header ++ [tl]) new_header).

Definition estimate_gas_reserved_for_system_txs self (breathe_interval : option Z)
    (parent_timestamp : option Z) (current_number current_timestamp : Z) : exec unit Z :=
  match parent_timestamp with
  | None => Done SYSTEM_TXS_GAS_HARD_LIMIT
  | Some parent_timestamp =>
      if is_feynman_active_at_timestamp (parlia_spec self) current_number current_timestamp
         && negb (is_feynman_transition_at_timestamp (parlia_spec self) current_number
                    current_timestamp parent_timestamp)
      then
        breathe ← is_breathe_block breathe_interval parent_timestamp current_timestamp;
        Done (if (breathe : bool) then SYSTEM_TXS_GAS_HARD_LIMIT else SYSTEM_TXS_GAS_SOFT_LIMIT)
      else Done SYSTEM_TXS_GAS_HARD_LIMIT
  end.
End Parlia.
