(* ===== verification/ExtraProps.v ===== *)
(** * ExtraProps: theorems about the extra data

    The readers never panic, the exact acceptance condition of
    [check_header_extra], and the round trips between the producer, which
    appends validators, turn length, attestation and seal, and the readers. *)

From stdpp Require Import base tactics numbers option list sorting gmap.
From Stdlib Require Import ZArith Lia Bool.
From S2P Require Import Prelude.
From S2P Require Import Hardforks.
From S2P Require Import Header.
From S2P Require Import Snapshot.
From S2P Require Import Extra.

#[export] Hint Unfold EXTRA_VANITY_LEN EXTRA_SEAL_LEN VALIDATOR_NUMBER_SIZE TURN_LENGTH_SIZE
  VALIDATOR_BYTES_LEN_AFTER_LUBAN VALIDATOR_BYTES_LEN_BEFORE_LUBAN ADDRESS_LENGTH : bsc.

Ltac extra_consts :=
  unfold EXTRA_VANITY_LEN, EXTRA_SEAL_LEN, VALIDATOR_NUMBER_SIZE, TURN_LENGTH_SIZE,
    VALIDATOR_BYTES_LEN_AFTER_LUBAN, VALIDATOR_BYTES_LEN_BEFORE_LUBAN, ADDRESS_LENGTH in *.

(** ** Loops over records *)

Lemma mapM_Done {E A B} (f : A → exec E B) xs ys :
  Forall2 (λ x y, f x = Done y) xs ys → mapM f xs = Done ys.
Proof.
  induction 1 as [|x y xs ys Hx _ IH]; [done|].
  cbn. rewrite Hx. cbn. by rewrite IH.
Qed.

Lemma mapM_seqZ_Done {E B} (f : Z → exec E B) ys :
  (∀ i y, ys !! i = Some y → f (Z.of_nat i) = Done y) → mapM f (seqZ 0 (zlen ys)) = Done ys.
Proof.
  intros Hf. apply mapM_Done, Forall2_same_length_lookup_2.
  - rewrite length_seqZ. unfold zlen. lia.
  - intros i x y Hx Hy. apply lookup_seqZ in Hx as [-> _]. rewrite Z.add_0_l. by apply Hf.
Qed.

(** Fixed-size records in a concatenation. *)
Lemma concat_split {A B} (enc : A → list B) l i x :
  l !! i = Some x →
  concat (enc <$> l) = concat (enc <$> take i l) ++ enc x ++ concat (enc <$> drop (S i) l).
Proof.
  intros Hi. rewrite <- (take_drop_middle l i x Hi) at 1.
  by rewrite fmap_app, concat_app.
Qed.

Lemma concat_zlen {A B} (enc : A → list B) k l :
  (∀ x, zlen (enc x) = k) → zlen (concat (enc <$> l)) = k * zlen l.
Proof.
  intros Hk. induction l as [|x l IH]; cbn [fmap list_fmap concat]; [unfold zlen; cbn; lia|].
  rewrite zlen_app, zlen_cons, Hk, IH. lia.
Qed.

Definition enc_record (p : Z * Z) : bytes := be_encode 20 p.1 ++ be_encode 48 p.2.

Lemma zlen_be_encode n z : zlen (be_encode n z) = Z.of_nat n.
Proof. unfold zlen. by rewrite be_encode_length. Qed.

Lemma zlen_enc_record p : zlen (enc_record p) = 68.
Proof. unfold enc_record. by rewrite zlen_app, !zlen_be_encode. Qed.

#[export] Hint Rewrite zlen_be_encode zlen_enc_record : bsc_simp.

Definition address_ok (a : Z) : Prop := 0 <= a < 256 ^ 20.
Definition vote_address_ok (a : Z) : Prop := 0 <= a < 256 ^ 48.

Lemma record_prefix_len {A B} (enc : A → list B) k l i x :
  (∀ y, zlen (enc y) = k) → l !! i = Some x → zlen (concat (enc <$> take i l)) = k * Z.of_nat i.
Proof.
  intros Hk Hi. rewrite (concat_zlen enc k) by done. unfold zlen. rewrite length_take.
  apply lookup_lt_Some in Hi. lia.
Qed.

Lemma parse_records_after_luban l :
  Forall (λ p, address_ok p.1 ∧ vote_address_ok p.2) l →
  parse_validators_after_luban (concat (enc_record <$> l)) =
    Done {| consensus_addrs := l.*1; vote_addrs := Some (l.*2) |}.
Proof.
  intros Hok. unfold parse_validators_after_luban. extra_consts.
  rewrite (concat_zlen _ 68) by apply zlen_enc_record.
  rewrite Z.mul_comm, Z.div_mul by lia.
  rewrite (mapM_seqZ_Done _ l); [done|]. intros i [a v] Hi.
  pose proof (record_prefix_len enc_record 68 l i (a, v) zlen_enc_record Hi) as Hlen.
  rewrite Forall_lookup in Hok. destruct (Hok i (a, v) Hi) as [Ha Hv].
  unfold parse_record_after_luban. extra_consts. rewrite (concat_split _ _ _ _ Hi).
  change (enc_record (a, v)) with (be_encode 20 a ++ be_encode 48 v).
  rewrite <- app_assoc.
  rewrite (slice_app_at _ (be_encode 20 a) _ (Z.of_nat i * 68)) by (rewrite ?zlen_be_encode; lia). cbn [mbind exec_bind].
  rewrite (app_assoc (concat _)), slice_app_at by (rewrite ?zlen_app, ?zlen_be_encode; lia).
  cbn [mbind exec_bind]. by rewrite !be_decode_encode.
Qed.

Lemma parse_records_before_luban l :
  Forall address_ok l →
  parse_validators_before_luban (concat (be_encode 20 <$> l)) =
    Done {| consensus_addrs := l; vote_addrs := None |}.
Proof.
  intros Hok. unfold parse_validators_before_luban. extra_consts.
  rewrite (concat_zlen _ 20) by (intros; by rewrite zlen_be_encode).
  rewrite Z.mul_comm, Z.div_mul by lia.
  rewrite (mapM_seqZ_Done _ l); [done|]. intros i a Hi.
  pose proof (record_prefix_len (be_encode 20) 20 l i a ltac:(intros; by rewrite zlen_be_encode) Hi) as Hlen.
  rewrite Forall_lookup in Hok. specialize (Hok i a Hi).
  unfold parse_record_before_luban. extra_consts. rewrite (concat_split _ _ _ _ Hi).
  rewrite slice_app_at by (rewrite ?zlen_be_encode; lia). cbn [mbind exec_bind].
  by rewrite be_decode_encode.
Qed.

(** ** What the producer appends *)

Lemma push_validators_spec m extra vs :
  (∀ v, v ∈ vs → is_Some (m !! v)) →
  push_validators m extra vs =
    Done (extra ++ concat (enc_record <$> ((λ v, (v, default 0 (m !! v))) <$> vs))).
Proof.
  revert extra. induction vs as [|v vs IH]; intros extra Hin.
  { cbn. by rewrite app_nil_r. }
  cbn [push_validators]. unfold push_validator.
  destruct (Hin v (list_elem_of_here _ _)) as [va Hva]. rewrite Hva. cbn [mbind exec_bind].
  rewrite IH by (intros; apply Hin; by apply list_elem_of_further).
  cbn. rewrite Hva. unfold enc_record. cbn. by rewrite <- !app_assoc.
Qed.

Lemma fold_push_addresses vs extra :
  fold_left (λ extra v, extra ++ be_encode 20 v) vs extra = extra ++ concat (be_encode 20 <$> vs).
Proof.
  revert extra. induction vs as [|v vs IH]; intros extra; cbn [fold_left fmap list_fmap concat].
  { by rewrite app_nil_r. }
  by rewrite IH, <- app_assoc.
Qed.

Lemma fold_vote_map_lookup (f : Z → Z) ps (m : gmap Z Z) v :
  NoDup ps.*2 →
  fold_left (λ m p, <[p.2 := f p.1]> m) ps m !! v =
    match list_find (λ p : Z * Z, p.2 = v) ps with Some (_, p) => Some (f p.1) | None => m !! v end.
Proof.
  revert m. induction ps as [|[i w] ps IH]; intros m Hnd; cbn [fold_left]; [done|].
  cbn in Hnd. apply NoDup_cons in Hnd as [Hw Hnd]. rewrite IH by done. simpl.
  destruct (decide (w = v)) as [->|Hne]; simpl.
  - replace (list_find (λ p : Z * Z, p.2 = v) ps) with (None : option (nat * (Z * Z))).
    + by rewrite lookup_insert_eq.
    + symmetry. apply list_find_None, Forall_forall. intros [j x] Hin E. simpl in E. subst x.
      apply Hw, list_elem_of_fmap. by exists (j, v).
  - destruct (list_find _ ps) as [[j p]|]; simpl; [done|]. by rewrite lookup_insert_ne.
Qed.

Lemma vote_map_of_lookup b vs vas i v :
  NoDup vs → vs !! i = Some v →
  vote_map_of b vs vas !! v = Some (if b then 0 else default 0 (vas !! i)).
Proof.
  intros Hnd Hi. unfold vote_map_of.
  rewrite (fold_vote_map_lookup (λ j, if b then 0 else default 0 (vas !! Z.to_nat j)))
    by by rewrite enumerate_snd.
  destruct (list_find (λ p : Z * Z, p.2 = v) (enumerate vs)) as [[k [j w]]|] eqn:Ef.
  - apply list_find_Some in Ef as (Hk & E & _). simpl in E. subst w. unfold enumerate in Hk.
    rewrite list_lookup_imap in Hk. destruct (vs !! k) as [x|] eqn:Ek; [|done].
    injection Hk as <- ->. rewrite (NoDup_lookup _ _ _ _ Hnd Hi Ek). simpl. by rewrite Nat2Z.id.
  - apply list_find_None in Ef. rewrite Forall_forall in Ef.
    destruct (Ef (Z.of_nat i, v)); [|done]. apply enumerate_elem. eauto.
Qed.

(** ** Reading an epoch block of Luban or later *)

Section EpochLayout.
Context `{F : ForkConditionApi, R : AttestationRlp}.
Context (self : Parlia) (header : Header) (vanity recs tl att seal : bytes) (count epoch_length : Z).
Context (Hextra : extra_data header = vanity ++ [count] ++ recs ++ tl ++ att ++ seal).
Context (Hvanity : zlen vanity = 32) (Hseal : zlen seal = 65).
Context (Hcount : 0 < count < 256) (Hrecs : zlen recs = 68 * count).
Context (Hluban : is_luban_active_at_block (parlia_spec self) (number header) = true).
Let bohr := is_bohr_active_at_timestamp (parlia_spec self) (number header) (timestamp header).
Context (Htl : zlen tl = if bohr then 1 else 0).
Context (Hepoch : is_multiple_of (number header) epoch_length = true).

Lemma epoch_extra_len : zlen (extra_data header) = 98 + 68 * count + zlen tl + zlen att.
Proof. rewrite Hextra. autorewrite with bsc_simp. lia. Qed.

Lemma epoch_count {E} i : i = 32 → @index E _ (extra_data header) i = Done count.
Proof. intros ->. rewrite Hextra. cbn [app]. by rewrite index_app_mid. Qed.

Lemma epoch_long : (zlen (extra_data header) <=? EXTRA_VANITY_LEN + EXTRA_SEAL_LEN) = false.
Proof.
  rewrite epoch_extra_len. extra_consts. pose proof (zlen_nonneg att). pose proof (zlen_nonneg tl). lia.
Qed.

Lemma read_validator_bytes : get_validator_bytes_from_header self header epoch_length = Done recs.
Proof.
  unfold get_validator_bytes_from_header. rewrite epoch_long, Hluban, Hepoch, epoch_count by done.
  cbn [negb mbind exec_bind]. rewrite epoch_extra_len. fold bohr.
  pose proof (zlen_nonneg att). extra_consts.
  replace ((count =? 0) || _) with false by (symmetry; apply orb_false_iff; destruct bohr; lia).
  rewrite Hextra, app_assoc. apply slice_app_at; rewrite zlen_app, zlen_cons, zlen_nil; lia.
Qed.

Lemma read_turn_length :
  get_turn_length_from_header self header epoch_length = Done (if bohr then head tl else None).
Proof.
  unfold get_turn_length_from_header. rewrite Hepoch, epoch_long, epoch_count by done. fold bohr.
  pose proof epoch_extra_len as Hlen.
  destruct bohr; [|done]. cbn [negb orb mbind exec_bind].
  destruct tl as [|t [|]]; rewrite ?zlen_cons, ?zlen_nil in Htl, Hlen; try lia;
    [|pose proof (zlen_nonneg l); lia].
  rewrite Hlen. extra_consts. pose proof (zlen_nonneg att).
  rewrite (proj2 (Z.leb_gt _ _)) by lia. rewrite Hextra, !app_assoc, <- (app_assoc _ att seal).
  rewrite <- (app_assoc _ [t]). cbn [app]. rewrite index_app_mid; [done|].
  autorewrite with bsc_simp. lia.
Qed.

Lemma read_attestation :
  get_vote_attestation_from_header self header epoch_length =
    if bool_decide (att = []) then Done None
    else a ← ok_or (decode_attestation att) ExtraInvalidAttestation; Done (Some a).
Proof.
  unfold get_vote_attestation_from_header. rewrite epoch_long, Hluban, Hepoch, epoch_count by done.
  cbn [negb mbind exec_bind]. rewrite epoch_extra_len. fold bohr. extra_consts.
  destruct (decide (att = [])) as [Hnil|Hne].
  - rewrite Hnil, zlen_nil. replace (_ <=? _) with true by (symmetry; destruct bohr; lia). done.
  - assert (0 < zlen att) by (destruct att; [done|rewrite zlen_cons; pose proof (zlen_nonneg l); lia]).
    replace (_ <=? _) with false by (symmetry; destruct bohr; lia).
    rewrite Hextra, app_assoc, app_assoc, app_assoc.
    rewrite slice_app_at by (autorewrite with bsc_simp; destruct bohr; lia).
    cbn [mbind exec_bind]. done.
Qed.

Lemma epoch_check :
  is_multiple_of (number header) (get_epoch_length self header) = true →
  check_header_extra self header = Done tt.
Proof.
  intros He. unfold check_header_extra, check_header_extra_len, get_validator_len_from_header.
  rewrite He, Hluban, epoch_count by done. pose proof epoch_extra_len as Hl.
  pose proof (zlen_nonneg att). pose proof (zlen_nonneg tl). extra_consts.
  replace (zlen (extra_data header) <? 32) with false by lia.
  replace (zlen (extra_data header) <? 32 + 65) with false by lia.
  cbn [negb mbind exec_bind].
  replace ((count =? 0) || _) with false by (symmetry; apply orb_false_iff; lia).
  cbn [mbind exec_bind andb orb]. by replace (count * 68 =? 0) with false by lia.
Qed.
End EpochLayout.

(** ** Reading the other blocks *)

Section PlainLayout.
Context `{F : ForkConditionApi, R : AttestationRlp}.
Context (self : Parlia) (header : Header) (vanity att seal : bytes) (epoch_length : Z).
Context (Hextra : extra_data header = vanity ++ att ++ seal).
Context (Hvanity : zlen vanity = 32) (Hseal : zlen seal = 65).

Lemma plain_attestation :
  is_luban_active_at_block (parlia_spec self) (number header) = true →
  is_multiple_of (number header) epoch_length = false →
  get_vote_attestation_from_header self header epoch_length =
    if bool_decide (att = []) then Done None
    else a ← ok_or (decode_attestation att) ExtraInvalidAttestation; Done (Some a).
Proof.
  intros Hluban Hepoch. unfold get_vote_attestation_from_header. rewrite Hluban, Hepoch.
  assert (zlen (extra_data header) = 97 + zlen att) as ->.
  { rewrite Hextra, !zlen_app. lia. }
  extra_consts. destruct (decide (att = [])) as [Hnil|Hne]; [by rewrite Hnil|].
  assert (0 < zlen att) by (destruct att; [done|rewrite zlen_cons; pose proof (zlen_nonneg l); lia]).
  rewrite (proj2 (Z.leb_gt _ _)) by lia. cbn [negb].
  rewrite Hextra, slice_app_at by (rewrite ?Hvanity; lia). done.
Qed.

Lemma plain_check :
  is_luban_active_at_block (parlia_spec self) (number header) = true →
  is_multiple_of (number header) (get_epoch_length self header) = false →
  check_header_extra self header = Done tt.
Proof.
  intros Hluban Hepoch. unfold check_header_extra, check_header_extra_len, get_validator_len_from_header.
  rewrite Hluban, Hepoch.
  assert (zlen (extra_data header) = 97 + zlen att) as -> by (rewrite Hextra, !zlen_app; lia).
  extra_consts. pose proof (zlen_nonneg att).
  rewrite !(proj2 (Z.ltb_ge _ _)) by lia. done.
Qed.

(** Before Luban the bytes between vanity and seal are the validators. *)
Lemma plain_validator_bytes :
  is_luban_active_at_block (parlia_spec self) (number header) = false →
  zlen att mod 20 = 0 → 0 < zlen att →
  get_validator_bytes_from_header self header epoch_length = Done att.
Proof.
  intros Hluban Hmod Hpos. unfold get_validator_bytes_from_header. rewrite Hluban.
  assert (zlen (extra_data header) = 97 + zlen att) as -> by (rewrite Hextra, !zlen_app; lia).
  extra_consts. rewrite (proj2 (Z.leb_gt _ _)) by lia.
  unfold is_multiple_of at 2. replace (97 + zlen att - 32 - 65) with (zlen att) by lia.
  rewrite Hmod. cbn [Z.eqb negb]. rewrite andb_false_r.
  rewrite Hextra. apply slice_app_at; lia.
Qed.
End PlainLayout.

(** ** The readers on arbitrary headers *)

Lemma mapM_total {E A B} (f : A → exec E B) xs :
  (∀ x, x ∈ xs → ∃ y, f x = Done y) → ∃ ys, mapM f xs = Done ys.
Proof.
  induction xs as [|x xs IH]; intros Hf; [by exists []|].
  destruct (Hf x (list_elem_of_here _ _)) as [y Hy].
  destruct IH as [ys Hys]; [intros; apply Hf; by apply list_elem_of_further|].
  exists (y :: ys). cbn. rewrite Hy. cbn. by rewrite Hys.
Qed.

Lemma index_byte {E} (extra : bytes) i :
  Forall byte_ok extra → 0 <= i < zlen extra → ∃ b, @index E _ extra i = Done b ∧ byte_ok b.
Proof.
  intros Hok Hi. destruct (index_ok (E := E) extra i Hi) as (b & -> & Hb).
  exists b. split; [done|]. rewrite Forall_lookup in Hok. by eapply Hok.
Qed.

Section Readers.
Context `{F : ForkConditionApi, R : AttestationRlp}.
Context (self : Parlia) (header : Header) (Hok : Forall byte_ok (extra_data header)).

Lemma byte32 {E} : 97 < zlen (extra_data header) →
  ∃ b, @index E _ (extra_data header) 32 = Done b ∧ 0 <= b < 256.
Proof. intros Hl. apply index_byte; [done|lia]. Qed.

Lemma validator_bytes_safe epoch_length :
  get_validator_bytes_from_header self header epoch_length ≠ Panics.
Proof.
  unfold get_validator_bytes_from_header. extra_consts. case_if; [done|]. split_tests.
  destruct (byte32 (E := unit) ltac:(lia)) as (b & -> & Hb). cbn [mbind exec_bind].
  destruct (is_luban_active_at_block _ _); repeat (case_if; try done); split_tests;
    rewrite slice_ok by lia; done.
Qed.

Lemma turn_length_safe epoch_length :
  get_turn_length_from_header self header epoch_length ≠ Panics.
Proof.
  unfold get_turn_length_from_header. extra_consts. do 2 (case_if; [done|]). split_tests.
  destruct (byte32 (E := ParliaConsensusError) ltac:(lia)) as (b & -> & Hb).
  cbn [mbind exec_bind]. case_if; [done|]. split_tests.
  by destruct (index_byte (E := ParliaConsensusError) (extra_data header) (32 + 1 + b * 68) Hok ltac:(lia))
    as (t & -> & _).
Qed.

Lemma attestation_safe epoch_length :
  get_vote_attestation_from_header self header epoch_length ≠ Panics.
Proof.
  unfold get_vote_attestation_from_header. extra_consts. do 2 (case_if; [done|]). split_tests.
  assert (Hraw : ∀ raw : bytes, (if bool_decide (raw = []) then Done None
            else a ← ok_or (decode_attestation raw) ExtraInvalidAttestation; Done (Some a)) ≠ Panics).
  { intros raw. case_if; [done|]. by destruct (decode_attestation raw). }
  destruct (negb (is_multiple_of _ _)).
  - rewrite slice_ok by lia. apply Hraw.
  - change (32 + 1 - 1) with 32. destruct (byte32 (E := ParliaConsensusError) ltac:(lia)) as (b & -> & Hb).
    cbn [mbind exec_bind]. destruct (is_bohr_active_at_timestamp _ _ _);
      (case_if; split_tests; [done|]); rewrite slice_ok by lia; apply Hraw.
Qed.

Lemma check_safe : check_header_extra self header ≠ Panics.
Proof.
  unfold check_header_extra, check_header_extra_len, get_validator_len_from_header. extra_consts.
  change (32 + 1 - 1) with 32.
  destruct (Z.ltb_spec (zlen (extra_data header)) 32); [done|].
  destruct (Z.ltb_spec (zlen (extra_data header)) (32 + 65)); [done|].
  destruct (index_byte (E := ParliaConsensusError) (extra_data header) 32 Hok ltac:(lia)) as (b & -> & _).
  destruct (is_multiple_of (number header) _), (is_luban_active_at_block _ _); cbn [negb mbind exec_bind];
    repeat (case_if; try done).
Qed.

Lemma parse_safe epoch_length : parse_validators_from_header self header epoch_length ≠ Panics.
Proof.
  unfold parse_validators_from_header. pose proof (validator_bytes_safe epoch_length).
  destruct (get_validator_bytes_from_header self header epoch_length) as [vb| |]; cbn; [|done|done].
  case_if; [done|]. unfold parse_validators_after_luban, parse_validators_before_luban.
  pose proof (zlen_nonneg vb). case_if; extra_consts.
  - destruct (mapM_total (parse_record_after_luban vb) (seqZ 0 (zlen vb / 68))) as [ys ->]; [|done].
    intros i Hi%elem_of_seqZ. unfold parse_record_after_luban. extra_consts.
    pose proof (Z.mul_div_le (zlen vb) 68 ltac:(lia)). rewrite !slice_ok by lia. eexists. reflexivity.
  - destruct (mapM_total (parse_record_before_luban vb) (seqZ 0 (zlen vb / 20))) as [ys ->]; [|done].
    intros i Hi%elem_of_seqZ. unfold parse_record_before_luban. extra_consts.
    pose proof (Z.mul_div_le (zlen vb) 20 ltac:(lia)). rewrite !slice_ok by lia. eexists. reflexivity.
Qed.

(** Reading the extra data of a header never panics: every index and every
    slice of the five readers is guarded, whatever bytes a peer sends and
    whatever epoch length (also zero) is used. *)
Theorem readers_never_panic epoch_length :
  get_validator_bytes_from_header self header epoch_length ≠ Panics ∧
  get_turn_length_from_header self header epoch_length ≠ Panics ∧
  get_vote_attestation_from_header self header epoch_length ≠ Panics ∧
  check_header_extra self header ≠ Panics ∧
  parse_validators_from_header self header epoch_length ≠ Panics.
Proof.
  split_and!; auto using validator_bytes_safe, turn_length_safe, attestation_safe, check_safe, parse_safe.
Qed.
End Readers.

(** What an acceptable extra field looks like, by fork and position. *)
Definition extra_ok `{F : ForkConditionApi} (self : Parlia) (header : Header) : Prop :=
  let len := zlen (extra_data header) in
  97 <= len ∧
  if is_multiple_of (number header) (get_epoch_length self header)
  then if is_luban_active_at_block (parlia_spec self) (number header)
       then ∃ count, extra_data header !! 32%nat = Some count ∧ count ≠ 0 ∧ 98 + 68 * count <= len
       else 97 < len ∧ (len - 97) mod 20 = 0
  else is_luban_active_at_block (parlia_spec self) (number header) = true ∨ len = 97.

Lemma check_extra_iff `{F : ForkConditionApi} self header :
  Forall byte_ok (extra_data header) → zlen (extra_data header) < 2 ^ 64 →
  check_header_extra self header = Done tt ↔ extra_ok self header.
Proof.
  intros Hok Hlen. unfold check_header_extra, check_header_extra_len, get_validator_len_from_header, extra_ok.
  extra_consts. change (32 + 1 - 1) with 32. set (len := zlen (extra_data header)) in *.
  destruct (Z.ltb_spec len 32); [split; [done|lia]|].
  destruct (Z.ltb_spec len (32 + 65)); [split; [done|lia]|].
  rewrite !sub64_small by (rewrite ?sub64_small by lia; lia).
  destruct (index_ok (E := ParliaConsensusError) (extra_data header) 32) as (b & -> & Hb); [lia|].
  change (Z.to_nat 32) with 32%nat in Hb. rewrite Hb.
  assert (0 <= b < 256) by (rewrite Forall_lookup in Hok; by apply (Hok 32%nat)).
  assert ((len - 32 - 65) / 20 = 0 ↔ len - 97 < 20).
  { split; [intros Hd; pose proof (Z.div_mod (len - 32 - 65) 20); pose proof (Z.mod_pos_bound (len - 32 - 65) 20); lia|].
    intros. apply Z.div_small. lia. }
  replace (len - 32 - 65) with (len - 97) in * by lia.
  change (is_multiple_of (len - 97) 20) with ((len - 97) mod 20 =? 0).
  destruct (is_multiple_of (number header) _), (is_luban_active_at_block _ _); cbn [negb mbind exec_bind andb orb].
  - destruct ((b =? 0) || (len <? _)) eqn:Et; cbn [mbind exec_bind].
    + split; [done|]. intros (_ & c & [= <-] & ? & ?). apply orb_true_iff in Et. lia.
    + apply orb_false_iff in Et as [? ?]. split_tests. replace (b * 68 =? 0) with false by lia. cbn [andb orb negb].
      split; [|done]. intros _. split; [lia|]. exists b. split; [done|lia].
  - destruct (((len - 97) / 20 =? 0) || _) eqn:Et; cbn [mbind exec_bind].
    + split; [done|]. intros (_ & ? & Hm). rewrite Hm in Et. cbn in Et. rewrite orb_false_r in Et.
      split_tests. pose proof (Z.div_mod (len - 97) 20). lia.
    + split_tests. replace (len - 97 =? 0) with false by lia. cbn [andb orb negb]. split; [|done]. intros _. lia.
  - split; [|done]. intros _. split; [lia|by left].
  - destruct (Z.eqb_spec (len - 97) 0); cbn [negb].
    + split; [|done]. intros _. split; [lia|right; lia].
    + split; [done|]. intros (_ & [?|?]); [done|lia].
Qed.

(** [check_header_extra] accepts exactly the headers with room for vanity
    and seal whose epoch blocks carry a non-empty list of whole validator
    records, and whose other blocks carry nothing more before Luban. *)
Theorem check_header_extra_iff `{F : ForkConditionApi} self header :
  Forall byte_ok (extra_data header) → zlen (extra_data header) < 2 ^ 64 →
  check_header_extra self header = Done tt ↔ extra_ok self header.
Proof. apply check_extra_iff. Qed.

(** ** Round trips *)

(** [extra_data.extend_from_slice(bs)] on the header. *)
Definition append_extra (bs : bytes) (h : Header) : Header := set_extra_data (extra_data h ++ bs) h.

(** The arguments with which an epoch block is prepared. *)
Record epoch_args (vs vas : list Z) : Prop := {
  ea_count : 0 < zlen vs < 256;
  ea_nodup : NoDup vs;
  ea_addrs : Forall address_ok vs;
  ea_votes : Forall vote_address_ok vas;
}.

Section RoundTrip.
Context `{F : ForkConditionApi, R : AttestationRlp}.

Definition records_of (transition : bool) (vs vas : list Z) : list (Z * Z) :=
  (λ v, (v, default 0 (vote_map_of transition vs vas !! v))) <$> sort_Z vs.

Lemma records_of_ok b vs vas :
  epoch_args vs vas → Forall (λ p, address_ok p.1 ∧ vote_address_ok p.2) (records_of b vs vas).
Proof.
  intros [_ Hnd Ha Hv]. unfold records_of. apply Forall_fmap, Forall_forall. intros v Hin. simpl.
  rewrite sort_Z_elem in Hin. rewrite Forall_forall in Ha. split; [by apply Ha|].
  apply list_elem_of_lookup in Hin as [i Hi]. rewrite (vote_map_of_lookup b vs vas i v) by done. simpl.
  unfold vote_address_ok. destruct b; [lia|]. destruct (vas !! i) as [a|] eqn:Ea; simpl; [|lia].
  rewrite Forall_lookup in Hv. by eapply Hv.
Qed.

Lemma records_of_fst b vs vas : (records_of b vs vas).*1 = sort_Z vs.
Proof.
  unfold records_of. rewrite <- list_fmap_compose. rewrite <- (list_fmap_id (sort_Z vs)) at 2.
  by apply list_fmap_ext.
Qed.

Lemma prepare_validators_luban self snap vs vas h :
  epoch_args vs vas → is_multiple_of (number h) (epoch_num snap) = true →
  is_luban_active_at_block (parlia_spec self) (number h) = true →
  prepare_validators self snap (Some (vs, vas)) h =
    Done (append_extra (zlen vs :: concat (enc_record <$>
      records_of (is_luban_transition_at_block (parlia_spec self) (number h)) vs vas)) h).
Proof.
  intros Hargs He Hl. unfold prepare_validators. rewrite He, Hl. cbn [negb].
  rewrite push_validators_spec.
  - cbn [mbind exec_bind]. unfold append_extra, wrap8. rewrite Z.mod_small, <- app_assoc; [done|].
    pose proof (ea_count _ _ Hargs). lia.
  - intros v. rewrite sort_Z_elem. intros [i Hi]%list_elem_of_lookup. eexists.
    apply vote_map_of_lookup; [apply Hargs|done].
Qed.

(** The turn length written at an epoch block of Bohr. *)
Definition chosen_turn_length (cache : gmap Z Z) (parent_snap : Snapshot) (h : Header) : Z :=
  default (default DEFAULT_TURN_LENGTH (turn_length parent_snap)) (cache !! parent_hash h).

Lemma prepare_turn_length_bytes self snap cache h :
  is_multiple_of (number h) (epoch_num snap) = true →
  (prepare_turn_length self snap cache h).2 =
    append_extra (if is_bohr_active_at_timestamp (parlia_spec self) (number h) (timestamp h)
                  then [chosen_turn_length cache snap h] else []) h.
Proof.
  intros He. unfold prepare_turn_length, append_extra, chosen_turn_length. rewrite He. cbn [negb orb].
  destruct (is_bohr_active_at_timestamp _ _ _); cbn [negb].
  - by destruct (cache !! parent_hash h).
  - rewrite app_nil_r. by destruct h.
Qed.

Definition attestation_bytes (att : option VoteAttestation) : bytes :=
  match att with Some a => encode_attestation a | None => [] end.

(** The block the producer makes of [h0]: validators, turn length, attestation, seal. *)
Definition produce_epoch self snap cache vs vas (att : option VoteAttestation) (seal : bytes) (h0 : Header)
    : exec unit Header :=
  h1 ← prepare_validators self snap (Some (vs, vas)) h0;
  Done (append_extra seal (append_extra (attestation_bytes att) (prepare_turn_length self snap cache h1).2)).

(** C36: an epoch block from Luban on reads back what was written: the validators
    sorted, each with the vote address given for it (zero at the Luban
    transition, or beyond the given list), the turn length when Bohr is active,
    the attestation, and it passes [check_header_extra]. *)
Theorem epoch_block_roundtrip `{!AttestationRlpLaws R} self snap cache vs vas att seal h0 :
  epoch_args vs vas → zlen (extra_data h0) = 32 → zlen seal = 65 →
  is_multiple_of (number h0) (epoch_num snap) = true →
  is_luban_active_at_block (parlia_spec self) (number h0) = true →
  ∃ h vote_addrs', produce_epoch self snap cache vs vas att seal h0 = Done h ∧
    parse_validators_from_header self h (epoch_num snap) =
      Done {| consensus_addrs := sort_Z vs; vote_addrs := Some vote_addrs' |} ∧
    (∀ i j v, vs !! i = Some v → sort_Z vs !! j = Some v →
       vote_addrs' !! j = Some (if is_luban_transition_at_block (parlia_spec self) (number h0)
                                then 0 else default 0 (vas !! i))) ∧
    get_turn_length_from_header self h (epoch_num snap) =
      Done (if is_bohr_active_at_timestamp (parlia_spec self) (number h0) (timestamp h0)
            then Some (chosen_turn_length cache snap h0) else None) ∧
    get_vote_attestation_from_header self h (epoch_num snap) = Done att ∧
    (is_multiple_of (number h) (get_epoch_length self h) = true → check_header_extra self h = Done tt).
Proof.
  intros Hargs Hv Hs He Hl. unfold produce_epoch. rewrite prepare_validators_luban by done.
  cbn [mbind exec_bind]. rewrite prepare_turn_length_bytes by done.
  set (b := is_luban_transition_at_block _ _). set (recs := records_of b vs vas).
  set (tl := if is_bohr_active_at_timestamp _ _ _ then _ else _).
  set (h := append_extra seal _). exists h, recs.*2. split; [done|].
  assert (Hex : extra_data h = extra_data h0 ++ [zlen vs] ++ concat (enc_record <$> recs) ++ tl
                               ++ attestation_bytes att ++ seal).
  { unfold h, append_extra. simpl. rewrite <- !app_assoc. done. }
  assert (Hn : number h = number h0 ∧ timestamp h = timestamp h0) by done. destruct Hn as [Hn Ht].
  pose proof (ea_count _ _ Hargs) as Hc.
  assert (Hrl : zlen (concat (enc_record <$> recs)) = 68 * zlen vs).
  { rewrite (concat_zlen _ 68) by apply zlen_enc_record. f_equal. unfold recs, records_of, zlen.
    by rewrite length_fmap, sort_Z_length. }
  assert (Htl : zlen tl = if is_bohr_active_at_timestamp (parlia_spec self) (number h) (timestamp h) then 1 else 0).
  { unfold tl. cbn. by destruct (is_bohr_active_at_timestamp _ _ _). }
  split_and!.
  - unfold parse_validators_from_header.
    erewrite read_validator_bytes by eauto. cbn [map_err mbind exec_bind]. rewrite Hn, Hl.
    rewrite bool_decide_eq_false_2 by (intros E; rewrite E, zlen_nil in Hrl; lia).
    rewrite parse_records_after_luban by by apply records_of_ok. unfold recs. by rewrite records_of_fst.
  - intros i j v Hi Hj. unfold recs, records_of. rewrite !list_lookup_fmap, Hj. simpl.
    by rewrite (vote_map_of_lookup b vs vas i v) by (done || apply Hargs).
  - erewrite read_turn_length by eauto. rewrite Hn, Ht. unfold tl. cbn.
    by destruct (is_bohr_active_at_timestamp _ _ _).
  - erewrite read_attestation by eauto. destruct att as [a|]; simpl; [|done].
    pose proof (encode_attestation_nonempty a) as Hpos.
    rewrite bool_decide_eq_false_2 by (intros E; apply (f_equal zlen) in E; rewrite zlen_nil in E; lia).
    by rewrite decode_encode_attestation.
  - intros Hg. by eapply epoch_check.
Qed.

(** Before Luban an epoch block reads back its sorted validators. *)
Theorem pre_luban_roundtrip self snap vs vas seal h0 :
  0 < zlen vs → Forall address_ok vs → zlen (extra_data h0) = 32 → zlen seal = 65 →
  is_multiple_of (number h0) (epoch_num snap) = true →
  is_luban_active_at_block (parlia_spec self) (number h0) = false →
  ∃ h1, prepare_validators self snap (Some (vs, vas)) h0 = Done h1 ∧
    parse_validators_from_header self (append_extra seal h1) (epoch_num snap) =
      Done {| consensus_addrs := sort_Z vs; vote_addrs := None |}.
Proof.
  intros Hne Hok Hv Hs He Hl. unfold prepare_validators. rewrite He, Hl. cbn [negb mbind exec_bind].
  rewrite fold_push_addresses. eexists. split; [reflexivity|]. unfold parse_validators_from_header.
  assert (Hlen : zlen (concat (be_encode 20 <$> sort_Z vs)) = 20 * zlen vs).
  { rewrite (concat_zlen _ 20) by (intros; by rewrite zlen_be_encode). unfold zlen. by rewrite sort_Z_length. }
  erewrite (plain_validator_bytes _ _ (extra_data h0) (concat (be_encode 20 <$> sort_Z vs)) seal).
  - cbn [map_err mbind exec_bind].
    rewrite bool_decide_eq_false_2 by (intros E; rewrite E, zlen_nil in Hlen; lia).
    change (number (append_extra _ _)) with (number h0). rewrite Hl. apply parse_records_before_luban.
    apply Forall_forall. intros v. rewrite sort_Z_elem. by apply Forall_forall.
  - simpl. by rewrite <- app_assoc.
  - done.
  - done.
  - done.
  - rewrite Hlen, Z.mul_comm. by apply Z.mod_mul.
  - lia.
Qed.
End RoundTrip.

(** ** Witnesses *)

Module ExtraDemo.
Import ThresholdForks DemoApis.

(** A coding of attestations as a tagged sequence of their fields. *)
#[export] Instance demo_attestation_rlp : AttestationRlp := {|
  encode_attestation a :=
    248 :: vote_address_set a :: agg_signature a :: source_number (att_data a) :: source_hash (att_data a)
        :: target_number (att_data a) :: target_hash (att_data a) :: att_extra a;
  decode_attestation l :=
    match l with
    | 248 :: s :: g :: sn :: sh :: tn :: th :: x =>
        Some {| vote_address_set := s; agg_signature := g;
                att_data := {| source_number := sn; source_hash := sh; target_number := tn; target_hash := th |};
                att_extra := x |}
    | _ => None
    end;
|}.

#[export] Instance demo_attestation_laws : AttestationRlpLaws demo_attestation_rlp.
Proof.
  split.
  - by intros [s g [] x].
  - intros a. cbn. rewrite zlen_cons. pose proof (zlen_nonneg
      (vote_address_set a :: agg_signature a :: source_number (att_data a) :: source_hash (att_data a)
        :: target_number (att_data a) :: target_hash (att_data a) :: att_extra a)). lia.
Qed.

Definition parlia : Parlia := {| parlia_spec := mainnet; parlia_epoch := 200 |}.
Definition parent_snap : Snapshot :=
  {| epoch_num := 200; block_number := 44999999; block_hash := 0; validators := [1]; validators_map := ∅;
     recent_proposers := ∅; vote_data := VoteData_default; turn_length := Some 4; block_interval := 3000;
     recent_fork_hashes := ∅ |}.
(** An epoch block after Bohr, and one before Luban. *)
Definition epoch_header : Header := set_extra_data (replicate 32 7) (demo_header 45000000 1727400000).
Definition old_header : Header := set_extra_data (replicate 32 7) (demo_header 200 1600000000).
Definition att : VoteAttestation :=
  {| vote_address_set := 3; agg_signature := 5; att_data := VoteData_default; att_extra := [] |}.

Lemma demo_args : epoch_args [30; 10; 20] [3; 1; 2].
Proof.
  split; [by vm_compute| |repeat constructor; by vm_compute|repeat constructor; by vm_compute].
  apply (bool_decide_unpack _). by vm_compute.
Qed.

Lemma epoch_block_roundtrip_witness :
  ∃ h votes, produce_epoch parlia parent_snap ∅ [30; 10; 20] [3; 1; 2] (Some att) (replicate 65 9) epoch_header = Done h ∧
    parse_validators_from_header parlia h 200 =
      Done {| consensus_addrs := [10; 20; 30]; vote_addrs := Some votes |} ∧
    get_turn_length_from_header parlia h 200 = Done (Some 4) ∧
    get_vote_attestation_from_header parlia h 200 = Done (Some att).
Proof.
  destruct (epoch_block_roundtrip parlia parent_snap ∅ [30; 10; 20] [3; 1; 2] (Some att) (replicate 65 9)
    epoch_header demo_args) as (h & votes & H1 & H2 & _ & H3 & H4 & _); [by vm_compute..|].
  exact (ex_intro _ h (ex_intro _ votes (conj H1 (conj H2 (conj H3 H4))))).
Defined.

Lemma pre_luban_roundtrip_witness :
  ∃ h1, prepare_validators parlia parent_snap (Some ([30; 10; 20], [])) old_header = Done h1 ∧
    parse_validators_from_header parlia (append_extra (replicate 65 9) h1) 200 =
      Done {| consensus_addrs := [10; 20; 30]; vote_addrs := None |}.
Proof.
  apply (pre_luban_roundtrip parlia parent_snap [30; 10; 20] [] (replicate 65 9) old_header);
    [by vm_compute|apply demo_args|by vm_compute..].
Defined.

Lemma demo_bytes : Forall byte_ok (extra_data epoch_header).
Proof. repeat constructor; unfold byte_ok; lia. Qed.

(** A truncated epoch header is an error, not a panic. *)
Lemma readers_never_panic_witness :
  parse_validators_from_header parlia epoch_header 0 ≠ Panics ∧
  check_header_extra parlia epoch_header = Fail ExtraSignatureMissing.
Proof.
  split; [|by vm_compute].
  by apply (readers_never_panic parlia epoch_header demo_bytes 0).
Defined.

Lemma check_header_extra_iff_witness :
  check_header_extra parlia epoch_header = Done tt ↔ extra_ok parlia epoch_header.
Proof.
  apply (check_header_extra_iff parlia epoch_header); [apply demo_bytes|by vm_compute].
Defined.
End ExtraDemo.
