(* ===== verification/Backoff.v ===== *)
(** * Backoff: when a validator may propose

    Models [back_off_time], the mining delays and [prepare_timestamp] of
    [src/consensus/parlia/consensus.rs], and [ramanujan_fork.rs]: the back-off of
    a validator that is not in turn, the timestamp of the block it builds and
    the check every other node makes.  The wall clock and the random wiggle of
    the pre-Ramanujan delay are arguments.

    The shuffle draws with rejection, so the model carries fuel: [Fail tt] of
    [back_off_time] means that a rejection loop took more than [fuel] draws.
    [back_off_time_fuel] shows that more fuel never changes a result. *)

From stdpp Require Import base tactics numbers option list sorting gmap strings.
From Stdlib Require Import ZArith Lia Bool.
From S2P Require Import Prelude.
From S2P Require Import Hardforks.
From S2P Require Import GoRng.
From S2P Require Import Header.
From S2P Require Import Snapshot.
From S2P Require Import SnapshotProps.
From S2P Require Import Extra.

(** [BscBlockValidationError] of [node/evm/error.rs]; pairs are [GotExpected]. *)
Inductive BscBlockValidationError : Set :=
| FutureBlock (block_number hash : Z)
| PaymentLane (reason : string)
| UnexpectedSystemTx
| UnexpectedNormalTx
| InvalidValidators
| TooLargeAttestationExtraLen (extra_len : Z)
| InvalidAttestationTarget (number hash : Z * Z)
| InvalidAttestationSource (number hash : Z * Z)
| InvalidAttestationVotes (got expected : Z)
| InvalidAttestationSignature
| WrongHeaderSigner (block_number got expected : Z)
| SignerUnauthorized (block_number proposer : Z)
| SignerOverLimit (proposer : Z)
| InvalidDifficulty (difficulty : Z)
| InvalidCurrentValidatorsData
| InvalidValidatorsElectionInfoData
| MismatchingEpochTurnLengthError
| ParliaError (error : ParliaConsensusError).

Section Backoff.
Context `{F : ForkConditionApi}.
Implicit Types (self : Parlia) (snap : Snapshot) (parent header : Header).

(** The back-off of the validator whose shuffled step is [step]. *)
Definition step_time (delay : Z) (is_parent_lorentz : bool) (step : Z) : Z :=
  if (delay =? 0) && is_parent_lorentz
  then if step =? 0 then 0
       else add64 LORENTZ_BACKOFF_TIME_OF_INITIAL (mul64 (sub64 step 1) BACKOFF_TIME_OF_WIGGLE)
  else add64 delay (mul64 step BACKOFF_TIME_OF_WIGGLE).

(** The seed of the shuffle: the turn from Bohr on, the snapshot's block before. *)
Definition back_off_seed self snap header : exec unit Z :=
  if is_bohr_active_at_timestamp (parlia_spec self) (number header) (timestamp header)
  then
    let tl := default DEFAULT_TURN_LENGTH (turn_length snap) in
    if tl =? 0 then Panics else Done (Z.quot (to_signed 64 (number header)) tl)
  else Done (to_signed 64 (block_number snap)).

(** The position of the validator in the candidates gives its shuffled step. *)
Definition shuffled_time (fuel : nat) (seed delay : Z) (is_parent_lorentz : bool)
    (candidates : list Z) (validator : Z) : exec unit Z :=
  let back_off_steps := seqZ 0 (zlen candidates) in
  '(back_off_steps, _) ← ok_or (shuffle fuel back_off_steps (rng_new seed)) tt;
  match list_find (λ v, v = validator) candidates with
  | Some (idx, _) => step ← index back_off_steps (Z.of_nat idx); Done (step_time delay is_parent_lorentz step)
  | None => Done 0
  end.

Definition back_off_time (fuel : nat) self snap parent header : exec unit Z :=
  let validator := beneficiary header in
  inturn ← is_inturn snap validator;
  if (inturn : bool) then Done 0
  else
    let is_parent_lorentz :=
      is_lorentz_active_at_timestamp (parlia_spec self) (number parent) (timestamp parent) in
    let delay := if is_parent_lorentz then LORENTZ_BACKOFF_TIME_OF_INITIAL else BACKOFF_TIME_OF_INITIAL in
    let is_bohr := is_bohr_active_at_timestamp (parlia_spec self) (number header) (timestamp header) in
    if is_planck_active_at_block (parlia_spec self) (number header)
    then
      let counts := count_recent_proposers snap in
      if sign_recently_by_counts snap validator counts then Done 0
      else
        inturn_addr ← inturn_validator snap;
        let delay := if sign_recently_by_counts snap inturn_addr counts then 0 else delay in
        let candidates :=
          filter (λ addr, negb (sign_recently_by_counts snap addr counts
                                || is_bohr && (addr =? inturn_addr)) = true) (validators snap) in
        seed ← back_off_seed self snap header;
        shuffled_time fuel seed delay is_parent_lorentz candidates validator
    else
      seed ← back_off_seed self snap header;
      shuffled_time fuel seed delay is_parent_lorentz (validators snap) validator.

(** ** Block times *)

Definition block_time_for_ramanujan_fork (fuel : nat) (now : Z) self snap parent header : exec unit Z :=
  let parent_ts := calculate_millisecond_timestamp parent in
  let new_block_ts := add64 parent_ts (block_interval snap) in
  new_block_ts ←
    (if is_ramanujan_active_at_block (parlia_spec self) (number header)
     then b ← back_off_time fuel self snap parent header; Done (add64 new_block_ts b)
     else Done new_block_ts);
  Done (if new_block_ts <? now then mul64 (div_ceil now MILLISECONDS_UNIT) MILLISECONDS_UNIT
        else new_block_ts).

(** [random_range w] is the draw of [rand::rng().random_range(0..w)]. *)
Definition delay_for_ramanujan_fork (now : Z) (random_range : Z → Z) self (parent_snap : Snapshot)
    header : Z :=
  let header_timestamp := calculate_millisecond_timestamp header in
  let delay_ms := if now <? header_timestamp then header_timestamp - now else 0 in
  if is_ramanujan_active_at_block (parlia_spec self) (number header) then delay_ms
  else if difficulty header =? DIFF_NOTURN
  then
    let wiggle := mul64 (zlen (validators parent_snap) / 2 + 1) WIGGLE_TIME_BEFORE_FORK_MILLIS in
    add64 delay_ms (add64 FIXED_BACKOFF_TIME_BEFORE_FORK_MILLIS (random_range wiggle))
  else delay_ms.

Definition block_time_verify_for_ramanujan_fork `{HashApi} (fuel : nat) self snap header parent
    : exec (option BscBlockValidationError) unit :=
  if is_ramanujan_active_at_block (parlia_spec self) (number header)
  then
    let current_ts := calculate_millisecond_timestamp header in
    let parent_ts := calculate_millisecond_timestamp parent in
    back_off ← map_err (λ _, None) (back_off_time fuel self snap parent header);
    if current_ts <? add64 (add64 parent_ts (block_interval snap)) back_off
    then Fail (Some (FutureBlock (number header) (hash_slow header)))
    else Done tt
  else Done tt.

(** ** Mining delays *)

Definition apply_mining_delay_with_leftover (delay_ms period_ms : Z)
    (last_block_in_turn first_block_in_turn : bool) (left_over_ms : Z) : Z :=
  let delay_ms :=
    if period_ms <=? left_over_ms then delay_ms
    else if delay_ms <=? left_over_ms then 0
    else delay_ms - left_over_ms in
  let time_for_mining_ms := if negb last_block_in_turn then period_ms else period_ms / 5 in
  let delay_ms := if time_for_mining_ms <? delay_ms then time_for_mining_ms else delay_ms in
  if (delay_ms =? 0) && first_block_in_turn then 50 else delay_ms.

Definition delay_for_mining (now : Z) (random_range : Z → Z) self snap header (left_over_ms : Z) : Z :=
  apply_mining_delay_with_leftover (delay_for_ramanujan_fork now random_range self snap header)
    (block_interval snap) (last_block_in_one_turn snap (number header))
    (first_block_in_one_turn snap (number header)) left_over_ms.

Definition delay_for_bid_simulation (now : Z) (random_range : Z → Z) self snap header (left_over_ms : Z) : Z :=
  apply_mining_delay_with_leftover (delay_for_ramanujan_fork now random_range self snap header)
    (block_interval snap) false false left_over_ms.

Definition prepare_timestamp (fuel : nat) (now : Z) self (parent_snap : Snapshot)
    (parent_header new_header : Header) : exec unit (Z * Header) :=
  millisecond_timestamp ←
    block_time_for_ramanujan_fork fuel now self parent_snap parent_header new_header;
  let new_header := set_timestamp (millisecond_timestamp / 1000) new_header in
  let new_header :=
    if is_lorentz_active_at_timestamp (parlia_spec self) (number new_header) (timestamp new_header)
    then set_millisecond_part_of_timestamp millisecond_timestamp new_header
    else set_mix_hash 0 new_header in
  Done (millisecond_timestamp, new_header).
End Backoff.
