(* ===== verification/BackoffProps.v ===== *)
(** * BackoffProps: theorems about back-off and block times

    Distinct candidates never share a back-off and the validator in turn goes
    first; a prepared timestamp passes the check of the other nodes; the mining
    delays stay inside the block interval. *)

From stdpp Require Import base tactics numbers option list sorting strings gmap.
From Stdlib Require Import ZArith Lia Bool.
From S2P Require Import Prelude.
From S2P Require Import Hardforks.
From S2P Require Import GoRng.
From S2P Require Import Header.
From S2P Require Import Snapshot.
From S2P Require Import SnapshotProps.
From S2P Require Import SnapshotClaims.
From S2P Require Import Extra.
From S2P Require Import ExtraProps.
From S2P Require Import Backoff.

(** ** Fuel *)

Lemma int31n_loop_fuel f f' n t p rng r :
  (f <= f')%nat → int31n_loop f n t p rng = Some r → int31n_loop f' n t p rng = Some r.
Proof.
  revert f' p rng. induction f as [|f IH]; intros f' p rng Hf.
  - destruct f' as [|f']; [done|]. cbn [int31n_loop]. case_match; done.
  - destruct f' as [|f']; [lia|]. cbn [int31n_loop]. case_match; [|done].
    destruct (uint32 rng). apply IH. lia.
Qed.

Lemma int31n_fuel f f' n rng r :
  (f <= f')%nat → int31n f n rng = Some r → int31n f' n rng = Some r.
Proof.
  intros Hf. unfold int31n. destruct (uint32 rng) as [v g]. case_match; [|done].
  intros Hr. apply bind_Some in Hr as ([p g'] & Hl & Hr).
  rewrite (int31n_loop_fuel f f' _ _ _ _ _ Hf Hl). exact Hr.
Qed.

Lemma int63n_loop_fuel f f' m v rng r :
  (f <= f')%nat → int63n_loop f m v rng = Some r → int63n_loop f' m v rng = Some r.
Proof.
  revert f' v rng. induction f as [|f IH]; intros f' v rng Hf.
  - destruct f' as [|f']; [done|]. cbn [int63n_loop]. case_match; done.
  - destruct f' as [|f']; [lia|]. cbn [int63n_loop]. case_match; [|done].
    destruct (int63 rng). apply IH. lia.
Qed.

Lemma draw_index_fuel f f' i rng r :
  (f <= f')%nat → draw_index f i rng = Some r → draw_index f' i rng = Some r.
Proof.
  intros Hf. unfold draw_index. case_match; [|by apply int31n_fuel].
  unfold int63n. destruct (rassert _) as [[]| |]; cbn [mbind exec_bind]; [|done|done].
  destruct (Z.land _ _ =? 0); [exact (λ H, H)|]. destruct (int63 rng) as [v g].
  match goal with |- context [int63n_loop f ?m v g] =>
    destruct (int63n_loop f m v g) as [[w h]|] eqn:El; [|done];
    rewrite (int63n_loop_fuel f f' m v g (w, h) Hf El); done end.
Qed.

Lemma shuffle_fuel {A} f f' (l : list A) rng r :
  (f <= f')%nat → shuffle f l rng = Some r → shuffle f' l rng = Some r.
Proof.
  intros Hf. unfold shuffle. destruct l as [|x l]; [done|].
  generalize (x :: l). clear x l. intros k. generalize (length k - 1)%nat. intros i. revert k rng.
  induction i as [|i IH]; intros k rng; cbn [shuffle_loop]; [done|].
  intros Hr. apply bind_Some in Hr as ([j g] & Hd & Hr). rewrite (draw_index_fuel f f' _ _ _ Hf Hd).
  cbn [mbind option_bind]. apply bind_Some in Hr as (k' & Hk & Hr). rewrite Hk. by apply IH.
Qed.

(** ** Steps *)

Lemma step_time_inj delay lor a b :
  (delay = 0 ∨ delay = BACKOFF_TIME_OF_INITIAL ∨ delay = LORENTZ_BACKOFF_TIME_OF_INITIAL) →
  0 <= a < 2 ^ 32 → 0 <= b < 2 ^ 32 → step_time delay lor a = step_time delay lor b → a = b.
Proof.
  unfold step_time, BACKOFF_TIME_OF_INITIAL, LORENTZ_BACKOFF_TIME_OF_INITIAL, BACKOFF_TIME_OF_WIGGLE.
  intros Hd Ha Hb. destruct ((delay =? 0) && lor).
  - destruct (Z.eqb_spec a 0), (Z.eqb_spec b 0); try lia.
    + subst. rewrite sub64_small, mul64_small, add64_small by lia. lia.
    + subst. rewrite sub64_small, mul64_small, add64_small by lia. lia.
    + rewrite !sub64_small, !mul64_small, !add64_small by lia. lia.
  - rewrite !mul64_small, !add64_small by lia. lia.
Qed.

Lemma step_time_bounds delay lor a :
  (delay = 0 ∨ delay = BACKOFF_TIME_OF_INITIAL ∨ delay = LORENTZ_BACKOFF_TIME_OF_INITIAL) →
  0 <= a < 2 ^ 32 →
  delay <= step_time delay lor a <= LORENTZ_BACKOFF_TIME_OF_INITIAL + a * BACKOFF_TIME_OF_WIGGLE ∧
  step_time delay lor a mod 1000 = 0.
Proof.
  unfold step_time, BACKOFF_TIME_OF_INITIAL, LORENTZ_BACKOFF_TIME_OF_INITIAL, BACKOFF_TIME_OF_WIGGLE.
  intros Hd Ha. destruct ((delay =? 0) && lor) eqn:E.
  - split_tests. destruct (Z.eqb_spec a 0); [subst; split; [lia|done]|].
    rewrite sub64_small, mul64_small, add64_small by lia. split; [lia|].
    replace (2000 + (a - 1) * 1000) with ((a + 1) * 1000) by lia. by apply Z.mod_mul.
  - rewrite mul64_small, add64_small by lia. split; [lia|].
    rewrite Z.mod_add by lia. naive_solver.
Qed.

Lemma shuffled_time_Done fuel seed delay lor cs v b :
  zlen cs < 2 ^ 31 → shuffled_time fuel seed delay lor cs v = Done b → v ∈ cs →
  ∃ steps i step, NoDup steps ∧ fst <$> shuffle fuel (seqZ 0 (zlen cs)) (rng_new seed) = Some steps ∧
    cs !! i = Some v ∧ steps !! i = Some step ∧ 0 <= step < zlen cs ∧ b = step_time delay lor step.
Proof.
  intros Hl H Hv. unfold shuffled_time in H.
  apply bind_Done in H as ([steps g] & Hs%ok_or_Done & H).
  pose proof (shuffle_spec fuel (seqZ 0 (zlen cs)) (rng_new seed) (rng_new_wf seed)) as Hsp.
  rewrite Hs in Hsp. destruct Hsp as [Hp _].
  { unfold zlen. rewrite length_seqZ. unfold zlen in Hl. lia. }
  destruct (list_find (λ w, w = v) cs) as [[i w]|] eqn:Ef.
  - apply list_find_Some in Ef as (Hi & -> & _). apply bind_Done in H as (step & Hst & H).
    injection H as <-. unfold index in Hst. rewrite Nat2Z.id in Hst.
    destruct (steps !! i) as [st|] eqn:Est; [|done]. case_if; [|done]. injection Hst as ->.
    exists steps, i, step. split_and!; try done.
    + rewrite Hp. apply NoDup_seqZ.
    + by rewrite Hs.
    + assert (step ∈ seqZ 0 (zlen cs)) as Hin by (rewrite <- Hp; by eapply list_elem_of_lookup_2).
      apply elem_of_seqZ in Hin. lia.
    + assert (step ∈ seqZ 0 (zlen cs)) as Hin by (rewrite <- Hp; by eapply list_elem_of_lookup_2).
      apply elem_of_seqZ in Hin. lia.
  - apply list_find_None in Ef. rewrite Forall_forall in Ef. by destruct (Ef v Hv).
Qed.

Lemma shuffled_time_distinct fuel seed delay lor cs v w b c :
  (delay = 0 ∨ delay = BACKOFF_TIME_OF_INITIAL ∨ delay = LORENTZ_BACKOFF_TIME_OF_INITIAL) →
  zlen cs < 2 ^ 31 → v ∈ cs → w ∈ cs → v ≠ w →
  shuffled_time fuel seed delay lor cs v = Done b → shuffled_time fuel seed delay lor cs w = Done c → b ≠ c.
Proof.
  intros Hd Hl Hv Hw Hne Hb Hc ->.
  apply shuffled_time_Done in Hb as (s1 & i & a & Hnd & Es1 & Hi & Ha & Ra & ->); [|done..].
  apply shuffled_time_Done in Hc as (s2 & j & b & _ & Es2 & Hj & Hb & Rb & Et); [|done..].
  rewrite Es1 in Es2. injection Es2 as <-. apply step_time_inj in Et; [|done|lia|lia].
  subst b. pose proof (NoDup_lookup _ _ _ _ Hnd Ha Hb). congruence.
Qed.

(** ** The plan of a slot *)

Section Plan.
Context `{F : ForkConditionApi}.
Implicit Types (self : Parlia) (snap : Snapshot) (parent header : Header).

Definition parent_lorentz self parent : bool :=
  is_lorentz_active_at_timestamp (parlia_spec self) (number parent) (timestamp parent).

Definition initial_delay self parent : Z :=
  if parent_lorentz self parent then LORENTZ_BACKOFF_TIME_OF_INITIAL else BACKOFF_TIME_OF_INITIAL.

(** Seed, initial delay and candidates depend on the slot, not on the proposer. *)
Definition back_off_plan self snap parent header : exec unit (Z * Z * list Z) :=
  let bohr := is_bohr_active_at_timestamp (parlia_spec self) (number header) (timestamp header) in
  if is_planck_active_at_block (parlia_spec self) (number header)
  then
    inturn_addr ← inturn_validator snap;
    seed ← back_off_seed self snap header;
    Done (seed, if sign_recently snap inturn_addr then 0 else initial_delay self parent,
          filter (λ addr, negb (sign_recently snap addr || bohr && (addr =? inturn_addr)) = true)
            (validators snap))
  else
    seed ← back_off_seed self snap header;
    Done (seed, initial_delay self parent, validators snap).

Lemma back_off_time_plan fuel self snap parent header :
  is_inturn snap (beneficiary header) = Done false → sign_recently snap (beneficiary header) = false →
  back_off_time fuel self snap parent header =
    '(seed, delay, candidates) ← back_off_plan self snap parent header;
    shuffled_time fuel seed delay (parent_lorentz self parent) candidates (beneficiary header).
Proof.
  intros Hi Hs. unfold back_off_time, back_off_plan. rewrite Hi. cbn [mbind exec_bind].
  fold (parent_lorentz self parent). fold (initial_delay self parent).
  destruct (is_planck_active_at_block _ _).
  - unfold sign_recently in *. rewrite Hs. destruct (inturn_validator snap); cbn [mbind exec_bind]; [|done|done].
    by destruct (back_off_seed self snap header).
  - by destruct (back_off_seed self snap header).
Qed.

Lemma back_off_plan_slot self snap parent h1 h2 :
  number h1 = number h2 → timestamp h1 = timestamp h2 →
  back_off_plan self snap parent h1 = back_off_plan self snap parent h2.
Proof. intros En Et. unfold back_off_plan, back_off_seed. by rewrite En, Et. Qed.

Lemma back_off_plan_Done self snap parent header seed delay cs :
  back_off_plan self snap parent header = Done (seed, delay, cs) →
  (delay = 0 ∨ delay = BACKOFF_TIME_OF_INITIAL ∨ delay = LORENTZ_BACKOFF_TIME_OF_INITIAL) ∧
  zlen cs <= zlen (validators snap) ∧
  (∀ v, v ∈ validators snap → is_inturn snap v = Done false → sign_recently snap v = false → v ∈ cs) ∧
  (∀ u, inturn_validator snap = Done u → sign_recently snap u = false → BACKOFF_TIME_OF_INITIAL <= delay).
Proof.
  intros Hp. unfold back_off_plan in Hp. unfold initial_delay in Hp.
  destruct (is_planck_active_at_block _ _).
  - apply bind_Done in Hp as (u & Hu & Hp). apply bind_Done in Hp as (sd & _ & Hp). injection Hp as <- <- <-.
    split_and!.
    + repeat case_match; auto.
    + unfold zlen. apply inj_le, length_filter.
    + intros v Hv Hi Hs. apply list_elem_of_filter. split; [|done]. rewrite Hs. cbn [orb].
      unfold is_inturn in Hi. rewrite Hu in Hi. cbn in Hi. injection Hi as Hi.
      rewrite Z.eqb_sym, Hi. by rewrite andb_false_r.
    + intros w Hw Hs. rewrite Hu in Hw. injection Hw as <-. rewrite Hs.
      unfold LORENTZ_BACKOFF_TIME_OF_INITIAL, BACKOFF_TIME_OF_INITIAL. case_match; lia.
  - apply bind_Done in Hp as (sd & _ & Hp). injection Hp as <- <- <-. split_and!; try done.
    + case_match; auto.
    + intros w Hw Hs. unfold LORENTZ_BACKOFF_TIME_OF_INITIAL, BACKOFF_TIME_OF_INITIAL. case_match; lia.
Qed.

(** In one slot, two validators that may sign and are not in turn never get
    the same back-off, so they never compete for the same instant; back-offs
    are whole seconds, and while the validator in turn may sign it alone has
    back-off zero. *)
Theorem back_off_distinct fuel self snap parent h1 h2 b1 b2 :
  number h1 = number h2 → timestamp h1 = timestamp h2 → beneficiary h1 ≠ beneficiary h2 →
  zlen (validators snap) < 2 ^ 31 →
  (∀ h, h ∈ [h1; h2] → beneficiary h ∈ validators snap ∧ is_inturn snap (beneficiary h) = Done false ∧
                       sign_recently snap (beneficiary h) = false) →
  back_off_time fuel self snap parent h1 = Done b1 → back_off_time fuel self snap parent h2 = Done b2 →
  b1 ≠ b2 ∧ b1 mod 1000 = 0 ∧
  (∀ u, inturn_validator snap = Done u → sign_recently snap u = false → BACKOFF_TIME_OF_INITIAL <= b1).
Proof.
  intros En Et Hne Hlen Hh Hb1 Hb2.
  destruct (Hh h1) as (Hv1 & Hi1 & Hs1); [apply list_elem_of_here|].
  destruct (Hh h2) as (Hv2 & Hi2 & Hs2); [apply list_elem_of_further, list_elem_of_here|].
  rewrite back_off_time_plan in Hb1, Hb2 by done.
  rewrite (back_off_plan_slot self snap parent h1 h2) in Hb1 by done.
  apply bind_Done in Hb1 as ([[seed delay] cs] & Hp & Hb1). rewrite Hp in Hb2. cbn in Hb2.
  destruct (back_off_plan_Done _ _ _ _ _ _ _ Hp) as (Hd & Hl & Hin & Hturn).
  pose proof (Hin _ Hv1 Hi1 Hs1) as Hc1. pose proof (Hin _ Hv2 Hi2 Hs2) as Hc2.
  assert (Hcs : zlen cs < 2 ^ 31) by lia.
  split; [exact (shuffled_time_distinct _ _ _ _ _ _ _ _ _ Hd Hcs Hc1 Hc2 Hne Hb1 Hb2)|].
  apply shuffled_time_Done in Hb1 as (s1 & i & a & _ & _ & _ & _ & Ra & ->); [|lia|exact Hc1].
  destruct (step_time_bounds delay (parent_lorentz self parent) a Hd ltac:(lia)) as [Hbd Hm].
  split; [done|]. intros u Hu Hsu. specialize (Hturn u Hu Hsu). lia.
Qed.

(** More fuel never changes a back-off. *)
Lemma back_off_time_fuel f f' self snap parent header b :
  (f <= f')%nat → back_off_time f self snap parent header = Done b →
  back_off_time f' self snap parent header = Done b.
Proof.
  intros Hf. unfold back_off_time.
  assert (Hst : ∀ seed delay lor cs v, shuffled_time f seed delay lor cs v = Done b →
                                       shuffled_time f' seed delay lor cs v = Done b).
  { intros seed delay lor cs v. unfold shuffled_time. intros Hs.
    apply bind_Done in Hs as ([st g] & Hsh%ok_or_Done & Hs). by rewrite (shuffle_fuel f f' _ _ _ Hf Hsh). }
  destruct (is_inturn snap _) as [[]| |]; cbn [mbind exec_bind]; [done| |done|done].
  destruct (is_planck_active_at_block _ _).
  - case_if; [done|]. destruct (inturn_validator snap); cbn [mbind exec_bind]; [|done|done].
    destruct (back_off_seed self snap header); cbn [mbind exec_bind]; [apply Hst|done|done].
  - destruct (back_off_seed self snap header); cbn [mbind exec_bind]; [apply Hst|done|done].
Qed.
End Plan.

(** ** Block times *)

Section Times.
Context `{F : ForkConditionApi}.
Implicit Types (self : Parlia) (snap : Snapshot) (parent header : Header).

Lemma back_off_time_range fuel self snap parent header b :
  zlen (validators snap) < 2 ^ 31 → back_off_time fuel self snap parent header = Done b →
  0 <= b <= 2000 + 1000 * zlen (validators snap) ∧ b mod 1000 = 0.
Proof.
  intros Hlen Hb. pose proof (zlen_nonneg (validators snap)).
  assert (Hi : is_inturn snap (beneficiary header) = Done false ∨ b = 0).
  { unfold back_off_time in Hb. apply bind_Done in Hb as ([] & Hi & Hb); [|by left].
    injection Hb as <-. by right. }
  destruct Hi as [Hi|Hb0]; [|subst b; split; [lia|done]].
  assert (Hz : ∀ z, z = 0 → 0 <= z <= 2000 + 1000 * zlen (validators snap) ∧ z mod 1000 = 0)
    by (intros z ->; split; [lia|done]).
  assert (Hplan : ∀ seed delay cs, back_off_plan self snap parent header = Done (seed, delay, cs) →
    shuffled_time fuel seed delay (parent_lorentz self parent) cs (beneficiary header) = Done b →
    0 <= b <= 2000 + 1000 * zlen (validators snap) ∧ b mod 1000 = 0).
  { intros seed delay cs Hp Hst. apply back_off_plan_Done in Hp as (Hd & Hl & _).
    destruct (decide (beneficiary header ∈ cs)) as [Hin|Hout].
    - apply shuffled_time_Done in Hst as (s1 & i & a & _ & _ & _ & _ & Ra & ->); [|lia|done].
      destruct (step_time_bounds delay (parent_lorentz self parent) a Hd ltac:(lia)).
      unfold LORENTZ_BACKOFF_TIME_OF_INITIAL, BACKOFF_TIME_OF_INITIAL, BACKOFF_TIME_OF_WIGGLE in *. lia.
    - apply Hz. unfold shuffled_time in Hst. apply bind_Done in Hst as ([st g] & _ & Hst).
      destruct (list_find (λ v, v = beneficiary header) cs) as [[j w]|] eqn:Ef; [|by injection Hst].
      apply list_find_Some in Ef as (Hj & -> & _). destruct Hout. by eapply list_elem_of_lookup_2. }
  destruct (sign_recently snap (beneficiary header)) eqn:Hs.
  - unfold back_off_time in Hb. rewrite Hi in Hb. cbn [mbind exec_bind] in Hb.
    unfold sign_recently in Hs. rewrite Hs in Hb.
    destruct (is_planck_active_at_block _ _) eqn:Hpl; [injection Hb as <-; by apply Hz|].
    apply bind_Done in Hb as (seed & Hseed & Hb). eapply Hplan; [|exact Hb].
    unfold back_off_plan. rewrite Hpl, Hseed. reflexivity.
  - rewrite back_off_time_plan in Hb by done. apply bind_Done in Hb as ([[seed delay] cs] & Hp & Hb).
    by eapply Hplan.
Qed.

Lemma back_off_time_ext fuel self snap parent h1 h2 :
  beneficiary h1 = beneficiary h2 → number h1 = number h2 →
  is_bohr_active_at_timestamp (parlia_spec self) (number h1) (timestamp h1) =
  is_bohr_active_at_timestamp (parlia_spec self) (number h2) (timestamp h2) →
  back_off_time fuel self snap parent h1 = back_off_time fuel self snap parent h2.
Proof. intros Eb En Et. unfold back_off_time, back_off_seed. by rewrite Eb, Et, En. Qed.

(** The earliest time of the block, and the chosen one. *)
Lemma block_time_bounds fuel now self snap parent header ms :
  zlen (validators snap) < 2 ^ 31 → is_u64 (block_interval snap) → 0 <= now < 2 ^ 63 →
  0 <= calculate_millisecond_timestamp parent →
  calculate_millisecond_timestamp parent + block_interval snap + 2000 + 1000 * zlen (validators snap) < 2 ^ 63 →
  block_time_for_ramanujan_fork fuel now self snap parent header = Done ms →
  is_u64 ms ∧ now <= ms ∧
  ∃ b, (is_ramanujan_active_at_block (parlia_spec self) (number header) = true →
          back_off_time fuel self snap parent header = Done b) ∧
       b mod 1000 = 0 ∧ 0 <= b <= 2000 + 1000 * zlen (validators snap) ∧
       calculate_millisecond_timestamp parent + block_interval snap + b <= ms.
Proof.
  intros Hlen Hint Hnow Hp Hsum Hbt. pose proof (zlen_nonneg (validators snap)). unfold is_u64 in *.
  unfold block_time_for_ramanujan_fork in Hbt. rewrite add64_small in Hbt by lia.
  apply bind_Done in Hbt as (ts & Hts & Hms). injection Hms as <-.
  assert (∃ b, (is_ramanujan_active_at_block (parlia_spec self) (number header) = true →
          back_off_time fuel self snap parent header = Done b) ∧ b mod 1000 = 0 ∧
          0 <= b <= 2000 + 1000 * zlen (validators snap) ∧
          ts = calculate_millisecond_timestamp parent + block_interval snap + b) as (b & Hb & Hm & Hr & ->).
  { destruct (is_ramanujan_active_at_block _ _).
    - apply bind_Done in Hts as (b & Hb & Hts). injection Hts as <-.
      destruct (back_off_time_range _ _ _ _ _ _ Hlen Hb). exists b.
      rewrite add64_small by lia. auto.
    - injection Hts as <-. exists 0. split_and!; try done; lia. }
  unfold MILLISECONDS_UNIT. pose proof (div_ceil_spec now 50 ltac:(lia) ltac:(lia)).
  rewrite mul64_small by lia.
  case_if; split_tests; (split; [lia|]); (split; [lia|]); exists b; split_and!; try done; lia.
Qed.

(** Every header with the planned number, beneficiary and millisecond time passes
    the check of the other nodes. *)
Lemma planned_time_ok `{HashApi} fuel now self snap parent header ms h' :
  zlen (validators snap) < 2 ^ 31 → is_u64 (block_interval snap) → 0 <= now < 2 ^ 63 →
  0 <= calculate_millisecond_timestamp parent →
  calculate_millisecond_timestamp parent + block_interval snap + 2000 + 1000 * zlen (validators snap) < 2 ^ 63 →
  block_time_for_ramanujan_fork fuel now self snap parent header = Done ms →
  is_bohr_active_at_timestamp (parlia_spec self) (number header) (timestamp header) =
    is_bohr_active_at_timestamp (parlia_spec self) (number header) (ms / 1000) →
  (is_lorentz_active_at_timestamp (parlia_spec self) (number header) (ms / 1000) = false →
     calculate_millisecond_timestamp parent mod 1000 = 0 ∧ block_interval snap mod 1000 = 0) →
  number h' = number header → beneficiary h' = beneficiary header → timestamp h' = ms / 1000 →
  mix_hash h' = (if is_lorentz_active_at_timestamp (parlia_spec self) (number header) (ms / 1000)
                 then mix_hash (set_millisecond_part_of_timestamp ms header) else 0) →
  block_time_verify_for_ramanujan_fork fuel self snap h' parent = Done tt ∧ now <= ms ∧ is_u64 ms.
Proof.
  intros Hlen Hint Hnow Hp Hsum Hbt Hbohr Hlor Hn Hben Ht Hm'.
  destruct (block_time_bounds _ _ _ _ _ _ _ Hlen Hint Hnow Hp Hsum Hbt) as (Hu & Hge & b & Hb & Hm & Hr & Hle).
  split; [|done]. unfold block_time_verify_for_ramanujan_fork. unfold is_u64 in *. rewrite Hn.
  destruct (is_ramanujan_active_at_block _ _); [|done].
  rewrite (back_off_time_ext _ _ _ _ h' header) by (rewrite ?Hn, ?Ht; done).
  rewrite Hb by done. cbn [map_err mbind exec_bind]. rewrite (add64_small _ (block_interval snap)), add64_small by lia.
  enough (calculate_millisecond_timestamp parent + block_interval snap + b <= calculate_millisecond_timestamp h')
    as Hok by (by rewrite (proj2 (Z.ltb_ge _ _) Hok)).
  destruct (is_lorentz_active_at_timestamp _ _ _).
  - enough (calculate_millisecond_timestamp h' = ms) by lia. rewrite <- (set_ms_roundtrip ms header) at 1 by done.
    unfold calculate_millisecond_timestamp, millisecond_remainder. by rewrite Ht, Hm'.
  - destruct (Hlor eq_refl) as [Hp0 Hi0]. unfold calculate_millisecond_timestamp at 2, millisecond_remainder.
    rewrite Ht, Hm'. cbn [Z.eqb negb].
    pose proof (Z.div_mod ms 1000). pose proof (Z.mod_pos_bound ms 1000).
    rewrite mul64_small, add64_small by lia.
    apply Z.mod_divide in Hp0, Hi0, Hm; [|lia..]. destruct Hp0 as [x Ex], Hi0 as [y Ey], Hm as [z Ez]. lia.
Qed.

(** The timestamp chosen by [prepare_timestamp] is accepted by
    [block_time_verify_for_ramanujan_fork] on every other node, and is not
    before the producer's clock, provided setting the timestamp does not cross
    the Bohr activation; before Lorentz, where the milliseconds are dropped,
    parent time and interval are whole seconds. *)
Theorem prepared_time_verifies `{HashApi} fuel now self snap parent header ms header' :
  zlen (validators snap) < 2 ^ 31 → is_u64 (block_interval snap) → 0 <= now < 2 ^ 63 →
  0 <= calculate_millisecond_timestamp parent →
  calculate_millisecond_timestamp parent + block_interval snap + 2000 + 1000 * zlen (validators snap) < 2 ^ 63 →
  prepare_timestamp fuel now self snap parent header = Done (ms, header') →
  is_bohr_active_at_timestamp (parlia_spec self) (number header) (timestamp header) =
    is_bohr_active_at_timestamp (parlia_spec self) (number header) (ms / 1000) →
  (is_lorentz_active_at_timestamp (parlia_spec self) (number header) (ms / 1000) = false →
     calculate_millisecond_timestamp parent mod 1000 = 0 ∧ block_interval snap mod 1000 = 0) →
  block_time_verify_for_ramanujan_fork fuel self snap header' parent = Done tt ∧ now <= ms.
Proof.
  intros Hlen Hint Hnow Hp Hsum Hprep Hbohr Hlor. unfold prepare_timestamp in Hprep.
  apply bind_Done in Hprep as (ms' & Hbt & Hh). injection Hh as <- <-. cbn [number timestamp set_timestamp].
  destruct (planned_time_ok fuel now self snap parent header ms'
    (if is_lorentz_active_at_timestamp (parlia_spec self) (number header) (ms' / 1000)
     then set_millisecond_part_of_timestamp ms' (set_timestamp (ms' / 1000) header)
     else set_mix_hash 0 (set_timestamp (ms' / 1000) header))) as (? & ? & _);
    try done; by destruct (is_lorentz_active_at_timestamp _ _ _).
Qed.

(** The delay before sealing never exceeds the block interval (a fifth of it
    for the last block of a turn), except for the 50 ms the first block of a
    turn gets instead of zero; bid simulation gets up to the whole interval. *)
Theorem mining_delay_bounds now random_range self snap header left_over_ms :
  0 <= block_interval snap → 0 <= left_over_ms → is_u64 (calculate_millisecond_timestamp header) →
  (∀ w, 0 <= random_range w) →
  let d := delay_for_mining now random_range self snap header left_over_ms in
  let cap := if last_block_in_one_turn snap (number header) then block_interval snap / 5
             else block_interval snap in
  0 <= d <= Z.max cap 50 ∧
  (first_block_in_one_turn snap (number header) = false → d <= cap) ∧
  0 <= delay_for_bid_simulation now random_range self snap header left_over_ms <= block_interval snap.
Proof.
  intros Hint Hleft Hu Hrand. cbv zeta. unfold delay_for_mining, delay_for_bid_simulation.
  assert (0 <= delay_for_ramanujan_fork now random_range self snap header) as Hd.
  { unfold delay_for_ramanujan_fork, is_u64 in *. repeat case_if; split_tests; try lia; apply wrap64_range. }
  revert Hd. generalize (delay_for_ramanujan_fork now random_range self snap header). intros d Hd.
  unfold apply_mining_delay_with_leftover. cbn [negb]. rewrite andb_false_r.
  pose proof (Z.div_pos (block_interval snap) 5 ltac:(lia) ltac:(lia)).
  set (e := if block_interval snap <=? left_over_ms then d else _).
  assert (0 <= e) by (unfold e; repeat case_if; split_tests; lia). clearbody e.
  destruct (last_block_in_one_turn _ _), (first_block_in_one_turn _ _); cbn [negb];
    repeat case_if; split_tests; rewrite ?andb_true_r, ?andb_false_r in *; split_tests;
    split_and!; intros; try lia; try done.
Qed.
End Times.

(** ** Witnesses *)

Module BackoffDemo.
Import ThresholdForks DemoApis DemoChain ExtraDemo.

Definition by_validator (v : Z) (h : Header) : Header := set_beneficiary v h.

(** Block [top + 1] is the turn of validator 20; 10 and 30 back off. *)
Lemma back_off_distinct_witness :
  back_off_time 3 parlia s0 (demo_header top bohr_time) (by_validator 20 h1) = Done 0 ∧
  ∃ b1 b2, back_off_time 3 parlia s0 (demo_header top bohr_time) (by_validator 10 h1) = Done b1 ∧
    back_off_time 3 parlia s0 (demo_header top bohr_time) (by_validator 30 h1) = Done b2 ∧
    b1 ≠ b2 ∧ BACKOFF_TIME_OF_INITIAL <= b1.
Proof.
  split; [by vm_compute|]. eexists _, _. split; [by vm_compute|]. split; [by vm_compute|].
  destruct (back_off_distinct 3 parlia s0 (demo_header top bohr_time) (by_validator 10 h1) (by_validator 30 h1)
    1000 2000) as (Hne & _ & Hle); [done|done|done|by vm_compute| |by vm_compute|by vm_compute|].
  - intros h [->|[->|[]%elem_of_nil]%elem_of_cons]%elem_of_cons;
      (split; [apply (bool_decide_unpack _); by vm_compute|split; by vm_compute]).
  - split; [done|]. apply (Hle 20); by vm_compute.
Defined.

(** The clock is behind the slot: the block waits for its slot. *)
Lemma prepared_time_verifies_witness :
  ∃ ms h', prepare_timestamp 3 1727400000500 parlia s0 (set_mix_hash 0 (demo_header top bohr_time))
             (by_validator 20 h1) = Done (ms, h') ∧
    block_time_verify_for_ramanujan_fork 3 parlia s0 h' (set_mix_hash 0 (demo_header top bohr_time)) = Done tt ∧
    1727400000500 <= ms.
Proof.
  eexists _, _. split; [by vm_compute|].
  apply (prepared_time_verifies 3 1727400000500 parlia s0 (set_mix_hash 0 (demo_header top bohr_time))
    (by_validator 20 h1)); [by vm_compute|split; by vm_compute|split; by vm_compute|by vm_compute|by vm_compute|
    by vm_compute|by vm_compute|intros _; split; by vm_compute].
Defined.

(** 2 s early with 1 s reserved: the rest of the slot, at most the interval. *)
Lemma mining_delay_bounds_witness :
  0 <= delay_for_mining 1727399998000 (λ _, 7) parlia s0 h1 1000 <= 3000.
Proof.
  pose proof (mining_delay_bounds 1727399998000 (λ _, 7) parlia s0 h1 1000) as Hd.
  destruct Hd as (Hd & _); [by vm_compute|by vm_compute|split; by vm_compute|intros w; lia|].
  destruct Hd as [Hlo Hhi]. split; [exact Hlo|]. eapply Z.le_trans; [exact Hhi|]. by vm_compute.
Defined.
End BackoffDemo.
