(* ===== verification/Validation.v ===== *)
(** * Validation: stateless checks of a header and a block

    Models [src/consensus/parlia/validation.rs] with the blob rule it uses from
    [src/consensus/eip4844/bep657.rs]: [validate_header] and
    [validate_block_pre_execution] of the [Parlia] engine, with the order of
    the checks and the errors they return.  The wall clock is an argument, and
    so are the transaction root check and the encoded length of a block, which
    are computed by [reth]. *)

From stdpp Require Import base tactics numbers option list sorting gmap.
From Stdlib Require Import ZArith Lia Bool.
From S2P Require Import Prelude.
From S2P Require Import Hardforks.
From S2P Require Import Header.
From S2P Require Import Snapshot.
From S2P Require Import Extra.
From S2P Require Import ExtraProps.

(** The errors of [reth::consensus::ConsensusError] raised here; the messages of
    its free-form variants are constructors of their own. *)
Inductive ConsensusError : Set :=
| HeaderGasUsedExceedsGasLimit (gas_used gas_limit : Z)
| BaseFeeBeforeLondon (got : Z)
| BaseFeeMissing
| BaseFeeDiff (got expected : Z)
| BlobGasUsedMissing
| ExcessBlobGasMissing
| BlobsNotAllowed (number : Z)
| BlobGasUsedExceedsMaxBlobGasPerBlock (blob_gas_used max_blob_gas_per_block : Z)
| BlobGasUsedNotMultipleOfBlobGasPerBlob (blob_gas_used blob_gas_per_blob : Z)
| TimestampIsInFuture (timestamp present_timestamp : Z)
| NonZeroMixDigest
| InvalidMixDigestMilliseconds
| WithdrawalsRootUnexpected
| WithdrawalsRootMissing
| BodyWithdrawalsRootDiff (got expected : Z)
| RequestsHashMissing
| RequestsHashUnexpected
| InvalidBlockAccessListHash (got : Z)
| InvalidSlotNumber (got : Z)
| NonEmptyUncleHash
| ParentBeaconBlockRootUnexpected
| ExcessBlobGasUnexpected
| BlobGasUsedUnexpected
| InvalidHeaderExtraError (e : ParliaConsensusError)
| BodyTransactionRootDiff
| BlockTooLarge (rlp_length max_rlp_length : Z)
| BlobGasUsedDiff (got expected : Z).

(** Constants of [alloy]: EIP-4844 and the hash of the empty ommer list. *)
Class AlloyConstants := {
  DATA_GAS_PER_BLOB : Z;
  MAX_DATA_GAS_PER_BLOCK_DENCUN : Z;
  EMPTY_OMMER_ROOT_HASH : Z;
}.

Definition MAX_RLP_BLOCK_SIZE_OSAKA : Z := 8 * 1024 * 1024.
Definition BLOB_ELIGIBLE_BLOCK_INTERVAL : Z := 5.

Section Validation.
Context `{F : ForkConditionApi, AC : AlloyConstants}.
Implicit Types (header : Header) (spec : ChainSpec) (self : Parlia).

Definition is_blob_eligible_block spec (block_number timestamp : Z) : bool :=
  if negb (is_mendel_active_at_timestamp spec block_number timestamp) then true
  else is_multiple_of block_number BLOB_ELIGIBLE_BLOCK_INTERVAL.

Definition should_recalculate_excess_blob_gas spec (block_number timestamp : Z) : bool :=
  if negb (is_mendel_active_at_timestamp spec block_number timestamp) then true
  else block_number mod BLOB_ELIGIBLE_BLOCK_INTERVAL =? 1.

Definition validate_header_gas header : exec ConsensusError unit :=
  if gas_limit header <? gas_used header
  then Fail (HeaderGasUsedExceedsGasLimit (gas_used header) (gas_limit header))
  else Done tt.

Definition validate_header_base_fee header spec : exec ConsensusError unit :=
  match is_london_active_at_block spec (number header), base_fee_per_gas header with
  | false, None | true, Some 0 => Done tt
  | false, Some got => Fail (BaseFeeBeforeLondon got)
  | true, None => Fail BaseFeeMissing
  | true, Some got => Fail (BaseFeeDiff got 0)
  end.

Definition validate_4844_header_of_bsc header spec : exec ConsensusError unit :=
  blob_gas_used' ← ok_or (blob_gas_used header) BlobGasUsedMissing;
  excess_blob_gas' ← ok_or (excess_blob_gas header) ExcessBlobGasMissing;
  if negb (is_blob_eligible_block spec (number header) (timestamp header))
     && negb (blob_gas_used' =? 0)
  then Fail (BlobsNotAllowed (number header))
  else if MAX_DATA_GAS_PER_BLOCK_DENCUN <? blob_gas_used'
  then Fail (BlobGasUsedExceedsMaxBlobGasPerBlock blob_gas_used' MAX_DATA_GAS_PER_BLOCK_DENCUN)
  else
    r ← rmod blob_gas_used' DATA_GAS_PER_BLOB;
    if negb (r =? 0)
    then Fail (BlobGasUsedNotMultipleOfBlobGasPerBlob blob_gas_used' DATA_GAS_PER_BLOB)
    else
      r ← rmod excess_blob_gas' DATA_GAS_PER_BLOB;
      if negb (r =? 0)
      then Fail (BlobGasUsedNotMultipleOfBlobGasPerBlob excess_blob_gas' DATA_GAS_PER_BLOB)
      else Done tt.

Definition validate_header_not_from_future header (present_timestamp_secs : Z)
    : exec ConsensusError unit :=
  if present_timestamp_secs <? timestamp header
  then Fail (TimestampIsInFuture (timestamp header) present_timestamp_secs)
  else Done tt.

Definition validate_mix_digest_for_parlia header (lorentz_active : bool) : exec ConsensusError unit :=
  if negb lorentz_active
  then if negb (mix_hash header =? 0) then Fail NonZeroMixDigest else Done tt
  else if negb (calculate_millisecond_timestamp header / 1000 =? timestamp header)
  then Fail InvalidMixDigestMilliseconds
  else Done tt.

Definition validate_withdrawals_root_for_bsc header (cancun_active : bool) : exec ConsensusError unit :=
  if negb cancun_active
  then match withdrawals_root header with Some _ => Fail WithdrawalsRootUnexpected | None => Done tt end
  else
    got ← ok_or (withdrawals_root header) WithdrawalsRootMissing;
    if negb (got =? EMPTY_WITHDRAWALS_HASH)
    then Fail (BodyWithdrawalsRootDiff got EMPTY_WITHDRAWALS_HASH)
    else Done tt.

Definition validate_requests_hash_for_bsc header (prague_active : bool) : exec ConsensusError unit :=
  if prague_active
  then match requests_hash header with None => Fail RequestsHashMissing | Some _ => Done tt end
  else match requests_hash header with Some _ => Fail RequestsHashUnexpected | None => Done tt end.

Definition validate_optional_trailing_fields_for_bsc header : exec ConsensusError unit :=
  match block_access_list_hash header with
  | Some h => Fail (InvalidBlockAccessListHash h)
  | None =>
      match slot_number header with
      | Some s => Fail (InvalidSlotNumber s)
      | None => Done tt
      end
  end.

(** The check of [parent_beacon_block_root], inline in the source. *)
Definition validate_parent_beacon_block_root header (bohr_active : bool) : exec ConsensusError unit :=
  if bohr_active
  then match parent_beacon_block_root header with
       | None => Fail ParentBeaconBlockRootUnexpected
       | Some r => if negb (r =? 0) then Fail ParentBeaconBlockRootUnexpected else Done tt
       end
  else match parent_beacon_block_root header with
       | Some _ => Fail ParentBeaconBlockRootUnexpected
       | None => Done tt
       end.

Definition validate_unsealed_header_fields self header : exec ConsensusError unit :=
  let spec := parlia_spec self in
  let n := number header in
  let t := timestamp header in
  _ ← validate_mix_digest_for_parlia header (is_lorentz_active_at_timestamp spec n t);
  _ ← ensure (ommers_hash header =? EMPTY_OMMER_ROOT_HASH) NonEmptyUncleHash;
  _ ← validate_parent_beacon_block_root header (is_bohr_active_at_timestamp spec n t);
  _ ← validate_requests_hash_for_bsc header (is_prague_active_at_block_and_timestamp spec n t);
  _ ← validate_optional_trailing_fields_for_bsc header;
  _ ← validate_header_base_fee header spec;
  let cancun_active := is_cancun_active_at_timestamp spec n t in
  _ ← (if negb cancun_active
       then match excess_blob_gas header with
            | Some _ => Fail ExcessBlobGasUnexpected
            | None => match blob_gas_used header with
                      | Some _ => Fail BlobGasUsedUnexpected
                      | None => Done tt
                      end
            end
       else Done tt);
  _ ← validate_withdrawals_root_for_bsc header cancun_active;
  _ ← (if cancun_active then validate_4844_header_of_bsc header spec else Done tt);
  validate_header_gas header.

Definition validate_header (now : Z) self header : exec ConsensusError unit :=
  _ ← validate_header_not_from_future header now;
  _ ← map_err InvalidHeaderExtraError (check_header_extra self header);
  validate_unsealed_header_fields self header.

(** A transaction of the body: is it a blob transaction, and its blob gas. *)
Record TxBlob := {
  is_eip4844 : bool;
  tx_blob_gas_used : option Z;
}.

Definition validate_block_pre_execution self (transaction_root_valid : bool) (rlp_length : Z)
    header (transactions : list TxBlob) : exec ConsensusError unit :=
  let spec := parlia_spec self in
  _ ← ensure transaction_root_valid BodyTransactionRootDiff;
  _ ← (if is_osaka_active_at_timestamp spec (number header) (timestamp header)
       then if MAX_RLP_BLOCK_SIZE_OSAKA <? rlp_length
            then Fail (BlockTooLarge rlp_length MAX_RLP_BLOCK_SIZE_OSAKA) else Done tt
       else Done tt);
  if is_cancun_active_at_timestamp spec (number header) (timestamp header)
  then
    if negb (is_blob_eligible_block spec (number header) (timestamp header))
       && existsb is_eip4844 transactions
    then Fail (BlobsNotAllowed (number header))
    else
      header_blob_gas_used ← ok_or (blob_gas_used header) BlobGasUsedMissing;
      let total_blob_gas :=
        fold_left (λ acc tx, add64 acc (default 0 (tx_blob_gas_used tx))) transactions 0 in
      if negb (total_blob_gas =? header_blob_gas_used)
      then Fail (BlobGasUsedDiff header_blob_gas_used total_blob_gas)
      else Done tt
  else Done tt.
End Validation.

(** ** What the checks accept *)

Section Acceptance.
Context `{F : ForkConditionApi, AC : AlloyConstants}.
Implicit Types (header : Header) (spec : ChainSpec) (self : Parlia).

(** The rules on a header's own fields, fork by fork. *)
Record fields_ok self header : Prop := {
  fo_time : if is_lorentz_active_at_timestamp (parlia_spec self) (number header) (timestamp header)
            then calculate_millisecond_timestamp header / 1000 = timestamp header
            else mix_hash header = 0;
  fo_ommers : ommers_hash header = EMPTY_OMMER_ROOT_HASH;
  fo_beacon : parent_beacon_block_root header =
    if is_bohr_active_at_timestamp (parlia_spec self) (number header) (timestamp header) then Some 0 else None;
  fo_requests : is_Some (requests_hash header) ↔
    is_prague_active_at_block_and_timestamp (parlia_spec self) (number header) (timestamp header) = true;
  fo_access_list : block_access_list_hash header = None;
  fo_slot : slot_number header = None;
  fo_base_fee : base_fee_per_gas header =
    if is_london_active_at_block (parlia_spec self) (number header) then Some 0 else None;
  fo_withdrawals : withdrawals_root header =
    if is_cancun_active_at_timestamp (parlia_spec self) (number header) (timestamp header)
    then Some EMPTY_WITHDRAWALS_HASH else None;
  fo_blobs : if is_cancun_active_at_timestamp (parlia_spec self) (number header) (timestamp header)
    then ∃ b e, blob_gas_used header = Some b ∧ excess_blob_gas header = Some e ∧
           (is_blob_eligible_block (parlia_spec self) (number header) (timestamp header) = false → b = 0) ∧
           b <= MAX_DATA_GAS_PER_BLOCK_DENCUN ∧ b mod DATA_GAS_PER_BLOB = 0 ∧ e mod DATA_GAS_PER_BLOB = 0
    else blob_gas_used header = None ∧ excess_blob_gas header = None;
  fo_gas : gas_used header <= gas_limit header;
}.

Context (Hblob : DATA_GAS_PER_BLOB ≠ 0).

Lemma validate_4844_iff header spec :
  validate_4844_header_of_bsc header spec = Done tt ↔
  ∃ b e, blob_gas_used header = Some b ∧ excess_blob_gas header = Some e ∧
    (is_blob_eligible_block spec (number header) (timestamp header) = false → b = 0) ∧
    b <= MAX_DATA_GAS_PER_BLOCK_DENCUN ∧ b mod DATA_GAS_PER_BLOB = 0 ∧ e mod DATA_GAS_PER_BLOB = 0.
Proof.
  unfold validate_4844_header_of_bsc.
  destruct (blob_gas_used header) as [b|]; cbn [ok_or mbind exec_bind]; [|naive_solver].
  destruct (excess_blob_gas header) as [e|]; cbn [ok_or mbind exec_bind]; [|naive_solver].
  unfold rmod. rewrite (proj2 (Z.eqb_neq _ 0) Hblob). cbn [mbind exec_bind].
  destruct (is_blob_eligible_block _ _ _), (Z.eqb_spec b 0), (Z.ltb_spec MAX_DATA_GAS_PER_BLOCK_DENCUN b),
    (Z.eqb_spec (b mod DATA_GAS_PER_BLOB) 0), (Z.eqb_spec (e mod DATA_GAS_PER_BLOB) 0);
    cbn [negb andb]; (split; [intros; try done; exists b, e; split_and!; try done; naive_solver|
      intros (b' & e' & [= <-] & [= <-] & ? & ? & ? & ?); try done; exfalso; naive_solver lia]).
Qed.

Lemma mix_digest_iff header lorentz :
  validate_mix_digest_for_parlia header lorentz = Done tt ↔
  if lorentz then calculate_millisecond_timestamp header / 1000 = timestamp header else mix_hash header = 0.
Proof.
  unfold validate_mix_digest_for_parlia. destruct lorentz; cbn [negb].
  - destruct (Z.eqb_spec (calculate_millisecond_timestamp header / 1000) (timestamp header)); naive_solver.
  - destruct (Z.eqb_spec (mix_hash header) 0); naive_solver.
Qed.

Lemma beacon_root_iff header bohr :
  validate_parent_beacon_block_root header bohr = Done tt ↔
  parent_beacon_block_root header = if bohr then Some 0 else None.
Proof.
  unfold validate_parent_beacon_block_root. destruct bohr, (parent_beacon_block_root header) as [r|]; try naive_solver.
  destruct (Z.eqb_spec r 0); naive_solver.
Qed.

Lemma requests_hash_iff header prague :
  validate_requests_hash_for_bsc header prague = Done tt ↔ (is_Some (requests_hash header) ↔ prague = true).
Proof.
  unfold validate_requests_hash_for_bsc. destruct prague, (requests_hash header); rewrite ?is_Some_alt; naive_solver.
Qed.

Lemma base_fee_iff header spec :
  validate_header_base_fee header spec = Done tt ↔
  base_fee_per_gas header = if is_london_active_at_block spec (number header) then Some 0 else None.
Proof.
  unfold validate_header_base_fee.
  destruct (is_london_active_at_block _ _), (base_fee_per_gas header) as [[]|]; naive_solver.
Qed.

Lemma withdrawals_iff header cancun :
  validate_withdrawals_root_for_bsc header cancun = Done tt ↔
  withdrawals_root header = if cancun then Some EMPTY_WITHDRAWALS_HASH else None.
Proof.
  unfold validate_withdrawals_root_for_bsc. destruct cancun, (withdrawals_root header) as [r|]; cbn -[EMPTY_WITHDRAWALS_HASH]; try naive_solver.
  destruct (Z.eqb_spec r EMPTY_WITHDRAWALS_HASH); naive_solver.
Qed.

Lemma trailing_iff header :
  validate_optional_trailing_fields_for_bsc header = Done tt ↔
  block_access_list_hash header = None ∧ slot_number header = None.
Proof.
  unfold validate_optional_trailing_fields_for_bsc.
  destruct (block_access_list_hash header), (slot_number header); naive_solver.
Qed.

Lemma gas_iff header : validate_header_gas header = Done tt ↔ gas_used header <= gas_limit header.
Proof. unfold validate_header_gas. case_if; split_tests; split; done || lia. Qed.

Lemma unsealed_fields_iff self header :
  validate_unsealed_header_fields self header = Done tt ↔ fields_ok self header.
Proof.
  unfold validate_unsealed_header_fields. cbv zeta.
  rewrite !seq_Done, mix_digest_iff, ensure_Done, Z.eqb_eq, beacon_root_iff, requests_hash_iff, trailing_iff,
    base_fee_iff, withdrawals_iff, gas_iff.
  set (c := is_cancun_active_at_timestamp _ _ _).
  assert (Hc : ((if negb c then match excess_blob_gas header with
                  | Some _ => Fail ExcessBlobGasUnexpected
                  | None => match blob_gas_used header with
                            | Some _ => Fail BlobGasUsedUnexpected | None => Done tt end end
                 else Done tt) = Done tt ∧
                (if c then validate_4844_header_of_bsc header (parlia_spec self) else Done tt) = Done tt) ↔
    if c then ∃ b e, blob_gas_used header = Some b ∧ excess_blob_gas header = Some e ∧
           (is_blob_eligible_block (parlia_spec self) (number header) (timestamp header) = false → b = 0) ∧
           b <= MAX_DATA_GAS_PER_BLOCK_DENCUN ∧ b mod DATA_GAS_PER_BLOB = 0 ∧ e mod DATA_GAS_PER_BLOB = 0
    else blob_gas_used header = None ∧ excess_blob_gas header = None).
  { destruct c; cbn [negb]; [rewrite validate_4844_iff; naive_solver|].
    destruct (excess_blob_gas header), (blob_gas_used header); naive_solver. }
  split.
  - intros (? & ? & ? & ? & [? ?] & ? & Hb1 & ? & Hb2 & ?). split; try done. by apply Hc.
  - intros []. apply Hc in fo_blobs0 as [? ?]. split_and!; done.
Qed.

(** [validate_header] accepts exactly the headers that are not from the
    future, whose extra data has the right shape, and whose fields follow the
    rules of the forks active at their height and time: among them that the
    millisecond part stays within the second, that the two trailing fields not
    covered by the seal are absent, and that blob gas appears only in eligible
    blocks. *)
Theorem validate_header_iff now self header :
  Forall byte_ok (extra_data header) → zlen (extra_data header) < 2 ^ 64 →
  validate_header now self header = Done tt ↔
  timestamp header <= now ∧ extra_ok self header ∧ fields_ok self header.
Proof.
  intros Hok Hlen. unfold validate_header.
  rewrite !seq_Done, map_err_Done, check_extra_iff, unsealed_fields_iff by done.
  unfold validate_header_not_from_future. case_if; split_tests; intuition (done || lia).
Qed.

End Acceptance.

Section BlockAcceptance.
Context `{F : ForkConditionApi, AC : AlloyConstants}.
Implicit Types (header : Header) (spec : ChainSpec) (self : Parlia).

(** The blob gas of a body, as a plain sum. *)
Definition blob_gas_total (transactions : list TxBlob) : Z :=
  foldr (λ tx acc, default 0 (tx_blob_gas_used tx) + acc) 0 transactions.

Lemma fold_blob_gas transactions acc :
  0 <= acc → Forall (λ tx, 0 <= default 0 (tx_blob_gas_used tx)) transactions →
  acc + blob_gas_total transactions < 2 ^ 64 →
  fold_left (λ acc tx, add64 acc (default 0 (tx_blob_gas_used tx))) transactions acc =
    acc + blob_gas_total transactions.
Proof.
  intros Hacc Hall. revert acc Hacc. induction Hall as [|tx txs Htx Hall IH]; intros acc Hacc Hsum; cbn in *; [lia|].
  assert (0 <= blob_gas_total txs) by (clear -Hall; unfold blob_gas_total; induction Hall; cbn in *; lia).
  unfold blob_gas_total in *. rewrite add64_small by lia. rewrite IH by lia. lia.
Qed.

(** [validate_block_pre_execution] accepts a block exactly when its
    transaction root matches, it is small enough from Osaka on, and from Cancun
    on the header's blob gas is the sum over the body, with no blob transaction
    in a block that is not eligible (BEP-657). *)
Theorem validate_block_iff self root_valid rlp_length header transactions :
  Forall (λ tx, 0 <= default 0 (tx_blob_gas_used tx)) transactions →
  blob_gas_total transactions < 2 ^ 64 →
  validate_block_pre_execution self root_valid rlp_length header transactions = Done tt ↔
  root_valid = true ∧
  (is_osaka_active_at_timestamp (parlia_spec self) (number header) (timestamp header) = true →
     rlp_length <= MAX_RLP_BLOCK_SIZE_OSAKA) ∧
  (is_cancun_active_at_timestamp (parlia_spec self) (number header) (timestamp header) = true →
     blob_gas_used header = Some (blob_gas_total transactions) ∧
     (is_blob_eligible_block (parlia_spec self) (number header) (timestamp header) = false →
        Forall (λ tx, is_eip4844 tx = false) transactions)).
Proof.
  intros Hall Hsum. unfold validate_block_pre_execution. cbv zeta.
  rewrite !seq_Done, ensure_Done, fold_blob_gas by (done || lia). rewrite Z.add_0_l.
  apply and_iff_compat_l. apply ZifyClasses.and_morph.
  { case_if; [|naive_solver]. case_if; split_tests; naive_solver lia. }
  destruct (is_cancun_active_at_timestamp _ _ _); [|naive_solver].
  assert (Hex : existsb is_eip4844 transactions = false ↔ Forall (λ tx, is_eip4844 tx = false) transactions).
  { clear. induction transactions as [|tx txs IH]; cbn; [naive_solver|].
    rewrite orb_false_iff, Forall_cons, IH. done. }
  destruct (is_blob_eligible_block _ _ _); cbn [negb andb].
  - destruct (blob_gas_used header) as [g|]; cbn; [|naive_solver].
    destruct (Z.eqb_spec (blob_gas_total transactions) g); cbn; naive_solver.
  - destruct (existsb is_eip4844 transactions); [naive_solver|].
    destruct (blob_gas_used header) as [g|]; cbn; [|naive_solver].
    destruct (Z.eqb_spec (blob_gas_total transactions) g); cbn; naive_solver.
Qed.
End BlockAcceptance.
