(* ===== verification/Seal.v ===== *)
(** * Seal: what a validator's signature binds

    The seal of a header is computed over [encode_header_with_chain_id]
    ([src/consensus/parlia/util.rs]), which leaves out the seal itself and the
    two trailing optional fields.  With the checks of
    [validate_unsealed_header_fields] ([validation.rs]) the preimage determines
    every other bit of the header: nobody but the signer can produce a second
    valid header from a signed one. *)

From stdpp Require Import base tactics numbers option list sorting gmap.
From Stdlib Require Import ZArith Lia Bool.
From S2P Require Import Prelude.
From S2P Require Import Hardforks.
From S2P Require Import Header.
From S2P Require Import Snapshot.
From S2P Require Import Extra.
From S2P Require Import ExtraProps.
From S2P Require Import Validation.

(** The items that exist at run time: each value fits its Rust type. *)
Definition item_ok (x : RlpItem) : Prop :=
  match x with
  | RlpU256 z | RlpB256 z => 0 <= z < 256 ^ 32
  | RlpAddress z => 0 <= z < 256 ^ 20
  | RlpBloom z => 0 <= z < 256 ^ 256
  | RlpU64 z | RlpB64 z => 0 <= z < 256 ^ 8
  | RlpSlice l => zlen l < 256 ^ 8
  end.

Definition same_kind (x y : RlpItem) : Prop :=
  match x, y with
  | RlpU256 _, RlpU256 _ | RlpB256 _, RlpB256 _ | RlpAddress _, RlpAddress _ | RlpBloom _, RlpBloom _
  | RlpU64 _, RlpU64 _ | RlpB64 _, RlpB64 _ | RlpSlice _, RlpSlice _ => True
  | _, _ => False
  end.

(** RLP is self-delimiting: an item, and the header of a list, can be read off
    the front of a byte string in one way only. *)
Class RlpPrefixFree (R : RlpApi) := {
  rlp_item_prefix_free x y r s :
    item_ok x → item_ok y → same_kind x y → rlp_encode x ++ r = rlp_encode y ++ s → x = y ∧ r = s;
  rlp_list_prefix_free a b r s :
    rlp_list_header a ++ r = rlp_list_header b ++ s → r = s;
}.

(** A header whose fields fit their types. *)
Record header_ok (h : Header) : Prop := {
  ho_b256 : Forall (λ z, 0 <= z < 256 ^ 32)
    [parent_hash h; ommers_hash h; state_root h; transactions_root h; receipts_root h; mix_hash h;
     difficulty h; default 0 (withdrawals_root h); default 0 (requests_hash h)];
  ho_address : 0 <= beneficiary h < 256 ^ 20;
  ho_bloom : 0 <= logs_bloom h < 256 ^ 256;
  ho_u64 : Forall (λ z, 0 <= z < 256 ^ 8)
    [number h; gas_limit h; gas_used h; timestamp h; nonce h; default 0 (base_fee_per_gas h);
     default 0 (blob_gas_used h); default 0 (excess_blob_gas h)];
  ho_extra : zlen (extra_data h) < 256 ^ 8;
}.

(** The header without its seal. *)
Definition strip_seal (h : Header) : Header := set_extra_data (signed_extra_data h) h.

Section Binding.
Context `{F : ForkConditionApi, AC : AlloyConstants, RP : !RlpPrefixFree R}.

(** The items of the preimage, in order. *)
Definition fixed_items (h : Header) (cid : Z) : list RlpItem :=
  [RlpU256 cid; RlpB256 (parent_hash h); RlpB256 (ommers_hash h); RlpAddress (beneficiary h);
   RlpB256 (state_root h); RlpB256 (transactions_root h); RlpB256 (receipts_root h);
   RlpBloom (logs_bloom h); RlpU256 (difficulty h); RlpU256 (number h); RlpU64 (gas_limit h);
   RlpU64 (gas_used h); RlpU64 (timestamp h); RlpSlice (signed_extra_data h); RlpB256 (mix_hash h);
   RlpB64 (nonce h)].

Definition optional_items (h : Header) : list RlpItem :=
  match parent_beacon_block_root h with
  | Some 0 =>
      [RlpU256 (default 0 (base_fee_per_gas h)); RlpB256 (default 0 (withdrawals_root h));
       RlpU64 (default 0 (blob_gas_used h)); RlpU64 (default 0 (excess_blob_gas h)); RlpB256 0] ++
      match requests_hash h with Some q => [RlpB256 q] | None => [] end
  | _ => []
  end.

Lemma preimage_items h cid :
  encode_header_with_chain_id h [] cid =
    rlp_list_header (rlp_header h cid) ++ concat (rlp_encode <$> fixed_items h cid ++ optional_items h).
Proof.
  unfold encode_header_with_chain_id, optional_items. rewrite fmap_app, concat_app.
  destruct (parent_beacon_block_root h) as [[| |]|]; cbn [Z.eqb]; [destruct (requests_hash h)|..];
    cbn [fixed_items fmap list_fmap concat app]; rewrite ?app_nil_r, <- ?app_assoc; done.
Qed.

Lemma items_inj xs ys r s :
  Forall item_ok xs → Forall item_ok ys → Forall2 same_kind xs ys →
  concat (rlp_encode <$> xs) ++ r = concat (rlp_encode <$> ys) ++ s → xs = ys ∧ r = s.
Proof.
  intros Hx Hy Hk. revert Hx Hy. induction Hk as [|x y xs ys Hxy _ IH]; [done|].
  intros [Hx Hxs]%Forall_cons [Hy Hys]%Forall_cons E. cbn in E. rewrite <- !app_assoc in E.
  apply rlp_item_prefix_free in E as [-> E]; [|done..]. apply IH in E as [-> ->]; done.
Qed.

Lemma items_ok h cid :
  header_ok h → 0 <= cid < 256 ^ 8 → Forall item_ok (fixed_items h cid ++ optional_items h).
Proof.
  intros [Hb Ha Hl Hu He] Hc.
  repeat (apply Forall_cons in Hb as [? Hb]). repeat (apply Forall_cons in Hu as [? Hu]). cbv beta in *.
  assert (zlen (signed_extra_data h) < 256 ^ 8).
  { unfold signed_extra_data. eapply Z.le_lt_trans; [|exact He]. unfold zlen. rewrite length_take. lia. }
  apply Forall_app. split.
  - repeat constructor; unfold item_ok; lia.
  - unfold optional_items. destruct (parent_beacon_block_root h) as [[| |]|]; try constructor.
    all: destruct (requests_hash h) eqn:Eq; cbn in *; repeat constructor; unfold item_ok; lia.
Qed.

(** The part of the header that the preimage fixes whatever the forks. *)
Lemma preimage_fixed h1 h2 cid :
  header_ok h1 → header_ok h2 → 0 <= cid < 256 ^ 8 →
  encode_header_with_chain_id h1 [] cid = encode_header_with_chain_id h2 [] cid →
  fixed_items h1 cid = fixed_items h2 cid ∧
  concat (rlp_encode <$> optional_items h1) = concat (rlp_encode <$> optional_items h2).
Proof.
  intros H1 H2 Hc E. rewrite !preimage_items in E. apply rlp_list_prefix_free in E.
  rewrite !fmap_app, !concat_app in E.
  pose proof (items_ok h1 cid H1 Hc) as I1. pose proof (items_ok h2 cid H2 Hc) as I2.
  apply Forall_app in I1 as [I1 _], I2 as [I2 _].
  apply items_inj in E; [done|done|done|]. repeat constructor.
Qed.

Lemma preimage_optional h1 h2 cid :
  header_ok h1 → header_ok h2 → 0 <= cid < 256 ^ 8 →
  parent_beacon_block_root h1 = Some 0 → parent_beacon_block_root h2 = Some 0 →
  (is_Some (requests_hash h1) ↔ is_Some (requests_hash h2)) →
  concat (rlp_encode <$> optional_items h1) = concat (rlp_encode <$> optional_items h2) →
  optional_items h1 = optional_items h2.
Proof.
  intros H1 H2 Hc E1 E2 Hq E.
  pose proof (items_ok h1 cid H1 Hc) as I1. pose proof (items_ok h2 cid H2 Hc) as I2.
  apply Forall_app in I1 as [_ I1], I2 as [_ I2].
  apply (f_equal (λ l, l ++ [])) in E. apply items_inj in E as [E _]; [done|done|done|].
  unfold optional_items. rewrite E1, E2. rewrite !is_Some_alt in Hq.
  destruct (requests_hash h1), (requests_hash h2); repeat constructor; naive_solver.
Qed.

(** From Bohr on the seal binds the whole header: two valid headers with the
    same seal preimage are equal but for the 65 bytes of the seal itself.  A
    peer cannot change any field of a signed header, optional ones included,
    and keep both its signature and its validity. *)
Theorem seal_binds_valid_header self h1 h2 cid :
  DATA_GAS_PER_BLOB ≠ 0 → header_ok h1 → header_ok h2 → 0 <= cid < 256 ^ 8 →
  is_bohr_active_at_timestamp (parlia_spec self) (number h1) (timestamp h1) = true →
  validate_unsealed_header_fields self h1 = Done tt → validate_unsealed_header_fields self h2 = Done tt →
  encode_header_with_chain_id h1 [] cid = encode_header_with_chain_id h2 [] cid →
  strip_seal h1 = strip_seal h2.
Proof.
  intros Hd H1 H2 Hc Hbohr V1%unsealed_fields_iff V2%unsealed_fields_iff E; [|done..].
  destruct (preimage_fixed h1 h2 cid H1 H2 Hc E) as [Efix Eopt].
  unfold fixed_items in Efix. injection Efix as E1 E2 E3 E4 E5 E6 E7 E8 En E9 E10 Et Ex E11 E12.
  destruct V1 as [_ _ Hb1 Hq1 Ha1 Hs1 Hf1 Hw1 Hbl1 _], V2 as [_ _ Hb2 Hq2 Ha2 Hs2 Hf2 Hw2 Hbl2 _].
  rewrite <- En in Hf2. rewrite <- En, <- Et in Hb2, Hq2, Hw2, Hbl2. rewrite Hbohr in Hb1, Hb2.
  apply (preimage_optional h1 h2 cid) in Eopt; [|done..|by rewrite Hq1, Hq2].
  unfold optional_items in Eopt. rewrite Hb1, Hb2 in Eopt.
  injection Eopt as Eo1 Eo2 Eo3 Eo4 Eo5.
  assert (blob_gas_used h1 = blob_gas_used h2 ∧ excess_blob_gas h1 = excess_blob_gas h2) as [Eb Ee].
  { destruct (is_cancun_active_at_timestamp _ _ _); [|naive_solver congruence].
    destruct Hbl1 as (? & ? & Hx1 & Hy1 & _), Hbl2 as (? & ? & Hx2 & Hy2 & _).
    rewrite Hx1, Hx2, Hy1, Hy2 in *. cbn in *. naive_solver. }
  assert (requests_hash h1 = requests_hash h2) as Er.
  { destruct (requests_hash h1), (requests_hash h2); naive_solver. }
  unfold strip_seal, set_extra_data. rewrite Ex. f_equal; congruence.
Qed.
End Binding.

(** ** Witness *)

Module SealDemo.
Import ThresholdForks TaggedRlp ExtraDemo DemoApis.

#[export] Instance alloy_constants : AlloyConstants := {|
  DATA_GAS_PER_BLOB := 131072;
  MAX_DATA_GAS_PER_BLOCK_DENCUN := 786432;
  EMPTY_OMMER_ROOT_HASH := 0x1dcc4de8dec75d7aab85b567b6ccd41ad312451b948a7413f0a142fd40d49347;
|}.

Lemma be_encode_inj n a b :
  0 <= a < 256 ^ Z.of_nat n → 0 <= b < 256 ^ Z.of_nat n → be_encode n a = be_encode n b → a = b.
Proof. intros Ha Hb E. rewrite <- (be_decode_encode n a), <- (be_decode_encode n b), E by done. done. Qed.

Lemma be_encode_app_inj n a b (r s : bytes) :
  be_encode n a ++ r = be_encode n b ++ s → be_encode n a = be_encode n b ∧ r = s.
Proof. apply app_inj_1. by rewrite !be_encode_length. Qed.

Lemma tagged_inj (t a b : Z) n (r s : bytes) :
  0 <= a < 256 ^ Z.of_nat n → 0 <= b < 256 ^ Z.of_nat n →
  (t :: be_encode n a) ++ r = (t :: be_encode n b) ++ s → a = b ∧ r = s.
Proof.
  intros Ha Hb [= E]. apply be_encode_app_inj in E as [E ->]. split; [|done]. by eapply be_encode_inj.
Qed.

Lemma tagged_slice_inj (t : Z) (l k r s : bytes) :
  zlen l < 256 ^ 8 → zlen k < 256 ^ 8 →
  (t :: be_encode 8 (zlen l) ++ l) ++ r = (t :: be_encode 8 (zlen k) ++ k) ++ s → l = k ∧ r = s.
Proof.
  intros Hl Hk E. apply (f_equal tail) in E. cbn [tail app] in E. rewrite <- !app_assoc in E.
  apply be_encode_app_inj in E as [El E].
  apply be_encode_inj in El; [|split; [apply zlen_nonneg|done]..].
  apply app_inj_1 in E as [-> ->]; [done|]. unfold zlen in El. lia.
Qed.

#[export] Instance tagged_prefix_free : RlpPrefixFree tagged_rlp.
Proof.
  split.
  - intros x y r s Hx Hy Hk E.
    destruct x, y; try (by destruct Hk); unfold item_ok in *.
    + by destruct (tagged_inj 1 z z0 32 r s Hx Hy E) as [-> ->].
    + by destruct (tagged_inj 2 z z0 32 r s Hx Hy E) as [-> ->].
    + by destruct (tagged_inj 3 z z0 20 r s Hx Hy E) as [-> ->].
    + by destruct (tagged_inj 4 z z0 256 r s Hx Hy E) as [-> ->].
    + by destruct (tagged_inj 5 z z0 8 r s Hx Hy E) as [-> ->].
    + by destruct (tagged_inj 6 z z0 8 r s Hx Hy E) as [-> ->].
    + by destruct (tagged_slice_inj 7 l l0 r s Hx Hy E) as [-> ->].
  - intros a b r s E. apply (f_equal tail) in E. by apply (be_encode_app_inj 8) in E as [_ ?].
Qed.

(** A block of validator 7 after Bohr, with two different seals. *)
Definition signed (seal : bytes) : Header :=
  {| parent_hash := 1; ommers_hash := EMPTY_OMMER_ROOT_HASH; beneficiary := 7; state_root := 2;
     transactions_root := 3; receipts_root := 4; logs_bloom := 0; difficulty := 2; number := 45000001;
     gas_limit := 100; gas_used := 50; timestamp := 1727400003; extra_data := replicate 32 7 ++ seal;
     mix_hash := 0; nonce := 0; base_fee_per_gas := Some 0; withdrawals_root := Some EMPTY_WITHDRAWALS_HASH;
     blob_gas_used := Some 0; excess_blob_gas := Some 0; parent_beacon_block_root := Some 0;
     requests_hash := None; block_access_list_hash := None; slot_number := None |}.

Lemma signed_ok seal : zlen seal = 65 → header_ok (signed seal).
Proof.
  intros Hs. split.
  - repeat (apply Forall_cons_2; [split; by vm_compute|]). apply Forall_nil_2.
  - split; by vm_compute.
  - split; by vm_compute.
  - repeat (apply Forall_cons_2; [split; by vm_compute|]). apply Forall_nil_2.
  - unfold signed. cbn [extra_data]. rewrite zlen_app, Hs. by vm_compute.
Qed.

Lemma seal_binds_valid_header_witness :
  signed (replicate 65 1) ≠ signed (replicate 65 2) ∧
  strip_seal (signed (replicate 65 1)) = strip_seal (signed (replicate 65 2)).
Proof.
  split; [by intros [=]|].
  apply (seal_binds_valid_header parlia (signed (replicate 65 1)) (signed (replicate 65 2)) 56);
    [done|by apply signed_ok|by apply signed_ok|done|by vm_compute|by vm_compute|by vm_compute|].
  unfold encode_header_with_chain_id. reflexivity.
Defined.

Lemma validate_header_iff_witness :
  validate_header 1727400003 parlia (signed (replicate 65 1)) = Done tt ∧
  fields_ok parlia (signed (replicate 65 1)).
Proof.
  split; [by vm_compute|].
  apply (validate_header_iff (AC := alloy_constants) ltac:(done) 1727400003 parlia (signed (replicate 65 1)));
    [repeat constructor; unfold byte_ok; lia|by vm_compute|by vm_compute].
Defined.

(** Two blobs at a height that is a multiple of five. *)
Definition blobs : list TxBlob := [{| is_eip4844 := true; tx_blob_gas_used := Some 131072 |};
                                   {| is_eip4844 := false; tx_blob_gas_used := None |}].

Lemma validate_block_iff_witness :
  validate_block_pre_execution parlia true 1000 (signed (replicate 65 1)) blobs
    = Fail (BlobGasUsedDiff 0 131072) ∧
  validate_block_pre_execution parlia true 1000 (signed (replicate 65 1)) [] = Done tt.
Proof.
  split; [by vm_compute|].
  apply (validate_block_iff parlia true 1000 (signed (replicate 65 1)) []);
    [constructor|by vm_compute|]. split; [done|]. split; [done|]. intros _. split; [done|constructor].
Defined.
End SealDemo.
