(* ===== verification/Attestation.v ===== *)
(** * Attestation: assembling and verifying fast-finality attestations

    Models [assemble_vote_attestation] of [src/consensus/parlia/consensus.rs],
    run by the producer of a block, and [verify_vote_attestation],
    [verify_seal], [get_justified_header] and [verify_cascading_fields] of
    [src/node/evm/pre_execution.rs], run by everyone else, over a view of the
    node's headers, snapshots and votes.  The BLS library and the ECDSA
    recovery are parameters. *)

From stdpp Require Import base tactics numbers option list sorting gmap strings.
From Stdlib Require Import ZArith Lia Bool.
From S2P Require Import Prelude.
From S2P Require Import Hardforks.
From S2P Require Import Header.
From S2P Require Import Snapshot.
From S2P Require Import Extra.
From S2P Require Import Backoff.

(** The operations of [blst::min_pk] the code uses; keys and signatures travel as
    the numbers of their bytes. *)
Class BlsApi := {
  BlsSignature : Type;
  BlsPublicKey : Type;
  signature_from_bytes : Z → option BlsSignature;
  signature_to_bytes : BlsSignature → Z;
  public_key_from_bytes : Z → option BlsPublicKey;
  aggregate : list BlsSignature → option BlsSignature;
  fast_aggregate_verify : BlsSignature → Z → list BlsPublicKey → bool;
  verify_one : BlsSignature → Z → BlsPublicKey → bool;  (* [Signature::verify] *)
}.

(** What BLS guarantees: an aggregate of signatures on one message verifies under
    the keys of the signers, in any order; verifying one signature is verifying
    the aggregate of one; bytes round-trip. *)
Class BlsLaws (B : BlsApi) := {
  signature_bytes_roundtrip s : signature_from_bytes (signature_to_bytes s) = Some s;
  aggregate_nonempty ss : ss ≠ [] → is_Some (aggregate ss);
  aggregate_verifies m ss ks ks' s :
    Forall2 (λ s k, fast_aggregate_verify s m [k] = true) ss ks → ks' ≡ₚ ks →
    aggregate ss = Some s → fast_aggregate_verify s m ks' = true;
  verify_one_aggregate s m k : verify_one s m k = fast_aggregate_verify s m [k];
}.

(** [RecoveryId::try_from], [RecoverableSignature::from_compact],
    [SECP256K1.recover_ecdsa] and the address of the key, in one step. *)
Class EcdsaApi := {
  recover_address : Z → bytes → Z → option Z;  (* digest, 64 bytes, recovery byte *)
}.

(** The stores a node reads: the header cache and provider, the snapshots, the
    vote pool. *)
Record ChainView := {
  cached_header_by_hash : Z → option Header;
  provider_header_by_hash : Z → option Header;
  cached_header_by_number : Z → option Header;
  provider_header_by_number : Z → option Header;
  snapshot_by_hash : Z → option Snapshot;
  fetch_vote_by_block_hash_and_source_number : Z → Z → list VoteEnvelope;
}.

Definition get_header_by_hash_from_cache (view : ChainView) (h : Z) : option Header :=
  match cached_header_by_hash view h with
  | Some header => Some header
  | None => provider_header_by_hash view h
  end.

Definition get_cannonical_header_from_cache (view : ChainView) (n : Z) : option Header :=
  match cached_header_by_number view n with
  | Some header => Some header
  | None => provider_header_by_number view n
  end.

(** [BscBlockExecutionError] of [node/evm/error.rs]; foreign errors are their
    messages. *)
Inductive BscBlockExecutionError : Set :=
| Validation (e : BscBlockValidationError)
| PaymentLaneStateUnavailable (reason : string)
| NoSnapshotFound
| EthCallFailed
| GetTopValidatorsFailed
| ParentUnknown (hash : Z)
| ApplySnapshotFailed
| UnknownHeader (block_hash : Z)
| VoteAddrNotFoundInSnap (address : Z)
| BLSTInnerError
| ProviderInnerError (error : string)
| SystemContractUpgradeError
| FailedToSignSystemTransaction (error : string)
| GlobalSignerNotInitializedForMiningMode.

(** The executor's error: a verdict on the block, which the engine may remember
    ([BlockExecutionError::Validation]), or a local failure
    ([BlockExecutionError::other], [BlockExecutionError::msg]).
    [PreExecutionInvalid] is a verdict wrapped in [PreExecutionValidationError].
    [ShuffleOutOfFuel] is the model's own: the shuffle of the back-off time had
    too little fuel. *)
Inductive BlockExecutionError : Set :=
| BlockInvalid (e : BscBlockValidationError)
| PreExecutionInvalid (e : BlockExecutionError)
| BlockOther (e : BscBlockExecutionError)
| BlockMsg (message : string)
| ShuffleOutOfFuel.

(** [From<BscBlockExecutionError> for BlockExecutionError] *)
Definition from_bsc (err : BscBlockExecutionError) : BlockExecutionError :=
  match err with
  | Validation (FutureBlock _ _) => BlockOther err
  | Validation validation_err => BlockInvalid validation_err
  | _ => BlockOther err
  end.

Definition pre_snapshot_unavailable : string :=
  "Failed to get pre snapshot from snapshot provider".

Definition ValidationError (e : BscBlockValidationError) : BlockExecutionError :=
  from_bsc (Validation e).

Definition is_verdict (error : BlockExecutionError) : bool :=
  match error with BlockInvalid _ | PreExecutionInvalid _ => true | _ => false end.

Definition mark_pre_execution_error (error : BlockExecutionError) : BlockExecutionError :=
  if is_verdict error then PreExecutionInvalid error else error.

Definition is_execution_evidence (error : BlockExecutionError) : bool :=
  match error with
  | PreExecutionInvalid _ => false
  | BlockInvalid _ => true
  | _ => false
  end.

(** [u64::count_ones] *)
Definition count_ones (x : Z) : Z := zlen (filter (λ i, Z.testbit x i = true) (seqZ 0 64)).

(** [usize::div_ceil(n * 2, 3)] *)
Definition quorum_of (n : Z) : Z := div_ceil (n * 2) 3.

Section Assemble.
Context `{F : ForkConditionApi, HashApi, R : AttestationRlp, B : BlsApi}.
Implicit Types (self : Parlia) (view : ChainView) (header : Header).

(** The search for a target with enough votes, at most [times] generations up. *)
Fixpoint find_target view (justified_number : Z) (times : nat) (target_header : Header)
    : exec ParliaConsensusError (list VoteEnvelope * Header * option Snapshot) :=
  match times with
  | O => Done ([], target_header, None)
  | S times =>
      let parent_hash' := parent_hash target_header in
      let target_hash' := hash_slow target_header in
      snap ← ok_or (snapshot_by_hash view parent_hash') (SnapshotNotFound parent_hash');
      let votes := fetch_vote_by_block_hash_and_source_number view target_hash' justified_number in
      if quorum_of (zlen (validators snap)) <=? zlen votes
      then Done (votes, target_header, Some snap)
      else
        header ← ok_or (provider_header_by_hash view parent_hash') (HeaderNotFound parent_hash');
        if number header <=? justified_number then Done (votes, header, None)
        else find_target view justified_number times header
  end.

(** Every vote is for the attested data. *)
Fixpoint check_votes (d : VoteData) (votes : list VoteEnvelope) : exec ParliaConsensusError unit :=
  match votes with
  | [] => Done tt
  | vote :: votes =>
      if negb (vote_data_hash (data vote) =? vote_data_hash d) then Fail (FetchVoteError (vote_address vote))
      else check_votes d votes
  end.

(** The first vote of each vote address that belongs to the snapshot. *)
Definition keep_first_vote (snap : Snapshot) (m : gmap Z Z) (vote : VoteEnvelope) : gmap Z Z :=
  if existsb (λ p, vote_addr p.2 =? vote_address vote) (map_to_list (validators_map snap))
  then match m !! vote_address vote with
       | Some _ => m
       | None => <[vote_address vote := signature vote]> m
       end
  else m.

Definition unique_votes (snap : Snapshot) (votes : list VoteEnvelope) : gmap Z Z :=
  fold_left (keep_first_vote snap) votes ∅.

(** The entries [(index, vote address, signature)] in the order of the map. *)
Definition ordered_votes (snap : Snapshot) (unique : gmap Z Z) : list (Z * Z * Z) :=
  omap (λ p, (λ sig, (index_of_info p.2, vote_addr p.2, sig)) <$> unique !! vote_addr p.2)
    (map_to_list (validators_map snap)).

(** [vote_address_set |= 1 << (index - 1)]; the shift amount is taken modulo 64. *)
Definition set_bits (entries : list (Z * Z * Z)) : Z :=
  fold_left (λ acc e, Z.lor acc (wrap64 (Z.shiftl 1 (sub64 e.1.1 1 mod 64)))) entries 0.

Definition decode_signature (e : Z * Z * Z) : exec ParliaConsensusError BlsSignature :=
  ok_or (signature_from_bytes e.2) AggregateSignatureError.

Definition assemble_vote_attestation self view (parent_snap : Snapshot) (parent_header : Header)
    (current_header : Header) : exec ParliaConsensusError Header :=
  if negb (is_luban_active_at_block (parlia_spec self) (number current_header))
     || (number current_header <? 3)
  then Done current_header
  else
    '(justified_number, justified_hash) ←
      (if target_hash (vote_data parent_snap) =? 0
       then match provider_header_by_number view 0 with
            | Some genesis => Done (number genesis, hash_slow genesis)
            | None => Fail (HeaderNotFound 0)
            end
       else Done (target_number (vote_data parent_snap), target_hash (vote_data parent_snap)));
    let times :=
      if is_fermi_active_at_timestamp (parlia_spec self) (number current_header) (timestamp current_header)
      then Z.to_nat K_ANCESTOR_GENERATION_DEPTH else 1%nat in
    '(votes, target_header, found) ← find_target view justified_number times parent_header;
    match found with
    | None => Done current_header
    | Some snap =>
        let d := {| source_number := justified_number; source_hash := justified_hash;
                    target_number := number target_header; target_hash := hash_slow target_header |} in
        _ ← check_votes d votes;
        let ordered := ordered_votes snap (unique_votes snap votes) in
        if zlen ordered <? quorum_of (zlen (validators snap)) then Done current_header
        else
          sigs ← mapM decode_signature ordered;
          agg ← ok_or (aggregate sigs) AggregateSignatureError;
          let set := set_bits ordered in
          let ones := count_ones set in
          if negb (ones =? zlen ordered)
          then Fail (InvalidAttestationVoteCount ones (zlen ordered))
          else
            let att := {| vote_address_set := set; agg_signature := signature_to_bytes agg;
                          att_data := d; att_extra := [] |} in
            Done (set_extra_data (extra_data current_header ++ encode_attestation att) current_header)
    end.
End Assemble.

Section Verify.
Context `{F : ForkConditionApi, HashApi, R : AttestationRlp, B : BlsApi, E : EcdsaApi, RA : RlpApi}.
Implicit Types (self : Parlia) (view : ChainView) (header parent : Header) (snap : Snapshot).

Definition get_justified_header view snap : exec BlockExecutionError Header :=
  let v := vote_data snap in
  if (source_hash v =? 0) && (target_hash v =? 0)
  then ok_or (get_cannonical_header_from_cache view 0) (from_bsc (UnknownHeader 0))
  else ok_or (get_header_by_hash_from_cache view (target_hash v)) (from_bsc (UnknownHeader (target_hash v))).

(** [for _ in 0..depth]: the ancestor that is the target, if one is. *)
Fixpoint match_ancestor view (target_block target_hash' : Z) (depth : nat) (ancestor : Header)
    : exec BlockExecutionError (bool * Header) :=
  match depth with
  | O => Done (false, ancestor)
  | S depth =>
      if (number ancestor =? target_block) && (hash_slow ancestor =? target_hash')
      then Done (true, ancestor)
      else
        next ← ok_or (get_header_by_hash_from_cache view (parent_hash ancestor))
                 (from_bsc (UnknownHeader (parent_hash ancestor)));
        match_ancestor view target_block target_hash' depth next
  end.

(** The vote addresses of the validators whose bit is set. *)
Fixpoint collect_vote_addrs (m : gmap Z ValidatorInfo) (set i : Z) (vs : list Z)
    : exec BlockExecutionError (list Z) :=
  match vs with
  | [] => Done []
  | v :: vs =>
      if (i <? 64) && Z.testbit set i
      then
        info ← ok_or (m !! v) (from_bsc (VoteAddrNotFoundInSnap v));
        rest ← collect_vote_addrs m set (i + 1) vs;
        Done (vote_addr info :: rest)
      else collect_vote_addrs m set (i + 1) vs
  end.

Definition decode_key (addr : Z) : exec BlockExecutionError BlsPublicKey :=
  ok_or (public_key_from_bytes addr) (ValidationError InvalidAttestationSignature).

(** The checks against the snapshot before the target. *)
Definition verify_votes (pre_snap : Snapshot) (attestation : VoteAttestation)
    : exec BlockExecutionError unit :=
  let validators_count := zlen (validators pre_snap) in
  let bit_set_count := count_ones (vote_address_set attestation) in
  if validators_count <? bit_set_count
  then Fail (ValidationError (InvalidAttestationVotes bit_set_count validators_count))
  else
    vote_addrs ← collect_vote_addrs (validators_map pre_snap) (vote_address_set attestation) 0
                   (validators pre_snap);
    let at_least_votes := quorum_of validators_count in
    if zlen vote_addrs <? at_least_votes
    then Fail (ValidationError (InvalidAttestationVotes (zlen vote_addrs) at_least_votes))
    else
      pubkeys ← mapM decode_key vote_addrs;
      sig ← ok_or (signature_from_bytes (agg_signature attestation))
              (ValidationError InvalidAttestationSignature);
      ensure (fast_aggregate_verify sig (vote_data_hash (att_data attestation)) pubkeys)
        (ValidationError InvalidAttestationSignature).

Definition verify_vote_attestation self view snap header parent : exec BlockExecutionError unit :=
  if negb (is_plato_active_at_block (parlia_spec self) (number header)) then Done tt
  else
    attestation ← map_err (λ e, ValidationError (ParliaError e))
                    (get_vote_attestation_from_header self header (epoch_num snap));
    match attestation with
    | None => Done tt
    | Some att =>
        if MAX_ATTESTATION_EXTRA_LENGTH <? zlen (att_extra att)
        then Fail (ValidationError (TooLargeAttestationExtraLen MAX_ATTESTATION_EXTRA_LENGTH))
        else
          let d := att_data att in
          let depth :=
            if is_fermi_active_at_timestamp (parlia_spec self) (number header) (timestamp header)
            then Z.to_nat K_ANCESTOR_GENERATION_DEPTH else 1%nat in
          '(is_match, ancestor) ← match_ancestor view (target_number d) (target_hash d) depth parent;
          if negb is_match
          then Fail (ValidationError (InvalidAttestationTarget (target_number d, number ancestor)
                                        (target_hash d, hash_slow ancestor)))
          else
            justified ← get_justified_header view snap;
            if negb (source_number d =? number justified) || negb (source_hash d =? hash_slow justified)
            then Fail (ValidationError (InvalidAttestationSource (source_number d, number justified)
                                          (source_hash d, hash_slow justified)))
            else
              pre_snap ← ok_or (snapshot_by_hash view (parent_hash ancestor))
                (BlockMsg pre_snapshot_unavailable);
              verify_votes pre_snap att
    end.

(** [recover_proposer], without its cache: the cache maps a block hash to the
    result of the same computation. *)
Definition recover_proposer self header : exec ParliaConsensusError Z :=
  let extra := extra_data header in
  if zlen extra <? EXTRA_VANITY_LEN + EXTRA_SEAL_LEN then Fail ExtraSignatureMissing
  else
    let signature_offset := zlen extra - EXTRA_SEAL_LEN in
    recovery_byte ← index extra (signature_offset + EXTRA_SEAL_LEN - 1);
    signature_bytes ← slice extra signature_offset (signature_offset + EXTRA_SEAL_LEN - 1);
    ok_or (recover_address (hash_with_chain_id header (chain_id (parlia_spec self))) signature_bytes recovery_byte)
      RecoverECDSAInnerError.

Definition panics_to {E'} (m : exec unit bool) : exec E' bool :=
  match m with Done b => Done b | _ => Panics end.

Definition verify_seal self snap header : exec BlockExecutionError unit :=
  proposer ← map_err (λ e, ValidationError (ParliaError e)) (recover_proposer self header);
  if negb (proposer =? beneficiary header)
  then Fail (ValidationError (WrongHeaderSigner (number header) proposer (beneficiary header)))
  else if negb (bool_decide (proposer ∈ validators snap))
  then Fail (ValidationError (SignerUnauthorized (number header) proposer))
  else if sign_recently snap proposer
  then Fail (ValidationError (SignerOverLimit proposer))
  else
    is_inturn' ← panics_to (is_inturn snap proposer);
    if ((is_inturn' : bool) && negb (difficulty header =? DIFF_INTURN))
       || (negb is_inturn' && negb (difficulty header =? DIFF_NOTURN))
    then Fail (ValidationError (InvalidDifficulty (difficulty header)))
    else Done tt.

Definition verify_cascading_fields (fuel : nat) self view header parent snap
    : exec BlockExecutionError unit :=
  _ ← map_err (λ e, match e with Some e => ValidationError e | None => ShuffleOutOfFuel end)
        (block_time_verify_for_ramanujan_fork fuel self snap header parent);
  _ ← verify_vote_attestation self view snap header parent;
  verify_seal self snap header.
End Verify.
