(* ===== verification/AttestationProps.v ===== *)
(** * AttestationProps: theorems about attestations

    An attestation the producer assembles is accepted by the verifier; an
    accepted one is backed by two thirds of the validators of the snapshot
    before its target, so that two of them share a third; and the seal check. *)

From stdpp Require Import base tactics numbers option list sorting gmap fin_maps.
From Stdlib Require Import ZArith Lia Bool.
From S2P Require Import Prelude.
From S2P Require Import Hardforks.
From S2P Require Import Header.
From S2P Require Import Snapshot.
From S2P Require Import SnapshotProps.
From S2P Require Import SnapshotClaims.
From S2P Require Import Extra.
From S2P Require Import ExtraProps.
From S2P Require Import Backoff.
From S2P Require Import Attestation.

(** ** Bit sets *)

Lemma bit_of_index k : 0 <= k < 64 → wrap64 (Z.shiftl 1 (k mod 64)) = 2 ^ k.
Proof.
  intros Hk. rewrite Z.mod_small, Z.shiftl_mul_pow2, Z.mul_1_l by lia. apply wrap64_small. unfold is_u64.
  pose proof (Z.pow_pos_nonneg 2 k). pose proof (Z.pow_lt_mono_r 2 k 64). lia.
Qed.

Lemma set_bits_testbit_from es acc i :
  Forall (λ e : Z * Z * Z, 1 <= e.1.1 <= 64) es → 0 <= i →
  Z.testbit (fold_left (λ acc e, Z.lor acc (wrap64 (Z.shiftl 1 (sub64 e.1.1 1 mod 64)))) es acc) i =
  Z.testbit acc i || existsb (λ e : Z * Z * Z, e.1.1 - 1 =? i) es.
Proof.
  intros Hes Hi. revert acc. induction Hes as [|e es He Hes IH]; intros acc; cbn [fold_left existsb].
  { by rewrite orb_false_r. }
  rewrite IH, sub64_small, bit_of_index by lia.
  rewrite Z.lor_spec, Z.pow2_bits_eqb by lia. by rewrite orb_assoc.
Qed.

Lemma set_bits_testbit es i :
  Forall (λ e : Z * Z * Z, 1 <= e.1.1 <= 64) es → 0 <= i →
  Z.testbit (set_bits es) i = true ↔ ∃ e, e ∈ es ∧ e.1.1 - 1 = i.
Proof.
  intros Hes Hi. unfold set_bits. rewrite set_bits_testbit_from by done.
  rewrite Z.bits_0, orb_false_l, existsb_exists. split.
  - intros (e & Hin & E). exists e. rewrite list_elem_of_In. split; [done|lia].
  - intros (e & Hin & E). exists e. rewrite <- list_elem_of_In. split; [done|lia].
Qed.

(** ** The validators behind the bits *)

(** A snapshot whose map indexes at most 64 distinct validators. *)
Record committee_ok (s : Snapshot) : Prop := {
  co_map : map_indexes (validators s) (validators_map s);
  co_nodup : NoDup (validators s);
  co_small : zlen (validators s) <= 64;
}.

Lemma committee_index s v info i :
  committee_ok s → validators s !! i = Some v → validators_map s !! v = Some info →
  index_of_info info = Z.of_nat i + 1 ∧ 1 <= index_of_info info <= 64.
Proof.
  intros [Hm Hnd Hs] Hi Hv. destruct (mi_index _ _ Hm v info Hv) as [H1 Hl].
  pose proof (NoDup_lookup _ _ _ _ Hnd Hi Hl). apply lookup_lt_Some in Hi. unfold zlen in Hs. lia.
Qed.

(** The entries of the map are the validators with their information. *)
Lemma committee_entries s :
  committee_ok s →
  map_to_list (validators_map s) ≡ₚ
    omap (λ v, (λ info, (v, info)) <$> validators_map s !! v) (validators s).
Proof.
  intros [Hm Hnd _]. apply NoDup_Permutation.
  - apply NoDup_map_to_list.
  - clear Hm. induction Hnd as [|v l Hv Hnd IH]; [constructor|]. cbn.
    destruct (validators_map s !! v) as [info|]; cbn; [|done]. apply NoDup_cons. split; [|done].
    intros (w & Hw & E)%list_elem_of_omap.
    destruct (validators_map s !! w); [|done]. injection E as -> _. done.
  - intros [v info]. rewrite elem_of_map_to_list, list_elem_of_omap. split.
    + intros Hv. exists v. split; [apply (mi_dom _ _ Hm); eauto|]. by rewrite Hv.
    + intros (w & _ & E). destruct (validators_map s !! w) as [i|] eqn:Ew; [|done]. by injection E as -> ->.
Qed.

(** The vote addresses of the committee that have a vote. *)
Definition voting_addrs (s : Snapshot) (unique : gmap Z Z) : list Z :=
  omap (λ v, info ← validators_map s !! v; _ ← unique !! vote_addr info; Some (vote_addr info)) (validators s).

Lemma ordered_votes_bounds s unique :
  committee_ok s → Forall (λ e : Z * Z * Z, 1 <= e.1.1 <= 64) (ordered_votes s unique).
Proof.
  intros Hc. apply Forall_forall. intros e (p & Hp & E)%list_elem_of_omap.
  destruct p as [v info]. apply elem_of_map_to_list in Hp. simpl in E.
  destruct (unique !! vote_addr info); [|done]. injection E as <-. simpl.
  destruct (list_elem_of_lookup_1 (validators s) v) as [i Hi].
  { apply (mi_dom _ _ (co_map s Hc)). eauto. }
  by eapply committee_index.
Qed.

(** The bit of position [i] is set exactly when the validator there has a vote. *)
Lemma committee_bit s unique i v info :
  committee_ok s → validators s !! i = Some v → validators_map s !! v = Some info →
  Z.testbit (set_bits (ordered_votes s unique)) (Z.of_nat i) = true ↔ is_Some (unique !! vote_addr info).
Proof.
  intros Hc Hi Hv. rewrite set_bits_testbit by (lia || by apply ordered_votes_bounds). split.
  - intros (e & (p & Hp & E)%list_elem_of_omap & Hidx). destruct p as [w info'].
    apply elem_of_map_to_list in Hp. simpl in E.
    destruct (unique !! vote_addr info') eqn:Eu; [|done]. injection E as <-. simpl in Hidx.
    destruct (mi_index _ _ (co_map s Hc) w info' Hp) as [_ Hl].
    replace (Z.to_nat (index_of_info info' - 1)) with i in Hl by lia. simplify_eq. eauto.
  - intros [sig Hsig]. destruct (committee_index s v info i Hc Hi Hv) as [Hidx _].
    exists (index_of_info info, vote_addr info, sig). split; [|simpl; lia].
    apply list_elem_of_omap. exists (v, info). rewrite elem_of_map_to_list. split; [done|]. simpl. by rewrite Hsig.
Qed.

(** The verifier collects exactly these addresses. *)
Lemma collect_voting_addrs s unique :
  committee_ok s →
  collect_vote_addrs (validators_map s) (set_bits (ordered_votes s unique)) 0 (validators s) =
    Done (voting_addrs s unique).
Proof.
  intros Hc. unfold voting_addrs.
  assert (Hgen : ∀ l k, validators s = take k (validators s) ++ l → length (take k (validators s)) = k →
    collect_vote_addrs (validators_map s) (set_bits (ordered_votes s unique)) (Z.of_nat k) l =
    Done (omap (λ v, info ← validators_map s !! v; _ ← unique !! vote_addr info; Some (vote_addr info)) l)).
  { induction l as [|v l IH]; intros k Hl Hk; [done|]. cbn [collect_vote_addrs].
    assert (Hi : validators s !! k = Some v).
    { rewrite Hl. by apply list_lookup_middle. }
    destruct (proj2 (mi_dom _ _ (co_map s Hc) v)) as [info Hinfo].
    { by eapply list_elem_of_lookup_2. }
    pose proof (committee_index s v info k Hc Hi Hinfo) as [Hidx Hb].
    pose proof (committee_bit s unique k v info Hc Hi Hinfo) as Hbit.
    replace (Z.of_nat k <? 64) with true by lia. cbn [andb].
    replace (Z.of_nat k + 1) with (Z.of_nat (S k)) by lia.
    assert (Hrest : collect_vote_addrs (validators_map s) (set_bits (ordered_votes s unique)) (Z.of_nat (S k)) l =
      Done (omap (λ v, info ← validators_map s !! v; _ ← unique !! vote_addr info; Some (vote_addr info)) l)).
    { apply IH.
      - erewrite take_S_r by exact Hi. by rewrite <- app_assoc.
      - rewrite length_take. apply lookup_lt_Some in Hi. lia. }
    cbn [omap list_omap]. rewrite Hinfo. cbn [mbind option_bind].
    destruct (unique !! vote_addr info) as [sig|] eqn:Eu.
    - rewrite (proj2 Hbit) by eauto. cbn [ok_or mbind exec_bind option_bind]. by rewrite Hrest.
    - destruct (Z.testbit _ _); [|done]. destruct (proj1 Hbit eq_refl) as [? ?]. congruence. }
  by apply (Hgen (validators s) 0%nat).
Qed.

Lemma ordered_addrs_perm s unique :
  committee_ok s → (λ e : Z * Z * Z, e.1.2) <$> ordered_votes s unique ≡ₚ voting_addrs s unique.
Proof.
  intros Hc. unfold ordered_votes, voting_addrs. rewrite (committee_entries s Hc).
  induction (validators s) as [|v l IH]; [done|]. cbn.
  destruct (validators_map s !! v) as [info|]; cbn; [|done].
  destruct (unique !! vote_addr info); cbn; [|done]. by apply perm_skip.
Qed.

Lemma voting_addrs_length s unique : zlen (voting_addrs s unique) <= zlen (validators s).
Proof.
  unfold voting_addrs, zlen. induction (validators s) as [|v l IH]; [done|]. cbn.
  destruct (validators_map s !! v) as [info|]; cbn; [|lia].
  destruct (unique !! vote_addr info); cbn; lia.
Qed.

(** ** Signatures *)

Section Signatures.
Context `{HashApi, B : BlsApi}.

(** A vote whose signature verifies under its own address, as the pool checks. *)
Definition vote_valid (v : VoteEnvelope) : Prop :=
  ∃ k s, public_key_from_bytes (vote_address v) = Some k ∧ signature_from_bytes (signature v) = Some s ∧
         fast_aggregate_verify s (vote_data_hash (data v)) [k] = true.

Lemma unique_votes_from snap votes addr sig :
  unique_votes snap votes !! addr = Some sig →
  ∃ v, v ∈ votes ∧ vote_address v = addr ∧ signature v = sig.
Proof.
  unfold unique_votes.
  assert (Hgen : ∀ l m, (∀ a s, m !! a = Some s → ∃ v, v ∈ votes ∧ vote_address v = a ∧ signature v = s) →
    (∀ v, v ∈ l → v ∈ votes) → fold_left (keep_first_vote snap) l m !! addr = Some sig →
    ∃ v, v ∈ votes ∧ vote_address v = addr ∧ signature v = sig).
  { induction l as [|v l IH]; intros m Hm Hl; cbn [fold_left]; [by apply Hm|].
    apply IH; [|intros w Hw; apply Hl; by apply list_elem_of_further].
    intros a s. unfold keep_first_vote. case_if; [|by apply Hm]. destruct (m !! vote_address v) eqn:Ev; [by apply Hm|].
    rewrite lookup_insert. case_decide as Ha; [|by apply Hm]. intros [= <-]. exists v.
    split; [apply Hl, list_elem_of_here|done]. }
  apply Hgen; [|done]. intros a s. by rewrite lookup_empty.
Qed.

Lemma check_votes_Done d votes :
  check_votes d votes = Done tt → ∀ v, v ∈ votes → vote_data_hash (data v) = vote_data_hash d.
Proof.
  induction votes as [|w votes IH]; cbn [check_votes]; intros Hc v Hv; [by apply elem_of_nil in Hv|].
  case_if; [done|]. split_tests. apply elem_of_cons in Hv as [->|Hv]; [done|by apply IH].
Qed.

Lemma mapM_omap {E A C} (f : A → exec E C) (g : A → option C) e l ys :
  (∀ a, f a = ok_or (g a) e) → mapM f l = Done ys → ys = omap g l ∧ Forall (λ a, is_Some (g a)) l.
Proof.
  intros Hf. revert ys. induction l as [|a l IH]; intros ys Hm; cbn in Hm.
  { injection Hm as <-. done. }
  apply bind_Done in Hm as (y & Hy & Hm). apply bind_Done in Hm as (ys' & Hys & Hm).
  injection Hm as <-. rewrite Hf in Hy. apply ok_or_Done in Hy. destruct (IH ys' Hys) as [-> Hall].
  cbn. rewrite Hy. split; [done|]. by constructor.
Qed.

Lemma mapM_all {E A C} (f : A → exec E C) (g : A → option C) e l :
  (∀ a, f a = ok_or (g a) e) → Forall (λ a, is_Some (g a)) l → mapM f l = Done (omap g l).
Proof.
  intros Hf. induction 1 as [|a l [c Hc] _ IH]; [done|]. cbn. by rewrite Hf, Hc, IH.
Qed.

(** Aggregating the entries of valid votes gives a signature the keys verify. *)
Lemma aggregate_entries `{!BlsLaws B} m (es : list (Z * Z * Z)) sigs agg addrs :
  (∀ e, e ∈ es → ∃ k s, public_key_from_bytes e.1.2 = Some k ∧ signature_from_bytes e.2 = Some s ∧
                        fast_aggregate_verify s m [k] = true) →
  mapM decode_signature es = Done sigs → aggregate sigs = Some agg →
  addrs ≡ₚ (λ e, e.1.2) <$> es →
  ∃ keys, mapM decode_key addrs = Done keys ∧ fast_aggregate_verify agg m keys = true.
Proof.
  intros Hes Hsigs Hagg Hperm.
  apply (mapM_omap _ (λ e : Z * Z * Z, signature_from_bytes e.2) AggregateSignatureError) in Hsigs as [-> _];
    [|done].
  exists (omap public_key_from_bytes addrs). split.
  - apply (mapM_all _ _ (ValidationError InvalidAttestationSignature)); [done|].
    apply Forall_forall. intros a Ha. rewrite Hperm in Ha. apply list_elem_of_fmap in Ha as (e & -> & He).
    destruct (Hes e He) as (k & _ & Hk & _). eauto.
  - eapply aggregate_verifies; [|by rewrite Hperm|exact Hagg]. clear Hperm Hagg.
    induction es as [|e es IH]; [constructor|]. cbn.
    destruct (Hes e (list_elem_of_here _ _)) as (k & s & -> & -> & Hv). constructor; [done|].
    apply IH. intros e' He'. apply Hes. by apply list_elem_of_further.
Qed.

(** The producer's aggregate over a committee passes [verify_votes]. *)
Lemma verify_votes_complete `{!BlsLaws B} s votes d sigs agg :
  committee_ok s → Forall vote_valid votes → check_votes d votes = Done tt →
  let ordered := ordered_votes s (unique_votes s votes) in
  quorum_of (zlen (validators s)) <= zlen ordered →
  mapM decode_signature ordered = Done sigs → aggregate sigs = Some agg →
  count_ones (set_bits ordered) = zlen ordered →
  verify_votes s {| vote_address_set := set_bits ordered; agg_signature := signature_to_bytes agg;
                    att_data := d; att_extra := [] |} = Done tt.
Proof.
  intros Hc Hvalid Hcheck ordered Hq Hsigs Hagg Hones. unfold verify_votes. cbn [vote_address_set agg_signature att_data].
  pose proof (ordered_addrs_perm s (unique_votes s votes) Hc) as Hp. fold ordered in Hp.
  pose proof (voting_addrs_length s (unique_votes s votes)) as Hlen.
  assert (Hl : zlen (voting_addrs s (unique_votes s votes)) = zlen ordered).
  { unfold zlen. by rewrite <- Hp, length_fmap. }
  rewrite Hones. replace (zlen (validators s) <? zlen ordered) with false by lia.
  unfold ordered at 1. rewrite collect_voting_addrs by done. cbn [mbind exec_bind].
  rewrite Hl. replace (zlen ordered <? _) with false by lia.
  destruct (aggregate_entries (vote_data_hash d) ordered sigs agg (voting_addrs s (unique_votes s votes)))
    as (keys & -> & Hver); [|done|done|by rewrite Hp|].
  - intros e (p & _ & E)%list_elem_of_omap.
    destruct (unique_votes s votes !! vote_addr p.2) as [sig|] eqn:Eu; [|done]. injection E as <-. simpl.
    apply unique_votes_from in Eu as (v & Hv & <- & <-). rewrite Forall_forall in Hvalid.
    destruct (Hvalid v Hv) as (k & s' & ? & ? & Hver). exists k, s'. split_and!; try done.
    by rewrite <- (check_votes_Done d votes Hcheck v Hv).
  - cbn [mbind exec_bind]. rewrite signature_bytes_roundtrip. cbn. by rewrite Hver.
Qed.
End Signatures.

(** ** The producer and the verifier *)

Section ProducerVerifier.
Context `{F : ForkConditionApi, HashApi, R : AttestationRlp, B : BlsApi}.
Context `{RL : !AttestationRlpLaws R, BL : !BlsLaws B}.
Implicit Types (self : Parlia) (view : ChainView) (h : Header).

(** The parent of [h], when the node knows it, is an older block. *)
Definition older_parent view h : Prop :=
  ∀ p, get_header_by_hash_from_cache view (parent_hash h) = Some p → number p < number h.

(** A consistent node: the cache agrees with the provider, every header it knows
    is younger than its parent, the snapshots have sound committees, the pooled
    votes are signed. *)
Record view_ok view : Prop := {
  vo_cache x hd : provider_header_by_hash view x = Some hd → get_header_by_hash_from_cache view x = Some hd;
  vo_older x hd : get_header_by_hash_from_cache view x = Some hd → older_parent view hd;
  vo_snaps x s : snapshot_by_hash view x = Some s → committee_ok s;
  vo_votes th jn : Forall vote_valid (fetch_vote_by_block_hash_and_source_number view th jn);
}.

(** The justified block of the snapshot is known, or nothing is justified yet. *)
Definition justified_known view (snap : Snapshot) : Prop :=
  if target_hash (vote_data snap) =? 0
  then source_hash (vote_data snap) = 0 ∧
       (∀ g, provider_header_by_number view 0 = Some g → get_cannonical_header_from_cache view 0 = Some g)
  else ∃ j, get_header_by_hash_from_cache view (target_hash (vote_data snap)) = Some j ∧
            number j = target_number (vote_data snap) ∧ hash_slow j = target_hash (vote_data snap).

Lemma find_target_spec view jn times hd votes t s :
  view_ok view → older_parent view hd → find_target view jn times hd = Done (votes, t, Some s) →
  snapshot_by_hash view (parent_hash t) = Some s ∧
  votes = fetch_vote_by_block_hash_and_source_number view (hash_slow t) jn ∧
  number t <= number hd ∧ match_ancestor view (number t) (hash_slow t) times hd = Done (true, t).
Proof.
  intros Hv. revert hd. induction times as [|times IH]; intros hd Ho Hf; cbn [find_target] in Hf; [done|].
  apply bind_Done in Hf as (s' & Hs%ok_or_Done & Hf). case_if.
  - injection Hf as <- <- <-. cbn [match_ancestor]. rewrite !Z.eqb_refl. split_and!; done || lia.
  - apply bind_Done in Hf as (hd' & Hh%ok_or_Done & Hf). case_if; [done|].
    pose proof (vo_cache view Hv _ _ Hh) as Hc. pose proof (Ho hd' Hc) as Hlt.
    destruct (IH hd' (vo_older view Hv _ _ Hc) Hf) as (Hs' & Hvotes & Hle & Hm).
    split_and!; [done|done|lia|]. cbn [match_ancestor].
    rewrite (proj2 (Z.eqb_neq (number hd) (number t))) by lia. cbn [andb].
    by rewrite Hc.
Qed.

(** What [assemble_vote_attestation] appends, when it appends something. *)
Lemma assemble_Done self view snap parent h h' :
  assemble_vote_attestation self view snap parent h = Done h' →
  h' = h ∨
  ∃ jn jh votes t s sigs agg,
    is_luban_active_at_block (parlia_spec self) (number h) = true ∧
    (if target_hash (vote_data snap) =? 0
     then ∃ g, provider_header_by_number view 0 = Some g ∧ jn = number g ∧ jh = hash_slow g
     else jn = target_number (vote_data snap) ∧ jh = target_hash (vote_data snap)) ∧
    find_target view jn (if is_fermi_active_at_timestamp (parlia_spec self) (number h) (timestamp h)
                         then Z.to_nat K_ANCESTOR_GENERATION_DEPTH else 1%nat) parent = Done (votes, t, Some s) ∧
    let d := {| source_number := jn; source_hash := jh; target_number := number t; target_hash := hash_slow t |} in
    let ordered := ordered_votes s (unique_votes s votes) in
    check_votes d votes = Done tt ∧ quorum_of (zlen (validators s)) <= zlen ordered ∧
    mapM decode_signature ordered = Done sigs ∧ aggregate sigs = Some agg ∧
    count_ones (set_bits ordered) = zlen ordered ∧
    h' = append_extra (encode_attestation
           {| vote_address_set := set_bits ordered; agg_signature := signature_to_bytes agg;
              att_data := d; att_extra := [] |}) h.
Proof.
  unfold assemble_vote_attestation. intros Ha.
  destruct (negb (is_luban_active_at_block _ _) || _) eqn:El; [by injection Ha as <-; left|]. split_tests.
  apply bind_Done in Ha as ([jn jh] & Hj & Ha). apply bind_Done in Ha as ([[votes t] found] & Hf & Ha).
  destruct found as [s|]; [|by injection Ha as <-; left].
  apply seq_Done in Ha as [Hc Ha]. cbv zeta in Ha.
  destruct (zlen _ <? quorum_of _) eqn:Eq; [by injection Ha as <-; left|]. split_tests.
  apply bind_Done in Ha as (sigs & Hs & Ha). apply bind_Done in Ha as (agg & Hg%ok_or_Done & Ha).
  destruct (negb (count_ones _ =? _)) eqn:Eo; [done|]. split_tests. injection Ha as <-.
  right. exists jn, jh, votes, t, s, sigs, agg. split_and!; try done.
  destruct (target_hash (vote_data snap) =? 0).
  - destruct (provider_header_by_number view 0) as [g|]; [|done]. injection Hj as <- <-. eauto.
  - by injection Hj as <- <-.
Qed.

(** The extra data up to where the attestation goes. *)
Definition ready_for_attestation self (epoch_length : Z) h : Prop :=
  if is_multiple_of (number h) epoch_length
  then ∃ vanity count recs tl, extra_data h = vanity ++ [count] ++ recs ++ tl ∧ zlen vanity = 32 ∧
         0 < count < 256 ∧ zlen recs = 68 * count ∧
         zlen tl = if is_bohr_active_at_timestamp (parlia_spec self) (number h) (timestamp h) then 1 else 0
  else zlen (extra_data h) = 32.

Lemma appended_attestation self epoch_length h att seal :
  ready_for_attestation self epoch_length h → zlen seal = 65 →
  is_luban_active_at_block (parlia_spec self) (number h) = true →
  get_vote_attestation_from_header self (append_extra seal (append_extra (encode_attestation att) h)) epoch_length =
    Done (Some att).
Proof.
  intros Hr Hs Hl. unfold ready_for_attestation in Hr.
  assert (bool_decide (encode_attestation att = []) = false) as Hne.
  { apply bool_decide_eq_false_2. intros E. pose proof (encode_attestation_nonempty att) as Hpos.
    apply (f_equal zlen) in E. rewrite zlen_nil in E. lia. }
  destruct (is_multiple_of (number h) epoch_length) eqn:He.
  - destruct Hr as (vanity & count & recs & tl & Hex & Hv & Hc & Hrl & Htl).
    erewrite (read_attestation self _ vanity recs tl (encode_attestation att) seal count); try done.
    + by rewrite Hne, decode_encode_attestation.
    + unfold append_extra. simpl. rewrite Hex, <- !app_assoc. done.
  - erewrite (plain_attestation self _ (extra_data h) (encode_attestation att) seal); try done.
    + by rewrite Hne, decode_encode_attestation.
    + unfold append_extra. simpl. by rewrite <- app_assoc.
Qed.

Lemma assembled_verifies self view snap parent h h' seal :
  view_ok view → older_parent view parent → justified_known view snap →
  ready_for_attestation self (epoch_num snap) h → zlen seal = 65 →
  assemble_vote_attestation self view snap parent h = Done h' → h' ≠ h →
  verify_vote_attestation self view snap (append_extra seal h') parent = Done tt.
Proof.
  intros Hv Ho Hj Hr Hs Ha Hne.
  apply assemble_Done in Ha as [->|(jn & jh & votes & t & s & sigs & agg & Hl & Hjn & Hf & Hrest)]; [done|].
  cbv zeta in Hrest. destruct Hrest as (Hc & Hq & Hsigs & Hagg & Hones & ->).
  destruct (find_target_spec _ _ _ _ _ _ _ Hv Ho Hf) as (Hsnap & -> & _ & Hm).
  unfold verify_vote_attestation. case_if; [done|]. rewrite appended_attestation by done.
  cbn [map_err mbind exec_bind att_extra att_data target_number target_hash source_number source_hash].
  rewrite zlen_nil. cbn [Z.ltb Z.compare MAX_ATTESTATION_EXTRA_LENGTH].
  change (number (append_extra seal _)) with (number h).
  change (timestamp (append_extra seal _)) with (timestamp h).
  rewrite Hm. cbn [mbind exec_bind negb].
  assert (∃ j, get_justified_header view snap = Done j ∧ number j = jn ∧ hash_slow j = jh) as (j & -> & <- & <-).
  { unfold get_justified_header, justified_known in *. destruct (Z.eqb_spec (target_hash (vote_data snap)) 0).
    - destruct Hj as [-> Hg], Hjn as (g & Hg' & -> & ->). rewrite (Hg g Hg'). eauto.
    - rewrite andb_false_r. destruct Hj as (j & -> & Hn & Hh), Hjn as [-> ->]. eauto. }
  cbn [mbind exec_bind]. rewrite !Z.eqb_refl. cbn [negb orb]. rewrite Hsnap. cbn [ok_or mbind exec_bind].
  apply verify_votes_complete with (sigs := sigs); try done.
  - by eapply vo_snaps.
  - by apply vo_votes.
Qed.

(** What the producer assembles, everyone accepts: if
    [assemble_vote_attestation] appends an attestation to a header, then after
    sealing [verify_vote_attestation] accepts the header, for any validly signed
    pool of votes, before and after Fermi, on epoch blocks and others. *)
Theorem assembled_attestation_verifies self view snap parent h h' seal :
  view_ok view → older_parent view parent → justified_known view snap →
  ready_for_attestation self (epoch_num snap) h → zlen seal = 65 →
  assemble_vote_attestation self view snap parent h = Done h' → h' ≠ h →
  verify_vote_attestation self view snap (append_extra seal h') parent = Done tt.
Proof. apply assembled_verifies. Qed.
End ProducerVerifier.

(** ** What an accepted attestation proves *)

(** The positions of the validators that signed. *)
Definition signers (s : Snapshot) (set : Z) : list Z :=
  filter (λ i, Z.testbit set i = true) (seqZ 0 (Z.min (zlen (validators s)) 64)).

Lemma collect_length m set i vs l :
  0 <= i → collect_vote_addrs m set i vs = Done l →
  zlen l = zlen (filter (λ j, (j <? 64) && Z.testbit set j = true) (seqZ i (zlen vs))).
Proof.
  revert i l. induction vs as [|v vs IH]; intros i l Hi Hc; cbn [collect_vote_addrs] in Hc.
  { injection Hc as <-. done. }
  rewrite zlen_cons, seqZ_cons by (pose proof (zlen_nonneg vs); lia).
  replace (Z.pred (1 + zlen vs)) with (zlen vs) by lia. rewrite filter_cons.
  replace (Z.succ i) with (i + 1) by lia.
  destruct ((i <? 64) && Z.testbit set i); case_decide; try done.
  - apply bind_Done in Hc as (info & _ & Hc). apply bind_Done in Hc as (rest & Hr & Hc).
    injection Hc as <-. rewrite !zlen_cons. f_equal. apply IH; [lia|done].
  - apply IH; [lia|done].
Qed.

Lemma collect_signers s m set l :
  collect_vote_addrs m set 0 (validators s) = Done l → zlen l = zlen (signers s set).
Proof.
  intros Hc. rewrite (collect_length _ _ _ _ _ (Z.le_refl 0) Hc). unfold signers.
  pose proof (zlen_nonneg (validators s)). destruct (Z.le_ge_cases (zlen (validators s)) 64) as [Hle|Hge].
  - rewrite Z.min_l by lia. apply (f_equal zlen), filter_ext_in. intros j Hj%elem_of_seqZ.
    replace (j <? 64) with true by lia. done.
  - rewrite Z.min_r by lia. replace (zlen (validators s)) with (64 + (zlen (validators s) - 64)) by lia.
    rewrite seqZ_app by lia. rewrite filter_app, zlen_app.
    assert (filter (λ j, (j <? 64) && Z.testbit set j = true) (seqZ (0 + 64) (zlen (validators s) - 64)) = []) as ->.
    { apply filter_none. intros j Hj%elem_of_seqZ. replace (j <? 64) with false by lia. done. }
    change (zlen (@nil Z)) with 0. rewrite Z.add_0_r. apply (f_equal zlen), filter_ext_in. intros j Hj%elem_of_seqZ.
    replace (j <? 64) with true by lia. done.
Qed.

Section Soundness.
Context `{F : ForkConditionApi, HashApi, R : AttestationRlp, B : BlsApi}.
Implicit Types (self : Parlia) (view : ChainView) (h : Header).

Lemma verify_votes_Done s att :
  verify_votes s att = Done tt →
  ∃ addrs keys sig, collect_vote_addrs (validators_map s) (vote_address_set att) 0 (validators s) = Done addrs ∧
    quorum_of (zlen (validators s)) <= zlen (signers s (vote_address_set att)) ∧
    mapM decode_key addrs = Done keys ∧ signature_from_bytes (agg_signature att) = Some sig ∧
    fast_aggregate_verify sig (vote_data_hash (att_data att)) keys = true.
Proof.
  unfold verify_votes. intros Hv. case_if; [done|].
  apply bind_Done in Hv as (addrs & Hc & Hv). cbv zeta in Hv. case_if; [done|]. split_tests.
  apply bind_Done in Hv as (keys & Hk & Hv). apply bind_Done in Hv as (sig & Hs%ok_or_Done & Hv%ensure_Done).
  exists addrs, keys, sig. split_and!; try done. by rewrite <- (collect_signers _ _ _ _ Hc).
Qed.

Lemma match_ancestor_Done view n th depth a a' :
  match_ancestor view n th depth a = Done (true, a') → number a' = n ∧ hash_slow a' = th.
Proof.
  revert a. induction depth as [|depth IH]; intros a Hm; cbn [match_ancestor] in Hm; [done|].
  case_if; [split_tests; by injection Hm as <-|]. apply bind_Done in Hm as (next & _ & Hm). by apply (IH next).
Qed.

(** C10: an accepted attestation names a block among the last ancestors (the
    parent, or three generations from Fermi on), starts from the justified
    block of the parent snapshot, and its aggregate signature verifies under
    the keys of at least two thirds of the validators in force before the
    target. *)
Theorem accepted_attestation_sound self view snap h parent att :
  is_plato_active_at_block (parlia_spec self) (number h) = true →
  get_vote_attestation_from_header self h (epoch_num snap) = Done (Some att) →
  verify_vote_attestation self view snap h parent = Done tt →
  ∃ ancestor pre_snap justified addrs keys sig,
    match_ancestor view (target_number (att_data att)) (target_hash (att_data att))
      (if is_fermi_active_at_timestamp (parlia_spec self) (number h) (timestamp h) then 3%nat else 1%nat) parent
      = Done (true, ancestor) ∧
    number ancestor = target_number (att_data att) ∧ hash_slow ancestor = target_hash (att_data att) ∧
    get_justified_header view snap = Done justified ∧
    source_number (att_data att) = number justified ∧ source_hash (att_data att) = hash_slow justified ∧
    snapshot_by_hash view (parent_hash ancestor) = Some pre_snap ∧
    2 * zlen (validators pre_snap) <= 3 * zlen (signers pre_snap (vote_address_set att)) ∧
    collect_vote_addrs (validators_map pre_snap) (vote_address_set att) 0 (validators pre_snap) = Done addrs ∧
    mapM decode_key addrs = Done keys ∧ signature_from_bytes (agg_signature att) = Some sig ∧
    fast_aggregate_verify sig (vote_data_hash (att_data att)) keys = true.
Proof.
  intros Hp Hatt Hv. unfold verify_vote_attestation in Hv. rewrite Hp, Hatt in Hv.
  cbn [negb map_err mbind exec_bind] in Hv.
  destruct (MAX_ATTESTATION_EXTRA_LENGTH <? _); [done|]. cbv zeta in Hv.
  apply bind_Done in Hv as ([b anc] & Hm & Hv).
  destruct b; cbn [negb] in Hv; [|done].
  apply bind_Done in Hv as (j & Hj & Hv). destruct (negb _ || negb _) eqn:Es; [done|]. split_tests.
  apply bind_Done in Hv as (pre & Hpre%ok_or_Done & Hv).
  apply verify_votes_Done in Hv as (addrs & keys & sig & Hc & Hq & Hk & Hs & Hver).
  destruct (match_ancestor_Done _ _ _ _ _ _ Hm) as [Hn Hh].
  exists anc, pre, j, addrs, keys, sig. split_and!; try done.
  unfold quorum_of in Hq. pose proof (zlen_nonneg (validators pre)).
  pose proof (div_ceil_spec (zlen (validators pre) * 2) 3 ltac:(lia) ltac:(lia)). lia.
Qed.

Lemma filter_count_union {A} (P Q : A → Prop) `{∀ x, Decision (P x), ∀ x, Decision (Q x)} (l : list A) :
  zlen (filter P l) + zlen (filter Q l) <= zlen l + zlen (filter (λ x, P x ∧ Q x) l).
Proof.
  induction l as [|x l IH]; [done|]. rewrite !filter_cons.
  repeat case_decide; rewrite ?zlen_cons; try lia; naive_solver.
Qed.

(** Any two attestations accepted against the same snapshot share at least a
    third of its validators: conflicting finality needs that many double voters. *)
Theorem quorums_intersect s a1 a2 :
  zlen (validators s) <= 64 →
  verify_votes s a1 = Done tt → verify_votes s a2 = Done tt →
  zlen (validators s) <= 3 * zlen (filter (λ i, Z.testbit (vote_address_set a1) i = true ∧
                                               Z.testbit (vote_address_set a2) i = true)
                                     (seqZ 0 (zlen (validators s)))).
Proof.
  intros Hn (_ & _ & _ & _ & H1 & _)%verify_votes_Done (_ & _ & _ & _ & H2 & _)%verify_votes_Done.
  unfold signers, quorum_of in *. rewrite Z.min_l in H1, H2 by lia.
  pose proof (zlen_nonneg (validators s)).
  pose proof (div_ceil_spec (zlen (validators s) * 2) 3 ltac:(lia) ltac:(lia)) as Hc.
  pose proof (filter_count_union (λ i, Z.testbit (vote_address_set a1) i = true)
    (λ i, Z.testbit (vote_address_set a2) i = true) (seqZ 0 (zlen (validators s)))) as Hu.
  assert (zlen (seqZ 0 (zlen (validators s))) = zlen (validators s)) by (unfold zlen; rewrite length_seqZ; lia).
  cbv beta in Hu. set (k := zlen (filter (λ i, _ ∧ _) _)) in *. lia.
Qed.
End Soundness.

(** ** The seal *)

Section SealCheck.
Context `{F : ForkConditionApi, E : EcdsaApi, RA : RlpApi}.
Implicit Types (self : Parlia) (snap : Snapshot) (header : Header).

Lemma recover_proposer_safe self header : recover_proposer self header ≠ Panics.
Proof.
  unfold recover_proposer. extra_consts. case_if; [done|]. split_tests.
  destruct (index_ok (E := ParliaConsensusError) (extra_data header) (zlen (extra_data header) - 65 + 65 - 1))
    as (b & -> & _); [lia|]. cbn [mbind exec_bind]. rewrite slice_ok by lia. cbn [mbind exec_bind].
  by destruct (recover_address _ _ _).
Qed.

Lemma verify_seal_spec self snap header :
  snap_wf snap → block_number snap < u64_max →
  verify_seal self snap header ≠ Panics ∧
  (verify_seal self snap header = Done tt ↔
   recover_proposer self header = Done (beneficiary header) ∧ beneficiary header ∈ validators snap ∧
   sign_recently snap (beneficiary header) = false ∧
   calculate_difficulty snap (beneficiary header) = Done (difficulty header)).
Proof.
  intros Hwf Hmax. destruct (inturn_validator_eq snap Hwf Hmax) as (u & Hu & _).
  unfold verify_seal. pose proof (recover_proposer_safe self header).
  destruct (recover_proposer self header) as [p|e|]; cbn [map_err mbind exec_bind]; [|naive_solver|done].
  destruct (Z.eqb_spec p (beneficiary header)) as [->|Hp]; cbn [negb]; [|naive_solver].
  case_bool_decide; cbn [negb]; [|naive_solver].
  destruct (sign_recently snap (beneficiary header)); [naive_solver|].
  unfold calculate_difficulty, is_inturn, panics_to. rewrite Hu. cbn [mbind exec_bind].
  unfold DIFF_INTURN, DIFF_NOTURN. destruct (u =? beneficiary header); cbn [negb andb orb].
  - destruct (Z.eqb_spec (difficulty header) 2) as [->|]; cbn; naive_solver.
  - destruct (Z.eqb_spec (difficulty header) 1) as [->|]; cbn; naive_solver.
Qed.

(** [verify_seal] accepts exactly the headers signed by their beneficiary,
    who is a validator of the parent snapshot, has not signed too often, and
    claims the difficulty of its turn; it never panics on a sound snapshot. *)
Theorem verify_seal_iff self snap header :
  snap_wf snap → block_number snap < u64_max →
  verify_seal self snap header ≠ Panics ∧
  (verify_seal self snap header = Done tt ↔
   recover_proposer self header = Done (beneficiary header) ∧ beneficiary header ∈ validators snap ∧
   sign_recently snap (beneficiary header) = false ∧
   calculate_difficulty snap (beneficiary header) = Done (difficulty header)).
Proof. apply verify_seal_spec. Qed.
End SealCheck.

(** ** What a node may conclude

    A check that fails for want of a header or a snapshot says nothing about the
    block; every other outcome is final. *)

Definition missing_data (e : BlockExecutionError) : bool :=
  match e with BlockOther (UnknownHeader _) | BlockMsg _ => true | _ => false end.

(** The node has learned more: what it could look up, it still finds. *)
Record view_extends (view view' : ChainView) : Prop := {
  ve_hash h x : get_header_by_hash_from_cache view h = Some x → get_header_by_hash_from_cache view' h = Some x;
  ve_number n x : get_cannonical_header_from_cache view n = Some x → get_cannonical_header_from_cache view' n = Some x;
  ve_snapshot h s : snapshot_by_hash view h = Some s → snapshot_by_hash view' h = Some s;
}.

(** [m'] answers like [m], unless [m] lacked data. *)
Definition settles {A} (m m' : exec BlockExecutionError A) : Prop :=
  (∃ e, m = Fail e ∧ missing_data e = true) ∨ m' = m.

#[export] Instance settles_refl A : Reflexive (@settles A).
Proof. by right. Qed.

Lemma settles_bind {A B} (m m' : exec BlockExecutionError A) (f f' : A → exec BlockExecutionError B) :
  settles m m' → (∀ a, settles (f a) (f' a)) → settles (m ≫= f) (m' ≫= f').
Proof.
  intros [(e & -> & He)| ->] Hf; [by left; exists e|]. destruct m as [a|e|]; [apply Hf|by right|by right].
Qed.

Lemma settles_ok_or {A} (o o' : option A) e :
  missing_data e = true → (∀ a, o = Some a → o' = Some a) → settles (ok_or o e) (ok_or o' e).
Proof. intros He Ho. destruct o as [a|]; [right; by rewrite (Ho a)|left; by exists e]. Qed.

Section Final.
Context `{F : ForkConditionApi, HashApi, R : AttestationRlp, B : BlsApi, E : EcdsaApi, RA : RlpApi}.
Implicit Types (self : Parlia) (view : ChainView) (header parent : Header) (snap : Snapshot).

Lemma match_ancestor_settles view view' n th depth a :
  view_extends view view' → settles (match_ancestor view n th depth a) (match_ancestor view' n th depth a).
Proof.
  intros Hv. revert a. induction depth as [|depth IH]; intros a; [done|]. cbn [match_ancestor].
  case_match; [done|]. apply settles_bind; [|apply IH].
  apply settles_ok_or; [done|]. apply (ve_hash _ _ Hv).
Qed.

Lemma get_justified_header_settles view view' snap :
  view_extends view view' → settles (get_justified_header view snap) (get_justified_header view' snap).
Proof.
  intros Hv. unfold get_justified_header. cbv zeta. case_match; apply settles_ok_or; try done.
  - apply (ve_number _ _ Hv).
  - apply (ve_hash _ _ Hv).
Qed.

Lemma verify_vote_attestation_settles self view view' snap header parent :
  view_extends view view' →
  settles (verify_vote_attestation self view snap header parent)
    (verify_vote_attestation self view' snap header parent).
Proof.
  intros Hv. unfold verify_vote_attestation. case_match; [done|].
  apply settles_bind; [done|]. intros [att|]; [|done]. case_match; [done|]. cbv zeta.
  apply settles_bind; [by apply match_ancestor_settles|]. intros [[] anc]; cbn [negb]; [|done].
  apply settles_bind; [by apply get_justified_header_settles|]. intros j. case_match; [done|].
  apply settles_bind; [|done]. apply settles_ok_or; [done|]. apply (ve_snapshot _ _ Hv).
Qed.

(** The verdict of the consensus checks on a block is final.  Unless a header
    or a snapshot was missing, the outcome (acceptance, or the error itself)
    stays the same however much more of the chain the node learns; a block
    whose time lies inside the back-off period is no exception. *)
Theorem verdicts_are_final fuel self view view' header parent snap r :
  view_extends view view' →
  verify_cascading_fields fuel self view header parent snap = r →
  (∀ e, r = Fail e → missing_data e = false) →
  verify_cascading_fields fuel self view' header parent snap = r.
Proof.
  intros Hv <- Hr.
  assert (Hs : settles (verify_cascading_fields fuel self view header parent snap)
                 (verify_cascading_fields fuel self view' header parent snap)).
  { unfold verify_cascading_fields. apply settles_bind; [done|]. intros _.
    apply settles_bind; [by apply verify_vote_attestation_settles|done]. }
  destruct Hs as [(e & He & Hm)|Hs]; [|done]. specialize (Hr e He). congruence.
Qed.
End Final.
