(* ===== verification/AttestationDemo.v ===== *)
(** * AttestationDemo: a concrete network for the attestation theorems

    An idealised BLS scheme that satisfies its laws, a node view with two votes
    out of three validators, and the theorems of [AttestationProps] applied to
    it. *)

From stdpp Require Import gmultiset countable.
From stdpp Require Import base tactics numbers option list sorting gmap fin_maps.
From Stdlib Require Import ZArith Lia Bool.
From S2P Require Import Prelude.
From S2P Require Import Hardforks.
From S2P Require Import Header.
From S2P Require Import Snapshot.
From S2P Require Import SnapshotProps.
From S2P Require Import SnapshotClaims.
From S2P Require Import Extra.
From S2P Require Import ExtraProps.
From S2P Require Import Backoff.
From S2P Require Import Attestation.
From S2P Require Import AttestationProps.

Module AttestationNet.
Import ThresholdForks DemoApis DemoChain ExtraDemo TaggedRlp.

(** Idealised BLS: a signature is the multiset of the (key, message) pairs in it. *)
#[export] Instance demo_bls : BlsApi := {|
  BlsSignature := gmultiset (Z * Z);
  BlsPublicKey := Z;
  signature_from_bytes z := match z with
    | Zpos p => s ← decode p; if bool_decide (encode s = p) then Some s else None
    | _ => None end;
  signature_to_bytes s := Zpos (encode s);
  public_key_from_bytes z := Some z;
  aggregate ss := match ss with [] => None | _ => Some (⋃+ ss) end;
  fast_aggregate_verify s m ks := bool_decide (s = list_to_set_disj ((λ k, (k, m)) <$> ks));
  verify_one s m k := bool_decide (s = list_to_set_disj ((λ k, (k, m)) <$> [k]));
|}.

#[export] Instance demo_bls_laws : BlsLaws demo_bls.
Proof.
  split.
  - intros s. cbn. rewrite decode_encode. cbn. by rewrite bool_decide_eq_true_2.
  - intros [|s ss]; [done|]. cbn. eauto.
  - intros m ss ks ks' s Hall Hp Hagg. cbn [fast_aggregate_verify aggregate demo_bls] in *.
    rewrite (list_to_set_disj_perm ((λ k, (k, m)) <$> ks') ((λ k, (k, m)) <$> ks)) by by rewrite Hp.
    assert (s = ⋃+ ss) as -> by (destruct ss; [done|by injection Hagg as <-]). clear Hagg Hp.
    apply bool_decide_eq_true_2. induction Hall as [|x k ss ks Hx _ IH]; [done|].
    apply bool_decide_eq_true_1 in Hx. change (⋃+ (x :: ss)) with (x ⊎ ⋃+ ss).
    rewrite fmap_cons, list_to_set_disj_cons, IH, Hx.
    by rewrite fmap_cons, fmap_nil, list_to_set_disj_cons, list_to_set_disj_nil, (right_id_L ∅ (⊎)).
  - done.
Qed.

(** Votes for block [top + 1] by the validators 10 and 20, vote addresses 1 and 2. *)
Definition vote_d : VoteData :=
  {| source_number := 0; source_hash := 7000; target_number := top + 1; target_hash := 7000 + (top + 1) |}.
Definition vote_by (addr : Z) : VoteEnvelope :=
  {| vote_address := addr; signature := signature_to_bytes ({[+ (addr, vote_data_hash vote_d) +]} : gmultiset (Z * Z));
     data := vote_d |}.

(** The node has the parent of the voted block in its cache and reads the voted
    block and genesis from the provider. *)
Definition view : ChainView := {|
  cached_header_by_hash x := if x =? 7000 + top then Some (demo_header top bohr_time) else None;
  provider_header_by_hash x := if x =? 7000 + (top + 1) then Some h1 else if x =? 7000 then Some (demo_header 0 0) else None;
  cached_header_by_number _ := None;
  provider_header_by_number n := if n =? 0 then Some (demo_header 0 0) else None;
  snapshot_by_hash x := if x =? 7000 + top then Some s0 else None;
  fetch_vote_by_block_hash_and_source_number x _ := if x =? 7000 + (top + 1) then [vote_by 1; vote_by 2] else [];
|}.

Lemma vote_by_valid a : vote_valid (vote_by a).
Proof.
  exists a, {[+ (a, vote_data_hash vote_d) +]}. split; [done|]. split.
  - cbn [vote_by signature]. apply (signature_bytes_roundtrip (B := demo_bls)).
  - apply bool_decide_eq_true_2.
    by rewrite fmap_cons, fmap_nil, list_to_set_disj_cons, list_to_set_disj_nil, (right_id_L ∅ (⊎)).
Qed.

Lemma s0_committee : committee_ok s0.
Proof.
  destruct (reachable_inv _ _ _ s0_reachable) as (Hwf & _). split; [apply Hwf| |by vm_compute].
  apply (bool_decide_unpack _). by vm_compute.
Qed.

(** The headers of the view, by hash. *)
Lemma view_headers x hd :
  get_header_by_hash_from_cache view x = Some hd →
  x = hash_slow hd ∧ (hd = demo_header top bohr_time ∨ hd = h1 ∨ hd = demo_header 0 0).
Proof.
  unfold get_header_by_hash_from_cache, view. cbn [cached_header_by_hash provider_header_by_hash].
  intros Hx. repeat case_if; simplify_eq; split_tests; subst; auto.
Qed.

Lemma view_older n t : older_parent view (demo_header n t).
Proof. intros p [Hx _]%view_headers. cbn in *. lia. Qed.

Lemma view_h1 : older_parent view h1.
Proof. apply view_older. Qed.

Example view_knows_h1 : get_header_by_hash_from_cache view (hash_slow h1) = Some h1.
Proof. by vm_compute. Qed.

Lemma view_consistent : view_ok view.
Proof.
  split.
  - intros x hd. unfold get_header_by_hash_from_cache, view. cbn [cached_header_by_hash provider_header_by_hash].
    destruct (Z.eqb_spec x (7000 + top)) as [->|]; [by vm_compute|done].
  - intros x hd [_ [->|[->| ->]]]%view_headers; apply view_older.
  - intros x s. cbn. case_if; [|done]. intros [= <-]. apply s0_committee.
  - intros th jn. cbn -[vote_by]. case_if; repeat constructor; apply vote_by_valid.
Qed.

(** Nothing is justified yet. *)
Lemma s1_justified v :
  (∀ g, provider_header_by_number v 0 = Some g → get_cannonical_header_from_cache v 0 = Some g) → justified_known v s1.
Proof.
  intros Hg. unfold justified_known.
  assert ((target_hash (vote_data s1) =? 0) = true) as -> by (by vm_compute). split; [by vm_compute|done].
Qed.

Definition attested : Header := get_done h2 (assemble_vote_attestation parlia view s1 h1 h2).

Lemma assembled_attestation_verifies_witness :
  verify_vote_attestation parlia view s1 (append_extra (replicate 65 9) attested) h1 = Done tt.
Proof.
  apply (assembled_attestation_verifies parlia view s1 h1 h2 attested (replicate 65 9));
    [apply view_consistent|apply view_h1|by apply s1_justified|by vm_compute|done|by vm_compute|].
  intros Ee%(f_equal (zlen ∘ extra_data)). by vm_compute in Ee.
Defined.

Definition demo_att : VoteAttestation :=
  {| vote_address_set := 3;
     agg_signature := signature_to_bytes ({[+ (1, vote_data_hash vote_d); (2, vote_data_hash vote_d) +]} : gmultiset (Z * Z));
     att_data := vote_d; att_extra := [] |}.

Lemma demo_verifies : verify_votes s0 demo_att = Done tt.
Proof. by vm_compute. Qed.

Lemma quorums_intersect_witness :
  3 <= 3 * zlen (filter (λ i, Z.testbit 3 i = true ∧ Z.testbit 3 i = true) (seqZ 0 3)).
Proof. apply (quorums_intersect s0 demo_att demo_att); [by vm_compute|apply demo_verifies|apply demo_verifies]. Defined.

Definition demo_sealed : Header := append_extra (replicate 65 9) (append_extra (encode_attestation demo_att) h2).

Lemma accepted_attestation_sound_witness :
  ∃ ancestor pre_snap, number ancestor = top + 1 ∧ snapshot_by_hash view (parent_hash ancestor) = Some pre_snap ∧
    2 * zlen (validators pre_snap) <= 3 * zlen (signers pre_snap 3).
Proof.
  destruct (accepted_attestation_sound parlia view s1 demo_sealed h1 demo_att)
    as (anc & pre & _ & _ & _ & _ & _ & Hn & _ & _ & _ & _ & Hs & Hq & _);
    [by vm_compute|by vm_compute|by vm_compute|].
  exact (ex_intro _ anc (ex_intro _ pre (conj Hn (conj Hs Hq)))).
Defined.

(** The recovered key is the first byte of the seal. *)
#[export] Instance demo_ecdsa : EcdsaApi := {| recover_address _ sig _ := head sig |}.
Definition sealed_by (v d : Z) (h : Header) : Header :=
  set_difficulty d (set_beneficiary v (append_extra (v :: replicate 64 0) h)).

(** Block [top + 2] is the turn of 30; 10 may sign it with difficulty 1. *)
Lemma verify_seal_iff_witness :
  verify_seal parlia s1 (sealed_by 30 2 h2) = Done tt ∧
  verify_seal parlia s1 (sealed_by 10 1 h2) = Done tt ∧
  verify_seal parlia s1 (sealed_by 10 2 h2) ≠ Panics.
Proof.
  split; [by vm_compute|]. split; [by vm_compute|].
  apply (verify_seal_iff parlia s1 (sealed_by 10 2 h2)); [apply s1_wf|by vm_compute].
Defined.

(** The node learns one more header; the early block stays rejected, and the
    rejection is not one it may hold against the block. *)
Definition view_later : ChainView := {|
  cached_header_by_hash x := if x =? 5 then Some h2 else cached_header_by_hash view x;
  provider_header_by_hash := provider_header_by_hash view;
  cached_header_by_number := cached_header_by_number view;
  provider_header_by_number := provider_header_by_number view;
  snapshot_by_hash := snapshot_by_hash view;
  fetch_vote_by_block_hash_and_source_number := fetch_vote_by_block_hash_and_source_number view;
|}.

Definition early : Header := sealed_by 30 2 h2.

Lemma view_grows : view_extends view view_later.
Proof.
  split; [|done|done]. intros x y. unfold get_header_by_hash_from_cache. cbn [cached_header_by_hash view_later].
  destruct (Z.eqb_spec x 5) as [->|]; [by vm_compute|done].
Qed.

Lemma verdicts_are_final_witness :
  verify_cascading_fields 100 parlia view_later early h1 s1 =
  Fail (BlockOther (Validation (FutureBlock (top + 2) (hash_slow early)))).
Proof.
  apply (verdicts_are_final 100 parlia view view_later early h1 s1); [apply view_grows|by vm_compute|].
  intros e [= <-]. done.
Defined.
End AttestationNet.
