(* ===== verification/ForkChoice.v ===== *)
(** * ForkChoice: which of two heads is canonical

    Models [src/consensus/parlia/forkchoice_rule.rs]: fast finality first (the
    higher justified number wins), then total difficulty with the tie breaks on
    height, time and hash.  The coin of the last tie is an argument. *)

From stdpp Require Import base tactics numbers option list strings.
From Stdlib Require Import ZArith Lia Bool.
From S2P Require Import Prelude.
From S2P Require Import Hardforks.
From S2P Require Import Header.

Record HeaderForForkchoice := {
  fc_header : Header;
  td : option Z;
  justified_num : Z;
}.

(** [ParliaConsensusErr] of [consensus/mod.rs]; foreign errors are their messages. *)
Inductive ParliaConsensusErr : Set :=
| Provider (error : string)
| HeadHashNotFound
| ForkChoiceUpdateError (message : string)
| UnknownTotalDifficulty (block_hash number : Z)
| Internal (error : string).

Section Rule.
Context `{F : ForkConditionApi, HashApi}.
Implicit Types (spec : ChainSpec) (incoming current : HeaderForForkchoice).

Definition head_choice_with_fast_finality spec incoming current : option bool :=
  if negb (is_plato_active_at_block spec (number (fc_header incoming)))
     && negb (is_plato_active_at_block spec (number (fc_header current)))
  then None
  else if negb (justified_num incoming =? justified_num current)
  then Some (justified_num current <? justified_num incoming)
  else None.

(** The [Ordering::Equal] arm: lower height, earlier time, smaller hash, coin. *)
Definition tie_break (coin : bool) (ih ch : Header) : bool :=
  if number ih <? number ch then true
  else if number ch <? number ih then false
  else if timestamp ih =? timestamp ch
  then if beneficiary ih =? beneficiary ch then hash_slow ih <? hash_slow ch else coin
  else timestamp ih <? timestamp ch.

Definition head_choice_with_td (coin : bool) incoming current : exec ParliaConsensusErr bool :=
  let ih := fc_header incoming in
  let ch := fc_header current in
  current_td ← ok_or (td current) (UnknownTotalDifficulty (hash_slow ch) (number ch));
  incoming_td ← ok_or (td incoming) (UnknownTotalDifficulty (hash_slow ih) (number ih));
  match incoming_td ?= current_td with
  | Gt => Done true
  | Lt => Done false
  | Eq => Done (tie_break coin ih ch)
  end.

Definition is_need_reorg spec (coin : bool) incoming current : exec ParliaConsensusErr bool :=
  match head_choice_with_fast_finality spec incoming current with
  | Some need_reorg => Done need_reorg
  | None => head_choice_with_td coin incoming current
  end.

(** ** The order behind the rule *)

(** The coin decides between blocks of the same height and time by different
    proposers, with equal justified number and difficulty. *)
Definition coin_tie incoming current : Prop :=
  justified_num incoming = justified_num current ∧ td incoming = td current ∧
  number (fc_header incoming) = number (fc_header current) ∧
  timestamp (fc_header incoming) = timestamp (fc_header current) ∧
  beneficiary (fc_header incoming) ≠ beneficiary (fc_header current).

(** The lexicographic preference: justified number, difficulty, lower height,
    earlier time, smaller hash. *)
Definition earlier (ih ch : Header) : Prop :=
  number ih < number ch ∨ number ih = number ch ∧
    (timestamp ih < timestamp ch ∨ timestamp ih = timestamp ch ∧
     beneficiary ih = beneficiary ch ∧ hash_slow ih < hash_slow ch).

Definition prefers incoming current : Prop :=
  justified_num current < justified_num incoming ∨
  justified_num current = justified_num incoming ∧
  ∃ a b, td incoming = Some a ∧ td current = Some b ∧
  (b < a ∨ a = b ∧ earlier (fc_header incoming) (fc_header current)).

Lemma tie_break_spec coin ih ch :
  tie_break coin ih ch = true ↔
    earlier ih ch ∨ coin = true ∧ number ih = number ch ∧ timestamp ih = timestamp ch ∧
                    beneficiary ih ≠ beneficiary ch.
Proof.
  unfold tie_break, earlier.
  destruct (Z.ltb_spec (number ih) (number ch)); [split; [by auto|done]|].
  destruct (Z.ltb_spec (number ch) (number ih)); [split; [done|lia]|].
  destruct (Z.eqb_spec (timestamp ih) (timestamp ch)); [|rewrite Z.ltb_lt; lia].
  destruct (Z.eqb_spec (beneficiary ih) (beneficiary ch)); [rewrite Z.ltb_lt; lia|].
  split; [intros ->; right; split_and!; done || lia|]. intros [?|[? _]]; [lia|done].
Qed.

Lemma is_need_reorg_spec spec coin incoming current :
  is_plato_active_at_block spec (number (fc_header incoming)) = true →
  is_need_reorg spec coin incoming current = Done true ↔
    prefers incoming current ∨ coin = true ∧ coin_tie incoming current ∧ is_Some (td incoming).
Proof.
  intros Hp. unfold is_need_reorg, head_choice_with_fast_finality. rewrite Hp. cbn [negb andb].
  unfold prefers, coin_tie.
  destruct (Z.eqb_spec (justified_num incoming) (justified_num current)) as [Ej|Ej]; cbn [negb].
  2: { split; [intros [= ?]; lia|]. intros [[?|[? _]]|(_ & [? _] & _)]; [f_equal; lia|lia|lia]. }
  unfold head_choice_with_td.
  destruct (td current) as [b|] eqn:Eb; cbn [ok_or mbind exec_bind].
  2: { split; [done|]. intros [[?|(_ & ? & ? & _ & [=] & _)]|(_ & (_ & Et & _) & [? E])]; [lia|congruence]. }
  destruct (td incoming) as [a|] eqn:Ea; cbn [ok_or mbind exec_bind].
  2: { split; [done|]. intros [[?|(_ & ? & ? & [=] & _)]|(_ & _ & [? [=]])]; lia. }
  rewrite is_Some_alt.
  destruct (Z.compare_spec a b) as [->|Hlt|Hgt].
  - transitivity (tie_break coin (fc_header incoming) (fc_header current) = true);
      [split; [by intros [= ->]|by intros ->]|].
    rewrite tie_break_spec. split.
    + intros [He|(-> & ? & ? & ?)]; [left; right; split; [done|]; exists b, b; auto|right; split_and!; done].
    + intros [[?|(_ & x & y & [= <-] & [= <-] & [?|[_ He]])]|(-> & (_ & _ & ? & ? & ?) & _)]; [lia|lia|by left|by right].
  - split; [done|]. intros [[?|(_ & x & y & [= <-] & [= <-] & [?|(? & _)])]|(_ & (_ & [= ->] & _) & _)]; lia.
  - split; [|done]. intros _. left. right. split; [done|]. exists a, b. split_and!; auto.
Qed.

(** Once Plato is active a reorganisation is decided by the lexicographic
    order on justified number, total difficulty, lower height, earlier time and
    smaller hash; only blocks tied up to the proposer are left to the coin, and
    an error means exactly that difficulty had to decide and was unknown. *)
Theorem fork_choice_spec spec coin incoming current :
  is_plato_active_at_block spec (number (fc_header incoming)) = true →
  (is_need_reorg spec coin incoming current = Done true ↔
     prefers incoming current ∨ coin = true ∧ coin_tie incoming current ∧ is_Some (td incoming)) ∧
  ((∃ e, is_need_reorg spec coin incoming current = Fail e) ↔
     justified_num incoming = justified_num current ∧ (td incoming = None ∨ td current = None)) ∧
  is_need_reorg spec coin incoming current ≠ Panics.
Proof.
  intros Hp. split; [by apply is_need_reorg_spec|].
  unfold is_need_reorg, head_choice_with_fast_finality. rewrite Hp. cbn [negb andb].
  destruct (Z.eqb_spec (justified_num incoming) (justified_num current)); cbn [negb]; [|naive_solver].
  unfold head_choice_with_td.
  destruct (td current), (td incoming); cbn [ok_or mbind exec_bind]; [case_match|..]; naive_solver.
Qed.

(** Reorganisations cannot run in a circle.  Among heads of the Plato era,
    leaving aside coin ties, the rule is a strict order: it never asks to move
    to the current head, never both ways, and preferences compose. *)
Theorem fork_choice_acyclic spec a b c :
  Forall (λ x, is_plato_active_at_block spec (number (fc_header x)) = true) [a; b; c] →
  is_need_reorg spec false a a ≠ Done true ∧
  (is_need_reorg spec false a b = Done true → is_need_reorg spec false b a ≠ Done true) ∧
  (is_need_reorg spec false a b = Done true → is_need_reorg spec false b c = Done true →
   is_need_reorg spec false a c = Done true).
Proof.
  intros [Ha [Hb _]%Forall_cons]%Forall_cons. rewrite !is_need_reorg_spec by done.
  unfold prefers, earlier. split_and!.
  - intros [[?|(_ & x & y & E1 & E2 & Hx)]|[? _]]; [lia| |done]. simplify_eq. lia.
  - intros [[?|(? & x & y & E1 & E2 & Hx)]|[? _]] [[?|(? & x' & y' & E1' & E2' & Hx')]|[? _]];
      simplify_eq; try done; lia.
  - intros [H1|[? _]] [H2|[? _]]; try done. left.
    destruct H1 as [?|(? & x & y & E1 & E2 & Hx)], H2 as [?|(? & x' & y' & E1' & E2' & Hx')];
      simplify_eq; [left; lia|left; lia|left; lia|].
    right. split; [lia|]. exists x, y'. split_and!; try done. lia.
Qed.
End Rule.

(** ** Witnesses *)

Module ForkChoiceDemo.
Import ThresholdForks.

#[local] Instance number_hash : HashApi := {| hash_slow h := number h; vote_data_hash _ := 0; envelope_hash _ := 0 |}.

Definition head (n : Z) (d : option Z) (j : Z) : HeaderForForkchoice :=
  {| fc_header := set_timestamp n
       {| parent_hash := 0; ommers_hash := 0; beneficiary := 0; state_root := 0; transactions_root := 0;
          receipts_root := 0; logs_bloom := 0; difficulty := 2; number := n; gas_limit := 0; gas_used := 0;
          timestamp := 0; extra_data := []; mix_hash := 0; nonce := 0; base_fee_per_gas := None;
          withdrawals_root := None; blob_gas_used := None; excess_blob_gas := None;
          parent_beacon_block_root := None; requests_hash := None; block_access_list_hash := None;
          slot_number := None |}; td := d; justified_num := j |}.

(** A lower head with a later justified block wins over a heavier one. *)
Lemma fork_choice_spec_witness :
  is_need_reorg mainnet false (head 45000001 (Some 5) 44999999) (head 45000002 (Some 9) 44999998) = Done true ∧
  (∃ e, is_need_reorg mainnet false (head 45000001 None 7) (head 45000002 (Some 9) 7) = Fail e) ∧
  is_need_reorg mainnet false (head 45000001 None 7) (head 45000002 (Some 9) 7) ≠ Panics.
Proof.
  split; [by vm_compute|].
  destruct (fork_choice_spec mainnet false (head 45000001 None 7) (head 45000002 (Some 9) 7)) as (_ & He & Hp);
    [by vm_compute|].
  split; [apply He; split; [done|by left]|exact Hp].
Defined.

Lemma fork_choice_acyclic_witness :
  is_need_reorg mainnet false (head 45000001 (Some 9) 7) (head 45000003 (Some 8) 7) = Done true.
Proof.
  apply (fork_choice_acyclic mainnet (head 45000001 (Some 9) 7) (head 45000002 (Some 9) 7) (head 45000003 (Some 8) 7));
    [repeat constructor|by vm_compute|by vm_compute].
Defined.
End ForkChoiceDemo.
