(* ===== verification/Collections.v ===== *)
(** * Collections: the containers the vote components are built on

    Interfaces for [lru::LruCache] (another crate) and for
    [std::collections::BinaryHeap], with the laws their documentation states,
    and list implementations that satisfy them.  The components are proved
    against the interfaces, so nothing depends on how a heap breaks ties. *)

From stdpp Require Import base tactics numbers option list sorting.
From Stdlib Require Import ZArith Lia Bool.
From S2P Require Import Prelude.

(** ** Association lists *)

Definition assoc {V} (k : Z) (l : list (Z * V)) : option V := snd <$> find (λ p, p.1 =? k) l.
Definition drop_key {V} (k : Z) (l : list (Z * V)) : list (Z * V) := filter (λ p, p.1 ≠ k) l.

Lemma assoc_Some {V} k (l : list (Z * V)) v : assoc k l = Some v → (k, v) ∈ l.
Proof.
  unfold assoc. destruct (find _ l) as [[k' v']|] eqn:E; [|done]. intros [= <-].
  apply find_some in E as [Hin Hk]. cbn in Hk. apply Z.eqb_eq in Hk as ->. by apply list_elem_of_In.
Qed.

Lemma assoc_None {V} k (l : list (Z * V)) v : assoc k l = None → (k, v) ∉ l.
Proof.
  unfold assoc. destruct (find _ l) as [?|] eqn:E; [done|]. intros _ Hin%list_elem_of_In.
  pose proof (find_none _ _ E _ Hin) as Hk. cbn in Hk. by rewrite Z.eqb_refl in Hk.
Qed.

Lemma assoc_NoDup {V} k (l : list (Z * V)) v : NoDup l.*1 → (k, v) ∈ l → assoc k l = Some v.
Proof.
  intros Hnd Hin. destruct (assoc k l) as [w|] eqn:E; [|by apply (assoc_None _ _ v) in E].
  apply assoc_Some in E. f_equal.
  apply list_elem_of_lookup in Hin as [i Hi]. apply list_elem_of_lookup in E as [j Hj].
  assert (i = j) as <-; [|congruence].
  apply (NoDup_lookup l.*1 _ _ k); [done| |]; rewrite list_lookup_fmap; [by rewrite Hi|by rewrite Hj].
Qed.

Lemma elem_of_drop_key {V} k (l : list (Z * V)) p : p ∈ drop_key k l ↔ p.1 ≠ k ∧ p ∈ l.
Proof. unfold drop_key. by rewrite list_elem_of_filter. Qed.

Lemma drop_key_keys {V} k (l : list (Z * V)) : (drop_key k l).*1 = filter (λ x, x ≠ k) l.*1.
Proof.
  unfold drop_key. induction l as [|p l IH]; [done|]. rewrite fmap_cons, !filter_cons.
  case_decide; cbn; by rewrite IH.
Qed.

Lemma drop_key_NoDup {V} k (l : list (Z * V)) : NoDup l.*1 → NoDup (drop_key k l).*1.
Proof. rewrite drop_key_keys. apply NoDup_filter. Qed.

Lemma drop_key_cons_NoDup {V} k v (l : list (Z * V)) : NoDup l.*1 → NoDup ((k, v) :: drop_key k l).*1.
Proof.
  intros Hnd. cbn. constructor; [|by apply drop_key_NoDup].
  rewrite drop_key_keys, list_elem_of_filter. naive_solver.
Qed.

Lemma take_NoDup {A} n (l : list A) : NoDup l → NoDup (take n l).
Proof. intros Hnd. rewrite <- (take_drop n l) in Hnd. by apply NoDup_app in Hnd as (? & _). Qed.

(** ** The least-recently-used cache *)

(** [lru_iter] lists the entries from the most to the least recently used;
    [get] and [put] make an entry the most recent one, [peek] does not. *)
Class LruApi := {
  LruCache : Type → Type;
  lru_new {V} : Z → LruCache V;
  lru_get {V} : LruCache V → Z → option V * LruCache V;
  lru_peek {V} : LruCache V → Z → option V;
  lru_put {V} : LruCache V → Z → V → LruCache V;
  lru_iter {V} : LruCache V → list (Z * V);
  lru_cap {V} : LruCache V → Z;
}.

Class LruLaws (L : LruApi) := {
  lru_iter_new {V} n : lru_iter (lru_new n : LruCache V) = [];
  lru_cap_new {V} n : lru_cap (lru_new n : LruCache V) = n;
  lru_get_value {V} (c : LruCache V) k : (lru_get c k).1 = assoc k (lru_iter c);
  lru_get_iter {V} (c : LruCache V) k :
    lru_iter (lru_get c k).2 = match assoc k (lru_iter c) with
                               | Some v => (k, v) :: drop_key k (lru_iter c)
                               | None => lru_iter c end;
  lru_get_cap {V} (c : LruCache V) k : lru_cap (lru_get c k).2 = lru_cap c;
  lru_peek_value {V} (c : LruCache V) k : lru_peek c k = assoc k (lru_iter c);
  lru_put_iter {V} (c : LruCache V) k v :
    lru_iter (lru_put c k v) = take (Z.to_nat (lru_cap c)) ((k, v) :: drop_key k (lru_iter c));
  lru_put_cap {V} (c : LruCache V) k v : lru_cap (lru_put c k v) = lru_cap c;
}.

Section Lru.
Context `{LL : LruLaws} {V : Type}.
Implicit Types (c : LruCache V).

(** [get] reorders the entries and changes none of them. *)
Lemma lru_get_elem c k p : NoDup (lru_iter c).*1 → p ∈ lru_iter (lru_get c k).2 ↔ p ∈ lru_iter c.
Proof.
  intros Hnd. rewrite lru_get_iter. destruct (assoc k (lru_iter c)) as [v|] eqn:E; [|done].
  pose proof (assoc_Some _ _ _ E) as Hv. rewrite elem_of_cons, elem_of_drop_key. split.
  - by intros [->|[_ ?]].
  - intros Hp. destruct (decide (p.1 = k)) as [<-|?]; [left|by right].
    destruct p as [k' v']. cbn in *. rewrite (assoc_NoDup _ _ v') in E by done. congruence.
Qed.

Lemma lru_get_NoDup c k : NoDup (lru_iter c).*1 → NoDup (lru_iter (lru_get c k).2).*1.
Proof. intros Hnd. rewrite lru_get_iter. destruct (assoc _ _); [by apply drop_key_cons_NoDup|done]. Qed.

Lemma lru_put_NoDup c k v : NoDup (lru_iter c).*1 → NoDup (lru_iter (lru_put c k v)).*1.
Proof. intros Hnd. rewrite lru_put_iter, fmap_take. by apply take_NoDup, drop_key_cons_NoDup. Qed.

Lemma lru_put_elem c k v p : p ∈ lru_iter (lru_put c k v) → p = (k, v) ∨ p ∈ lru_iter c.
Proof.
  rewrite lru_put_iter. intros Hp%elem_of_take. destruct Hp as (i & Hi & _).
  apply list_elem_of_lookup_2, elem_of_cons in Hi as [->|[_ ?]%elem_of_drop_key]; [by left|by right].
Qed.

Lemma lru_put_self c k v : 0 < lru_cap c → (k, v) ∈ lru_iter (lru_put c k v).
Proof.
  intros Hc. rewrite lru_put_iter. destruct (Z.to_nat (lru_cap c)) eqn:E; [lia|]. cbn. by left.
Qed.
End Lru.

(** ** The binary heap *)

(** A max-heap for the order [leb]; [heap_iter] visits in an arbitrary order. *)
Class HeapApi (A : Type) (leb : A → A → bool) := {
  BinaryHeap : Type;
  heap_new : BinaryHeap;
  heap_push : A → BinaryHeap → BinaryHeap;
  heap_pop : BinaryHeap → option (A * BinaryHeap);
  heap_peek : BinaryHeap → option A;
  heap_iter : BinaryHeap → list A;
}.
Arguments BinaryHeap {_ _} _.

Class HeapLaws {A leb} (H : HeapApi A leb) := {
  heap_iter_new : heap_iter heap_new = [];
  heap_iter_push a h : heap_iter (heap_push a h) ≡ₚ a :: heap_iter h;
  heap_peek_pop h : heap_peek h = fst <$> heap_pop h;
  heap_pop_None h : heap_pop h = None → heap_iter h = [];
  heap_pop_Some h a h' :
    heap_pop h = Some (a, h') → heap_iter h ≡ₚ a :: heap_iter h' ∧ ∀ b, b ∈ heap_iter h → leb b a = true;
}.

Section Heap.
Context {A leb} `{HL : HeapLaws A leb}.

Lemma heap_peek_Some h a :
  heap_peek h = Some a → ∃ h', heap_pop h = Some (a, h').
Proof. rewrite heap_peek_pop. destruct (heap_pop h) as [[b h']|]; [|done]. intros [= ->]. by exists h'. Qed.

Lemma heap_peek_None h : heap_peek h = None → heap_iter h = [].
Proof.
  rewrite heap_peek_pop. destruct (heap_pop h) as [[b h']|] eqn:E; [done|]. intros _. by apply heap_pop_None.
Qed.

Lemma heap_pop_shrinks h a h' : heap_pop h = Some (a, h') → length (heap_iter h) = S (length (heap_iter h')).
Proof. intros [Hp _]%heap_pop_Some. by rewrite Hp. Qed.
End Heap.

(** ** List implementations *)

Module ListContainers.

#[export] Instance list_lru : LruApi := {|
  LruCache V := (Z * list (Z * V))%type;
  lru_new V n := (n, []);
  lru_get V c k := match assoc k c.2 with
                   | Some v => (Some v, (c.1, (k, v) :: drop_key k c.2))
                   | None => (None, c) end;
  lru_peek V c k := assoc k c.2;
  lru_put V c k v := (c.1, take (Z.to_nat c.1) ((k, v) :: drop_key k c.2));
  lru_iter V c := c.2;
  lru_cap V c := c.1;
|}.

#[export] Instance list_lru_laws : LruLaws list_lru.
Proof. split; try done; intros V [n l] k; cbn -[assoc drop_key]; by destruct (assoc k l). Qed.

Section ListHeap.
Context {A : Type} (leb : A → A → bool).

(** The largest element and the rest. *)
Fixpoint list_pop (l : list A) : option (A * list A) :=
  match l with
  | [] => None
  | a :: l => match list_pop l with
              | None => Some (a, [])
              | Some (b, r) => if leb b a then Some (a, l) else Some (b, a :: r)
              end
  end.

#[export] Instance list_heap : HeapApi A leb := {|
  BinaryHeap := list A;
  heap_new := [];
  heap_push := cons;
  heap_pop := list_pop;
  heap_peek h := fst <$> list_pop h;
  heap_iter h := h;
|}.

Context (leb_total : ∀ a b, leb a b = true ∨ leb b a = true).
Context (leb_trans : ∀ a b c, leb a b = true → leb b c = true → leb a c = true).

Lemma list_pop_Some l a r :
  list_pop l = Some (a, r) → l ≡ₚ a :: r ∧ ∀ b, b ∈ l → leb b a = true.
Proof using leb_total leb_trans.
  revert a r. induction l as [|x l IH]; intros a r; [done|]. cbn [list_pop].
  assert (Hx : leb x x = true) by (by destruct (leb_total x x)).
  destruct (list_pop l) as [[b r']|] eqn:E.
  - destruct (IH _ _ eq_refl) as [Hp Hb]. destruct (leb b x) eqn:Eb; intros [= <- <-].
    + split; [done|]. intros c [->|Hc]%elem_of_cons; [done|]. by apply (leb_trans _ b); [apply Hb|].
    + split; [rewrite Hp; apply Permutation_swap|].
      intros c [->|Hc]%elem_of_cons; [|by apply Hb]. destruct (leb_total x b); congruence.
  - intros [= <- <-]. destruct l as [|y l]; [|cbn in E; destruct (list_pop l) as [[]|]; [case_match|]; done].
    split; [done|]. intros c ->%list_elem_of_singleton. done.
Qed.

Lemma list_heap_laws : HeapLaws list_heap.
Proof using leb_total leb_trans.
  split; try done.
  - intros [|a l]; [done|]. cbn. destruct (list_pop l) as [[]|]; [by case_match|done].
  - intros h a h'. apply list_pop_Some.
Qed.
End ListHeap.
End ListContainers.
