(* ===== verification/VoteMonitor.v ===== *)
(** * VoteMonitor: detecting double votes

    Models [src/consensus/parlia/malicious_vote_monitor.rs]: for every validator
    the monitor keeps an LRU cache of its recent votes, keyed by the height of
    their target, and looks a new vote up against them.  The scan of the cache
    is bounded: at most 267 heights lie in the scope of a vote. *)

From stdpp Require Import base tactics numbers option list gmap.
From Stdlib Require Import ZArith Lia Bool.
From S2P Require Import Prelude.
From S2P Require Import Header.
From S2P Require Import Collections.

(** [UPPER_LIMIT_OF_VOTE_BLOCK_NUMBER] of [vote_pool.rs]. *)
Definition UPPER_LIMIT_OF_VOTE_BLOCK_NUMBER : Z := 11.
Definition MAX_SIZE_OF_RECENT_ENTRY : Z := 512.
Definition MALICIOUS_VOTE_SLASH_SCOPE : Z := 256.

Section Monitor.
Context `{L : LruApi, HashApi}.

Record MaliciousVoteMonitor := { mon_cur_votes : gmap Z (LruCache VoteEnvelope) }.

Definition monitor_new : MaliciousVoteMonitor := {| mon_cur_votes := ∅ |}.

(** The two rules, for the recorded vote found at [block_number]. *)
Definition malicious (block_number source_number' target_number' new_vote_hash : Z)
    (existing_vote : VoteEnvelope) : bool :=
  if (block_number =? target_number') && negb (vote_data_hash (data existing_vote) =? new_vote_hash) then true
  else ((block_number <? target_number') && (source_number' <? source_number (data existing_vote)))
       || ((target_number' <? block_number) && (source_number (data existing_vote) <? source_number')).

(** [while block_number <= pending_block_number + UPPER_LIMIT]: [None] is out of
    fuel, [Some (true, _)] the early return. *)
Fixpoint scan_votes (fuel : nat) (buffer : LruCache VoteEnvelope)
    (block_number pending source_number' target_number' new_vote_hash : Z)
    : option (bool * LruCache VoteEnvelope) :=
  match fuel with
  | O => None
  | S fuel =>
      if block_number <=? add64 pending UPPER_LIMIT_OF_VOTE_BLOCK_NUMBER
      then
        let '(found, buffer) := lru_get buffer block_number in
        let hit := match found with
                   | Some existing => malicious block_number source_number' target_number' new_vote_hash existing
                   | None => false end in
        if hit then Some (true, buffer)
        else scan_votes fuel buffer (add64 block_number 1) pending source_number' target_number' new_vote_hash
      else Some (false, buffer)
  end.

Definition conflict_detect (fuel : nat) (self : MaliciousVoteMonitor) (new_vote : VoteEnvelope)
    (pending_block_number : Z) : option (bool * MaliciousVoteMonitor) :=
  let vote_address' := vote_address new_vote in
  let vote_buffer := default (lru_new MAX_SIZE_OF_RECENT_ENTRY) (mon_cur_votes self !! vote_address') in
  let store buffer := {| mon_cur_votes := <[vote_address' := buffer]> (mon_cur_votes self) |} in
  let source := source_number (data new_vote) in
  let target := target_number (data new_vote) in
  if add64 target MALICIOUS_VOTE_SLASH_SCOPE <=? pending_block_number then Some (false, store vote_buffer)
  else
    let block_number := add64 source 1 in
    let block_number :=
      if add64 block_number MALICIOUS_VOTE_SLASH_SCOPE <=? pending_block_number
      then add64 (sub64 pending_block_number MALICIOUS_VOTE_SLASH_SCOPE) 1 else block_number in
    match scan_votes fuel vote_buffer block_number pending_block_number source target
            (vote_data_hash (data new_vote)) with
    | None => None
    | Some (true, buffer) => Some (true, store buffer)
    | Some (false, buffer) => Some (false, store (lru_put buffer target new_vote))
    end.

(** The fuel that every scan needs at most: 267 heights and the final test. *)
Definition scan_fuel : nat := 268.

(** ** What the monitor remembers *)

Definition recorded (m : MaliciousVoteMonitor) (addr : Z) : list VoteEnvelope :=
  match mon_cur_votes m !! addr with Some c => (lru_iter c).*2 | None => [] end.

(** The rules as the protocol states them: two votes of one validator for the same
    height, or one inside the span of the other. *)
Definition double_votes (old new : VoteEnvelope) : Prop :=
  (target_number (data old) = target_number (data new) ∧
     vote_data_hash (data old) ≠ vote_data_hash (data new)) ∨
  (source_number (data new) < source_number (data old) ∧ target_number (data old) < target_number (data new)) ∨
  (source_number (data old) < source_number (data new) ∧ target_number (data new) < target_number (data old)).

Record buffer_ok (addr : Z) (c : LruCache VoteEnvelope) : Prop := {
  bo_cap : lru_cap c = MAX_SIZE_OF_RECENT_ENTRY;
  bo_nodup : NoDup (lru_iter c).*1;
  bo_key k v : (k, v) ∈ lru_iter c → target_number (data v) = k ∧ vote_address v = addr;
}.

Definition monitor_wf (m : MaliciousVoteMonitor) : Prop :=
  ∀ addr c, mon_cur_votes m !! addr = Some c → buffer_ok addr c.

Context {LL : LruLaws L}.

Lemma monitor_wf_new : monitor_wf monitor_new.
Proof. intros addr c. cbn. by rewrite lookup_empty. Qed.

Lemma buffer_ok_default m addr :
  monitor_wf m → buffer_ok addr (default (lru_new MAX_SIZE_OF_RECENT_ENTRY) (mon_cur_votes m !! addr)).
Proof.
  intros Hm. destruct (mon_cur_votes m !! addr) as [c|] eqn:E; [by apply Hm|]. cbn. split.
  - apply lru_cap_new.
  - rewrite lru_iter_new. constructor.
  - intros k v. rewrite lru_iter_new. by intros ?%elem_of_nil.
Qed.

Lemma buffer_ok_same addr c c' :
  lru_cap c' = lru_cap c → NoDup (lru_iter c').*1 → (∀ p, p ∈ lru_iter c' ↔ p ∈ lru_iter c) →
  buffer_ok addr c → buffer_ok addr c'.
Proof. intros Hc Hn He [? ? Hk]. split; [congruence|done|]. intros k v Hin%He. by apply Hk. Qed.

Lemma buffer_ok_put addr c v :
  buffer_ok addr c → vote_address v = addr → buffer_ok addr (lru_put c (target_number (data v)) v).
Proof.
  intros [Hc Hn Hk] Hv. split.
  - by rewrite lru_put_cap.
  - by apply lru_put_NoDup.
  - intros k w [[= -> ->]|Hin]%lru_put_elem; [done|by apply Hk].
Qed.

Lemma monitor_wf_store m addr c : monitor_wf m → buffer_ok addr c →
  monitor_wf {| mon_cur_votes := <[addr := c]> (mon_cur_votes m) |}.
Proof.
  intros Hm Hc a d. cbn. rewrite lookup_insert_Some. intros [[<- <-]|[_ Hd]]; [done|by apply Hm].
Qed.

(** The scan finds the first violation in its range and touches no entry. *)
Lemma scan_votes_spec fuel c b pending s t h :
  0 <= b → 0 <= pending → pending + UPPER_LIMIT_OF_VOTE_BLOCK_NUMBER < u64_max →
  pending + UPPER_LIMIT_OF_VOTE_BLOCK_NUMBER + 1 < b + Z.of_nat fuel → (0 < fuel)%nat →
  NoDup (lru_iter c).*1 →
  ∃ hit c', scan_votes fuel c b pending s t h = Some (hit, c') ∧
    lru_cap c' = lru_cap c ∧ NoDup (lru_iter c').*1 ∧ (∀ p, p ∈ lru_iter c' ↔ p ∈ lru_iter c) ∧
    (hit = true ↔ ∃ k v, (k, v) ∈ lru_iter c ∧ b <= k <= pending + UPPER_LIMIT_OF_VOTE_BLOCK_NUMBER ∧
                         malicious k s t h v = true).
Proof.
  unfold u64_max, UPPER_LIMIT_OF_VOTE_BLOCK_NUMBER.
  revert c b. induction fuel as [|fuel IH]; intros c b Hb Hp Hmax Hfuel Hpos Hn; [lia|].
  cbn [scan_votes]. unfold UPPER_LIMIT_OF_VOTE_BLOCK_NUMBER in *. rewrite (add64_small pending 11) by lia.
  destruct (Z.leb_spec b (pending + 11)) as [Hle|Hgt].
  - destruct (lru_get c b) as [found c1] eqn:Eg.
    pose proof (lru_get_value c b) as Hv. pose proof (lru_get_cap c b) as Hcap.
    pose proof (lru_get_NoDup c b Hn) as Hn1. pose proof (λ p, lru_get_elem c b p Hn) as He.
    rewrite Eg in Hv, Hcap, Hn1, He. cbn in Hv, Hcap, Hn1, He.
    case_match eqn:Hhit.
    + exists true, c1. split_and!; try done. destruct found as [v|]; [|done]. split; [|done].
      intros _. exists b, v. split; [by apply assoc_Some|]. done.
    + destruct (IH c1 (add64 b 1)) as (hit & c' & -> & Hc' & Hn' & He' & Hspec);
        rewrite ?add64_small by lia; try lia; try done.
      exists hit, c'. split_and!; try done; [congruence|intros p; by rewrite He'|].
      rewrite Hspec, add64_small by lia. split.
      * intros (k & v & Hin%He & Hk & Hm). exists k, v. split; [done|]. split; [lia|done].
      * intros (k & v & Hin & Hk & Hm). exists k, v. rewrite He. split; [done|]. split; [|done].
        destruct (decide (k = b)) as [->|]; [|lia].
        rewrite (assoc_NoDup b (lru_iter c) v) in Hv by done. subst found. congruence.
  - exists false, c. split_and!; try done. split; [done|]. intros (k & v & _ & ? & _). lia.
Qed.

Lemma malicious_iff k s t h v :
  malicious k s t h v = true ↔
  (k = t ∧ vote_data_hash (data v) ≠ h) ∨ (k < t ∧ s < source_number (data v)) ∨
  (t < k ∧ source_number (data v) < s).
Proof. unfold malicious. rewrite <- Z.eqb_neq. case_if; split_tests; lia. Qed.

Lemma recorded_elem m addr v :
  monitor_wf m →
  v ∈ recorded m addr ↔ (target_number (data v), v) ∈ lru_iter (default (lru_new MAX_SIZE_OF_RECENT_ENTRY) (mon_cur_votes m !! addr)).
Proof.
  intros Hm. unfold recorded. destruct (mon_cur_votes m !! addr) as [c|] eqn:E; cbn.
  - rewrite list_elem_of_fmap. split.
    + intros ([k w] & -> & Hin). cbn. by destruct (bo_key _ _ (Hm _ _ E) _ _ Hin) as [<- _].
    + intros Hin. by exists (target_number (data v), v).
  - rewrite lru_iter_new. split; by intros ?%elem_of_nil.
Qed.

(** The height at which the scan starts. *)
Lemma scan_start source pending :
  0 <= source → source + 1 + 256 < 2 ^ 64 → 0 <= pending < 2 ^ 64 →
  (if add64 (add64 source 1) MALICIOUS_VOTE_SLASH_SCOPE <=? pending
   then add64 (sub64 pending MALICIOUS_VOTE_SLASH_SCOPE) 1 else add64 source 1)
  = Z.max (source + 1) (pending - 255).
Proof.
  unfold MALICIOUS_VOTE_SLASH_SCOPE. intros Hs Hs' Hp.
  rewrite !(add64_small source 1), (add64_small (source + 1) 256) by lia.
  destruct (Z.leb_spec (source + 1 + 256) pending); [|lia].
  rewrite sub64_small by lia. rewrite add64_small by lia. lia.
Qed.

(** What one call does, for a vote that spans at least one block and heights far
    from the end of [u64]. *)
Lemma conflict_detect_result m v pending :
  monitor_wf m → 0 <= source_number (data v) < target_number (data v) →
  target_number (data v) + 256 < 2 ^ 64 → 0 <= pending < 2 ^ 64 - 12 →
  ∃ b m', conflict_detect scan_fuel m v pending = Some (b, m') ∧ monitor_wf m' ∧
    (b = true ↔ pending < target_number (data v) + 256 ∧ ∃ old, old ∈ recorded m (vote_address v) ∧
       Z.max (source_number (data v) + 1) (pending - 255) <= target_number (data old) <= pending + 11 ∧
       double_votes old v) ∧
    (b = false → pending < target_number (data v) + 256 → v ∈ recorded m' (vote_address v)).
Proof using LL.
  intros Hm Hs Ht Hp. pose proof (buffer_ok_default m (vote_address v) Hm) as Hok.
  pose proof (recorded_elem m (vote_address v)) as Hrec.
  unfold conflict_detect. cbv zeta. rewrite scan_start by lia. unfold MALICIOUS_VOTE_SLASH_SCOPE.
  rewrite (add64_small _ 256) by lia. set (c := default _ _) in *.
  destruct (Z.leb_spec (target_number (data v) + 256) pending) as [Hout|Hin].
  { eexists false, _. split; [done|]. split; [by apply monitor_wf_store|]. split; [|lia].
    split; [done|]. intros [? _]. lia. }
  destruct (scan_votes_spec scan_fuel c (Z.max (source_number (data v) + 1) (pending - 255)) pending
              (source_number (data v)) (target_number (data v)) (vote_data_hash (data v)))
    as (hit & c' & -> & Hcap & Hnd & Hel & Hhit);
    unfold UPPER_LIMIT_OF_VOTE_BLOCK_NUMBER, u64_max, scan_fuel in *; try lia; [apply Hok|].
  assert (Hok' : buffer_ok (vote_address v) c') by (by apply (buffer_ok_same _ c)).
  assert (Hiff : hit = true ↔ pending < target_number (data v) + 256 ∧ ∃ old, old ∈ recorded m (vote_address v) ∧
       Z.max (source_number (data v) + 1) (pending - 255) <= target_number (data old) <= pending + 11 ∧
       double_votes old v).
  { rewrite Hhit. split.
    - intros (k & old & Hin' & Hk & Hmal%malicious_iff). split; [lia|].
      destruct (bo_key _ _ Hok _ _ Hin') as [<- _]. exists old. rewrite Hrec by done.
      split; [done|]. split; [done|]. unfold double_votes. lia.
    - intros (_ & old & Hold & Hk & Hd). rewrite Hrec in Hold by done.
      exists (target_number (data old)), old. split; [done|]. split; [done|].
      apply malicious_iff. unfold double_votes in Hd. lia. }
  destruct hit; eexists _, _; (split; [done|]); (split; [apply monitor_wf_store; [done|]; by try apply buffer_ok_put|]);
    (split; [exact Hiff|]); [done|].
  intros _ _. unfold recorded. cbn. rewrite lookup_insert_eq. apply list_elem_of_fmap.
  exists (target_number (data v), v). split; [done|]. apply lru_put_self. rewrite (bo_cap _ _ Hok'). done.
Qed.

(** Whatever the vote, a call that returns keeps the records in order ... *)
Lemma scan_votes_same fuel c b pending s t h hit c' :
  NoDup (lru_iter c).*1 → scan_votes fuel c b pending s t h = Some (hit, c') →
  lru_cap c' = lru_cap c ∧ NoDup (lru_iter c').*1 ∧ (∀ p, p ∈ lru_iter c' ↔ p ∈ lru_iter c).
Proof.
  revert c b. induction fuel as [|fuel IH]; intros c b Hn Hs; cbn [scan_votes] in Hs; [done|].
  case_if; [|by injection Hs as _ <-].
  pose proof (lru_get_cap c b) as Hcap. pose proof (lru_get_NoDup c b Hn) as Hn1.
  pose proof (λ p, lru_get_elem c b p Hn) as He. destruct (lru_get c b) as [found c1]. cbn in Hcap, Hn1, He.
  case_match; [injection Hs as _ <-; done|].
  destruct (IH c1 _ Hn1 Hs) as (Hc & Hn2 & He2). split_and!; [congruence|done|]. intros p. by rewrite He2.
Qed.

Lemma conflict_detect_wf fuel m v pending b m' :
  monitor_wf m → conflict_detect fuel m v pending = Some (b, m') → monitor_wf m'.
Proof.
  intros Hm Hc. pose proof (buffer_ok_default m (vote_address v) Hm) as Hok.
  unfold conflict_detect in Hc. cbv zeta in Hc. set (c := default _ _) in *.
  case_match; [injection Hc as _ <-; by apply monitor_wf_store|].
  case_match eqn:Hs; [|done]. destruct p as [hit c'].
  apply scan_votes_same in Hs as (Hcap & Hnd & Hel); [|apply Hok].
  assert (Hok' : buffer_ok (vote_address v) c') by (by apply (buffer_ok_same _ c)).
  destruct hit; injection Hc as _ <-; apply monitor_wf_store; try done. by apply buffer_ok_put.
Qed.

(** ... and every call returns, while the head is not at the end of [u64]. *)
Lemma scan_votes_returns fuel c b pending s t h :
  0 <= b < 2 ^ 64 → 0 <= pending < 2 ^ 64 - 12 → pending + 12 < b + Z.of_nat fuel → (0 < fuel)%nat →
  is_Some (scan_votes fuel c b pending s t h).
Proof.
  revert c b. induction fuel as [|fuel IH]; intros c b Hb Hp Hfuel Hpos; [lia|].
  cbn [scan_votes]. unfold UPPER_LIMIT_OF_VOTE_BLOCK_NUMBER. rewrite (add64_small pending 11) by lia.
  destruct (Z.leb_spec b (pending + 11)); [|eauto].
  destruct (lru_get c b) as [found c1]. case_match; [eauto|].
  rewrite (add64_small b 1) by lia. apply IH; lia.
Qed.

(** Wherever the heights wrap, the scan starts less than 256 blocks behind the head. *)
Lemma scan_start_range source pending :
  is_u64 source → 0 <= pending < 2 ^ 64 - 12 →
  let b := if add64 (add64 source 1) MALICIOUS_VOTE_SLASH_SCOPE <=? pending
           then add64 (sub64 pending MALICIOUS_VOTE_SLASH_SCOPE) 1 else add64 source 1 in
  0 <= b < 2 ^ 64 ∧ pending - 255 <= b.
Proof.
  unfold is_u64, MALICIOUS_VOTE_SLASH_SCOPE. cbv zeta. intros Hs Hp.
  pose proof (wrap64_range (pending - 256)) as Hw. pose proof (wrap64_range (source + 1)) as Hw1.
  unfold is_u64 in *. unfold add64, sub64 in *. set (x := wrap64 (source + 1)) in *.
  destruct (Z.leb_spec (wrap64 (x + 256)) pending) as [Hle|Hgt].
  - pose proof (wrap64_range (wrap64 (pending - 256) + 1)) as Hw2. unfold is_u64 in Hw2. split; [done|].
    destruct (Z.le_gt_cases 256 pending); [|lia].
    rewrite (wrap64_small (pending - 256)) by (unfold is_u64; lia). rewrite wrap64_small by (unfold is_u64; lia). lia.
  - split; [done|]. destruct (Z.lt_ge_cases (x + 256) (2 ^ 64)); [|lia].
    rewrite wrap64_small in Hgt by (unfold is_u64; lia). lia.
Qed.

Lemma conflict_detect_returns m v pending :
  is_u64 (source_number (data v)) → 0 <= pending < 2 ^ 64 - 12 →
  is_Some (conflict_detect scan_fuel m v pending).
Proof.
  intros Hs Hp. pose proof (scan_start_range _ _ Hs Hp) as Hb. unfold conflict_detect. cbv zeta in *.
  destruct (add64 (target_number (data v)) MALICIOUS_VOTE_SLASH_SCOPE <=? pending); [eauto|].
  set (c := default _ _). set (b := if _ <=? _ then _ else _) in *.
  destruct (scan_votes_returns scan_fuel c b pending (source_number (data v)) (target_number (data v))
              (vote_data_hash (data v))) as [[hit c'] Hc]; [lia..|unfold scan_fuel; lia|unfold scan_fuel; lia|].
  rewrite Hc. destruct hit; eauto.
Qed.

Lemma recorded_store m addr c a v :
  monitor_wf {| mon_cur_votes := <[addr := c]> (mon_cur_votes m) |} →
  v ∈ recorded {| mon_cur_votes := <[addr := c]> (mon_cur_votes m) |} a ↔
  (if decide (a = addr) then (target_number (data v), v) ∈ lru_iter c else v ∈ recorded m a).
Proof.
  intros Hm. case_decide as Ha; [subst a|].
  - rewrite recorded_elem by done. cbn. by rewrite lookup_insert_eq.
  - unfold recorded. cbn. by rewrite lookup_insert_ne.
Qed.

(** C32: the monitor reports a vote exactly when it breaks a rule.  On every vote,
    whatever its heights, the call returns, with the records in order.  A vote
    more than 256 blocks behind the head (as [u64] adds) is neither reported nor
    recorded, and changes no record; any other is either reported, which leaves
    the records as they are, or recorded, beside some of the votes that were
    there.  A report is right: a recorded vote of the same validator is for the
    same height, or one of the two lies in the span of the other.  It is
    complete for a vote from a lower to a higher block: every such recorded vote
    with a target from 255 blocks behind the head to 11 ahead is found. *)
Theorem double_votes_detected m v pending :
  monitor_wf m → is_u64 (source_number (data v)) → is_u64 (target_number (data v)) → 0 <= pending < 2 ^ 64 - 12 →
  let in_scope := pending < add64 (target_number (data v)) MALICIOUS_VOTE_SLASH_SCOPE in
  ∃ b m', conflict_detect scan_fuel m v pending = Some (b, m') ∧ monitor_wf m' ∧
    (b = true → in_scope ∧ ∃ old, old ∈ recorded m (vote_address v) ∧ double_votes old v) ∧
    (b = true ∨ ¬ in_scope → ∀ a old, old ∈ recorded m' a ↔ old ∈ recorded m a) ∧
    (b = false → in_scope → v ∈ recorded m' (vote_address v)) ∧
    (∀ a old, old ∈ recorded m' a → old ∈ recorded m a ∨ old = v ∧ a = vote_address v) ∧
    (in_scope → source_number (data v) < target_number (data v) → target_number (data v) + 256 < 2 ^ 64 →
     ∀ old, old ∈ recorded m (vote_address v) → source_number (data old) < target_number (data old) →
       pending - 256 < target_number (data old) <= pending + 11 → double_votes old v → b = true).
Proof using LL.
  intros Hm Hs Ht Hp in_scope. pose proof (buffer_ok_default m (vote_address v) Hm) as Hok.
  pose proof (recorded_elem m (vote_address v)) as Hrec. pose proof (scan_start_range _ _ Hs Hp) as Hstart.
  unfold conflict_detect. cbv zeta in *. set (c := default _ _) in *. set (start := if _ <=? _ then _ else _) in *.
  assert (Hsame : ∀ c', buffer_ok (vote_address v) c' → (∀ p, p ∈ lru_iter c' ↔ p ∈ lru_iter c) →
    ∀ a old, old ∈ recorded {| mon_cur_votes := <[vote_address v := c']> (mon_cur_votes m) |} a ↔ old ∈ recorded m a).
  { intros c' Hc' He a old. rewrite recorded_store by by apply monitor_wf_store.
    case_decide as Ha; [subst a; rewrite Hrec by done; apply He|done]. }
  destruct (Z.leb_spec (add64 (target_number (data v)) MALICIOUS_VOTE_SLASH_SCOPE) pending) as [Hout|Hin].
  { eexists false, _. split; [done|]. split; [by apply monitor_wf_store|]. unfold in_scope.
    split; [done|]. split; [intros _; by apply Hsame|]. split; [lia|]. split; [|lia]. intros a old Ho. left. by apply Hsame in Ho. }
  destruct (scan_votes_spec scan_fuel c start pending (source_number (data v)) (target_number (data v)) (vote_data_hash (data v)))
    as (hit & c' & -> & Hcap & Hnd & Hel & Hhit);
    unfold UPPER_LIMIT_OF_VOTE_BLOCK_NUMBER, u64_max, scan_fuel in *; try lia; [apply Hok|].
  assert (Hok' : buffer_ok (vote_address v) c') by (by apply (buffer_ok_same _ c)).
  assert (Hsound : hit = true → ∃ old, old ∈ recorded m (vote_address v) ∧ double_votes old v).
  { intros (k & old & Hin' & _ & Hmal%malicious_iff)%Hhit. exists old. rewrite Hrec by done.
    destruct (bo_key _ _ Hok _ _ Hin') as [<- _]. split; [done|]. unfold double_votes. lia. }
  assert (Hcomplete : source_number (data v) < target_number (data v) → target_number (data v) + 256 < 2 ^ 64 →
     ∀ old, old ∈ recorded m (vote_address v) → source_number (data old) < target_number (data old) →
       pending - 256 < target_number (data old) <= pending + 11 → double_votes old v → hit = true).
  { intros Hspan Hmax old Hold Hspan' Hwin Hd. rewrite Hrec in Hold by done. apply Hhit.
    exists (target_number (data old)), old. split; [done|]. unfold is_u64 in *.
    assert (start = Z.max (source_number (data v) + 1) (pending - 255)) as -> by (unfold start; apply scan_start; lia).
    unfold double_votes in Hd. split; [lia|]. apply malicious_iff. lia. }
  destruct hit; eexists _, _; (split; [done|]).
  - split; [by apply monitor_wf_store|]. split; [intros _; split; [done|by apply Hsound]|].
    split; [intros _; by apply Hsame|]. split; [done|]. split; [|done]. intros a old Ho. left. by apply Hsame in Ho.
  - assert (Hwf : monitor_wf {| mon_cur_votes := <[vote_address v := lru_put c' (target_number (data v)) v]> (mon_cur_votes m) |})
      by (apply monitor_wf_store; [done|by apply buffer_ok_put]).
    split; [done|]. split; [done|]. split; [intros [?|?]; done|]. split; [|split; [|by intros _]].
    + intros _ _. rewrite recorded_store, decide_True by done. apply lru_put_self. by rewrite (bo_cap _ _ Hok').
    + intros a old Ho. rewrite recorded_store in Ho by done. case_decide as Ha; [subst a|by left].
      apply lru_put_elem in Ho as [[= _ ->]|Ho]; [by right|]. left. rewrite Hrec by done. by apply Hel.
Qed.
End Monitor.

(** ** The two rules on examples *)

Module MonitorDemo.
Import ListContainers.

#[export] Instance target_hash_only : HashApi :=
  {| hash_slow h := number h; vote_data_hash d := target_hash d; envelope_hash v := signature v |}.

Definition vote (s t th : Z) : VoteEnvelope :=
  {| vote_address := 1; signature := th;
     data := {| source_number := s; source_hash := s; target_number := t; target_hash := th |} |}.

Definition after_first : MaliciousVoteMonitor :=
  match conflict_detect scan_fuel monitor_new (vote 10 20 170) 20 with Some (_, m) => m | None => monitor_new end.

Lemma after_first_wf : monitor_wf after_first.
Proof.
  destruct (conflict_detect_result monitor_new (vote 10 20 170) 20) as (b & m' & Hc & Hm & _);
    [apply monitor_wf_new|cbn; lia..|]. unfold after_first. by rewrite Hc.
Qed.

(** A vote for the span 15 to 18 after one for 10 to 20. *)
Lemma double_votes_detected_witness :
  ∃ m', conflict_detect scan_fuel after_first (vote 15 18 204) 20 = Some (true, m').
Proof.
  destruct (double_votes_detected after_first (vote 15 18 204) 20) as (b & m' & Hc & _ & _ & _ & _ & _ & Hb);
    [apply after_first_wf|split; cbn; lia..|lia|].
  rewrite (Hb ltac:(by vm_compute) ltac:(cbn; lia) ltac:(cbn; lia) (vote 10 20 170)) in Hc;
    [exact (ex_intro _ m' Hc)|by vm_compute; left|cbn; lia|cbn; lia|right; right; cbn; lia].
Defined.
End MonitorDemo.
