(* ===== verification/VotePool.v ===== *)
(** * VotePool: the pool of fast-finality votes

    Models [src/consensus/parlia/vote_pool.rs] and [verify_vote_envelope] of
    [bls_signer.rs].  A vote whose target block the node holds is a current
    vote, checked against the snapshots and served to attestation assembly; any
    other vote waits as a future vote until its block is imported.  Buckets are
    keyed by target hash, and a binary heap per side gives them an order for
    pruning and promotion.

    [Shared] stands for the process-wide accessors of [shared.rs].  Metrics,
    logs and [block_stats] are left out; the fork-choice updates the pool
    spawns are listed in [forkchoice_updates]. *)

From stdpp Require Import base tactics numbers option list sorting gmap.
From Stdlib Require Import ZArith Lia Bool.
From S2P Require Import Prelude.
From S2P Require Import Header.
From S2P Require Import Snapshot.
From S2P Require Import Attestation.
From S2P Require Import Collections.
From S2P Require Import VoteMonitor.

Definition LOWER_LIMIT_OF_VOTE_BLOCK_NUMBER : Z := 256.
Definition REJECTED_VOTE_CACHE_SIZE : Z := 8192.
Definition MAX_CUR_VOTE_AMOUNT_PER_BLOCK : Z := 21.
Definition MAX_FUTURE_VOTE_AMOUNT_PER_BLOCK : Z := 50.
Definition MAX_PROMOTION_TARGETS_PER_PASS : nat := 64.
Definition MAX_PROMOTION_VOTES_PER_PASS : nat := 512.
Definition SHED_HEADROOM : Z := 4096.
Definition MAX_VOTES_IN_POOL : Z := 32 * 1024 * 2.
Definition FINALIZED_NOTIFIED_CACHE_SIZE : Z := 21.

(** The order of [Reverse<VoteData>] in the max-heap: lowest target first. *)
Definition by_target (a b : VoteData) : bool := target_number b <=? target_number a.

(** The order of the [(BlockNumber, B256)] pairs. *)
Definition key_leb (a b : Z * Z) : bool :=
  (a.1 <? b.1) || ((a.1 =? b.1) && (a.2 <=? b.2)).
Definition key_ltb (a b : Z * Z) : bool :=
  (a.1 <? b.1) || ((a.1 =? b.1) && (a.2 <? b.2)).

Record VoteEntry := { ve_hash : Z; envelope : VoteEnvelope; authenticated : bool }.

Record VoteMessages := { vote_messages : list VoteEntry; authenticated_count : Z }.

Definition no_messages : VoteMessages := {| vote_messages := []; authenticated_count := 0 |}.

Record PromotionCandidate := {
  pc_target_number : Z;
  pc_target_hash : Z;
  pc_votes : list VoteEntry;
  expired : bool;
}.

Definition overflow_shed_target (pool_len : Z) : option Z :=
  if pool_len <=? MAX_VOTES_IN_POOL then None
  else Some (pool_len - sat_sub64 MAX_VOTES_IN_POOL SHED_HEADROOM).

Inductive OriginVerdict : Set := OriginOk | OriginRejected | OriginUnverifiable.

#[export] Instance OriginVerdict_eq_dec : EqDecision OriginVerdict.
Proof. solve_decision. Defined.

(** The accessors of [shared.rs]; a provider is [None] until it is registered. *)
Record Shared := {
  get_best_canonical_block_number : option Z;
  get_canonical_header_by_number : Z → option Header;
  header_by_hash_provider : option (Z → option Header);
  get_snapshot_provider : option (Z → option Snapshot);
  has_fork_choice_engine : bool;
}.

Definition has_header_by_hash_provider (env : Shared) : bool :=
  match header_by_hash_provider env with Some _ => true | None => false end.

Definition get_canonical_header_by_hash_from_provider (env : Shared) (block_hash : Z) : option Header :=
  provider_fn ← header_by_hash_provider env; provider_fn block_hash.

(** [Vec::len] of the authenticated entries. *)
Definition count_authenticated (l : list VoteEntry) : Z :=
  zlen (filter (λ e, authenticated e = true) l).

(** [for entry in entries { set.remove(&entry.hash) }] *)
Definition remove_hashes (entries : list VoteEntry) (s : gset Z) : gset Z :=
  fold_left (λ s e, s ∖ {[ve_hash e]}) entries s.

Section Pool.
Context `{L : LruApi, HashApi, B : BlsApi}.
Context {HP : HeapApi VoteData by_target} {HK : HeapApi (Z * Z) key_leb}.

Record VotePool := {
  received_votes : gset Z;
  cur_votes : gmap Z VoteMessages;
  cur_votes_pq : BinaryHeap HP;
  future_votes : gmap Z VoteMessages;
  future_votes_pq : BinaryHeap HP;
  total_votes : Z;
  malicious_vote_monitor : MaliciousVoteMonitor;
}.

Implicit Types (self : VotePool) (env : Shared) (vote : VoteEnvelope).

Definition pool_new : VotePool := {|
  received_votes := ∅;
  cur_votes := ∅;
  cur_votes_pq := heap_new;
  future_votes := ∅;
  future_votes_pq := heap_new;
  total_votes := 0;
  malicious_vote_monitor := monitor_new;
|}.

Definition with_cur (m : gmap Z VoteMessages) (pq : BinaryHeap HP) self : VotePool := {|
  received_votes := received_votes self; cur_votes := m; cur_votes_pq := pq;
  future_votes := future_votes self; future_votes_pq := future_votes_pq self;
  total_votes := total_votes self; malicious_vote_monitor := malicious_vote_monitor self |}.
Definition with_future (m : gmap Z VoteMessages) (pq : BinaryHeap HP) self : VotePool := {|
  received_votes := received_votes self; cur_votes := cur_votes self; cur_votes_pq := cur_votes_pq self;
  future_votes := m; future_votes_pq := pq;
  total_votes := total_votes self; malicious_vote_monitor := malicious_vote_monitor self |}.
Definition with_counts (r : gset Z) (t : Z) self : VotePool := {|
  received_votes := r; cur_votes := cur_votes self; cur_votes_pq := cur_votes_pq self;
  future_votes := future_votes self; future_votes_pq := future_votes_pq self;
  total_votes := t; malicious_vote_monitor := malicious_vote_monitor self |}.
Definition with_monitor (m : MaliciousVoteMonitor) self : VotePool := {|
  received_votes := received_votes self; cur_votes := cur_votes self; cur_votes_pq := cur_votes_pq self;
  future_votes := future_votes self; future_votes_pq := future_votes_pq self;
  total_votes := total_votes self; malicious_vote_monitor := m |}.

Definition is_at_capacity self (block_hash : Z) (is_future authenticated' : bool) : bool :=
  if is_future
  then authenticated' && match future_votes self !! block_hash with
                         | Some vm => MAX_FUTURE_VOTE_AMOUNT_PER_BLOCK <=? authenticated_count vm
                         | None => false end
  else match cur_votes self !! block_hash with
       | Some vm => MAX_CUR_VOTE_AMOUNT_PER_BLOCK <=? zlen (vote_messages vm)
       | None => false end.

Definition len_for_block self (block_hash : Z) : Z :=
  match cur_votes self !! block_hash with Some vm => zlen (vote_messages vm) | None => 0 end.

(** The insertion into one side: a queue entry for a new bucket, then the vote. *)
Definition push_vote (votes : gmap Z VoteMessages) (pq : BinaryHeap HP) (vote_hash : Z) vote (authenticated' : bool)
    : gmap Z VoteMessages * BinaryHeap HP :=
  let block_hash := target_hash (data vote) in
  let pq := match votes !! block_hash with Some _ => pq | None => heap_push (data vote) pq end in
  let bucket := default no_messages (votes !! block_hash) in
  let entry := {| ve_hash := vote_hash; envelope := vote; authenticated := authenticated' |} in
  (<[block_hash := {| vote_messages := vote_messages bucket ++ [entry];
                      authenticated_count := if authenticated' then authenticated_count bucket + 1
                                             else authenticated_count bucket |}]> votes, pq).

(** [None]: the scan of the monitor had too little fuel. *)
Definition insert_vote self vote (pending_block_number : Z) (is_future authenticated' : bool)
    : option (VotePool * Z) :=
  let vote_hash := envelope_hash vote in
  if bool_decide (vote_hash ∈ received_votes self) then Some (self, 0)
  else
    '(_, monitor) ← conflict_detect scan_fuel (malicious_vote_monitor self) vote pending_block_number;
    let self := with_monitor monitor (with_counts ({[vote_hash]} ∪ received_votes self) (total_votes self) self) in
    let self :=
      if is_future
      then let '(votes, pq) := push_vote (future_votes self) (future_votes_pq self) vote_hash vote authenticated' in
           with_future votes pq self
      else let '(votes, pq) := push_vote (cur_votes self) (cur_votes_pq self) vote_hash vote authenticated' in
           with_cur votes pq self in
    let self := with_counts (received_votes self) (total_votes self + 1) self in
    Some (self, if is_future then 0 else len_for_block self (target_hash (data vote))).

Definition all_envelopes (m : gmap Z VoteMessages) : list VoteEnvelope :=
  mjoin ((λ p, envelope <$> vote_messages p.2) <$> map_to_list m).

Definition drain self : list VoteEnvelope * VotePool :=
  (all_envelopes (cur_votes self),
   {| received_votes := ∅; cur_votes := ∅; cur_votes_pq := heap_new; future_votes := ∅;
      future_votes_pq := heap_new; total_votes := 0;
      malicious_vote_monitor := malicious_vote_monitor self |}).

Definition get_votes self : list VoteEnvelope := all_envelopes (cur_votes self).

Definition pool_len self : Z := total_votes self.

Definition contains self (vote_hash : Z) : bool := bool_decide (vote_hash ∈ received_votes self).

Definition fetch_vote_by_block_hash self (block_hash : Z) : list VoteEnvelope :=
  match cur_votes self !! block_hash with Some vm => envelope <$> vote_messages vm | None => [] end.

Definition pool_fetch_by_source self (block_hash source_number' : Z) : list VoteEnvelope :=
  filter (λ v, source_number (data v) = source_number') (fetch_vote_by_block_hash self block_hash).

(** ** Promotion *)

(** One entry of the queue: the bounded max-heap keeps the smallest keys. *)
Definition keep_smallest (latest : Z) (smallest : BinaryHeap HK) (vd : VoteData) : BinaryHeap HK :=
  if latest <? target_number vd then smallest
  else
    let key := (target_number vd, target_hash vd) in
    if Nat.ltb (length (heap_iter smallest)) MAX_PROMOTION_TARGETS_PER_PASS then heap_push key smallest
    else match heap_peek smallest with
         | Some worst =>
             if key_ltb key worst
             then heap_push key (match heap_pop smallest with Some (_, h) => h | None => smallest end)
             else smallest
         | None => smallest
         end.

(** [smallest.into_sorted_vec()], truncated. *)
Definition smallest_keys self (latest : Z) : list (Z * Z) :=
  take MAX_PROMOTION_TARGETS_PER_PASS
    (sort_by key_leb (heap_iter (fold_left (keep_smallest latest) (heap_iter (future_votes_pq self)) heap_new))).

Fixpoint collect_candidates self (latest : Z) (vote_budget : nat) (keys : list (Z * Z))
    : list PromotionCandidate :=
  match keys with
  | [] => []
  | (target_number', target_hash') :: keys =>
      match vote_budget with
      | O => []
      | _ =>
          let votes := match future_votes self !! target_hash' with
                       | Some vm => take vote_budget (vote_messages vm)
                       | None => [] end in
          {| pc_target_number := target_number'; pc_target_hash := target_hash'; pc_votes := votes;
             expired := sat_add64 target_number' UPPER_LIMIT_OF_VOTE_BLOCK_NUMBER <? latest |}
          :: collect_candidates self latest (vote_budget - length votes) keys
      end
  end.

Definition promotion_candidates self (latest : Z) : list PromotionCandidate :=
  collect_candidates self latest MAX_PROMOTION_VOTES_PER_PASS (smallest_keys self latest).

(** The three verdicts on the entries of a bucket. *)
Definition judged (verdicts : gmap Z bool) (b : option bool) (l : list VoteEntry) : list VoteEntry :=
  filter (λ e, verdicts !! ve_hash e = b) l.

(** [extend] of a bucket that may not exist yet. *)
Definition extend_bucket (m : gmap Z VoteMessages) (block_hash : Z) (l : list VoteEntry) : gmap Z VoteMessages :=
  let bucket := default no_messages (m !! block_hash) in
  <[block_hash := {| vote_messages := vote_messages bucket ++ l;
                     authenticated_count := authenticated_count bucket + count_authenticated l |}]> m.

(** Result: the pool, whether a vote was promoted, whether to queue the target again. *)
Definition promote_judged self (block_hash : Z) (verdicts : gmap Z bool) : VotePool * bool * bool :=
  match future_votes self !! block_hash with
  | None => (self, false, false)
  | Some box =>
      let self := with_future (delete block_hash (future_votes self)) (future_votes_pq self) self in
      let valid := judged verdicts (Some true) (vote_messages box) in
      let rejected := judged verdicts (Some false) (vote_messages box) in
      let unjudged := judged verdicts None (vote_messages box) in
      let self := with_counts (remove_hashes rejected (received_votes self))
                    (fold_left (λ t _, sat_sub64 t 1) rejected (total_votes self)) self in
      let requeue := negb (bool_decide (unjudged = [])) in
      let self := if requeue
                  then with_future (extend_bucket (future_votes self) block_hash unjudged) (future_votes_pq self) self
                  else self in
      match valid with
      | [] => (self, false, requeue)
      | first :: _ =>
          let pq := match cur_votes self !! block_hash with
                    | Some _ => cur_votes_pq self
                    | None => heap_push (data (envelope first)) (cur_votes_pq self) end in
          (with_cur (extend_bucket (cur_votes self) block_hash valid) pq self, true, requeue)
      end
  end.

(** [while examined < MAX_PROMOTION_TARGETS_PER_PASS]: the promoted hashes and
    the deferred queue entries are collected in order. *)
Fixpoint promotion_loop (budget : nat) self (latest : Z) (resolved : gmap Z (gmap Z bool))
    (promoted : list Z) (deferred : list VoteData) : VotePool * list Z * list VoteData :=
  match budget with
  | O => (self, promoted, deferred)
  | S budget =>
      match heap_pop (future_votes_pq self) with
      | None => (self, promoted, deferred)
      | Some (vd, pq) =>
          if latest <? target_number vd then (self, promoted, deferred)
          else
            let self := with_future (future_votes self) pq self in
            match resolved !! target_hash vd with
            | Some verdicts =>
                let '(self, moved, requeue) := promote_judged self (target_hash vd) verdicts in
                promotion_loop budget self latest resolved
                  (if (moved : bool) then promoted ++ [target_hash vd] else promoted)
                  (if (requeue : bool) then deferred ++ [vd] else deferred)
            | None =>
                match future_votes self !! target_hash vd with
                | None => promotion_loop budget self latest resolved promoted deferred
                | Some _ => promotion_loop budget self latest resolved promoted (deferred ++ [vd])
                end
            end
      end
  end.

Definition apply_promotion self (latest : Z) (resolved : gmap Z (gmap Z bool)) : VotePool * list Z :=
  let '(self, promoted, deferred) := promotion_loop MAX_PROMOTION_TARGETS_PER_PASS self latest resolved [] [] in
  (with_future (future_votes self) (fold_left (λ pq vd, heap_push vd pq) deferred (future_votes_pq self)) self,
   promoted).

(** ** Shedding and pruning *)

(** [total_votes] and [received_votes] forget a bucket. *)
Definition forget (box : VoteMessages) self : VotePool :=
  with_counts (remove_hashes (vote_messages box) (received_votes self))
    (sat_sub64 (total_votes self) (zlen (vote_messages box))) self.

Fixpoint shed_loop (order : list VoteData) (target shed : Z) self : VotePool * Z :=
  match order with
  | [] => (self, shed)
  | vd :: order =>
      if target <=? shed then (self, shed)
      else match future_votes self !! target_hash vd with
           | Some box =>
               shed_loop order target (shed + zlen (vote_messages box))
                 (forget box (with_future (delete (target_hash vd) (future_votes self)) (future_votes_pq self) self))
           | None => shed_loop order target shed self
           end
  end.

(** The first vote of every surviving bucket. *)
Definition surviving (m : gmap Z VoteMessages) : list VoteData :=
  omap (λ p, (λ e, data (envelope e)) <$> head (vote_messages p.2)) (map_to_list m).

Definition shed_future_votes self (target : Z) : VotePool * Z :=
  let order := sort_by (λ a b, target_number b <=? target_number a) (heap_iter (future_votes_pq self)) in
  let '(self, shed) := shed_loop order target 0 self in
  (with_future (future_votes self)
     (fold_left (λ pq vd, heap_push vd pq) (surviving (future_votes self)) heap_new) self, shed).

(** [while let Some(vote_data) = self.cur_votes_pq.peek()]; the fuel is the length
    of the queue, which every iteration shortens. *)
Fixpoint prune_cur (fuel : nat) (latest_block_number : Z) self : VotePool :=
  match fuel with
  | O => self
  | S fuel =>
      match heap_pop (cur_votes_pq self) with
      | None => self
      | Some (vd, pq) =>
          if sat_add64 (target_number vd) LOWER_LIMIT_OF_VOTE_BLOCK_NUMBER <=? latest_block_number
          then
            prune_cur fuel latest_block_number
              (match cur_votes self !! target_hash vd with
               | Some box => forget box (with_cur (delete (target_hash vd) (cur_votes self)) pq self)
               | None => with_cur (cur_votes self) pq self
               end)
          else self
      end
  end.

Fixpoint prune_future (fuel : nat) (latest_block_number : Z) self : VotePool :=
  match fuel with
  | O => self
  | S fuel =>
      match heap_pop (future_votes_pq self) with
      | None => self
      | Some (vd, pq) =>
          if latest_block_number <? sat_add64 (target_number vd) LOWER_LIMIT_OF_VOTE_BLOCK_NUMBER then self
          else
            prune_future fuel latest_block_number
              (match future_votes self !! target_hash vd with
               | Some box => forget box (with_future (delete (target_hash vd) (future_votes self)) pq self)
               | None => with_future (future_votes self) pq self
               end)
      end
  end.

Definition prune self (latest_block_number : Z) : VotePool :=
  let self := prune_cur (length (heap_iter (cur_votes_pq self))) latest_block_number self in
  prune_future (length (heap_iter (future_votes_pq self))) latest_block_number self.

(** ** Judging votes *)

Definition justified_pair_of (vote_data' : VoteData) (genesis : option (Z * Z)) : option (Z * Z) :=
  if target_hash vote_data' =? 0 then genesis
  else Some (target_number vote_data', target_hash vote_data').

Definition justified_pair_for_hash env (header_hash : Z) : option (Z * Z) :=
  sp ← get_snapshot_provider env;
  snap ← sp header_hash;
  justified_pair_of (vote_data snap)
    (genesis ← get_canonical_header_by_number env 0; Some (number genesis, hash_slow genesis)).

(** The number of set changes at heights up to [n]. *)
Definition swaps_upto (epoch offset n : Z) : Z :=
  if offset <=? n then (n - offset) / epoch + 1 else 0.

Definition governing_sets_differ (head target epoch offset : Z) : bool :=
  let epoch := Z.max epoch 1 in
  if epoch <=? offset then false
  else negb (swaps_upto epoch offset head =? swaps_upto epoch offset (sat_sub64 target 1)).

(** [map.values().any(|v| v.vote_addr == addr)] *)
Definition has_vote_addr (m : gmap Z ValidatorInfo) (addr : Z) : bool :=
  existsb (λ p, vote_addr p.2 =? addr) (map_to_list m).

Definition future_vote_sender_is_validator env vote : option bool :=
  head_number ← get_best_canonical_block_number env;
  head ← get_canonical_header_by_number env head_number;
  sp ← get_snapshot_provider env;
  snap ← sp (hash_slow head);
  if bool_decide (validators_map snap = ∅) then None
  else if governing_sets_differ head_number (target_number (data vote)) (epoch_num snap)
            (miner_history_check_len snap) then None
  else Some (has_vote_addr (validators_map snap) (vote_address vote)).

Definition verify_vote_origin env vote : OriginVerdict :=
  match get_canonical_header_by_hash_from_provider env (target_hash (data vote)) with
  | None => OriginUnverifiable
  | Some header =>
      if negb (number header =? target_number (data vote)) then OriginRejected
      else match justified_pair_for_hash env (target_hash (data vote)) with
           | None => OriginUnverifiable
           | Some (justified_number, justified_hash) =>
               if negb (source_number (data vote) =? justified_number)
                  || negb (source_hash (data vote) =? justified_hash)
               then OriginRejected
               else match get_snapshot_provider env with
                    | None => OriginUnverifiable
                    | Some sp =>
                        match sp (parent_hash header) with
                        | None => OriginUnverifiable
                        | Some parent_snap =>
                            if has_vote_addr (validators_map parent_snap) (vote_address vote)
                            then OriginOk else OriginRejected
                        end
                    end
           end
  end.

Definition is_within_admission_window (target_number' : Z) (head : option Z) : bool :=
  match head with
  | None => true
  | Some head =>
      if sat_add64 target_number' (LOWER_LIMIT_OF_VOTE_BLOCK_NUMBER - 1) <? head then false
      else target_number' <=? sat_add64 head UPPER_LIMIT_OF_VOTE_BLOCK_NUMBER
  end.

(** [verify_vote_envelope] of [bls_signer.rs] *)
Definition verify_vote_envelope vote : bool :=
  match public_key_from_bytes (vote_address vote), signature_from_bytes (signature vote) with
  | Some pk, Some sig => verify_one sig (vote_data_hash (data vote)) pk
  | _, _ => false
  end.

(** ** The global state and the entry points *)

Record PoolState := {
  pool : VotePool;
  last_pruned_block : Z;
  rejected_votes : LruCache unit;
  finalized_notified : LruCache unit;
  forkchoice_updates : list Header;
}.
Implicit Types (st : PoolState).

Definition state_new : PoolState := {|
  pool := pool_new;
  last_pruned_block := 0;
  rejected_votes := lru_new REJECTED_VOTE_CACHE_SIZE;
  finalized_notified := lru_new FINALIZED_NOTIFIED_CACHE_SIZE;
  forkchoice_updates := [];
|}.

Definition with_pool (p : VotePool) (pruned : Z) st : PoolState := {|
  pool := p; last_pruned_block := pruned; rejected_votes := rejected_votes st;
  finalized_notified := finalized_notified st; forkchoice_updates := forkchoice_updates st |}.

Definition remember_rejected (vote_hash : Z) st : PoolState := {|
  pool := pool st; last_pruned_block := last_pruned_block st;
  rejected_votes := lru_put (rejected_votes st) vote_hash tt;
  finalized_notified := finalized_notified st; forkchoice_updates := forkchoice_updates st |}.

Definition notify (target_hash' : Z) (head : Header) (engine : bool) st : PoolState := {|
  pool := pool st; last_pruned_block := last_pruned_block st; rejected_votes := rejected_votes st;
  finalized_notified := lru_put (finalized_notified st) target_hash' tt;
  forkchoice_updates := if engine then forkchoice_updates st ++ [head] else forkchoice_updates st |}.

(** The head and snapshot on which a notification for [target_hash'] may rest. *)
Definition finality_head env st (target_hash' : Z) : option (Header * Snapshot) :=
  match lru_peek (finalized_notified st) target_hash' with
  | Some _ => None
  | None =>
      head_number ← get_best_canonical_block_number env;
      head ← get_canonical_header_by_number env head_number;
      if negb (hash_slow head =? target_hash') then None
      else
        sp ← get_snapshot_provider env;
        snap ← sp target_hash';
        if bool_decide (validators snap = []) then None
        else if (number head =? 0) || negb (number head - 1 =? target_number (vote_data snap)) then None
        else Some (head, snap)
  end.

Definition maybe_notify_finality env (target_hash' votes_for_block : Z) st : PoolState :=
  match finality_head env st target_hash' with
  | None => st
  | Some (head, snap) =>
      let quorum := div_ceil (zlen (validators snap) * 2) 3 in
      if votes_for_block <? quorum then st
      else
        let eligible_votes :=
          zlen (filter (λ v, source_number (data v) = target_number (vote_data snap) ∧
                             target_number (data v) = number head)
                  (fetch_vote_by_block_hash (pool st) target_hash')) in
        if eligible_votes <? quorum then st
        else notify target_hash' head (has_fork_choice_engine env) st
  end.

(** Phase 2 of promotion, without a lock: the verdicts on one candidate. *)
Definition resolve_candidate env (resolved : gmap Z (gmap Z bool)) (c : PromotionCandidate)
    : gmap Z (gmap Z bool) :=
  if negb (expired c)
     && (match get_canonical_header_by_hash_from_provider env (pc_target_hash c) with
         | None => true | Some _ => false end)
  then resolved
  else <[pc_target_hash c :=
          fold_left (λ m e, <[ve_hash e := bool_decide (verify_vote_origin env (envelope e) = OriginOk)]> m)
            (pc_votes c) ∅]> resolved.

Definition resolve env (candidates : list PromotionCandidate) : gmap Z (gmap Z bool) :=
  fold_left (resolve_candidate env) candidates ∅.

Definition notify_promoted env st (counts : list (Z * Z)) : PoolState :=
  fold_left (λ st p, if 0 <? p.2 then maybe_notify_finality env p.1 p.2 st else st) counts st.

Definition promote_future_votes env (head_number : Z) st : PoolState :=
  let candidates := promotion_candidates (pool st) head_number in
  match candidates with
  | [] => st
  | _ =>
      let resolved := resolve env candidates in
      if bool_decide (resolved = ∅) then st
      else
        let '(p, promoted) := apply_promotion (pool st) head_number resolved in
        let counts := (λ h, (h, len_for_block p h)) <$> promoted in
        notify_promoted env (with_pool p (last_pruned_block st) st) counts
  end.

(** The part of [put_vote_inner] under the write lock: the pool, and [None] if
    the bucket is full or the current count of the target. *)
Definition admit_vote vote (pending_block_number : Z) (is_future authenticated' need_head_work : bool)
    (p : VotePool) : option (VotePool * option Z) :=
  if is_at_capacity p (target_hash (data vote)) is_future authenticated' then Some (p, None)
  else
    '(p, votes_for_block) ← insert_vote p vote pending_block_number is_future authenticated';
    let p := if need_head_work then prune p pending_block_number else p in
    let p :=
      if MAX_VOTES_IN_POOL <? pool_len p
      then
        let p := prune p pending_block_number in
        match overflow_shed_target (pool_len p) with
        | Some to_shed => (shed_future_votes p to_shed).1
        | None => p
        end
      else p in
    Some (p, Some votes_for_block).

Definition finish_put env vote (pending_block_number : Z) (is_future authenticated' : bool) st
    : option PoolState :=
  let need_head_work := last_pruned_block st <? pending_block_number in
  let st := if need_head_work then promote_future_votes env pending_block_number st else st in
  '(p, admitted) ← admit_vote vote pending_block_number is_future authenticated' need_head_work (pool st);
  match admitted with
  | None => Some st
  | Some votes_for_block =>
      let pruned := if need_head_work then Z.max (last_pruned_block st) pending_block_number
                    else last_pruned_block st in
      let st := with_pool p pruned st in
      Some (if 0 <? votes_for_block
            then maybe_notify_finality env (target_hash (data vote)) votes_for_block st else st)
  end.

Definition put_vote_inner env vote (vote_hash : Z) st : option PoolState :=
  let pending_block_number := default 0 (get_best_canonical_block_number env) in
  let is_future :=
    negb (has_header_by_hash_provider env)
    || match get_canonical_header_by_hash_from_provider env (target_hash (data vote)) with
       | None => true | Some _ => false end in
  if is_future
  then match future_vote_sender_is_validator env vote with
       | Some false => Some st
       | Some true => finish_put env vote pending_block_number true true st
       | None => finish_put env vote pending_block_number true false st
       end
  else match verify_vote_origin env vote with
       | OriginOk => finish_put env vote pending_block_number false false st
       | OriginRejected => Some (remember_rejected vote_hash st)
       | OriginUnverifiable => Some st
       end.

Definition put_vote env vote st : option PoolState :=
  if negb (is_within_admission_window (target_number (data vote)) (get_best_canonical_block_number env))
  then Some st
  else
    let vote_hash := envelope_hash vote in
    if contains (pool st) vote_hash then Some st
    else match lru_peek (rejected_votes st) vote_hash with
         | Some _ => Some st
         | None =>
             if verify_vote_envelope vote then put_vote_inner env vote vote_hash st
             else Some (remember_rejected vote_hash st)
         end.

Definition drain_pool st : list VoteEnvelope * PoolState :=
  let '(votes, p) := drain (pool st) in (votes, with_pool p (last_pruned_block st) st).
End Pool.
