(* ===== verification/VotePoolProps.v ===== *)
(** * VotePoolProps: the invariant of the vote pool

    Every bucket is non-empty and holds votes for its own target; the queue of
    each side has exactly one entry per bucket; the counters and the set of
    received hashes agree with the entries; no vote is pooled twice.  Each
    section of code that runs under the pool's lock preserves this, so it
    holds however the threads interleave. *)

From stdpp Require Import base tactics numbers option list sorting gmap.
From Stdlib Require Import ZArith Lia Bool.
From S2P Require Import Prelude.
From S2P Require Import Header.
From S2P Require Import Snapshot.
From S2P Require Import Attestation.
From S2P Require Import Collections.
From S2P Require Import VoteMonitor.
From S2P Require Import VotePool.

(** ** Buckets and their entries *)

Definition entries (m : gmap Z VoteMessages) : list VoteEntry :=
  mjoin ((λ p, vote_messages p.2) <$> map_to_list m).

Definition keys (m : gmap Z VoteMessages) : list Z := (map_to_list m).*1.

Lemma entries_empty : entries ∅ = [].
Proof. unfold entries. by rewrite map_to_list_empty. Qed.

Lemma keys_empty : keys ∅ = [].
Proof. unfold keys. by rewrite map_to_list_empty. Qed.

Lemma entries_insert_new m k vm :
  m !! k = None → entries (<[k := vm]> m) ≡ₚ vote_messages vm ++ entries m.
Proof. intros Hk. unfold entries. by rewrite (map_to_list_insert m k vm Hk). Qed.

Lemma entries_delete m k vm :
  m !! k = Some vm → entries m ≡ₚ vote_messages vm ++ entries (delete k m).
Proof.
  intros Hk. rewrite <- (entries_insert_new (delete k m) k vm) by apply lookup_delete_eq.
  by rewrite insert_delete_id.
Qed.

Lemma keys_insert_new m k vm : m !! k = None → keys (<[k := vm]> m) ≡ₚ k :: keys m.
Proof. intros Hk. unfold keys. by rewrite (map_to_list_insert m k vm Hk). Qed.

Lemma keys_insert_old m k vm vm' : m !! k = Some vm' → keys (<[k := vm]> m) ≡ₚ keys m.
Proof.
  intros Hk. rewrite <- (insert_delete_id m k vm') at 2 by done.
  rewrite <- (insert_delete_eq m k vm).
  by rewrite !keys_insert_new by apply lookup_delete_eq.
Qed.

Lemma keys_delete m k vm : m !! k = Some vm → keys m ≡ₚ k :: keys (delete k m).
Proof.
  intros Hk. rewrite <- (keys_insert_new (delete k m) k vm) by apply lookup_delete_eq.
  by rewrite insert_delete_id.
Qed.

Lemma elem_of_keys m k : k ∈ keys m ↔ is_Some (m !! k).
Proof.
  unfold keys. rewrite list_elem_of_fmap. split.
  - intros ([k' vm] & -> & Hin%elem_of_map_to_list). by exists vm.
  - intros [vm Hin%elem_of_map_to_list]. by exists (k, vm).
Qed.

Lemma keys_NoDup m : NoDup (keys m).
Proof. apply NoDup_fst_map_to_list. Qed.

Lemma elem_of_entries m e : e ∈ entries m ↔ ∃ k vm, m !! k = Some vm ∧ e ∈ vote_messages vm.
Proof.
  unfold entries. rewrite list_elem_of_join. split.
  - intros (l & He & ([k vm] & -> & Hin%elem_of_map_to_list)%list_elem_of_fmap). by exists k, vm.
  - intros (k & vm & Hin & He). exists (vote_messages vm). split; [done|].
    apply list_elem_of_fmap. exists (k, vm). split; [done|]. by apply elem_of_map_to_list.
Qed.

Lemma remove_hashes_eq l s : remove_hashes l s = s ∖ list_to_set (ve_hash <$> l).
Proof.
  unfold remove_hashes. revert s. induction l as [|e l IH]; intros s; cbn [fold_left]; [set_solver|].
  rewrite IH. cbn. set_solver.
Qed.

Lemma count_authenticated_app l k : count_authenticated (l ++ k) = count_authenticated l + count_authenticated k.
Proof. unfold count_authenticated. by rewrite filter_app, zlen_app. Qed.

Lemma count_authenticated_filter (P : VoteEntry → Prop) `{∀ e, Decision (P e)} l :
  count_authenticated (filter P l) <= count_authenticated l.
Proof.
  unfold count_authenticated. induction l as [|e l IH]; [done|].
  rewrite !(filter_cons _ e). repeat case_decide; rewrite ?filter_cons; repeat case_decide;
    rewrite ?zlen_cons; try done; lia.
Qed.

Lemma sat_sub_fold {A} (l : list A) t :
  zlen l <= t → fold_left (λ t _, sat_sub64 t 1) l t = t - zlen l.
Proof.
  revert t. induction l as [|a l IH]; intros t Ht; cbn [fold_left]; rewrite ?zlen_nil, ?zlen_cons in *; [lia|].
  pose proof (zlen_nonneg l). assert (sat_sub64 t 1 = t - 1) as -> by (unfold sat_sub64; lia). rewrite IH; lia.
Qed.

(** Splitting a bucket by its verdicts. *)
Lemma judged_split verdicts l :
  l ≡ₚ judged verdicts (Some true) l ++ judged verdicts (Some false) l ++ judged verdicts None l.
Proof.
  unfold judged. induction l as [|e l IH]; [done|]. rewrite !filter_cons.
  destruct (verdicts !! ve_hash e) as [[]|]; repeat case_decide; try done; cbn.
  - by rewrite IH at 1.
  - rewrite <- Permutation_middle. by rewrite IH at 1.
  - rewrite app_assoc, <- Permutation_middle, <- app_assoc. by rewrite IH at 1.
Qed.

(** ** The counters *)

(** The received hashes and the total describe a list without repetitions. *)
Record counts_ok (r : gset Z) (t : Z) (hs : list Z) : Prop := {
  co_nodup : NoDup hs;
  co_received : r = list_to_set hs;
  co_total : t = zlen hs;
}.

Lemma counts_perm r t hs hs' : hs ≡ₚ hs' → counts_ok r t hs → counts_ok r t hs'.
Proof.
  intros Hp [Hn -> ->]. split; [by rewrite <- Hp|by apply list_to_set_perm_L|unfold zlen; by rewrite Hp].
Qed.

Lemma counts_add r t h hs : h ∉ r → counts_ok r t hs → counts_ok ({[h]} ∪ r) (t + 1) (h :: hs).
Proof.
  intros Hh [Hn -> ->]. split; [|done|rewrite zlen_cons; lia].
  constructor; [|done]. by rewrite elem_of_list_to_set in Hh.
Qed.

Lemma counts_remove r t l hs :
  counts_ok r t (l ++ hs) → counts_ok (r ∖ list_to_set l) (t - zlen l) hs.
Proof.
  intros [Hn -> ->]. apply NoDup_app in Hn as (_ & Hd & Hn). split; [done| |rewrite zlen_app; lia].
  rewrite list_to_set_app_L. apply set_eq. intros x. specialize (Hd x). set_solver.
Qed.

Lemma counts_remove_bound r t l hs : counts_ok r t (l ++ hs) → zlen l <= t.
Proof. intros [_ _ ->]. rewrite zlen_app. pose proof (zlen_nonneg hs). lia. Qed.

Ltac pool_simpl :=
  cbn [received_votes cur_votes cur_votes_pq future_votes future_votes_pq total_votes
       malicious_vote_monitor with_cur with_future with_counts with_monitor forget] in *.

Section Invariant.
Context `{L : LruApi, HashApi, B : BlsApi}.
Context {HP : HeapApi VoteData by_target} {HK : HeapApi (Z * Z) key_leb}.
Context {LL : LruLaws L} {HPL : HeapLaws HP} {HKL : HeapLaws HK}.
Implicit Types (p : VotePool) (m : gmap Z VoteMessages) (v : VoteEnvelope).

Record bucket_ok (k : Z) (vm : VoteMessages) : Prop := {
  bk_nonempty : vote_messages vm ≠ [];
  bk_entries e : e ∈ vote_messages vm →
    target_hash (data (envelope e)) = k ∧ ve_hash e = envelope_hash (envelope e);
  bk_count : authenticated_count vm = count_authenticated (vote_messages vm);
}.

Definition buckets_ok m : Prop := map_Forall bucket_ok m.

Definition hashes p : list Z := ve_hash <$> (entries (cur_votes p) ++ entries (future_votes p)).

Record core_wf p : Prop := {
  cw_cur : buckets_ok (cur_votes p);
  cw_future : buckets_ok (future_votes p);
  cw_auth k vm : future_votes p !! k = Some vm → authenticated_count vm <= MAX_FUTURE_VOTE_AMOUNT_PER_BLOCK;
  cw_counts : counts_ok (received_votes p) (total_votes p) (hashes p);
  cw_monitor : monitor_wf (malicious_vote_monitor p);
}.

(** The queue has one entry per bucket. *)
Definition queued m (queue : list VoteData) : Prop := target_hash <$> queue ≡ₚ keys m.

Record pool_wf p : Prop := {
  pw_core : core_wf p;
  pw_cur : queued (cur_votes p) (heap_iter (cur_votes_pq p));
  pw_future : queued (future_votes p) (heap_iter (future_votes_pq p));
}.

Lemma pool_wf_new : pool_wf pool_new.
Proof.
  split; [split|..]; cbn; try done; unfold hashes, queued; cbn; rewrite ?entries_empty, ?keys_empty, ?heap_iter_new; try done.
  split; [constructor|done|done].
Qed.

(** ** Inserting *)

Lemma bucket_ok_default m k :
  buckets_ok m → (∀ e, e ∈ vote_messages (default no_messages (m !! k)) →
                   target_hash (data (envelope e)) = k ∧ ve_hash e = envelope_hash (envelope e)) ∧
                 authenticated_count (default no_messages (m !! k)) = count_authenticated (vote_messages (default no_messages (m !! k))).
Proof.
  intros Hm. destruct (m !! k) as [vm|] eqn:E; cbn; [|split; [by intros e ?%elem_of_nil|done]].
  destruct (Hm k vm E). done.
Qed.

(** Adding entries to a bucket, whether it exists or not. *)
Lemma extend_ok m k l n :
  buckets_ok m → l ≠ [] → n = count_authenticated l →
  (∀ e, e ∈ l → target_hash (data (envelope e)) = k ∧ ve_hash e = envelope_hash (envelope e)) →
  let bucket := default no_messages (m !! k) in
  let m' := <[k := {| vote_messages := vote_messages bucket ++ l;
                      authenticated_count := authenticated_count bucket + n |}]> m in
  buckets_ok m' ∧ entries m' ≡ₚ l ++ entries m.
Proof.
  intros Hm Hl -> Hel. cbv zeta. destruct (bucket_ok_default m k Hm) as [He Hc]. split.
  - apply map_Forall_insert_2; [|done]. split; cbn.
    + by destruct (vote_messages _), l.
    + intros e [?|?]%elem_of_app; auto.
    + by rewrite count_authenticated_app, Hc.
  - destruct (m !! k) as [vm|] eqn:E; cbn.
    + rewrite <- insert_delete_eq, entries_insert_new by apply lookup_delete_eq. cbn.
      rewrite (entries_delete m k vm E). by rewrite (Permutation_app_comm (vote_messages vm)), app_assoc.
    + by rewrite entries_insert_new.
Qed.

Lemma queued_insert m k vm queue queue' vd :
  queued m queue → target_hash vd = k →
  queue' ≡ₚ (match m !! k with Some _ => queue | None => vd :: queue end) →
  queued (<[k := vm]> m) queue'.
Proof.
  unfold queued. intros Hq <- Hq'. rewrite Hq'. destruct (m !! target_hash vd) as [vm'|] eqn:E.
  - by rewrite (keys_insert_old _ _ _ _ E).
  - cbn. by rewrite keys_insert_new, Hq.
Qed.

Lemma hashes_perm p p' :
  entries (cur_votes p') ++ entries (future_votes p') ≡ₚ entries (cur_votes p) ++ entries (future_votes p) →
  hashes p' ≡ₚ hashes p.
Proof. intros Hp. unfold hashes. by rewrite Hp. Qed.

Lemma insert_vote_wf p v pending fut auth p' n :
  pool_wf p →
  (fut = true → is_at_capacity p (target_hash (data v)) true auth = false) →
  insert_vote p v pending fut auth = Some (p', n) → pool_wf p'.
Proof.
  intros [[Hcur Hfut Hauth Hcounts Hmon] Hqc Hqf] Hcap Hins.
  unfold insert_vote in Hins. cbv zeta in Hins. case_bool_decide as Hdup; [by injection Hins as <- _|].
  destruct (conflict_detect _ _ _ _) as [[b mon]|] eqn:Hm; [|done]. cbn in Hins.
  apply conflict_detect_wf in Hm; [|done].
  set (e := {| ve_hash := envelope_hash v; envelope := v; authenticated := auth |}).
  assert (Hne : [e] ≠ []) by done.
  assert (Hc1 : (if auth then 1 else 0) = count_authenticated [e]) by (by destruct auth).
  assert (Hel : ∀ x, x ∈ [e] → target_hash (data (envelope x)) = target_hash (data v) ∧
                     ve_hash x = envelope_hash (envelope x)) by (by intros x ->%list_elem_of_singleton).
  assert (Hadd : ∀ c : Z, (if auth then c + 1 else c) = c + (if auth then 1 else 0)) by (intros c; destruct auth; lia).
  pose proof (counts_add _ _ _ _ Hdup Hcounts) as Hcounts'.
  destruct fut; cbn [push_vote] in Hins; pool_simpl; injection Hins as <- _.
  - destruct (extend_ok (future_votes p) _ [e] _ Hfut Hne Hc1 Hel) as [Hok Hent]. rewrite <- Hadd in Hok, Hent. subst e.
    split; [split|..]; pool_simpl; try done.
    + intros k vm. rewrite lookup_insert_Some. intros [[<- <-]|[_ Hk]]; [|by apply (Hauth k)].
      cbn. specialize (Hcap eq_refl). cbn in Hcap.
      destruct (future_votes p !! target_hash (data v)) as [vm|] eqn:Ek; cbn.
      * specialize (Hauth _ _ Ek). destruct auth; cbn in Hcap; [|done].
        unfold MAX_FUTURE_VOTE_AMOUNT_PER_BLOCK in *. split_tests. lia.
      * unfold MAX_FUTURE_VOTE_AMOUNT_PER_BLOCK. destruct auth; lia.
    + revert Hcounts'. apply counts_perm. unfold hashes. pool_simpl. rewrite Hent.
      cbn. by rewrite !fmap_app, Permutation_middle.
    + apply (queued_insert _ _ _ (heap_iter (future_votes_pq p)) _ (data v)); [done|done|].
      by destruct (future_votes p !! _); rewrite ?heap_iter_push.
  - destruct (extend_ok (cur_votes p) _ [e] _ Hcur Hne Hc1 Hel) as [Hok Hent]. rewrite <- Hadd in Hok, Hent. subst e.
    split; [split|..]; pool_simpl; try done.
    + revert Hcounts'. apply counts_perm. unfold hashes. pool_simpl. by rewrite Hent.
    + apply (queued_insert _ _ _ (heap_iter (cur_votes_pq p)) _ (data v)); [done|done|].
      by destruct (cur_votes p !! _); rewrite ?heap_iter_push.
Qed.

(** ** Removing a bucket *)

Lemma buckets_delete m k : buckets_ok m → buckets_ok (delete k m).
Proof. apply map_Forall_delete. Qed.

Lemma drop_cur_core p k box pq :
  core_wf p → cur_votes p !! k = Some box →
  core_wf (forget box (with_cur (delete k (cur_votes p)) pq p)).
Proof.
  intros [Hcur Hfut Hauth Hcounts Hmon] Hk. split; pool_simpl; try done; [by apply buckets_delete|].
  assert (Hp : hashes p ≡ₚ (ve_hash <$> vote_messages box) ++
            hashes (with_cur (delete k (cur_votes p)) pq p)).
  { unfold hashes. pool_simpl. rewrite (entries_delete _ _ _ Hk). by rewrite <- app_assoc, fmap_app. }
  pose proof (counts_perm _ _ _ _ Hp Hcounts) as Hc. rewrite remove_hashes_eq.
  pose proof (counts_remove_bound _ _ _ _ Hc) as Hb. apply counts_remove in Hc.
  unfold zlen in Hb, Hc. rewrite length_fmap in Hb, Hc. 
  replace (sat_sub64 (total_votes p) (zlen (vote_messages box))) with (total_votes p - Z.of_nat (length (vote_messages box)))
    by (unfold sat_sub64, zlen; lia). done.
Qed.

Lemma drop_future_core p k box pq :
  core_wf p → future_votes p !! k = Some box →
  core_wf (forget box (with_future (delete k (future_votes p)) pq p)).
Proof.
  intros [Hcur Hfut Hauth Hcounts Hmon] Hk. split; pool_simpl; try done.
  { by apply buckets_delete. }
  { intros k' vm [_ ?]%lookup_delete_Some. by apply (Hauth k'). }
  assert (Hp : hashes p ≡ₚ (ve_hash <$> vote_messages box) ++
            hashes (with_future (delete k (future_votes p)) pq p)).
  { unfold hashes. pool_simpl. rewrite (entries_delete _ _ _ Hk).
    by rewrite Permutation_app_swap_app, fmap_app. }
  pose proof (counts_perm _ _ _ _ Hp Hcounts) as Hc. rewrite remove_hashes_eq.
  pose proof (counts_remove_bound _ _ _ _ Hc) as Hb. apply counts_remove in Hc.
  unfold zlen in Hb, Hc. rewrite length_fmap in Hb, Hc.
  replace (sat_sub64 (total_votes p) (zlen (vote_messages box))) with (total_votes p - Z.of_nat (length (vote_messages box)))
    by (unfold sat_sub64, zlen; lia). done.
Qed.

(** The queue entry on top names a bucket; without it the rest is still queued. *)
Lemma queued_pop m queue vd rest :
  queued m queue → queue ≡ₚ vd :: rest →
  ∃ box, m !! target_hash vd = Some box ∧ queued (delete (target_hash vd) m) rest ∧
         target_hash vd ∉ target_hash <$> rest.
Proof.
  unfold queued. intros Hq Hr. rewrite Hr in Hq. cbn in Hq.
  assert (Hin : target_hash vd ∈ keys m) by (rewrite <- Hq; by left).
  apply elem_of_keys in Hin as [box Hbox]. exists box. split; [done|].
  pose proof (keys_NoDup m) as Hnd. rewrite <- Hq in Hnd. apply NoDup_cons in Hnd as [Hni _]. split; [|done].
  rewrite (keys_delete _ _ _ Hbox) in Hq. by apply Permutation_cons_inv in Hq.
Qed.

(** ** Pruning *)

Definition too_old (latest : Z) (vd : VoteData) : bool :=
  sat_add64 (target_number vd) LOWER_LIMIT_OF_VOTE_BLOCK_NUMBER <=? latest.

Lemma too_old_mono latest a b : by_target a b = true → too_old latest b = false → too_old latest a = false.
Proof.
  unfold by_target, too_old, sat_add64, LOWER_LIMIT_OF_VOTE_BLOCK_NUMBER. intros Hab Hb. split_tests.
  apply Z.leb_gt. lia.
Qed.

(** What pruning leaves of one side. *)
Definition pruned (latest : Z) m m' (queue queue' : list VoteData) : Prop :=
  queue' ≡ₚ filter (λ vd, too_old latest vd = false) queue ∧
  (∀ vd, vd ∈ queue → m' !! target_hash vd = if too_old latest vd then None else m !! target_hash vd) ∧
  (∀ k, m !! k = None → m' !! k = None).

Lemma pruned_none latest m queue :
  (∀ vd, vd ∈ queue → too_old latest vd = false) → pruned latest m m queue queue.
Proof.
  intros Hall. split; [by rewrite filter_all|]. split; [|done]. intros vd Hin. by rewrite Hall.
Qed.

Lemma pruned_step latest m m' vd queue rest queue' :
  queue ≡ₚ vd :: rest → too_old latest vd = true → target_hash vd ∉ target_hash <$> rest →
  pruned latest (delete (target_hash vd) m) m' rest queue' → pruned latest m m' queue queue'.
Proof.
  intros Hq Hold Hni (Hqueue & Hm & Hnone). split; [|split].
  - by rewrite Hqueue, Hq, filter_cons_False by congruence.
  - intros x Hx. rewrite Hq in Hx. apply elem_of_cons in Hx as [->|Hx].
    + rewrite Hold. apply Hnone, lookup_delete_eq.
    + rewrite (Hm x Hx). case_match; [done|]. apply lookup_delete_ne. intros Heq. apply Hni. rewrite Heq.
      by apply list_elem_of_fmap_2.
  - intros k Hk. apply Hnone. by apply lookup_delete_None; right.
Qed.

Lemma prune_cur_spec fuel latest p :
  pool_wf p → (length (heap_iter (cur_votes_pq p)) <= fuel)%nat →
  let p' := prune_cur fuel latest p in
  pool_wf p' ∧ pruned latest (cur_votes p) (cur_votes p') (heap_iter (cur_votes_pq p)) (heap_iter (cur_votes_pq p')) ∧
  future_votes p' = future_votes p ∧ future_votes_pq p' = future_votes_pq p.
Proof.
  cbv zeta. revert p. induction fuel as [|fuel IH]; intros p Hwf Hlen; cbn [prune_cur].
  { split_and!; try done. apply pruned_none. destruct (heap_iter (cur_votes_pq p)); cbn in Hlen; [set_solver|lia]. }
  destruct (heap_pop (cur_votes_pq p)) as [[vd pq]|] eqn:Hpop.
  - destruct (heap_pop_Some _ _ _ Hpop) as [Hq Htop]. pose proof (heap_pop_shrinks _ _ _ Hpop) as Hshrink.
    change (sat_add64 _ _ <=? latest) with (too_old latest vd). destruct (too_old latest vd) eqn:Hold.
    + destruct (queued_pop _ _ _ _ (pw_cur _ Hwf) Hq) as (box & Hbox & Hq' & Hni). rewrite Hbox.
      set (p1 := forget box (with_cur (delete (target_hash vd) (cur_votes p)) pq p)).
      assert (Hwf1 : pool_wf p1).
      { split; [by apply drop_cur_core; [apply Hwf|]|done|apply Hwf]. }
      destruct (IH p1 Hwf1) as (Hwf' & Hpr & Hf & Hfq); [subst p1; pool_simpl; lia|].
      split_and!; try done. by apply (pruned_step _ _ _ vd _ (heap_iter pq)).
    + split_and!; try done. apply pruned_none. intros x Hx. apply (too_old_mono _ x vd); [by apply Htop|done].
  - apply heap_pop_None in Hpop. split_and!; try done. apply pruned_none. rewrite Hpop. set_solver.
Qed.

Lemma prune_future_spec fuel latest p :
  pool_wf p → (length (heap_iter (future_votes_pq p)) <= fuel)%nat →
  let p' := prune_future fuel latest p in
  pool_wf p' ∧
  pruned latest (future_votes p) (future_votes p') (heap_iter (future_votes_pq p)) (heap_iter (future_votes_pq p')) ∧
  cur_votes p' = cur_votes p ∧ cur_votes_pq p' = cur_votes_pq p.
Proof.
  cbv zeta. revert p. induction fuel as [|fuel IH]; intros p Hwf Hlen; cbn [prune_future].
  { split_and!; try done. apply pruned_none. destruct (heap_iter (future_votes_pq p)); cbn in Hlen; [set_solver|lia]. }
  destruct (heap_pop (future_votes_pq p)) as [[vd pq]|] eqn:Hpop.
  - destruct (heap_pop_Some _ _ _ Hpop) as [Hq Htop]. pose proof (heap_pop_shrinks _ _ _ Hpop) as Hshrink.
    rewrite Z.ltb_antisym. change (sat_add64 _ _ <=? latest) with (too_old latest vd).
    destruct (too_old latest vd) eqn:Hold; cbn [negb].
    + destruct (queued_pop _ _ _ _ (pw_future _ Hwf) Hq) as (box & Hbox & Hq' & Hni). rewrite Hbox.
      set (p1 := forget box (with_future (delete (target_hash vd) (future_votes p)) pq p)).
      assert (Hwf1 : pool_wf p1).
      { split; [by apply drop_future_core; [apply Hwf|]|apply Hwf|done]. }
      destruct (IH p1 Hwf1) as (Hwf' & Hpr & Hf & Hfq); [subst p1; pool_simpl; lia|].
      split_and!; try done. by apply (pruned_step _ _ _ vd _ (heap_iter pq)).
    + split_and!; try done. apply pruned_none. intros x Hx. apply (too_old_mono _ x vd); [by apply Htop|done].
  - apply heap_pop_None in Hpop. split_and!; try done. apply pruned_none. rewrite Hpop. set_solver.
Qed.

Lemma prune_result latest p :
  pool_wf p →
  let p' := prune p latest in
  pool_wf p' ∧ pruned latest (cur_votes p) (cur_votes p') (heap_iter (cur_votes_pq p)) (heap_iter (cur_votes_pq p')) ∧
  pruned latest (future_votes p) (future_votes p') (heap_iter (future_votes_pq p)) (heap_iter (future_votes_pq p')).
Proof.
  intros Hwf. cbv zeta. unfold prune.
  destruct (prune_cur_spec (length (heap_iter (cur_votes_pq p))) latest p Hwf) as (Hwf1 & Hc & Hf & Hfq); [done|].
  set (p1 := prune_cur _ latest p) in *.
  destruct (prune_future_spec (length (heap_iter (future_votes_pq p1))) latest p1 Hwf1) as (Hwf2 & Hf2 & Hc2 & Hcq2); [done|].
  set (p2 := prune_future _ latest p1) in *. rewrite Hc2, Hcq2. rewrite Hf, Hfq in Hf2. done.
Qed.

(** ** Promotion *)

Lemma judged_elem verdicts o l e : e ∈ judged verdicts o l ↔ verdicts !! ve_hash e = o ∧ e ∈ l.
Proof. unfold judged. by rewrite list_elem_of_filter. Qed.

(** The bucket left behind by [promote_judged]. *)
Definition unjudged_bucket (unjudged : list VoteEntry) : VoteMessages :=
  {| vote_messages := unjudged; authenticated_count := count_authenticated unjudged |}.

(** What [promote_judged] does to a bucket: rejected votes disappear, valid ones
    become current, votes without a verdict stay. *)
Lemma promote_judged_eq p k verdicts box :
  future_votes p !! k = Some box →
  let valid := judged verdicts (Some true) (vote_messages box) in
  let rejected := judged verdicts (Some false) (vote_messages box) in
  let unjudged := judged verdicts None (vote_messages box) in
  promote_judged p k verdicts =
  (with_counts (remove_hashes rejected (received_votes p)) (fold_left (λ t _, sat_sub64 t 1) rejected (total_votes p))
     (with_cur (match valid with [] => cur_votes p | _ => extend_bucket (cur_votes p) k valid end)
               (match valid with
                | [] => cur_votes_pq p
                | first :: _ => match cur_votes p !! k with
                                | Some _ => cur_votes_pq p
                                | None => heap_push (data (envelope first)) (cur_votes_pq p) end
                end)
        (with_future (match unjudged with [] => delete k (future_votes p)
                      | _ => <[k := unjudged_bucket unjudged]> (delete k (future_votes p)) end)
           (future_votes_pq p) p)),
   negb (bool_decide (valid = [])), negb (bool_decide (unjudged = []))).
Proof.
  intros Hk. cbv zeta.
  assert (Hext : ∀ l, extend_bucket (delete k (future_votes p)) k l = <[k := unjudged_bucket l]> (delete k (future_votes p))).
  { intros l. unfold extend_bucket. by rewrite lookup_delete_eq. }
  unfold promote_judged. rewrite Hk. cbv zeta. pool_simpl. rewrite Hext.
  destruct (judged verdicts None _) as [|u us]; destruct (judged verdicts (Some true) _) as [|w ws]; reflexivity.
Qed.

Lemma promote_judged_core p k verdicts :
  core_wf p → queued (cur_votes p) (heap_iter (cur_votes_pq p)) →
  let p' := (promote_judged p k verdicts).1.1 in
  core_wf p' ∧ queued (cur_votes p') (heap_iter (cur_votes_pq p')).
Proof.
  intros [Hcur Hfut Hauth Hcounts Hmon] Hq. cbv zeta.
  destruct (future_votes p !! k) as [box|] eqn:Hk; [|unfold promote_judged; rewrite Hk; done].
  rewrite (promote_judged_eq _ _ _ _ Hk). cbn [fst].
  set (valid := judged verdicts (Some true) (vote_messages box)).
  set (rejected := judged verdicts (Some false) (vote_messages box)).
  set (unjudged := judged verdicts None (vote_messages box)).
  destruct (Hfut k box Hk) as [Hne Hent Hcount].
  assert (Hsplit : vote_messages box ≡ₚ rejected ++ valid ++ unjudged).
  { rewrite (judged_split verdicts (vote_messages box)) at 1. fold valid rejected unjudged.
    by rewrite Permutation_app_swap_app. }
  assert (Hsub : ∀ o e, e ∈ judged verdicts o (vote_messages box) →
            target_hash (data (envelope e)) = k ∧ ve_hash e = envelope_hash (envelope e)).
  { intros o e [_ He]%judged_elem. by apply Hent. }
  assert (Hrest : hashes p ≡ₚ (ve_hash <$> rejected) ++
            (ve_hash <$> ((valid ++ entries (cur_votes p)) ++ unjudged ++ entries (delete k (future_votes p))))).
  { unfold hashes. rewrite (entries_delete _ _ _ Hk), Hsplit, <- fmap_app. apply fmap_Permutation.
    rewrite <- !app_assoc. rewrite (Permutation_app_swap_app (entries (cur_votes p)) rejected).
    apply Permutation_app_head. by rewrite (Permutation_app_swap_app (entries (cur_votes p)) valid). }
  pose proof (counts_perm _ _ _ _ Hrest Hcounts) as Hc.
  pose proof (counts_remove_bound _ _ _ _ Hc) as Hb. apply counts_remove in Hc.
  assert (Hlen : zlen (ve_hash <$> rejected) = zlen rejected) by (unfold zlen; by rewrite length_fmap).
  rewrite Hlen in Hb, Hc.
  assert (Hcur' : buckets_ok (match valid with [] => cur_votes p | _ => extend_bucket (cur_votes p) k valid end) ∧
    entries (match valid with [] => cur_votes p | _ => extend_bucket (cur_votes p) k valid end)
      ≡ₚ valid ++ entries (cur_votes p)).
  { destruct valid as [|w ws] eqn:Ev; [done|]. apply extend_ok; [done..|]. rewrite <- Ev. apply (Hsub (Some true)). }
  assert (Hfut' : buckets_ok (match unjudged with [] => delete k (future_votes p)
      | _ => <[k := unjudged_bucket unjudged]> (delete k (future_votes p)) end) ∧
    entries (match unjudged with [] => delete k (future_votes p)
      | _ => <[k := unjudged_bucket unjudged]> (delete k (future_votes p)) end)
      ≡ₚ unjudged ++ entries (delete k (future_votes p))).
  { destruct unjudged as [|u us] eqn:Eu; [split; [by apply buckets_delete|done]|]. rewrite <- Eu. split.
    - apply map_Forall_insert_2; [|by apply buckets_delete]. split; cbn; [by rewrite Eu|apply (Hsub None)|done].
    - by rewrite entries_insert_new by apply lookup_delete_eq. }
  split.
  - split; pool_simpl; [apply Hcur'|apply Hfut'| | |done].
    + intros k' vm Hk'. destruct unjudged as [|u us] eqn:Eu.
      { apply lookup_delete_Some in Hk' as [_ Hk']. by apply (Hauth k'). }
      rewrite <- Eu in Hk'. apply lookup_insert_Some in Hk' as [[<- <-]|[_ [_ Hk']%lookup_delete_Some]]; [|by apply (Hauth k')].
      cbn. etrans; [|by apply (Hauth k box)]. rewrite Hcount. apply count_authenticated_filter.
    + rewrite remove_hashes_eq, sat_sub_fold by lia.
      revert Hc. apply counts_perm. unfold hashes. pool_simpl. by rewrite (proj2 Hcur'), (proj2 Hfut').
  - pool_simpl. destruct valid as [|w ws] eqn:Ev; [done|]. unfold extend_bucket.
    apply (queued_insert _ _ _ (heap_iter (cur_votes_pq p)) _ (data (envelope w))); [done| |].
    + apply (Hsub (Some true)). fold valid. rewrite Ev. by left.
    + by destruct (cur_votes p !! k); rewrite ?heap_iter_push.
Qed.

Lemma promote_judged_queue p k verdicts :
  future_votes_pq (promote_judged p k verdicts).1.1 = future_votes_pq p.
Proof.
  destruct (future_votes p !! k) as [box|] eqn:Hk.
  - by rewrite (promote_judged_eq _ _ _ _ Hk).
  - unfold promote_judged. by rewrite Hk.
Qed.

(** The future buckets after [promote_judged] are queued by the rest of the queue,
    and by the deferred entry if votes without a verdict remain. *)
Lemma promote_judged_future p vd verdicts rest :
  queued (future_votes p) (vd :: rest) →
  let '(p', _, requeue) := promote_judged p (target_hash vd) verdicts in
  queued (future_votes p') (if requeue then vd :: rest else rest).
Proof.
  intros Hq. destruct (queued_pop _ _ _ _ Hq (Permutation_refl _)) as (box & Hbox & Hq' & Hni).
  rewrite (promote_judged_eq _ _ _ _ Hbox). pool_simpl.
  destruct (judged verdicts None (vote_messages box)) as [|u us]; cbn [bool_decide negb]; [done|].
  apply (queued_insert _ _ _ rest _ vd); [done|done|]. by rewrite lookup_delete_eq.
Qed.

Lemma promotion_loop_wf budget p latest resolved promoted deferred p' promoted' deferred' :
  core_wf p → queued (cur_votes p) (heap_iter (cur_votes_pq p)) →
  queued (future_votes p) (heap_iter (future_votes_pq p) ++ deferred) →
  promotion_loop budget p latest resolved promoted deferred = (p', promoted', deferred') →
  core_wf p' ∧ queued (cur_votes p') (heap_iter (cur_votes_pq p')) ∧
  queued (future_votes p') (heap_iter (future_votes_pq p') ++ deferred').
Proof.
  revert p promoted deferred. induction budget as [|budget IH]; intros p promoted deferred Hcore Hc Hf Hl;
    cbn [promotion_loop] in Hl; [by injection Hl as <- _ <-|].
  destruct (heap_pop (future_votes_pq p)) as [[vd pq]|] eqn:Hpop; [|by injection Hl as <- _ <-].
  case_if; [by injection Hl as <- _ <-|].
  destruct (heap_pop_Some _ _ _ Hpop) as [Hq _].
  assert (Hf1 : queued (future_votes p) (vd :: heap_iter pq ++ deferred)).
  { unfold queued in *. by rewrite <- Hf, Hq. }
  set (p1 := with_future (future_votes p) pq p) in *.
  assert (Hcore1 : core_wf p1) by (by destruct Hcore).
  pool_simpl. destruct (resolved !! target_hash vd) as [verdicts|].
  - pose proof (promote_judged_core p1 (target_hash vd) verdicts Hcore1 Hc) as [Hcore2 Hc2].
    pose proof (promote_judged_queue p1 (target_hash vd) verdicts) as Hpq.
    pose proof (promote_judged_future p1 vd verdicts _ Hf1) as Hf2.
    destruct (promote_judged p1 (target_hash vd) verdicts) as [[p2 moved] requeue].
    cbn [fst] in *. apply (IH p2 _ _ Hcore2 Hc2) in Hl; [done|].
    rewrite Hpq. change (future_votes_pq p1) with pq. unfold queued in *. rewrite <- Hf2.
    destruct requeue; [|done]. apply fmap_Permutation. by rewrite app_assoc, Permutation_app_comm.
  - change (future_votes p1) with (future_votes p) in Hl.
    destruct (queued_pop _ _ _ _ Hf1 (Permutation_refl _)) as (box & Hbox & _ & _).
    rewrite Hbox in Hl. apply (IH p1 _ _ Hcore1 Hc) in Hl; [done|]. subst p1. pool_simpl.
    unfold queued in *. rewrite <- Hf1. apply fmap_Permutation. by rewrite app_assoc, Permutation_app_comm.
Qed.

Lemma heap_push_all l (pq : BinaryHeap HP) :
  heap_iter (fold_left (λ pq vd, heap_push vd pq) l pq) ≡ₚ heap_iter pq ++ l.
Proof.
  revert pq. induction l as [|vd l IH]; intros pq; cbn [fold_left]; [by rewrite app_nil_r|].
  rewrite IH, heap_iter_push. cbn. by rewrite Permutation_middle.
Qed.

Lemma apply_promotion_wf p latest resolved : pool_wf p → pool_wf (apply_promotion p latest resolved).1.
Proof.
  intros [Hcore Hc Hf]. unfold apply_promotion.
  destruct (promotion_loop _ _ _ _ _ _) as [[p' promoted] deferred] eqn:Hl.
  apply promotion_loop_wf in Hl as (Hcore' & Hc' & Hf'); [|done|done|by rewrite app_nil_r].
  cbn [fst]. split; pool_simpl; [by destruct Hcore'|done|]. unfold queued in *. by rewrite heap_push_all.
Qed.

(** ** Shedding *)

Lemma surviving_queued m : buckets_ok m → queued m (surviving m).
Proof.
  intros Hm. unfold queued, surviving, keys.
  assert (Hl : Forall (λ q : Z * VoteMessages, bucket_ok q.1 q.2) (map_to_list m)).
  { apply Forall_forall. intros [k vm] Hin%elem_of_map_to_list. by apply Hm. }
  induction Hl as [|[k vm] l [Hne Hent _] _ IH]; [done|]. cbn in *.
  destruct (vote_messages vm) as [|e es]; [done|]. cbn.
  destruct (Hent e) as [-> _]; [by left|]. by rewrite IH.
Qed.

Lemma shed_loop_spec order target shed p p' shed' :
  core_wf p → shed_loop order target shed p = (p', shed') →
  core_wf p' ∧ cur_votes p' = cur_votes p ∧ cur_votes_pq p' = cur_votes_pq p ∧
  total_votes p' + shed' = total_votes p + shed ∧
  (target <= shed' ∨ ∀ vd, vd ∈ order → future_votes p' !! target_hash vd = None) ∧
  future_votes p' ⊆ future_votes p.
Proof.
  revert p shed. induction order as [|vd order IH]; intros p shed Hcore Hs; cbn [shed_loop] in Hs.
  { injection Hs as <- <-. split_and!; try done. right. by intros vd ?%elem_of_nil. }
  destruct (Z.leb_spec target shed); [injection Hs as <- <-; split_and!; try done; by left|].
  destruct (future_votes p !! target_hash vd) as [box|] eqn:Hbox.
  - set (p1 := forget box (with_future (delete (target_hash vd) (future_votes p)) (future_votes_pq p) p)) in *.
    assert (Hcore1 : core_wf p1) by (by apply drop_future_core).
    assert (Ht : total_votes p1 = total_votes p - zlen (vote_messages box)).
    { assert (Hb : zlen (vote_messages box) <= total_votes p).
      { destruct (cw_counts _ Hcore) as [_ _ ->]. unfold hashes. rewrite (entries_delete _ _ _ Hbox).
        unfold zlen. rewrite length_fmap, !length_app. lia. }
      subst p1. pool_simpl. unfold sat_sub64. lia. }
    destruct (IH p1 _ Hcore1 Hs) as (Hc & Hcur & Hpq & Htot & Hgone & Hsub). split_and!; try done; [lia| |].
    + destruct Hgone as [?|Hgone]; [by left|right]. intros x [->|Hx]%elem_of_cons; [|by apply Hgone].
      apply (lookup_weaken_None _ (future_votes p1)); [|done]. subst p1. pool_simpl. apply lookup_delete_eq.
    + etrans; [exact Hsub|]. subst p1. pool_simpl. apply delete_subseteq.
  - destruct (IH p _ Hcore Hs) as (Hc & Hcur & Hpq & Htot & Hgone & Hsub). split_and!; try done.
    destruct Hgone as [?|Hgone]; [by left|right]. intros x [->|Hx]%elem_of_cons; [|by apply Hgone].
    by apply (lookup_weaken_None _ (future_votes p)).
Qed.

Lemma shed_future_votes_spec p target p' shed :
  pool_wf p → shed_future_votes p target = (p', shed) →
  pool_wf p' ∧ cur_votes p' = cur_votes p ∧ cur_votes_pq p' = cur_votes_pq p ∧
  total_votes p' + shed = total_votes p ∧
  (target <= shed ∨ future_votes p' = ∅) ∧ future_votes p' ⊆ future_votes p.
Proof.
  intros [Hcore Hc Hf] Hs. unfold shed_future_votes in Hs.
  destruct (shed_loop _ _ _ _) as [p1 shed1] eqn:Hl. injection Hs as <- <-.
  apply shed_loop_spec in Hl as (Hcore1 & Hcur1 & Hpq1 & Ht1 & Hgone & Hsub); [|done]. pool_simpl.
  split; [split; pool_simpl|split_and!; try done; [lia|]].
  - by destruct Hcore1.
  - by rewrite Hcur1, Hpq1.
  - pose proof (surviving_queued _ (cw_future _ Hcore1)) as Hq. unfold queued in *.
    by rewrite heap_push_all, heap_iter_new.
  - destruct Hgone as [?|Hgone]; [by left|right]. apply map_empty. intros k.
    destruct (future_votes p1 !! k) as [vm|] eqn:Hk; [|done].
    assert (Hin : k ∈ target_hash <$> heap_iter (future_votes_pq p)).
    { rewrite Hf. apply elem_of_keys. exists vm. by apply (lookup_weaken (future_votes p1)). }
    apply list_elem_of_fmap in Hin as (vd & -> & Hvd).
    rewrite Hgone in Hk; [done|]. by rewrite sort_by_perm.
Qed.

Lemma drain_wf p : core_wf p → pool_wf (drain p).2.
Proof.
  intros Hcore. split; [split|..]; cbn; try done; unfold hashes, queued; cbn;
    rewrite ?entries_empty, ?keys_empty, ?heap_iter_new; try done.
  - split; [constructor|done|done].
  - apply Hcore.
Qed.
End Invariant.
