(* ===== verification/VotePoolClaims.v ===== *)
(** * VotePoolClaims: what the vote pool guarantees

    Reachability of pool states is an inductive relation whose rules are the
    sections of code that run under the pool's lock, each with arguments that
    may have been computed earlier, from an older state and an older view of
    the chain: this covers every interleaving of [put_vote],
    [promote_future_votes] and [drain]. *)

From stdpp Require Import base tactics numbers option list sorting gmap.
From Stdlib Require Import ZArith Lia Bool.
From S2P Require Import Prelude.
From S2P Require Import Hardforks.
From S2P Require Import Header.
From S2P Require Import Snapshot.
From S2P Require Import Attestation.
From S2P Require Import AttestationProps.
From S2P Require Import Collections.
From S2P Require Import VoteMonitor.
From S2P Require Import VotePool.
From S2P Require Import VotePoolProps.

(** ** Reachable pools *)

Section Reachable.
Context `{L : LruApi, HashApi, B : BlsApi}.
Context {HP : HeapApi VoteData by_target} {HK : HeapApi (Z * Z) key_leb}.
Implicit Types (p : VotePool) (v : VoteEnvelope) (st : PoolState).

Inductive pool_reachable (Env : Shared → Prop) : VotePool → Prop :=
| reach_new : pool_reachable Env pool_new
| reach_admit v pending fut auth work p p' r :
    pool_reachable Env p →
    verify_vote_envelope v = true →
    (fut = false → ∃ env, Env env ∧ verify_vote_origin env v = OriginOk) →
    admit_vote v pending fut auth work p = Some (p', r) →
    pool_reachable Env p'
| reach_promote env latest p0 p :
    pool_reachable Env p0 → pool_reachable Env p → Env env →
    pool_reachable Env (apply_promotion p latest (resolve env (promotion_candidates p0 latest))).1
| reach_drain p :
    pool_reachable Env p → pool_reachable Env (drain p).2.
Context {LL : LruLaws L} {HPL : HeapLaws HP} {HKL : HeapLaws HK}.

Lemma prune_wf p latest : pool_wf p → pool_wf (prune p latest).
Proof. intros Hwf. by apply prune_result. Qed.

Lemma admit_vote_wf v pending fut auth work p p' r :
  pool_wf p → admit_vote v pending fut auth work p = Some (p', r) → pool_wf p'.
Proof.
  intros Hwf Ha. unfold admit_vote in Ha. case_if; [by injection Ha as <- _|].
  destruct (insert_vote p v pending fut auth) as [[p1 n]|] eqn:Hi; [|done]. cbn in Ha.
  apply insert_vote_wf in Hi; [|done|by intros ->].
  set (p2 := if work then prune p1 pending else p1) in *.
  assert (Hwf2 : pool_wf p2) by (destruct work; [by apply prune_wf|done]).
  injection Ha as <- _. case_if; [|done]. pose proof (prune_wf p2 pending Hwf2) as Hwf3.
  destruct (overflow_shed_target _) as [n'|]; [|done].
  destruct (shed_future_votes _ n') as [p4 shed] eqn:Hs. by apply shed_future_votes_spec in Hs as [? _].
Qed.

Lemma pool_reachable_wf Env p : pool_reachable Env p → pool_wf p.
Proof.
  induction 1 as [|v pending fut auth work p p' r _ IH _ _ Ha|env latest p0 p _ _ _ IH _|p _ IH].
  - apply pool_wf_new.
  - by apply (admit_vote_wf _ _ _ _ _ _ _ _ IH Ha).
  - by apply apply_promotion_wf.
  - apply drain_wf, IH.
Qed.

(** ** Where the votes come from *)

Definition cur_votes_from (G : VoteEnvelope → Prop) p : Prop :=
  ∀ e, e ∈ entries (cur_votes p) → G (envelope e).
Definition future_votes_from (G : VoteEnvelope → Prop) p : Prop :=
  ∀ e, e ∈ entries (future_votes p) → G (envelope e).

Lemma entries_mono m m' e : m ⊆ m' → e ∈ entries m → e ∈ entries m'.
Proof.
  intros Hm (k & vm & Hk & He)%elem_of_entries. apply elem_of_entries. exists k, vm.
  split; [by apply (lookup_weaken m)|done].
Qed.

Lemma pruned_subseteq latest m m' queue queue' :
  queued m queue → pruned latest m m' queue queue' → m' ⊆ m.
Proof.
  intros Hq (_ & Hm & Hnone). apply map_subseteq_spec. intros k vm Hk.
  destruct (m !! k) as [vm'|] eqn:Em; [|by rewrite Hnone in Hk].
  assert (Hin : k ∈ target_hash <$> queue) by (rewrite Hq; by apply elem_of_keys).
  apply list_elem_of_fmap in Hin as (vd & -> & Hvd). rewrite Hm in Hk by done. case_match; congruence.
Qed.

Lemma prune_subseteq p latest :
  pool_wf p → cur_votes (prune p latest) ⊆ cur_votes p ∧ future_votes (prune p latest) ⊆ future_votes p.
Proof.
  intros Hwf. destruct (prune_result latest p Hwf) as (_ & Hc & Hf).
  split; [apply (pruned_subseteq _ _ _ _ _ (pw_cur _ Hwf) Hc)|apply (pruned_subseteq _ _ _ _ _ (pw_future _ Hwf) Hf)].
Qed.

Lemma insert_vote_entries p v pending fut auth p' n :
  pool_wf p → insert_vote p v pending fut auth = Some (p', n) →
  (∀ e, e ∈ entries (cur_votes p') → e ∈ entries (cur_votes p) ∨ (fut = false ∧ envelope e = v)) ∧
  (∀ e, e ∈ entries (future_votes p') → e ∈ entries (future_votes p) ∨ envelope e = v).
Proof.
  intros Hwf Hi. unfold insert_vote in Hi. cbv zeta in Hi.
  case_bool_decide; [injection Hi as <- _; naive_solver|].
  destruct (conflict_detect _ _ _ _) as [[b mon]|]; [|done]. cbn in Hi.
  assert (Hpush : ∀ m w e, e ∈ entries (<[target_hash (data v) := {|
      vote_messages := vote_messages (default no_messages (m !! target_hash (data v))) ++
                       [{| ve_hash := envelope_hash v; envelope := v; authenticated := auth |}];
      authenticated_count := w |}]> m) → e ∈ entries m ∨ envelope e = v).
  { intros m w e (k & vm & Hk & He)%elem_of_entries.
    apply lookup_insert_Some in Hk as [[<- <-]|[_ Hk]]; [|left; apply elem_of_entries; by exists k, vm].
    cbn in He. apply elem_of_app in He as [He| ->%list_elem_of_singleton]; [|by right]. left. apply elem_of_entries.
    destruct (m !! target_hash (data v)) as [vm|] eqn:Em; [by exists (target_hash (data v)), vm|].
    by apply elem_of_nil in He. }
  destruct fut; cbn [push_vote] in Hi; pool_simpl; injection Hi as <- _; pool_simpl; split; intros e He; eauto.
  apply Hpush in He as [?|?]; auto.
Qed.

Lemma admit_vote_entries v pending fut auth work p p' r :
  pool_wf p → admit_vote v pending fut auth work p = Some (p', r) →
  (∀ e, e ∈ entries (cur_votes p') → e ∈ entries (cur_votes p) ∨ (fut = false ∧ envelope e = v)) ∧
  (∀ e, e ∈ entries (future_votes p') → e ∈ entries (future_votes p) ∨ envelope e = v).
Proof.
  intros Hwf Ha. unfold admit_vote in Ha. case_if; [injection Ha as <- _; naive_solver|].
  destruct (insert_vote p v pending fut auth) as [[p1 n]|] eqn:Hi; [|done]. cbn in Ha.
  pose proof (insert_vote_entries _ _ _ _ _ _ _ Hwf Hi) as [Hc Hf].
  apply insert_vote_wf in Hi; [|done|by intros ->].
  set (p2 := if work then prune p1 pending else p1) in *.
  assert (Hwf2 : pool_wf p2) by (destruct work; [by apply prune_wf|done]).
  assert (Hsub2 : cur_votes p2 ⊆ cur_votes p1 ∧ future_votes p2 ⊆ future_votes p1).
  { destruct work; [by apply prune_subseteq|done]. }
  assert (Hsub : cur_votes p' ⊆ cur_votes p1 ∧ future_votes p' ⊆ future_votes p1).
  { injection Ha as <- _. case_if; [|done].
    destruct (prune_subseteq p2 pending Hwf2) as [Hc3 Hf3]. pose proof (prune_wf p2 pending Hwf2) as Hwf3.
    destruct (overflow_shed_target _) as [n'|].
    - destruct (shed_future_votes _ n') as [p4 shed] eqn:Hs.
      apply shed_future_votes_spec in Hs as (_ & Hc4 & _ & _ & _ & Hf4); [|done]. cbn [fst]. rewrite Hc4.
      split; [by etrans; [|apply Hsub2]|]. etrans; [exact Hf4|]. by etrans; [|apply Hsub2].
    - split; by etrans; [|apply Hsub2]. }
  split; intros e He; [apply Hc|apply Hf]; by apply (entries_mono _ _ _ (proj1 Hsub)) || apply (entries_mono _ _ _ (proj2 Hsub)).
Qed.

Lemma promote_judged_entries p k verdicts :
  let p' := (promote_judged p k verdicts).1.1 in
  (∀ e, e ∈ entries (cur_votes p') →
     e ∈ entries (cur_votes p) ∨ (e ∈ entries (future_votes p) ∧ verdicts !! ve_hash e = Some true)) ∧
  (∀ e, e ∈ entries (future_votes p') → e ∈ entries (future_votes p)).
Proof.
  cbv zeta. destruct (future_votes p !! k) as [box|] eqn:Hk; [|unfold promote_judged; rewrite Hk; naive_solver].
  rewrite (promote_judged_eq _ _ _ _ Hk). cbn [fst]. pool_simpl.
  assert (Hbox : ∀ o e, e ∈ judged verdicts o (vote_messages box) → e ∈ entries (future_votes p) ∧ verdicts !! ve_hash e = o).
  { intros o e [Ho He]%judged_elem. split; [|done]. apply elem_of_entries. by exists k, box. }
  split.
  - intros e He. destruct (judged verdicts (Some true) _) as [|w ws] eqn:Ev; [by left|]. rewrite <- Ev in He.
    apply elem_of_entries in He as (k' & vm & Hk' & He). unfold extend_bucket in Hk'.
    apply lookup_insert_Some in Hk' as [[<- <-]|[_ Hk']]; [|left; apply elem_of_entries; by exists k', vm].
    cbn in He. apply elem_of_app in He as [He|He]; [|right; by apply (Hbox (Some true))]. left.
    apply elem_of_entries. destruct (cur_votes p !! k) as [vm|] eqn:Em; [by exists k, vm|]. by apply elem_of_nil in He.
  - intros e He. destruct (judged verdicts None _) as [|u us] eqn:Eu.
    { revert He. apply entries_mono, delete_subseteq. }
    rewrite <- Eu in He. apply elem_of_entries in He as (k' & vm & Hk' & He).
    apply lookup_insert_Some in Hk' as [[<- <-]|[_ [_ Hk']%lookup_delete_Some]]; [by apply (Hbox None)|].
    apply elem_of_entries. by exists k', vm.
Qed.

(** A vote becomes current by a positive verdict. *)
Definition approved (resolved : gmap Z (gmap Z bool)) (h : Z) : Prop :=
  ∃ th verdicts, resolved !! th = Some verdicts ∧ verdicts !! h = Some true.

Lemma promotion_loop_entries budget p latest resolved promoted deferred p' promoted' deferred' :
  promotion_loop budget p latest resolved promoted deferred = (p', promoted', deferred') →
  (∀ e, e ∈ entries (cur_votes p') →
     e ∈ entries (cur_votes p) ∨ (e ∈ entries (future_votes p) ∧ approved resolved (ve_hash e))) ∧
  (∀ e, e ∈ entries (future_votes p') → e ∈ entries (future_votes p)).
Proof.
  revert p promoted deferred. induction budget as [|budget IH]; intros p promoted deferred Hl; cbn [promotion_loop] in Hl;
    [injection Hl as <- _ _; naive_solver|].
  destruct (heap_pop (future_votes_pq p)) as [[vd pq]|]; [|injection Hl as <- _ _; naive_solver].
  case_if; [injection Hl as <- _ _; naive_solver|].
  set (p1 := with_future (future_votes p) pq p) in *.
  destruct (resolved !! target_hash vd) as [verdicts|] eqn:Er.
  - pose proof (promote_judged_entries p1 (target_hash vd) verdicts) as [Hc Hf].
    destruct (promote_judged p1 (target_hash vd) verdicts) as [[p2 moved] requeue]. cbn [fst] in *.
    apply IH in Hl as [Hc' Hf']. change (cur_votes p1) with (cur_votes p) in *.
    change (future_votes p1) with (future_votes p) in *. split; [|naive_solver].
    intros e [He|[He Ha]]%Hc'; [|right; split; [by apply Hf|done]].
    apply Hc in He as [He|[He Hv]]; [by left|right]. split; [done|]. by exists (target_hash vd), verdicts.
  - destruct (future_votes p1 !! target_hash vd); by apply IH in Hl.
Qed.

Lemma apply_promotion_entries p latest resolved :
  let p' := (apply_promotion p latest resolved).1 in
  (∀ e, e ∈ entries (cur_votes p') →
     e ∈ entries (cur_votes p) ∨ (e ∈ entries (future_votes p) ∧ approved resolved (ve_hash e))) ∧
  (∀ e, e ∈ entries (future_votes p') → e ∈ entries (future_votes p)).
Proof.
  cbv zeta. unfold apply_promotion.
  destruct (promotion_loop _ _ _ _ _ _) as [[p1 promoted] deferred] eqn:Hl. by apply promotion_loop_entries in Hl.
Qed.

(** ** The verdicts of promotion *)

Lemma collect_candidates_votes p latest budget ks c e :
  c ∈ collect_candidates p latest budget ks → e ∈ pc_votes c → e ∈ entries (future_votes p).
Proof.
  revert budget. induction ks as [|[tn th] ks IH]; intros budget Hc He; cbn [collect_candidates] in Hc;
    [by apply elem_of_nil in Hc|]. destruct budget as [|budget]; [by apply elem_of_nil in Hc|].
  apply elem_of_cons in Hc as [->|Hc]; [|by apply (IH _ Hc)]. cbn in He. apply elem_of_entries.
  destruct (future_votes p !! th) as [vm|] eqn:Ev; [|by apply elem_of_nil in He]. exists th, vm. split; [done|].
  by apply elem_of_take in He as (i & Hi & _); apply list_elem_of_lookup_2 in Hi.
Qed.

(** A verdict is the verdict on a vote with that hash. *)
Definition verdict_of env (l : list VoteEntry) (h : Z) (b : bool) : Prop :=
  ∃ e, e ∈ l ∧ ve_hash e = h ∧ b = bool_decide (verify_vote_origin env (envelope e) = OriginOk).

Lemma fold_verdicts env l (m : gmap Z bool) h b :
  fold_left (λ m e, <[ve_hash e := bool_decide (verify_vote_origin env (envelope e) = OriginOk)]> m) l m !! h = Some b →
  verdict_of env l h b ∨ m !! h = Some b.
Proof.
  revert m. induction l as [|e l IH]; intros m Hh; cbn [fold_left] in Hh; [by right|].
  apply IH in Hh as [(e' & He' & Hrest)|Hh]; [left; exists e'; split; [by right|done]|].
  apply lookup_insert_Some in Hh as [[<- <-]|[_ Hh]]; [|by right]. left. exists e. split; [by left|done].
Qed.

Lemma resolve_verdicts env cands th verdicts h b :
  resolve env cands !! th = Some verdicts → verdicts !! h = Some b →
  ∃ c, c ∈ cands ∧ verdict_of env (pc_votes c) h b.
Proof.
  unfold resolve.
  assert (Hgen : ∀ l m, fold_left (resolve_candidate env) l m !! th = Some verdicts → verdicts !! h = Some b →
            (∃ c, c ∈ l ∧ verdict_of env (pc_votes c) h b) ∨ m !! th = Some verdicts).
  { induction l as [|c l IH]; intros m Hm Hh; cbn [fold_left] in Hm; [by right|].
    destruct (IH _ Hm Hh) as [(c' & Hc' & Hv)|Hm']; [left; exists c'; split; [by right|done]|].
    unfold resolve_candidate in Hm'. case_match; [by right|].
    apply lookup_insert_Some in Hm' as [[_ Hv]|[_ Hm']]; [|by right]. subst verdicts.
    apply fold_verdicts in Hh as [Hv|Hh]; [left; exists c; split; [by left|done]|by rewrite lookup_empty in Hh]. }
  intros Hr Hh. destruct (Hgen cands ∅ Hr Hh) as [?|Hm]; [done|]. by rewrite lookup_empty in Hm.
Qed.

Lemma resolve_approved env p latest h :
  pool_wf p → approved (resolve env (promotion_candidates p latest)) h →
  ∃ v, envelope_hash v = h ∧ verify_vote_origin env v = OriginOk.
Proof.
  intros Hwf (th & verdicts & Hr & Hh). destruct (resolve_verdicts _ _ _ _ _ _ Hr Hh) as (c & Hc & e & He & <- & Hok).
  symmetry in Hok. apply bool_decide_eq_true_1 in Hok. exists (envelope e). split; [|done].
  apply (collect_candidates_votes _ _ _ _ _ _ Hc) in He. apply elem_of_entries in He as (k & vm & Hk & He).
  by destruct (bk_entries _ _ (cw_future _ (pw_core _ Hwf) k vm Hk) e He) as [_ ->].
Qed.

(** The votes of a reachable pool, traced to the checks they passed. *)
Lemma pool_reachable_votes Env p :
  Inj (=) (=) envelope_hash → pool_reachable Env p →
  cur_votes_from (λ v, verify_vote_envelope v = true ∧ ∃ env, Env env ∧ verify_vote_origin env v = OriginOk) p ∧
  future_votes_from (λ v, verify_vote_envelope v = true) p.
Proof.
  intros Hinj Hr. unfold cur_votes_from, future_votes_from.
  induction Hr as [|v pending fut auth work p p' r Hr IH Hv Ho Ha|env latest p0 p Hr0 IH0 Hr IH He|p Hr IH].
  - cbn. rewrite entries_empty. split; by intros e ?%elem_of_nil.
  - destruct IH as [IHc IHf].
    destruct (admit_vote_entries _ _ _ _ _ _ _ _ (pool_reachable_wf _ _ Hr) Ha) as [Hc Hf]. split.
    + intros e [He|[Hfut ->]]%Hc; [by apply IHc|]. split; [done|by apply Ho].
    + intros e [He| ->]%Hf; [by apply IHf|done].
  - destruct IH as [IHc IHf].
    destruct (apply_promotion_entries p latest (resolve env (promotion_candidates p0 latest))) as [Hc Hf].
    split; [|intros e Hin%Hf; by apply IHf].
    intros e [Hin|[Hin Happ]]%Hc; [by apply IHc|]. split; [by apply IHf|]. exists env. split; [done|].
    apply (resolve_approved _ _ _ _ (pool_reachable_wf _ _ Hr0)) in Happ as (v & Hh & Hok).
    apply elem_of_entries in Hin as (k & vm & Hk & Hin).
    destruct (bk_entries _ _ (cw_future _ (pw_core _ (pool_reachable_wf _ _ Hr)) k vm Hk) e Hin) as [_ Heq].
    rewrite Heq in Hh. by apply Hinj in Hh as <-.
  - cbn. rewrite entries_empty. split; by intros e ?%elem_of_nil.
Qed.

(** C3: whatever the interleaving of its callers, the pool is consistent: buckets
    hold the votes for their target and nothing else, each side's queue has
    exactly one entry per bucket, no vote is held twice, the counter and the
    set of received hashes are exact, at most 50 authenticated future votes
    wait per target; every vote carries a valid BLS signature, and every vote
    served as current passed the origin check on some view of the chain. *)
Theorem pool_invariant Env p :
  Inj (=) (=) envelope_hash → pool_reachable Env p →
  pool_wf p ∧
  (∀ th v, v ∈ fetch_vote_by_block_hash p th →
     target_hash (data v) = th ∧ verify_vote_envelope v = true ∧
     ∃ env, Env env ∧ verify_vote_origin env v = OriginOk) ∧
  (∀ e, e ∈ entries (future_votes p) → verify_vote_envelope (envelope e) = true).
Proof.
  intros Hinj Hr. pose proof (pool_reachable_wf _ _ Hr) as Hwf.
  destruct (pool_reachable_votes _ _ Hinj Hr) as [Hc Hf]. split; [done|]. split; [|done].
  intros th v Hv. unfold fetch_vote_by_block_hash in Hv.
  destruct (cur_votes p !! th) as [vm|] eqn:Hk; [|by apply elem_of_nil in Hv].
  apply list_elem_of_fmap in Hv as (e & -> & He). split.
  - apply (bk_entries _ _ (cw_cur _ (pw_core _ Hwf) th vm Hk) e He).
  - apply Hc, elem_of_entries. by exists th, vm.
Qed.

(** ** The entry points *)

Lemma maybe_notify_pool env th n st : pool (maybe_notify_finality env th n st) = pool st.
Proof.
  unfold maybe_notify_finality. destruct (finality_head env st th) as [[hd snap]|]; [|done]. cbv zeta.
  by repeat case_if.
Qed.

Lemma notify_promoted_pool env counts st : pool (notify_promoted env st counts) = pool st.
Proof.
  unfold notify_promoted. revert st. induction counts as [|[h n] counts IH]; intros st; cbn; [done|].
  rewrite IH. case_if; [apply maybe_notify_pool|done].
Qed.

Lemma promote_future_votes_pool env latest st :
  let resolved := resolve env (promotion_candidates (pool st) latest) in
  pool (promote_future_votes env latest st) =
  if bool_decide (resolved = ∅) then pool st else (apply_promotion (pool st) latest resolved).1.
Proof.
  unfold promote_future_votes. destruct (promotion_candidates (pool st) latest) as [|c cs]; [done|].
  cbv zeta. case_if; [done|]. destruct (apply_promotion _ _ _) as [p promoted]. apply notify_promoted_pool.
Qed.

Lemma promote_future_votes_reachable (Env : Shared → Prop) env latest st :
  Env env → pool_reachable Env (pool st) → pool_reachable Env (pool (promote_future_votes env latest st)).
Proof.
  intros He Hr. rewrite promote_future_votes_pool. case_if; [done|]. by apply reach_promote.
Qed.

Lemma finish_put_reachable (Env : Shared → Prop) env v pending fut auth st st' :
  Env env → pool_reachable Env (pool st) → verify_vote_envelope v = true →
  (fut = false → verify_vote_origin env v = OriginOk) →
  finish_put env v pending fut auth st = Some st' → pool_reachable Env (pool st').
Proof.
  intros He Hr Hv Ho Hp. unfold finish_put in Hp. cbv zeta in Hp.
  set (st1 := if last_pruned_block st <? pending then promote_future_votes env pending st else st) in *.
  assert (Hr1 : pool_reachable Env (pool st1)).
  { subst st1. case_if; [by apply promote_future_votes_reachable|done]. }
  destruct (admit_vote _ _ _ _ _ _) as [[p r]|] eqn:Ha; [|done]. cbn in Hp.
  assert (Hrp : pool_reachable Env p).
  { apply (reach_admit _ _ _ _ _ _ _ _ _ Hr1 Hv) in Ha; [done|]. intros Hfut. exists env. auto. }
  destruct r as [n|]; injection Hp as <-; [|done]. case_if; [by rewrite maybe_notify_pool|done].
Qed.

Lemma put_vote_inner_reachable (Env : Shared → Prop) env v h st st' :
  Env env → pool_reachable Env (pool st) → verify_vote_envelope v = true →
  put_vote_inner env v h st = Some st' → pool_reachable Env (pool st').
Proof.
  intros He Hr Hv Hp. unfold put_vote_inner in Hp. cbv zeta in Hp. case_if.
  - destruct (future_vote_sender_is_validator env v) as [[]|]; [|by injection Hp as <-|];
      by apply (finish_put_reachable Env) in Hp.
  - destruct (verify_vote_origin env v) eqn:Ho; [by apply (finish_put_reachable Env) in Hp|by injection Hp as <-..].
Qed.

Lemma insert_vote_returns p v pending fut auth :
  is_u64 (source_number (data v)) → 0 <= pending < 2 ^ 64 - 12 → is_Some (insert_vote p v pending fut auth).
Proof.
  intros Hs Hp. unfold insert_vote. cbv zeta. case_bool_decide; [eauto|].
  destruct (conflict_detect_returns (malicious_vote_monitor p) v pending Hs Hp) as [[b m] ->]. cbn. eauto.
Qed.

Lemma finish_put_returns env v pending fut auth st :
  is_u64 (source_number (data v)) → 0 <= pending < 2 ^ 64 - 12 → is_Some (finish_put env v pending fut auth st).
Proof.
  intros Hs Hp. unfold finish_put. cbv zeta. set (st1 := if last_pruned_block st <? pending then promote_future_votes env pending st else st).
  unfold admit_vote. destruct (is_at_capacity _ _ _ _); [eexists; reflexivity|].
  destruct (insert_vote_returns (pool st1) v pending fut auth Hs Hp) as [[p n] ->]. eexists; reflexivity.
Qed.

Lemma put_vote_reachable (Env : Shared → Prop) env v st st' :
  Env env → pool_reachable Env (pool st) → put_vote env v st = Some st' → pool_reachable Env (pool st').
Proof.
  intros He Hr Hp. unfold put_vote in Hp.
  case_if; [by injection Hp as <-|]. case_if; [by injection Hp as <-|].
  destruct (lru_peek _ _); [by injection Hp as <-|].
  destruct (verify_vote_envelope v) eqn:Hv; [by apply (put_vote_inner_reachable Env) in Hp|by injection Hp as <-].
Qed.

(** Every call of [put_vote] returns, for any envelope whatever the attacker
    put into it, and leaves a reachable pool; so do [promote_future_votes] and
    [drain]. *)
Theorem put_vote_returns (Env : Shared → Prop) env v st :
  Env env → pool_reachable Env (pool st) → is_u64 (source_number (data v)) →
  0 <= default 0 (get_best_canonical_block_number env) < 2 ^ 64 - 12 →
  (∃ st', put_vote env v st = Some st' ∧ pool_reachable Env (pool st')) ∧
  (∀ n, pool_reachable Env (pool (promote_future_votes env n st))) ∧
  pool_reachable Env (pool (drain_pool st).2).
Proof.
  intros He Hr Hs Hb. split; [|split; [intros n; by apply promote_future_votes_reachable|by apply reach_drain]].
  assert (Hsome : is_Some (put_vote env v st)).
  { unfold put_vote. destruct (negb _); [eauto|]. destruct (contains _ _); [eauto|].
    destruct (lru_peek _ _); [eauto|]. destruct (verify_vote_envelope v); [|eauto].
    unfold put_vote_inner. cbv zeta. destruct (negb _ || _).
    - destruct (future_vote_sender_is_validator env v) as [[]|]; eauto using finish_put_returns.
    - destruct (verify_vote_origin env v); eauto using finish_put_returns. }
  destruct Hsome as [st' Hp]. exists st'. split; [done|]. by apply (put_vote_reachable Env env v st).
Qed.

(** ** Remembered rejections *)

(** The node has learned more: what it could look up, it still finds. *)
Record env_extends (env env' : Shared) : Prop := {
  ee_header h x : get_canonical_header_by_hash_from_provider env h = Some x →
                  get_canonical_header_by_hash_from_provider env' h = Some x;
  ee_genesis g : get_canonical_header_by_number env 0 = Some g → get_canonical_header_by_number env' 0 = Some g;
  ee_snapshot h s : get_snapshot_provider env ≫= (λ sp, sp h) = Some s →
                    get_snapshot_provider env' ≫= (λ sp, sp h) = Some s;
}.

Lemma justified_pair_extends env env' h j :
  env_extends env env' → justified_pair_for_hash env h = Some j → justified_pair_for_hash env' h = Some j.
Proof.
  intros He Hj. unfold justified_pair_for_hash in *.
  destruct (get_snapshot_provider env) as [sp|] eqn:Esp; [|done]. cbn in Hj.
  destruct (sp h) as [snap|] eqn:Es; [|done]. cbn in Hj.
  pose proof (ee_snapshot _ _ He h snap) as Hs. rewrite Esp in Hs. specialize (Hs Es).
  destruct (get_snapshot_provider env') as [sp'|]; [|done]. cbn in Hs. cbn. rewrite Hs. cbn.
  unfold justified_pair_of in *. case_if; [|done].
  destruct (get_canonical_header_by_number env 0) as [g|] eqn:Eg; [|done]. by rewrite (ee_genesis _ _ He g Eg).
Qed.

Lemma origin_verdict_extends env env' v :
  env_extends env env' → verify_vote_origin env v ≠ OriginUnverifiable →
  verify_vote_origin env' v = verify_vote_origin env v.
Proof.
  intros He Hv. unfold verify_vote_origin in *.
  destruct (get_canonical_header_by_hash_from_provider env _) as [hd|] eqn:Eh; [|done].
  rewrite (ee_header _ _ He _ _ Eh). case_if; [done|].
  destruct (justified_pair_for_hash env _) as [[jn jh]|] eqn:Ej; [|done].
  rewrite (justified_pair_extends _ _ _ _ He Ej). case_if; [done|].
  destruct (get_snapshot_provider env) as [sp|] eqn:Esp; [|done].
  destruct (sp (parent_hash hd)) as [snap|] eqn:Es; [|done].
  pose proof (ee_snapshot _ _ He (parent_hash hd) snap) as Hs. rewrite Esp in Hs. specialize (Hs Es).
  destruct (get_snapshot_provider env') as [sp'|]; [|done]. cbn in Hs. by rewrite Hs.
Qed.

Lemma maybe_notify_rejected env th n st : rejected_votes (maybe_notify_finality env th n st) = rejected_votes st.
Proof.
  unfold maybe_notify_finality. destruct (finality_head env st th) as [[hd snap]|]; [|done]. cbv zeta.
  by repeat case_if.
Qed.

Lemma promote_rejected env latest st : rejected_votes (promote_future_votes env latest st) = rejected_votes st.
Proof.
  unfold promote_future_votes. destruct (promotion_candidates (pool st) latest) as [|c cs]; [done|].
  cbv zeta. case_if; [done|]. destruct (apply_promotion _ _ _) as [p promoted].
  set (counts := _ <$> promoted). set (st1 := with_pool _ _ _).
  change (rejected_votes st) with (rejected_votes st1). clearbody counts st1. unfold notify_promoted.
  revert st1. induction counts as [|[h n] counts IH]; intros st1; cbn; [done|].
  rewrite IH. case_if; [apply maybe_notify_rejected|done].
Qed.

Lemma finish_put_rejected env v pending fut auth st st' :
  finish_put env v pending fut auth st = Some st' → rejected_votes st' = rejected_votes st.
Proof.
  intros Hp. unfold finish_put in Hp. cbv zeta in Hp.
  set (st1 := if last_pruned_block st <? pending then promote_future_votes env pending st else st) in *.
  assert (Hr : rejected_votes st1 = rejected_votes st) by (subst st1; case_if; [apply promote_rejected|done]).
  destruct (admit_vote _ _ _ _ _ _) as [[p r]|]; [|done]. cbn in Hp.
  destruct r as [n|]; injection Hp as <-; [|done].
  case_if; [by rewrite maybe_notify_rejected|done].
Qed.

(** What [put_vote] remembers as rejected can never be accepted later: the
    cache grows only by the hash of a vote whose signature is invalid or that
    contradicts the chain, and that verdict stays the same on every later view
    of the chain. *)
Theorem rejected_for_good env v st st' :
  put_vote env v st = Some st' → rejected_votes st' ≠ rejected_votes st →
  rejected_votes st' = lru_put (rejected_votes st) (envelope_hash v) tt ∧
  (verify_vote_envelope v = false ∨
   ∀ env', env_extends env env' → verify_vote_origin env' v = OriginRejected).
Proof.
  intros Hp Hne. unfold put_vote in Hp.
  case_if; [by injection Hp as <-|]. case_if; [by injection Hp as <-|].
  destruct (lru_peek _ _); [by injection Hp as <-|].
  destruct (verify_vote_envelope v) eqn:Hv; [|injection Hp as <-; split; [done|by left]].
  unfold put_vote_inner in Hp. cbv zeta in Hp. case_if.
  - destruct (future_vote_sender_is_validator env v) as [[]|]; [|by injection Hp as <-|];
      by apply finish_put_rejected in Hp.
  - destruct (verify_vote_origin env v) eqn:Ho; [by apply finish_put_rejected in Hp| |by injection Hp as <-].
    injection Hp as <-. split; [done|]. right. intros env' He. rewrite (origin_verdict_extends env env'); [done|done|].
    by rewrite Ho.
Qed.

(** ** Bounds *)

(** Pruning is exact: of each side exactly the buckets whose queue entry lies
    256 or more blocks behind the head are dropped, every other bucket is kept
    as it is, and the pool stays consistent. *)
Theorem prune_exact p latest :
  pool_wf p → latest < u64_max →
  pool_wf (prune p latest) ∧
  (∀ vd, vd ∈ heap_iter (cur_votes_pq p) →
     cur_votes (prune p latest) !! target_hash vd =
     if target_number vd + 256 <=? latest then None else cur_votes p !! target_hash vd) ∧
  (∀ vd, vd ∈ heap_iter (future_votes_pq p) →
     future_votes (prune p latest) !! target_hash vd =
     if target_number vd + 256 <=? latest then None else future_votes p !! target_hash vd).
Proof.
  intros Hwf Hl. destruct (prune_result latest p Hwf) as (Hwf' & (_ & Hc & _) & (_ & Hf & _)).
  assert (Hold : ∀ vd, too_old latest vd = (target_number vd + 256 <=? latest)).
  { intros vd. unfold too_old, sat_add64, LOWER_LIMIT_OF_VOTE_BLOCK_NUMBER.
    destruct (Z.leb_spec (target_number vd + 256) latest); [apply Z.leb_le|apply Z.leb_gt]; lia. }
  split; [done|]. split; intros vd Hvd; rewrite <- Hold; [by apply Hc|by apply Hf].
Qed.

Lemma prune_total p latest : pool_wf p → total_votes (prune p latest) = zlen (hashes (prune p latest)).
Proof. intros Hwf. apply (cw_counts _ (pw_core _ (prune_wf p latest Hwf))). Qed.

(** The pool cannot be flooded: after every admission it holds at most
    [MAX_VOTES_IN_POOL] votes, unless all of them are current votes, each of
    which passed the origin check. *)
Theorem pool_size_bounded v pending fut auth work p p' n :
  pool_wf p → admit_vote v pending fut auth work p = Some (p', Some n) →
  pool_len p' = zlen (entries (cur_votes p')) + zlen (entries (future_votes p')) ∧
  (pool_len p' <= MAX_VOTES_IN_POOL ∨ future_votes p' = ∅).
Proof.
  intros Hwf Ha. pose proof (admit_vote_wf _ _ _ _ _ _ _ _ Hwf Ha) as Hwf'. split.
  { unfold pool_len. destruct (cw_counts _ (pw_core _ Hwf')) as [_ _ ->]. unfold hashes, zlen.
    rewrite length_fmap, length_app. lia. }
  unfold admit_vote in Ha. case_if; [done|].
  destruct (insert_vote p v pending fut auth) as [[p1 k]|] eqn:Hi; [|done]. cbn in Ha.
  apply insert_vote_wf in Hi; [|done|by intros ->].
  set (p2 := if work then prune p1 pending else p1) in *.
  assert (Hwf2 : pool_wf p2) by (destruct work; [by apply prune_wf|done]).
  injection Ha as <- _. destruct (Z.ltb_spec MAX_VOTES_IN_POOL (pool_len p2)) as [Hbig|]; [|by left].
  pose proof (prune_wf p2 pending Hwf2) as Hwf3. unfold overflow_shed_target.
  destruct (Z.leb_spec (pool_len (prune p2 pending)) MAX_VOTES_IN_POOL) as [|Hbig3]; [by left|].
  destruct (shed_future_votes (prune p2 pending) _) as [p4 shed] eqn:Hs. cbn [fst].
  apply shed_future_votes_spec in Hs as (_ & _ & _ & Ht & Hshed & _); [|done].
  destruct Hshed as [Hshed|?]; [left|by right]. unfold pool_len in *.
  unfold sat_sub64, SHED_HEADROOM, MAX_VOTES_IN_POOL in *. lia.
Qed.
End Reachable.

(** ** Which validator set governs a target *)

Lemma swaps_upto_mono epoch offset a b :
  0 < epoch → a <= b → swaps_upto epoch offset a <= swaps_upto epoch offset b.
Proof.
  intros He Hab. unfold swaps_upto. destruct (Z.leb_spec offset a), (Z.leb_spec offset b); try lia.
  - pose proof (Z.div_le_mono (a - offset) (b - offset) epoch He ltac:(lia)). lia.
  - pose proof (Z.div_pos (b - offset) epoch ltac:(lia) He). lia.
Qed.

(** A height is a swap point exactly when the count grows there. *)
Lemma swaps_upto_at epoch offset n q :
  0 < epoch → 0 <= q → n = offset + q * epoch → swaps_upto epoch offset n = q + 1 ∧ swaps_upto epoch offset (n - 1) = q.
Proof.
  intros He Hq ->. unfold swaps_upto. split.
  - destruct (Z.leb_spec offset (offset + q * epoch)); [|lia].
    replace (offset + q * epoch - offset) with (q * epoch) by lia. rewrite Z.div_mul by lia. lia.
  - destruct (Z.leb_spec offset (offset + q * epoch - 1)); [|nia].
    replace (offset + q * epoch - 1 - offset) with ((q - 1) * epoch + (epoch - 1)) by lia.
    rewrite Z.div_add_l, Z.div_small by lia. lia.
Qed.

Lemma swaps_differ_iff epoch offset a b :
  0 <= offset < epoch → 0 <= a <= b →
  swaps_upto epoch offset a ≠ swaps_upto epoch offset b ↔ ∃ n, a < n <= b ∧ n mod epoch = offset.
Proof.
  intros Ho Hab. split.
  - intros Hne. pose proof (swaps_upto_mono epoch offset a b ltac:(lia) ltac:(lia)) as Hle.
    set (q := swaps_upto epoch offset b - 1).
    assert (Hq : 0 <= q).
    { assert (0 <= swaps_upto epoch offset a); [|lia]. unfold swaps_upto. case_if; [|lia]. split_tests.
      pose proof (Z.div_pos (a - offset) epoch ltac:(lia) ltac:(lia)). lia. }
    exists (offset + q * epoch). split; [split|].
    + destruct (Z.lt_ge_cases a (offset + q * epoch)) as [|Hge]; [done|].
      pose proof (swaps_upto_mono epoch offset _ _ ltac:(lia) Hge) as Hm.
      destruct (swaps_upto_at epoch offset _ q ltac:(lia) Hq eq_refl) as [Hat _]. lia.
    + subst q. unfold swaps_upto in *. destruct (Z.leb_spec offset b); [|lia].
      pose proof (Z.mul_div_le (b - offset) epoch ltac:(lia)). lia.
    + rewrite Z.mod_add by lia. by apply Z.mod_small.
  - intros (n & Hn & Hmod).
    pose proof (Z.div_mod n epoch ltac:(lia)) as Hdm. rewrite Hmod in Hdm.
    assert (Hq : 0 <= n / epoch) by (apply Z.div_pos; lia).
    destruct (swaps_upto_at epoch offset n (n / epoch) ltac:(lia) Hq ltac:(lia)) as [Hat Hbefore].
    pose proof (swaps_upto_mono epoch offset a (n - 1) ltac:(lia) ltac:(lia)).
    pose proof (swaps_upto_mono epoch offset n b ltac:(lia) ltac:(lia)). lia.
Qed.

(** [governing_sets_differ] compares the two heights exactly: it is false
    precisely when no block between the head and the target's parent, in
    either direction, is a block at which the provider swaps the set
    ([n mod epoch = offset]). *)
Theorem governing_sets_differ_iff head target epoch offset :
  0 <= head → 1 <= target → 0 < epoch → 0 <= offset →
  governing_sets_differ head target epoch offset = true ↔
  ∃ n, Z.min head (target - 1) < n <= Z.max head (target - 1) ∧ n mod epoch = offset.
Proof.
  intros Hh Ht He Ho. unfold governing_sets_differ. cbv zeta. rewrite Z.max_l by lia.
  assert (sat_sub64 target 1 = target - 1) as -> by (unfold sat_sub64; lia).
  destruct (Z.leb_spec epoch offset) as [Hbig|Hsmall].
  - split; [done|]. intros (n & _ & Hmod). pose proof (Z.mod_pos_bound n epoch He). lia.
  - rewrite negb_true_iff, Z.eqb_neq. destruct (Z.le_gt_cases head (target - 1)).
    + rewrite Z.min_l, Z.max_r by lia. by apply swaps_differ_iff; lia.
    + rewrite Z.min_r, Z.max_l by lia. rewrite <- (swaps_differ_iff epoch offset (target - 1) head) by lia. lia.
Qed.
