(* ===== verification/VotePoolPromotion.v ===== *)
(** * VotePoolPromotion: future votes become current

    A promotion pass whose targets and votes fit its budget judges every future
    vote whose target height is reached and whose block is known: the selection
    of candidates, the verdicts and the write phase agree on the same buckets. *)

From stdpp Require Import base tactics numbers option list sorting gmap.
From Stdlib Require Import ZArith Lia Bool.
From S2P Require Import Prelude.
From S2P Require Import Header.
From S2P Require Import Snapshot.
From S2P Require Import Attestation.
From S2P Require Import Collections.
From S2P Require Import VoteMonitor.
From S2P Require Import VotePool.
From S2P Require Import VotePoolProps.
From S2P Require Import VotePoolClaims.

Section Promotion.
Context `{L : LruApi, HashApi, B : BlsApi}.
Context {HP : HeapApi VoteData by_target} {HK : HeapApi (Z * Z) key_leb}.
Context {LL : LruLaws L} {HPL : HeapLaws HP} {HKL : HeapLaws HK}.
Implicit Types (p : VotePool) (v : VoteEnvelope) (st : PoolState) (m : gmap Z VoteMessages).

Definition reached (latest : Z) (l : list VoteData) : list VoteData := filter (λ vd, target_number vd <= latest) l.
Definition key_of (vd : VoteData) : Z * Z := (target_number vd, target_hash vd).

(** ** The candidates *)

Lemma keep_smallest_all latest l (h : BinaryHeap HK) :
  (length (heap_iter h) + length (reached latest l) <= MAX_PROMOTION_TARGETS_PER_PASS)%nat →
  heap_iter (fold_left (keep_smallest latest) l h) ≡ₚ (key_of <$> reached latest l) ++ heap_iter h.
Proof.
  unfold reached. revert h. induction l as [|vd l IH]; intros h Hlen; cbn [fold_left]; [done|].
  rewrite filter_cons in Hlen |- *. unfold keep_smallest at 2. case_decide as Hd.
  - rewrite (proj2 (Z.ltb_ge latest (target_number vd))) by lia. cbn [length] in Hlen. cbv zeta.
    rewrite (proj2 (Nat.ltb_lt _ _)) by lia.
    rewrite IH by (rewrite heap_iter_push; cbn; lia).
    rewrite heap_iter_push. cbn. by rewrite <- Permutation_middle.
  - rewrite (proj2 (Z.ltb_lt latest (target_number vd))) by lia. by apply IH.
Qed.

Lemma smallest_keys_all p latest :
  (length (reached latest (heap_iter (future_votes_pq p))) <= MAX_PROMOTION_TARGETS_PER_PASS)%nat →
  smallest_keys p latest ≡ₚ key_of <$> reached latest (heap_iter (future_votes_pq p)).
Proof.
  intros Hlen. unfold smallest_keys.
  assert (Hk : heap_iter (fold_left (keep_smallest latest) (heap_iter (future_votes_pq p)) heap_new)
               ≡ₚ key_of <$> reached latest (heap_iter (future_votes_pq p))).
  { rewrite keep_smallest_all; rewrite heap_iter_new; [by rewrite app_nil_r|done]. }
  rewrite take_ge by (rewrite sort_by_perm, Hk, length_fmap; lia). by rewrite sort_by_perm.
Qed.

Definition bucket_votes m (k : Z) : list VoteEntry :=
  match m !! k with Some vm => vote_messages vm | None => [] end.

(** Distinct buckets hold no more votes together than the whole side. *)
Lemma bucket_votes_sum m ks :
  NoDup ks → (length (mjoin (bucket_votes m <$> ks)) <= length (entries m))%nat.
Proof.
  revert m. induction ks as [|k ks IH]; intros m Hnd; [cbn; lia|].
  apply NoDup_cons in Hnd as [Hk Hnd]. rewrite fmap_cons, mjoin_cons, length_app.
  assert (Heq : bucket_votes m <$> ks = bucket_votes (delete k m) <$> ks).
  { apply list_fmap_ext. intros i x Hx%list_elem_of_lookup_2. unfold bucket_votes.
    rewrite lookup_delete_ne; [done|]. by intros ->. }
  rewrite Heq. specialize (IH (delete k m) Hnd).
  destruct (m !! k) as [vm|] eqn:Em.
  - rewrite (entries_delete _ _ _ Em), length_app. unfold bucket_votes at 1. rewrite Em. lia.
  - rewrite delete_id in IH |- * by done. unfold bucket_votes at 1. rewrite Em. cbn. lia.
Qed.

Definition candidate p (latest : Z) (key : Z * Z) : PromotionCandidate :=
  {| pc_target_number := key.1; pc_target_hash := key.2; pc_votes := bucket_votes (future_votes p) key.2;
     expired := sat_add64 key.1 UPPER_LIMIT_OF_VOTE_BLOCK_NUMBER <? latest |}.

Lemma collect_candidates_all p latest budget ks :
  (∀ key, key ∈ ks → bucket_votes (future_votes p) key.2 ≠ []) →
  (length (mjoin (bucket_votes (future_votes p) <$> ks.*2)) <= budget)%nat →
  collect_candidates p latest budget ks = candidate p latest <$> ks.
Proof.
  revert budget. induction ks as [|[tn th] ks IH]; intros budget Hne Hlen; [done|].
  rewrite !fmap_cons, mjoin_cons, length_app in Hlen. cbn [snd] in Hlen. cbn [collect_candidates].
  assert (Hpos : bucket_votes (future_votes p) th ≠ []) by (apply (Hne (tn, th)); by left).
  destruct budget as [|budget]; [destruct (bucket_votes (future_votes p) th); [done|cbn in Hlen; lia]|].
  assert (Hvotes : match future_votes p !! th with Some vm => take (S budget) (vote_messages vm) | None => [] end
                   = bucket_votes (future_votes p) th).
  { unfold bucket_votes in *. destruct (future_votes p !! th); [|done]. apply take_ge. lia. }
  rewrite Hvotes, fmap_cons. cbv zeta. f_equal. apply IH; [intros key Hk; apply Hne; by right|lia].
Qed.

(** ** The verdicts *)

Definition verdict_map env (l : list VoteEntry) : gmap Z bool :=
  fold_left (λ (vs : gmap Z bool) e, <[ve_hash e := bool_decide (verify_vote_origin env (envelope e) = OriginOk)]> vs) l ∅.

Definition left_future env (c : PromotionCandidate) : bool :=
  negb (expired c)
  && match get_canonical_header_by_hash_from_provider env (pc_target_hash c) with None => true | Some _ => false end.

Lemma verdict_map_lookup env l e :
  NoDup (ve_hash <$> l) → e ∈ l →
  verdict_map env l !! ve_hash e = Some (bool_decide (verify_vote_origin env (envelope e) = OriginOk)).
Proof.
  unfold verdict_map. generalize (∅ : gmap Z bool). induction l as [|x l IH]; intros vs Hnd He; [by apply elem_of_nil in He|].
  cbn in Hnd. apply NoDup_cons in Hnd as [Hx Hnd]. cbn [fold_left].
  apply elem_of_cons in He as [->|He]; [|by apply IH].
  assert (Hgen : ∀ l (vs : gmap Z bool), ve_hash x ∉ ve_hash <$> l →
    fold_left (λ (vs : gmap Z bool) e, <[ve_hash e := bool_decide (verify_vote_origin env (envelope e) = OriginOk)]> vs) l vs
      !! ve_hash x = vs !! ve_hash x).
  { clear. induction l as [|y l IH]; intros vs Hx; [done|]. cbn in *. apply not_elem_of_cons in Hx as [Hxy Hx].
    rewrite IH by done. by apply lookup_insert_ne. }
  rewrite Hgen by done. apply lookup_insert_eq.
Qed.

Lemma resolve_lookup env cands th :
  NoDup (pc_target_hash <$> cands) →
  resolve env cands !! th =
  match find (λ c, pc_target_hash c =? th) cands with
  | Some c => if left_future env c then None else Some (verdict_map env (pc_votes c))
  | None => None
  end.
Proof.
  unfold resolve.
  assert (Hgen : ∀ m : gmap Z (gmap Z bool), NoDup (pc_target_hash <$> cands) → (∀ c, c ∈ cands → m !! pc_target_hash c = None) →
    fold_left (resolve_candidate env) cands m !! th =
    match find (λ c, pc_target_hash c =? th) cands with
    | Some c => if left_future env c then None else Some (verdict_map env (pc_votes c))
    | None => m !! th end); [|intros Hnd; rewrite Hgen; [done|done|intros c _; apply lookup_empty]].
  induction cands as [|c cands IH]; intros m Hnd Hm; [done|]. cbn in Hnd. apply NoDup_cons in Hnd as [Hc Hnd].
  cbn [fold_left find]. rewrite IH; [|done|].
  - destruct (Z.eqb_spec (pc_target_hash c) th) as [<-|Hne].
    + destruct (find _ cands) as [c'|] eqn:Ef.
      { apply find_some in Ef as [Hin%list_elem_of_In Heq%Z.eqb_eq]. exfalso. apply Hc. rewrite <- Heq.
        by apply list_elem_of_fmap_2. }
      unfold resolve_candidate. fold (left_future env c). destruct (left_future env c).
      * apply Hm. by left.
      * apply lookup_insert_eq.
    + destruct (find _ cands); [done|]. unfold resolve_candidate. fold (left_future env c).
      destruct (left_future env c); [done|]. by apply lookup_insert_ne.
  - intros c' Hc'. unfold resolve_candidate. fold (left_future env c).
    destruct (left_future env c); [apply Hm; by right|].
    rewrite lookup_insert_ne; [apply Hm; by right|]. intros Heq. apply Hc. rewrite Heq. by apply list_elem_of_fmap_2.
Qed.

(** ** The write phase *)

(** Nothing current is lost, nothing forgotten comes back. *)
Definition grows p p' : Prop :=
  (∀ k e, e ∈ bucket_votes (cur_votes p) k → e ∈ bucket_votes (cur_votes p') k) ∧
  received_votes p' ⊆ received_votes p.

#[local] Instance grows_preorder : PreOrder grows.
Proof. split; [by intros p|intros p q r [? ?] [? ?]; split; [auto|set_solver]]. Qed.

Lemma promote_judged_grows p k verdicts : grows p (promote_judged p k verdicts).1.1.
Proof.
  destruct (future_votes p !! k) as [box|] eqn:Hk; [|unfold promote_judged; by rewrite Hk].
  rewrite (promote_judged_eq _ _ _ _ Hk). cbn [fst]. split; pool_simpl.
  - intros k' e He. destruct (judged verdicts (Some true) _) as [|w ws]; [done|]. unfold bucket_votes, extend_bucket in *.
    rewrite lookup_insert. case_decide as Heq; [|done]. cbn. apply elem_of_app. left. subst k'.
    by destruct (cur_votes p !! k).
  - rewrite remove_hashes_eq. set_solver.
Qed.

Lemma promote_judged_frame p k verdicts k' :
  k' ≠ k → future_votes (promote_judged p k verdicts).1.1 !! k' = future_votes p !! k'.
Proof.
  intros Hne. destruct (future_votes p !! k) as [box|] eqn:Hk; [|unfold promote_judged; by rewrite Hk].
  rewrite (promote_judged_eq _ _ _ _ Hk). cbn [fst]. pool_simpl.
  destruct (judged verdicts None _); [by rewrite lookup_delete_ne|].
  by rewrite lookup_insert_ne, lookup_delete_ne.
Qed.

(** A bucket is settled: gone from the future side, its approved votes current,
    the others forgotten. *)
Definition settled (verdicts : gmap Z bool) (k : Z) (box : VoteMessages) p' : Prop :=
  future_votes p' !! k = None ∧
  ∀ e, e ∈ vote_messages box →
    (verdicts !! ve_hash e = Some true → e ∈ bucket_votes (cur_votes p') k) ∧
    (verdicts !! ve_hash e = Some false → ve_hash e ∉ received_votes p').

Lemma promote_judged_settles p k verdicts box :
  future_votes p !! k = Some box → (∀ e, e ∈ vote_messages box → is_Some (verdicts !! ve_hash e)) →
  settled verdicts k box (promote_judged p k verdicts).1.1.
Proof.
  intros Hk Hall. rewrite (promote_judged_eq _ _ _ _ Hk). cbn [fst].
  assert (Hnone : judged verdicts None (vote_messages box) = []).
  { apply filter_none. intros e He Hv. destruct (Hall e He). congruence. }
  split; pool_simpl; [rewrite Hnone; apply lookup_delete_eq|]. intros e He. split; intros Hv.
  - assert (Hin : e ∈ judged verdicts (Some true) (vote_messages box)) by (by apply judged_elem).
    destruct (judged verdicts (Some true) _) as [|w ws] eqn:Ev; [by apply elem_of_nil in Hin|].
    unfold bucket_votes, extend_bucket. rewrite lookup_insert_eq. cbn [vote_messages]. apply elem_of_app. by right.
  - rewrite remove_hashes_eq. apply not_elem_of_difference. right. apply elem_of_list_to_set, list_elem_of_fmap.
    exists e. split; [done|]. by apply judged_elem.
Qed.

Lemma settled_grows verdicts k box p p' :
  grows p p' → future_votes p' !! k = future_votes p !! k → settled verdicts k box p → settled verdicts k box p'.
Proof.
  intros [Hc Hr] Hf [Hn He]. split; [congruence|]. intros e Hin. destruct (He e Hin) as [Ht Hfa].
  split; intros Hv; [by apply Hc, Ht|]. specialize (Hfa Hv). set_solver.
Qed.

Lemma promotion_loop_settles budget p latest resolved promoted deferred p' promoted' deferred' :
  NoDup (target_hash <$> heap_iter (future_votes_pq p)) →
  (length (reached latest (heap_iter (future_votes_pq p))) <= budget)%nat →
  promotion_loop budget p latest resolved promoted deferred = (p', promoted', deferred') →
  grows p p' ∧
  (∀ k, k ∉ target_hash <$> reached latest (heap_iter (future_votes_pq p)) → future_votes p' !! k = future_votes p !! k) ∧
  (∀ vd, vd ∈ reached latest (heap_iter (future_votes_pq p)) →
     match resolved !! target_hash vd with
     | None => future_votes p' !! target_hash vd = future_votes p !! target_hash vd
     | Some verdicts => ∀ box, future_votes p !! target_hash vd = Some box →
         (∀ e, e ∈ vote_messages box → is_Some (verdicts !! ve_hash e)) → settled verdicts (target_hash vd) box p'
     end).
Proof.
  revert p promoted deferred. induction budget as [|budget IH]; intros p promoted deferred Hnd Hlen Hl; cbn [promotion_loop] in Hl.
  { injection Hl as <- _ _. destruct (reached _ _); [|cbn in Hlen; lia].
    split_and!; [done|done|]. by intros vd ?%elem_of_nil. }
  destruct (heap_pop (future_votes_pq p)) as [[vd pq]|] eqn:Hpop.
  2:{ injection Hl as <- _ _. apply heap_pop_None in Hpop. rewrite Hpop.
      split_and!; [done|done|]. by intros vd ?%elem_of_nil. }
  destruct (heap_pop_Some _ _ _ Hpop) as [Hq Htop].
  destruct (Z.ltb_spec latest (target_number vd)) as [Hgt|Hle].
  { injection Hl as <- _ _. unfold reached. rewrite filter_none.
    - split_and!; [done|done|]. by intros x ?%elem_of_nil.
    - intros x Hx Hle. specialize (Htop x Hx). unfold by_target in Htop. split_tests. lia. }
  assert (Hreach : reached latest (heap_iter (future_votes_pq p)) ≡ₚ vd :: reached latest (heap_iter pq)).
  { unfold reached. by rewrite Hq, filter_cons_True. }
  rewrite Hq in Hnd. cbn in Hnd. apply NoDup_cons in Hnd as [Hni Hnd]. rewrite Hreach in Hlen. cbn in Hlen.
  assert (Hni' : target_hash vd ∉ target_hash <$> reached latest (heap_iter pq)).
  { intros (x & Hx & [_ Hin]%list_elem_of_filter)%list_elem_of_fmap. apply Hni. rewrite Hx. by apply list_elem_of_fmap_2. }
  set (p1 := with_future (future_votes p) pq p) in *.
  assert (Hrest : ∃ p2 pr df, promotion_loop budget p2 latest resolved pr df = (p', promoted', deferred') ∧
    future_votes_pq p2 = pq ∧ grows p p2 ∧ (∀ k, k ≠ target_hash vd → future_votes p2 !! k = future_votes p !! k) ∧
    match resolved !! target_hash vd with
    | None => future_votes p2 !! target_hash vd = future_votes p !! target_hash vd
    | Some verdicts => ∀ box, future_votes p !! target_hash vd = Some box →
         (∀ e, e ∈ vote_messages box → is_Some (verdicts !! ve_hash e)) → settled verdicts (target_hash vd) box p2
    end).
  { destruct (resolved !! target_hash vd) as [verdicts|].
    - pose proof (promote_judged_grows p1 (target_hash vd) verdicts) as Hg.
      pose proof (promote_judged_frame p1 (target_hash vd) verdicts) as Hfr.
      pose proof (promote_judged_settles p1 (target_hash vd) verdicts) as Hst.
      pose proof (promote_judged_queue p1 (target_hash vd) verdicts) as Hpq.
      destruct (promote_judged p1 (target_hash vd) verdicts) as [[p2 moved] requeue]. cbn [fst] in *.
      by eexists p2, _, _.
    - destruct (future_votes p1 !! target_hash vd); by eexists p1, _, _. }
  destruct Hrest as (p2 & pr & df & Hl2 & Hpq & Hg & Hfr & Hst).
  apply IH in Hl2 as (Hg2 & Hfr2 & Hst2); [|by rewrite Hpq|rewrite Hpq; lia]. rewrite Hpq in Hfr2, Hst2.
  split; [by etrans|]. split.
  - intros k Hk. rewrite Hreach in Hk. cbn in Hk. apply not_elem_of_cons in Hk as [Hne Hk].
    rewrite Hfr2 by done. by apply Hfr.
  - intros x Hx. rewrite Hreach in Hx. apply elem_of_cons in Hx as [->|Hx].
    + specialize (Hfr2 _ Hni'). destruct (resolved !! target_hash vd); [|congruence].
      intros box Hbox Hall. by apply (settled_grows _ _ _ p2); [..|apply Hst].
    + specialize (Hst2 x Hx). assert (Hne : target_hash x ≠ target_hash vd).
      { intros Heq. apply Hni'. rewrite <- Heq. by apply list_elem_of_fmap_2. }
      by rewrite Hfr in Hst2.
Qed.

(** ** The whole pass *)

Lemma find_by_key {A} (f : A → Z) l a :
  NoDup (f <$> l) → a ∈ l → find (λ x, f x =? f a) l = Some a.
Proof.
  induction l as [|x l IH]; intros Hnd Ha; [by apply elem_of_nil in Ha|]. cbn in Hnd |- *.
  apply NoDup_cons in Hnd as [Hx Hnd]. apply elem_of_cons in Ha as [->|Ha]; [by rewrite Z.eqb_refl|].
  destruct (Z.eqb_spec (f x) (f a)) as [Heq|]; [|by apply IH].
  exfalso. apply Hx. rewrite Heq. by apply list_elem_of_fmap_2.
Qed.

Lemma queued_NoDup m queue : queued m queue → NoDup (target_hash <$> queue).
Proof. unfold queued. intros ->. apply keys_NoDup. Qed.

Lemma queued_bucket m queue vd : queued m queue → vd ∈ queue → is_Some (m !! target_hash vd).
Proof. intros Hq Hvd. apply elem_of_keys. rewrite <- Hq. by apply list_elem_of_fmap_2. Qed.

Lemma reached_keys latest (queue : list VoteData) :
  NoDup (target_hash <$> queue) → NoDup (target_hash <$> reached latest queue).
Proof.
  unfold reached. induction queue as [|vd queue IH]; intros Hnd; [done|].
  cbn in Hnd. apply NoDup_cons in Hnd as [Hv Hnd]. rewrite filter_cons. case_decide; [|by apply IH].
  cbn. constructor; [|by apply IH]. intros (x & Hx & [_ Hin]%list_elem_of_filter)%list_elem_of_fmap.
  apply Hv. rewrite Hx. by apply list_elem_of_fmap_2.
Qed.

(** The budget of one pass covers what is due. *)
Definition within_budget p (latest : Z) : Prop :=
  (length (reached latest (heap_iter (future_votes_pq p))) <= MAX_PROMOTION_TARGETS_PER_PASS)%nat ∧
  (length (entries (future_votes p)) <= MAX_PROMOTION_VOTES_PER_PASS)%nat.

Lemma promotion_candidates_all p latest :
  pool_wf p → within_budget p latest →
  promotion_candidates p latest ≡ₚ (λ vd, candidate p latest (key_of vd)) <$> reached latest (heap_iter (future_votes_pq p)).
Proof.
  intros Hwf [Hlen Hvotes]. pose proof (smallest_keys_all p latest Hlen) as Hk.
  unfold promotion_candidates. rewrite collect_candidates_all.
  - rewrite Hk. by rewrite <- list_fmap_compose.
  - intros key Hin. rewrite Hk in Hin. apply list_elem_of_fmap in Hin as (vd & -> & [_ Hvd]%list_elem_of_filter).
    destruct (queued_bucket _ _ _ (pw_future _ Hwf) Hvd) as [vm Hvm]. cbn. unfold bucket_votes. rewrite Hvm.
    apply (bk_nonempty _ _ (cw_future _ (pw_core _ Hwf) _ _ Hvm)).
  - etrans; [apply bucket_votes_sum|done]. rewrite Hk, <- list_fmap_compose.
    apply (reached_keys latest _ (queued_NoDup _ _ (pw_future _ Hwf))).
Qed.

(** What the lookups say about a queued target. *)
Lemma resolve_reached env p latest vd :
  pool_wf p → within_budget p latest → vd ∈ reached latest (heap_iter (future_votes_pq p)) →
  resolve env (promotion_candidates p latest) !! target_hash vd =
  if left_future env (candidate p latest (key_of vd)) then None
  else Some (verdict_map env (bucket_votes (future_votes p) (target_hash vd))).
Proof.
  intros Hwf Hb Hvd. pose proof (promotion_candidates_all p latest Hwf Hb) as Hc.
  pose proof (reached_keys latest _ (queued_NoDup _ _ (pw_future _ Hwf))) as Hnd.
  assert (Hnd' : NoDup (pc_target_hash <$> promotion_candidates p latest)).
  { rewrite Hc, <- list_fmap_compose. exact Hnd. }
  rewrite resolve_lookup by done.
  change (target_hash vd) with (pc_target_hash (candidate p latest (key_of vd))) at 1.
  rewrite find_by_key; [done|done|]. rewrite Hc. by apply (list_elem_of_fmap_2 (λ vd, candidate p latest (key_of vd))).
Qed.

Lemma bucket_hashes_NoDup p k box :
  core_wf p → future_votes p !! k = Some box → NoDup (ve_hash <$> vote_messages box).
Proof.
  intros Hwf Hk. destruct (cw_counts _ Hwf) as [Hnd _ _]. unfold hashes in Hnd.
  rewrite (entries_delete _ _ _ Hk), !fmap_app in Hnd.
  by apply NoDup_app in Hnd as (_ & _ & (? & _ & _)%NoDup_app).
Qed.

(** Whether a promotion pass decides the bucket of a queue entry. *)
Definition due env (latest : Z) (vd : VoteData) : bool :=
  (target_number vd <=? latest)
  && ((sat_add64 (target_number vd) UPPER_LIMIT_OF_VOTE_BLOCK_NUMBER <? latest)
      || match get_canonical_header_by_hash_from_provider env (target_hash vd) with Some _ => true | None => false end).

Lemma resolve_due env p latest vd :
  pool_wf p → within_budget p latest → vd ∈ heap_iter (future_votes_pq p) →
  (vd ∈ reached latest (heap_iter (future_votes_pq p)) ∨ due env latest vd = false) ∧
  (vd ∈ reached latest (heap_iter (future_votes_pq p)) →
   resolve env (promotion_candidates p latest) !! target_hash vd =
   if due env latest vd then Some (verdict_map env (bucket_votes (future_votes p) (target_hash vd))) else None).
Proof.
  intros Hwf Hb Hvd. unfold due. split.
  - destruct (Z.leb_spec (target_number vd) latest); [left; by apply list_elem_of_filter|by right].
  - intros Hin. rewrite (resolve_reached env p latest vd) by done.
    apply list_elem_of_filter in Hin as [Hle _]. rewrite (proj2 (Z.leb_le _ _)) by done.
    unfold left_future, candidate. cbn.
    destruct (sat_add64 _ _ <? latest); [done|]. cbn. by destruct (get_canonical_header_by_hash_from_provider _ _).
Qed.

Lemma elem_of_fetch p k v :
  v ∈ fetch_vote_by_block_hash p k ↔ ∃ e, e ∈ bucket_votes (cur_votes p) k ∧ envelope e = v.
Proof.
  unfold fetch_vote_by_block_hash, bucket_votes. destruct (cur_votes p !! k) as [vm|].
  - rewrite list_elem_of_fmap. naive_solver.
  - split; [by intros ?%elem_of_nil|by intros (e & ?%elem_of_nil & _)].
Qed.

(** The write phase when every verdict is that of the origin check. *)
Lemma apply_promotion_settles env p latest vd box :
  pool_wf p → within_budget p latest → vd ∈ heap_iter (future_votes_pq p) →
  future_votes p !! target_hash vd = Some box →
  let p' := (apply_promotion p latest (resolve env (promotion_candidates p latest))).1 in
  grows p p' ∧
  if due env latest vd then settled (verdict_map env (vote_messages box)) (target_hash vd) box p'
  else future_votes p' !! target_hash vd = Some box.
Proof.
  intros Hwf Hb Hvd Hbox. cbv zeta. destruct (resolve_due env p latest vd Hwf Hb Hvd) as [Hin Hres].
  unfold apply_promotion. destruct (promotion_loop _ _ _ _ _ _) as [[p1 promoted] deferred] eqn:Hl.
  pose proof (queued_NoDup _ _ (pw_future _ Hwf)) as Hnd.
  apply promotion_loop_settles in Hl as (Hg & Hframe & Hset); [|done|apply Hb]. cbn [fst].
  split; [done|]. unfold bucket_votes in Hres. rewrite Hbox in Hres.
  destruct (decide (vd ∈ reached latest (heap_iter (future_votes_pq p)))) as [Hr|Hr].
  - specialize (Hset vd Hr). rewrite (Hres Hr) in Hset. destruct (due env latest vd); [|pool_simpl; by rewrite Hset].
    apply (Hset box Hbox). intros e He. rewrite verdict_map_lookup; [eauto| |done].
    apply (bucket_hashes_NoDup _ _ _ (pw_core _ Hwf) Hbox).
  - destruct Hin as [?| ->]; [done|]. pool_simpl. rewrite Hframe; [done|].
    intros (x & Hx & Hxr)%list_elem_of_fmap. apply Hr.
    assert (x = vd) as <-; [|done]. apply list_elem_of_filter in Hxr as [_ Hxq].
    pose proof (find_by_key target_hash _ x Hnd Hxq) as Hfx. rewrite <- Hx in Hfx.
    rewrite (find_by_key target_hash _ vd Hnd Hvd) in Hfx. congruence.
Qed.

(** C21: a promotion pass within its budget (64 targets, 512 votes) is complete:
    it empties exactly the future buckets whose height is reached and whose
    block is held or long gone; each of their votes is served as a current
    vote if its origin checks out and is forgotten otherwise, so that it may be
    sent again; every other bucket waits on unchanged, and no current vote is
    lost. *)
Theorem promotion_complete env latest st :
  pool_wf (pool st) → within_budget (pool st) latest →
  let p := pool st in
  let p' := pool (promote_future_votes env latest st) in
  (∀ vd box, vd ∈ heap_iter (future_votes_pq p) → future_votes p !! target_hash vd = Some box →
     if due env latest vd
     then future_votes p' !! target_hash vd = None ∧
          ∀ e, e ∈ vote_messages box →
            if bool_decide (verify_vote_origin env (envelope e) = OriginOk)
            then envelope e ∈ fetch_vote_by_block_hash p' (target_hash vd)
            else contains p' (ve_hash e) = false
     else future_votes p' !! target_hash vd = Some box) ∧
  (∀ th v, v ∈ fetch_vote_by_block_hash p th → v ∈ fetch_vote_by_block_hash p' th).
Proof.
  intros Hwf Hb. cbv zeta. rewrite promote_future_votes_pool. set (p := pool st) in *.
  case_bool_decide as Hr.
  - split; [|done]. intros vd box Hvd Hbox. destruct (resolve_due env p latest vd Hwf Hb Hvd) as [Hin Hres].
    destruct (due env latest vd) eqn:Ed; [|done]. destruct Hin as [Hin|]; [|done].
    specialize (Hres Hin). by rewrite Hr, lookup_empty in Hres.
  - split; [intros vd box Hvd Hbox|].
    + destruct (apply_promotion_settles env p latest vd box Hwf Hb Hvd Hbox) as [_ Hset].
      destruct (due env latest vd); [|done]. destruct Hset as [Hnone Hset]. split; [done|]. intros e He.
      specialize (Hset e He). rewrite verdict_map_lookup in Hset;
        [|apply (bucket_hashes_NoDup _ _ _ (pw_core _ Hwf) Hbox)|done].
      case_bool_decide; [apply elem_of_fetch; exists e; split; [by apply Hset|done]|].
      unfold contains. apply bool_decide_eq_false_2. by apply Hset.
    + intros th v (e & He & Hv)%elem_of_fetch. apply elem_of_fetch. exists e. split; [|done].
      revert He. unfold apply_promotion. destruct (promotion_loop _ _ _ _ _ _) as [[p1 promoted] deferred] eqn:Hl.
      apply promotion_loop_settles in Hl as ([Hg _] & _); [|apply (queued_NoDup _ _ (pw_future _ Hwf))|apply Hb].
      apply Hg.
Qed.
End Promotion.
