(* ===== verification/VotePoolFinality.v ===== *)
(** * VotePoolFinality: from pooled votes to finality

    The votes the pool serves for a block all say the same thing.  Hence a
    finality notification rests on a quorum of distinct validators, and what a
    producer assembles from the pool is accepted by everyone: the pool's
    invariant discharges what [AttestationProps] asks of a view. *)

From stdpp Require Import base tactics numbers option list sorting gmap.
From Stdlib Require Import ZArith Lia Bool.
From S2P Require Import Prelude.
From S2P Require Import Hardforks.
From S2P Require Import Header.
From S2P Require Import Snapshot.
From S2P Require Import Extra.
From S2P Require Import ExtraProps.
From S2P Require Import Backoff.
From S2P Require Import Attestation.
From S2P Require Import AttestationProps.
From S2P Require Import Collections.
From S2P Require Import VoteMonitor.
From S2P Require Import VotePool.
From S2P Require Import VotePoolProps.
From S2P Require Import VotePoolClaims.
From S2P Require Import VotePoolPromotion.

(** BLS signatures are unique, and so is the compressed encoding of a point. *)
Class BlsUnique (B : BlsApi) := {
  signature_unique z z' s s' m k :
    signature_from_bytes z = Some s → signature_from_bytes z' = Some s' →
    verify_one s m k = true → verify_one s' m k = true → z = z';
}.

Section Finality.
Context `{L : LruApi, HashApi, B : BlsApi}.
Context {HP : HeapApi VoteData by_target} {HK : HeapApi (Z * Z) key_leb}.
Context {LL : LruLaws L} {HPL : HeapLaws HP} {HKL : HeapLaws HK}.
Implicit Types (p : VotePool) (v : VoteEnvelope) (st : PoolState) (env : Shared).

Definition snapshot_of env (h : Z) : option Snapshot := get_snapshot_provider env ≫= λ sp, sp h.

(** Two views of one chain: they may know different blocks, and agree on those
    both know. *)
Record same_chain env env' : Prop := {
  sc_header h x y : get_canonical_header_by_hash_from_provider env h = Some x →
                    get_canonical_header_by_hash_from_provider env' h = Some y → x = y;
  sc_snapshot h s t : snapshot_of env h = Some s → snapshot_of env' h = Some t → s = t;
  sc_genesis g g' : get_canonical_header_by_number env 0 = Some g →
                    get_canonical_header_by_number env' 0 = Some g' → g = g';
}.

Definition one_chain (Env : Shared → Prop) : Prop := ∀ env env', Env env → Env env' → same_chain env env'.

(** ** What a vote of good origin says *)

Lemma justified_pair_iff env h j :
  justified_pair_for_hash env h = Some j ↔
  ∃ snap, snapshot_of env h = Some snap ∧
    justified_pair_of (vote_data snap)
      (genesis ← get_canonical_header_by_number env 0; Some (number genesis, hash_slow genesis)) = Some j.
Proof.
  unfold justified_pair_for_hash, snapshot_of. destruct (get_snapshot_provider env) as [sp|]; cbn; [|naive_solver].
  destruct (sp h); cbn; naive_solver.
Qed.

(** A branch that rejects contradicts what acceptance needs. *)
Ltac refuted := split; [done|]; intros (? & ? & ? & ? & ? & ? & ?); congruence.

Lemma origin_ok env v :
  verify_vote_origin env v = OriginOk ↔
  ∃ hd parent_snap,
    get_canonical_header_by_hash_from_provider env (target_hash (data v)) = Some hd ∧
    number hd = target_number (data v) ∧
    justified_pair_for_hash env (target_hash (data v)) = Some (source_number (data v), source_hash (data v)) ∧
    snapshot_of env (parent_hash hd) = Some parent_snap ∧
    has_vote_addr (validators_map parent_snap) (vote_address v) = true.
Proof.
  unfold verify_vote_origin, snapshot_of.
  destruct (get_canonical_header_by_hash_from_provider env _) as [hd|]; [|refuted].
  destruct (Z.eqb_spec (number hd) (target_number (data v))) as [Hn|Hn]; cbn [negb]; [|refuted].
  destruct (justified_pair_for_hash env _) as [[jn jh]|]; [|refuted].
  destruct (Z.eqb_spec (source_number (data v)) jn) as [Hs|Hs]; cbn [negb orb]; [|refuted].
  destruct (Z.eqb_spec (source_hash (data v)) jh) as [Hh|Hh]; cbn [negb]; [|refuted].
  destruct (get_snapshot_provider env) as [sp|]; cbn; [|refuted].
  destruct (sp (parent_hash hd)) as [ps|] eqn:Esp; [|refuted].
  destruct (has_vote_addr _ _) eqn:Ha; [|refuted].
  split; [|done]. intros _. exists hd, ps. rewrite Hn, Hs, Hh. auto.
Qed.

Lemma same_chain_justified env env' h j j' :
  same_chain env env' → justified_pair_for_hash env h = Some j → justified_pair_for_hash env' h = Some j' → j = j'.
Proof.
  intros Hc (s & Hs & Hj)%justified_pair_iff (s' & Hs' & Hj')%justified_pair_iff.
  rewrite (sc_snapshot _ _ Hc _ _ _ Hs Hs') in Hj. unfold justified_pair_of in *. case_if; [|congruence].
  destruct (get_canonical_header_by_number env 0) as [g|] eqn:Eg; [|done].
  destruct (get_canonical_header_by_number env' 0) as [g'|] eqn:Eg'; [|done].
  rewrite (sc_genesis _ _ Hc _ _ Eg Eg') in Hj. cbn in *. congruence.
Qed.

(** Good votes for one block on one chain carry the same data. *)
Lemma origin_data env env' v v' :
  same_chain env env' → verify_vote_origin env v = OriginOk → verify_vote_origin env' v' = OriginOk →
  target_hash (data v) = target_hash (data v') → data v = data v'.
Proof.
  intros Hc (hd & _ & Hh & Hn & Hj & _)%origin_ok (hd' & _ & Hh' & Hn' & Hj' & _)%origin_ok Ht.
  rewrite Ht in Hh, Hj. pose proof (sc_header _ _ Hc _ _ _ Hh Hh') as <-.
  pose proof (same_chain_justified _ _ _ _ _ Hc Hj Hj') as Heq.
  destruct (data v), (data v'). cbn in *. congruence.
Qed.

(** ** The votes of one bucket *)

Lemma served_vote Env p th v :
  Inj (=) (=) envelope_hash → pool_reachable Env p → v ∈ fetch_vote_by_block_hash p th →
  target_hash (data v) = th ∧ verify_vote_envelope v = true ∧ ∃ env, Env env ∧ verify_vote_origin env v = OriginOk.
Proof.
  intros Hinj Hr Hv. pose proof (pool_reachable_wf _ _ Hr) as Hwf.
  destruct (pool_reachable_votes _ _ Hinj Hr) as [Hc _]. unfold fetch_vote_by_block_hash in Hv.
  destruct (cur_votes p !! th) as [vm|] eqn:Hk; [|by apply elem_of_nil in Hv].
  apply list_elem_of_fmap in Hv as (e & -> & He). split.
  - apply (bk_entries _ _ (cw_cur _ (pw_core _ Hwf) th vm Hk) e He).
  - apply Hc, elem_of_entries. by exists th, vm.
Qed.

Lemma served_data Env p th v v' :
  Inj (=) (=) envelope_hash → one_chain Env → pool_reachable Env p →
  v ∈ fetch_vote_by_block_hash p th → v' ∈ fetch_vote_by_block_hash p th → data v = data v'.
Proof.
  intros Hinj Hone Hr Hv Hv'.
  destruct (served_vote _ _ _ _ Hinj Hr Hv) as (Ht & _ & env & He & Ho).
  destruct (served_vote _ _ _ _ Hinj Hr Hv') as (Ht' & _ & env' & He' & Ho').
  apply (origin_data env env'); [by apply Hone|done|done|congruence].
Qed.

Lemma verified_signature v v' `{!BlsUnique B} :
  verify_vote_envelope v = true → verify_vote_envelope v' = true →
  vote_address v = vote_address v' → data v = data v' → v = v'.
Proof.
  unfold verify_vote_envelope. intros Hv Hv' Ha Hd. rewrite <- Ha in Hv'.
  destruct (public_key_from_bytes _) as [k|]; [|done].
  destruct (signature_from_bytes (signature v)) as [s|] eqn:Es; [|done].
  destruct (signature_from_bytes (signature v')) as [s'|] eqn:Es'; [|done]. rewrite <- Hd in Hv'.
  pose proof (signature_unique _ _ _ _ _ _ Es Es' Hv Hv'). destruct v, v'; cbn in *. congruence.
Qed.

(** One vote per validator: the pool cannot hold two for one block. *)
Lemma served_votes_distinct Env p th `{!BlsUnique B} :
  Inj (=) (=) envelope_hash → one_chain Env → pool_reachable Env p →
  NoDup (vote_address <$> fetch_vote_by_block_hash p th).
Proof.
  intros Hinj Hone Hr. pose proof (pool_reachable_wf _ _ Hr) as Hwf.
  apply NoDup_fmap_2_strong.
  - intros v v' Hv Hv' Ha. pose proof (served_data _ _ _ _ _ Hinj Hone Hr Hv Hv') as Hd.
    destruct (served_vote _ _ _ _ Hinj Hr Hv) as (_ & Hs & _).
    destruct (served_vote _ _ _ _ Hinj Hr Hv') as (_ & Hs' & _). by apply verified_signature.
  - unfold fetch_vote_by_block_hash. destruct (cur_votes p !! th) as [vm|] eqn:Hk; [|constructor].
    apply (NoDup_fmap_1 envelope_hash). rewrite <- list_fmap_compose.
    assert (Heq : (envelope_hash ∘ envelope) <$> vote_messages vm = ve_hash <$> vote_messages vm).
    { apply list_fmap_ext. intros i e He%list_elem_of_lookup_2. cbn.
      by destruct (bk_entries _ _ (cw_cur _ (pw_core _ Hwf) th vm Hk) e He) as [_ ->]. }
    rewrite Heq. destruct (cw_counts _ (pw_core _ Hwf)) as [Hnd _ _]. unfold hashes in Hnd.
    rewrite (entries_delete _ _ _ Hk), !fmap_app in Hnd. by apply NoDup_app in Hnd as ((? & _)%NoDup_app & _).
Qed.

(** ** The notification *)

Lemma finality_head_Some env st th head snap :
  finality_head env st th = Some (head, snap) →
  get_best_canonical_block_number env ≫= get_canonical_header_by_number env = Some head ∧
  hash_slow head = th ∧ snapshot_of env th = Some snap ∧ number head = target_number (vote_data snap) + 1.
Proof.
  unfold finality_head, snapshot_of. intros Hf. destruct (lru_peek _ _); [done|].
  destruct (get_best_canonical_block_number env) as [n|]; [|done]. cbn in *.
  destruct (get_canonical_header_by_number env n) as [hd|]; [|done]. cbn in *.
  destruct (Z.eqb_spec (hash_slow hd) th); [|done]. cbn in *.
  destruct (get_snapshot_provider env) as [sp|]; [|done]. cbn in *.
  destruct (sp th) as [sn|]; [|done]. cbn in *. case_bool_decide; [done|].
  destruct (Z.eqb_spec (number hd) 0); [done|].
  destruct (Z.eqb_spec (number hd - 1) (target_number (vote_data sn))); [|done]. cbn in *.
  injection Hf as <- <-. split_and!; try done. lia.
Qed.

Lemma notified_once env th n st :
  lru_peek (finalized_notified st) th = Some tt → maybe_notify_finality env th n st = st.
Proof. intros Hp. unfold maybe_notify_finality, finality_head. by rewrite Hp. Qed.

Lemma notify_remembers th head engine st :
  NoDup (lru_iter (finalized_notified st)).*1 → 0 < lru_cap (finalized_notified st) →
  lru_peek (finalized_notified (notify th head engine st)) th = Some tt.
Proof.
  intros Hnd Hcap. cbn. rewrite lru_peek_value. apply assoc_NoDup; [by apply lru_put_NoDup|by apply lru_put_self].
Qed.

(** C20: the pool tells the engine that a block is justified only on a quorum: a
    call of [maybe_notify_finality] does nothing, or the target is the
    canonical head, its parent is the justified block, and at least two thirds
    of the validators, all distinct, cast a correctly signed vote of verified
    origin with that source and target; and the next call for that head does not
    repeat it. *)
Theorem finality_by_quorum (Env : Shared → Prop) env th n st `{!BlsUnique B} :
  Inj (=) (=) envelope_hash → one_chain Env → pool_reachable Env (pool st) →
  NoDup (lru_iter (finalized_notified st)).*1 → 0 < lru_cap (finalized_notified st) →
  let st' := maybe_notify_finality env th n st in
  st' = st ∨
  ∃ head snap votes,
    st' = notify th head (has_fork_choice_engine env) st ∧
    get_best_canonical_block_number env ≫= get_canonical_header_by_number env = Some head ∧
    hash_slow head = th ∧ snapshot_of env th = Some snap ∧ number head = target_number (vote_data snap) + 1 ∧
    NoDup (vote_address <$> votes) ∧ 2 * zlen (validators snap) <= 3 * zlen votes ∧
    (∀ v, v ∈ votes →
       verify_vote_envelope v = true ∧ (∃ env', Env env' ∧ verify_vote_origin env' v = OriginOk) ∧
       target_hash (data v) = th ∧ target_number (data v) = number head ∧
       source_number (data v) = target_number (vote_data snap)) ∧
    (∀ env' n', maybe_notify_finality env' th n' st' = st').
Proof.
  intros Hinj Hone Hr Hnd Hcap. cbv zeta. remember (maybe_notify_finality env th n st) as st' eqn:Hst.
  unfold maybe_notify_finality in Hst. destruct (finality_head env st th) as [[head snap]|] eqn:Hf; [|by left].
  apply finality_head_Some in Hf as (Hhead & Hhash & Hsnap & Hnum). cbv zeta in Hst.
  set (votes := filter _ (fetch_vote_by_block_hash (pool st) th)) in Hst.
  destruct (Z.ltb_spec n (div_ceil (zlen (validators snap) * 2) 3)) as [|_]; [by left|].
  destruct (Z.ltb_spec (zlen votes) (div_ceil (zlen (validators snap) * 2) 3)) as [|Hq]; [by left|].
  right. exists head, snap, votes. split_and!; try done.
  - eapply sublist_NoDup; [by apply (served_votes_distinct Env (pool st) th)|]. apply fmap_sublist, sublist_filter.
  - unfold div_ceil in Hq. pose proof (Z.mod_pos_bound (zlen (validators snap) * 2 + 3 - 1) 3 ltac:(lia)).
    pose proof (Z.div_mod (zlen (validators snap) * 2 + 3 - 1) 3 ltac:(lia)). lia.
  - intros v [[Hs Ht] Hv]%list_elem_of_filter. destruct (served_vote _ _ _ _ Hinj Hr Hv) as (Hth & Hsig & Ho). done.
  - intros env' n'. subst st'. by apply notified_once, notify_remembers.
Qed.

(** ** Votes for an attestation *)

(** No vote in the pool can spoil an attestation: for a target block the
    node holds, the votes [fetch_vote_by_block_hash_and_source_number] returns
    all pass the producer's comparison with the data it attests, so
    [assemble_vote_attestation] never fails with [FetchVoteError] there. *)
Theorem pooled_votes_check Env p t jn jh :
  Inj (=) (=) envelope_hash → pool_reachable Env p →
  (∀ env x, Env env → get_canonical_header_by_hash_from_provider env (hash_slow t) = Some x → x = t) →
  (∀ env jh', Env env → justified_pair_for_hash env (hash_slow t) = Some (jn, jh') → jh' = jh) →
  check_votes {| source_number := jn; source_hash := jh; target_number := number t; target_hash := hash_slow t |}
    (pool_fetch_by_source p (hash_slow t) jn) = Done tt.
Proof.
  intros Hinj Hr Ht Hj.
  assert (Hall : ∀ v, v ∈ pool_fetch_by_source p (hash_slow t) jn →
    data v = {| source_number := jn; source_hash := jh; target_number := number t; target_hash := hash_slow t |}).
  { intros v [Hs Hv]%list_elem_of_filter. destruct (served_vote _ _ _ _ Hinj Hr Hv) as (Hth & _ & env & He & Ho).
    apply origin_ok in Ho as (hd & ps & Hh & Hn & Hp & _). rewrite Hth in Hh, Hp. apply Ht in Hh as ->; [|done].
    rewrite Hs in Hp. apply Hj in Hp; [|done]. destruct (data v); cbn in *. congruence. }
  induction (pool_fetch_by_source p (hash_slow t) jn) as [|v votes IH]; [done|]. cbn [check_votes].
  rewrite (Hall v) by (by left). rewrite Z.eqb_refl. cbn [negb]. apply IH. intros w Hw. apply Hall. by right.
Qed.

Lemma verified_vote_valid v `{!BlsLaws B} : verify_vote_envelope v = true → vote_valid v.
Proof.
  unfold verify_vote_envelope, vote_valid. intros Hv.
  destruct (public_key_from_bytes (vote_address v)) as [k|]; [|done].
  destruct (signature_from_bytes (signature v)) as [s|]; [|done].
  exists k, s. by rewrite verify_one_aggregate in Hv.
Qed.

Lemma served_votes_valid Env p th jn `{!BlsLaws B} :
  Inj (=) (=) envelope_hash → pool_reachable Env p → Forall vote_valid (pool_fetch_by_source p th jn).
Proof.
  intros Hinj Hr. apply Forall_forall. intros v [_ Hv]%list_elem_of_filter.
  destruct (served_vote _ _ _ _ Hinj Hr Hv) as (_ & Hs & _). by apply verified_vote_valid.
Qed.

(** A node whose votes come from the pool [p]. *)
Record node_view (view : ChainView) p : Prop := {
  nv_cache x hd : provider_header_by_hash view x = Some hd → get_header_by_hash_from_cache view x = Some hd;
  nv_older x hd : get_header_by_hash_from_cache view x = Some hd → older_parent view hd;
  nv_snaps x s : snapshot_by_hash view x = Some s → committee_ok s;
  nv_votes th jn : fetch_vote_by_block_hash_and_source_number view th jn = pool_fetch_by_source p th jn;
}.

Lemma node_view_ok Env view p `{!BlsLaws B} :
  Inj (=) (=) envelope_hash → pool_reachable Env p → node_view view p → view_ok view.
Proof.
  intros Hinj Hr [Hc Ho Hs Hv]. split; [done|done|done|]. intros th jn. rewrite Hv. by apply (served_votes_valid Env).
Qed.

Context `{F : ForkConditionApi, R : AttestationRlp}.
Context `{RL : !AttestationRlpLaws R, BL : !BlsLaws B}.

(** C33: the pool and the attestation code fit together: whatever votes arrived,
    in whatever order and interleaving, an attestation that
    [assemble_vote_attestation] builds from the pool is accepted by
    [verify_vote_attestation] once the block is sealed.  The headers the node
    knows, and the parent of the block, are younger than their parents. *)
Theorem pool_attestation_accepted Env p self view snap parent h h' seal :
  Inj (=) (=) envelope_hash → pool_reachable Env p → node_view view p →
  older_parent view parent → justified_known view snap →
  ready_for_attestation self (epoch_num snap) h → zlen seal = 65 →
  assemble_vote_attestation self view snap parent h = Done h' → h' ≠ h →
  verify_vote_attestation self view snap (append_extra seal h') parent = Done tt.
Proof. intros Hinj Hr Hv. apply assembled_verifies, (node_view_ok Env view p Hinj Hr Hv). Qed.
End Finality.
