(* ===== verification/VotePoolDemo.v ===== *)
(** * VotePoolDemo: the vote pool on a concrete network

    List heaps and caches, the BLS scheme and the chain of [AttestationDemo];
    the theorems on the pool applied to states it reaches, and a scenario in
    which one stale vote evicts good ones. *)

From stdpp Require Import gmultiset countable.
From stdpp Require Import base tactics numbers option list sorting gmap fin_maps.
From Stdlib Require Import ZArith Lia Bool.
From S2P Require Import Prelude.
From S2P Require Import Hardforks.
From S2P Require Import Header.
From S2P Require Import Snapshot.
From S2P Require Import SnapshotProps.
From S2P Require Import SnapshotClaims.
From S2P Require Import Extra.
From S2P Require Import ExtraProps.
From S2P Require Import Backoff.
From S2P Require Import Attestation.
From S2P Require Import AttestationProps.
From S2P Require Import AttestationDemo.
From S2P Require Import Collections.
From S2P Require Import VoteMonitor.
From S2P Require Import VotePool.
From S2P Require Import VotePoolProps.
From S2P Require Import VotePoolClaims.
From S2P Require Import VotePoolPromotion.
From S2P Require Import VotePoolFinality.

Module PoolNet.
Import ThresholdForks DemoApis DemoChain ExtraDemo TaggedRlp AttestationNet ListContainers.

#[export] Instance target_heap : HeapApi VoteData by_target := list_heap by_target.
#[export] Instance target_heap_laws : HeapLaws target_heap.
Proof. apply list_heap_laws; unfold by_target; intros; rewrite ?Z.leb_le in *; lia. Qed.

#[export] Instance key_heap : HeapApi (Z * Z) key_leb := list_heap key_leb.
#[export] Instance key_heap_laws : HeapLaws key_heap.
Proof.
  apply list_heap_laws; unfold key_leb; intros; rewrite ?orb_true_iff, ?andb_true_iff, ?Z.ltb_lt, ?Z.eqb_eq, ?Z.leb_le in *; lia.
Qed.

#[export] Instance demo_bls_unique : BlsUnique demo_bls.
Proof.
  split. intros z z' s s' m k Hz Hz' Hs Hs'.
  assert (Hdec : ∀ z s, signature_from_bytes z = Some s → z = Zpos (encode s)).
  { clear. intros [|q|q] s Hz; try done. cbn in Hz. destruct (decode q) as [t|]; [|done]. cbn in Hz.
    case_bool_decide; [|done]. by injection Hz as <-; subst. }
  apply bool_decide_eq_true_1 in Hs, Hs'. rewrite (Hdec z s Hz), (Hdec z' s' Hz'). by rewrite Hs, Hs'.
Qed.

Lemma envelope_hash_inj : Inj (=) (=) envelope_hash.
Proof.
  intros [a s [sn sh tn th]] [a' s' [sn' sh' tn' th']] Heq. cbn in Heq. injection Heq as Heq%(inj encode).
  by injection Heq as -> -> -> -> -> ->.
Qed.

(** A node whose head is block [top + 1]; [justified] is the vote data of the
    head's snapshot. *)
Definition head_snapshot (justified : VoteData) : Snapshot :=
  {| epoch_num := epoch_num s1; block_number := block_number s1; block_hash := block_hash s1;
     validators := validators s1; validators_map := validators_map s1; recent_proposers := recent_proposers s1;
     vote_data := justified; turn_length := turn_length s1; block_interval := block_interval s1;
     recent_fork_hashes := recent_fork_hashes s1 |}.

Definition node (justified : VoteData) : Shared := {|
  get_best_canonical_block_number := Some (top + 1);
  get_canonical_header_by_number n :=
    if n =? top + 1 then Some h1 else if n =? 0 then Some (demo_header 0 0) else None;
  header_by_hash_provider := Some (λ h, if h =? 7000 + (top + 1) then Some h1 else None);
  get_snapshot_provider := Some (λ h,
    if h =? 7000 + top then Some s0 else if h =? 7000 + (top + 1) then Some (head_snapshot justified) else None);
  has_fork_choice_engine := true;
|}.

Definition put (env : Shared) (st : PoolState) (v : VoteEnvelope) : PoolState := default st (put_vote env v st).

Definition returns {A} (o : option A) : bool := match o with Some _ => true | None => false end.

Lemma returned {A} (d : A) (o : option A) : returns o = true → o = Some (default d o).
Proof. by destruct o. Qed.

Lemma put_reachable Env env st v : Env env → pool_reachable Env (pool st) → pool_reachable Env (pool (put env st v)).
Proof.
  intros He Hr. unfold put. destruct (put_vote env v st) as [st'|] eqn:Hp; [|done].
  by apply (put_vote_reachable Env env v st).
Qed.

(** ** Votes for the head, nothing justified yet *)

Definition env0 : Shared := node VoteData_default.
Definition st2 : PoolState := foldl (put env0) state_new [vote_by 1; vote_by 2].

Lemma st2_reachable : pool_reachable (eq env0) (pool st2).
Proof. do 2 (apply put_reachable; [done|]). apply reach_new. Qed.

Example st2_votes : fetch_vote_by_block_hash (pool st2) (7000 + (top + 1)) = [vote_by 1; vote_by 2] ∧ pool_len (pool st2) = 2.
Proof. by vm_compute. Qed.

Lemma pool_invariant_witness : pool_wf (pool st2).
Proof. apply (pool_invariant (eq env0) (pool st2)); [apply envelope_hash_inj|apply st2_reachable]. Defined.

Lemma put_vote_returns_witness : ∃ st', put_vote env0 (vote_by 3) st2 = Some st' ∧ pool_reachable (eq env0) (pool st').
Proof.
  apply (put_vote_returns (eq env0) env0 (vote_by 3) st2);
    [done|apply st2_reachable|split; by vm_compute|split; [by vm_compute|by vm_compute]].
Defined.

(** Any vote data, signed by the key of [addr]. *)
Definition signed (addr : Z) (d : VoteData) : VoteEnvelope :=
  {| vote_address := addr; signature := signature_to_bytes ({[+ (addr, vote_data_hash d) +]} : gmultiset (Z * Z)); data := d |}.

(** A validator votes for the head from a source that is not justified. *)
Definition wrong_source : VoteEnvelope :=
  signed 1 {| source_number := 5; source_hash := 7005; target_number := top + 1; target_hash := 7000 + (top + 1) |}.

Lemma rejected_for_good_witness :
  rejected_votes (put env0 st2 wrong_source) = lru_put (rejected_votes st2) (envelope_hash wrong_source) tt.
Proof.
  destruct (rejected_for_good env0 wrong_source st2 (put env0 st2 wrong_source)) as [Hr _];
    [apply returned; by vm_compute| |exact Hr].
  intros E%(f_equal (Nat.eqb 1 ∘ length ∘ lru_iter)). vm_compute in E. discriminate E.
Defined.

Lemma st2_wf : pool_wf (pool st2).
Proof. apply (pool_reachable_wf _ _ st2_reachable). Qed.

Lemma prune_exact_witness :
  pool_wf (prune (pool st2) (top + 257)) ∧ pool_len (prune (pool st2) (top + 257)) = 0 ∧
  pool_len (prune (pool st2) (top + 256)) = 2.
Proof.
  split; [apply (prune_exact (pool st2) (top + 257)); [apply st2_wf|by vm_compute]|]. split; by vm_compute.
Defined.

Definition st3 : VotePool := (default (pool st2, None) (admit_vote (vote_by 3) (top + 1) false false true (pool st2))).1.

Lemma st3_admitted : admit_vote (vote_by 3) (top + 1) false false true (pool st2) = Some (st3, Some 3).
Proof.
  rewrite (returned (pool st2, None) (admit_vote _ _ _ _ _ _)) by (by vm_compute). unfold st3.
  rewrite (surjective_pairing (default _ _)) at 1. by do 2 f_equal.
Qed.

Lemma pool_size_bounded_witness : pool_len st3 = 3 ∧ (pool_len st3 <= MAX_VOTES_IN_POOL ∨ future_votes st3 = ∅).
Proof.
  split; [vm_compute; reflexivity|].
  destruct (pool_size_bounded (vote_by 3) (top + 1) false false true (pool st2) st3 3) as [_ Hb];
    [apply st2_wf|apply st3_admitted|exact Hb].
Defined.

(** Epoch 200, the set changes two blocks into it: block 402 lies between. *)
Lemma governing_sets_differ_iff_witness :
  governing_sets_differ 401 404 200 2 = true ∧ ∃ n, 401 < n <= 403 ∧ n mod 200 = 2.
Proof.
  split; [by vm_compute|]. apply (governing_sets_differ_iff 401 404 200 2); [lia..|by vm_compute].
Defined.

(** ** Future votes *)

(** The node at block [top]: the target of the votes is not known yet. *)
Definition env_before : Shared := {|
  get_best_canonical_block_number := Some top;
  get_canonical_header_by_number n :=
    if n =? top then Some (demo_header top 0) else if n =? 0 then Some (demo_header 0 0) else None;
  header_by_hash_provider := Some (λ _, None);
  get_snapshot_provider := Some (λ h, if h =? 7000 + top then Some s0 else None);
  has_fork_choice_engine := true;
|}.

(** The second vote cites a wrong source, which shows only at promotion. *)
Definition st_future : PoolState := foldl (put env_before) state_new [vote_by 1; wrong_source; vote_by 2].

Lemma st_future_wf : pool_wf (pool st_future).
Proof.
  apply (pool_reachable_wf (eq env_before)). do 3 (apply put_reachable; [done|]). apply reach_new.
Qed.

Definition st_promoted : PoolState := promote_future_votes env0 (top + 1) st_future.

Lemma promotion_complete_witness :
  fetch_vote_by_block_hash (pool st_future) (7000 + (top + 1)) = [] ∧
  fetch_vote_by_block_hash (pool st_promoted) (7000 + (top + 1)) = [vote_by 1; vote_by 2] ∧
  future_votes (pool st_promoted) !! (7000 + (top + 1)) = None.
Proof.
  split; [by vm_compute|]. split; [by vm_compute|].
  destruct (promotion_complete env0 (top + 1) st_future) as [Hp _];
    [apply st_future_wf|split; vm_compute; lia|].
  specialize (Hp vote_d (default no_messages (future_votes (pool st_future) !! (7000 + (top + 1))))).
  destruct Hp as [Hn _]; [vm_compute; by left|vm_compute; reflexivity|exact Hn].
Defined.

(** ** Finality *)

(** The parent of the head is justified; two of three validators vote for the head. *)
Definition justified_top : VoteData :=
  {| source_number := 0; source_hash := 7000; target_number := top; target_hash := 7000 + top |}.
Definition env1 : Shared := node justified_top.
Definition final_d : VoteData :=
  {| source_number := top; source_hash := 7000 + top; target_number := top + 1; target_hash := 7000 + (top + 1) |}.
Definition st_final : PoolState := foldl (put env1) state_new [signed 1 final_d; signed 2 final_d].

Example quorum_notifies : number <$> forkchoice_updates st_final = [top + 1].
Proof. by vm_compute. Qed.

(** The same pool, its notification cache cold. *)
Definition cold (st : PoolState) : PoolState := {|
  pool := pool st; last_pruned_block := last_pruned_block st; rejected_votes := rejected_votes st;
  finalized_notified := lru_new FINALIZED_NOTIFIED_CACHE_SIZE; forkchoice_updates := [] |}.

Lemma cold_reachable Env st : pool_reachable Env (pool st) → pool_reachable Env (pool (cold st)).
Proof. done. Qed.

Lemma one_node env : one_chain (eq env).
Proof. intros ? ? <- <-. split; intros; congruence. Qed.

Lemma st_final_reachable : pool_reachable (eq env1) (pool st_final).
Proof. do 2 (apply put_reachable; [done|]). apply reach_new. Qed.

Definition notified : PoolState := maybe_notify_finality env1 (7000 + (top + 1)) 2 (cold st_final).

Lemma finality_by_quorum_witness :
  (number <$> forkchoice_updates notified = [top + 1]) ∧
  ∃ votes, NoDup (vote_address <$> votes) ∧ 2 * 3 <= 3 * zlen votes.
Proof.
  split; [by vm_compute|].
  destruct (finality_by_quorum (eq env1) env1 (7000 + (top + 1)) 2 (cold st_final))
    as [Hst|(head & snap & votes & _ & _ & _ & Hs & _ & Hnd & Hq & _)].
  - apply envelope_hash_inj.
  - apply one_node.
  - apply cold_reachable, st_final_reachable.
  - constructor.
  - done.
  - apply (f_equal (length ∘ forkchoice_updates)) in Hst. vm_compute in Hst. discriminate Hst.
  - exists votes. split; [exact Hnd|]. injection Hs as <-. exact Hq.
Defined.

(** ** Attestations from the pool *)

Definition pool_view : ChainView := {|
  cached_header_by_hash := cached_header_by_hash view;
  provider_header_by_hash := provider_header_by_hash view;
  cached_header_by_number := cached_header_by_number view;
  provider_header_by_number := provider_header_by_number view;
  snapshot_by_hash := snapshot_by_hash view;
  fetch_vote_by_block_hash_and_source_number := pool_fetch_by_source (pool st2);
|}.

Lemma pool_view_node : node_view pool_view (pool st2).
Proof. split; [apply (vo_cache view view_consistent)|apply (vo_older view view_consistent)|apply (vo_snaps view view_consistent)|done]. Qed.

Definition pool_attested : Header := get_done h2 (assemble_vote_attestation parlia pool_view s1 h1 h2).

Lemma done_get {E A} (d : A) (m : exec E A) : exec_ok m = true → m = Done (get_done d m).
Proof. by destruct m. Qed.

Lemma pool_attestation_accepted_witness :
  verify_vote_attestation parlia pool_view s1 (append_extra (replicate 65 9) pool_attested) h1 = Done tt.
Proof.
  apply (pool_attestation_accepted (eq env0) (pool st2) parlia pool_view s1 h1 h2 pool_attested (replicate 65 9));
    [apply envelope_hash_inj|apply st2_reachable|apply pool_view_node|apply view_h1|by apply s1_justified
    |by vm_compute|done|apply done_get; by vm_compute|].
  intros Ee%(f_equal (zlen ∘ extra_data)). by vm_compute in Ee.
Defined.

Lemma pooled_votes_check_witness :
  zlen (pool_fetch_by_source (pool st2) (hash_slow h1) 0) = 2 ∧
  check_votes {| source_number := 0; source_hash := 7000; target_number := number h1; target_hash := hash_slow h1 |}
    (pool_fetch_by_source (pool st2) (hash_slow h1) 0) = Done tt.
Proof.
  split; [by vm_compute|].
  apply (pooled_votes_check (eq env0) (pool st2) h1 0 7000); [apply envelope_hash_inj|apply st2_reachable| |].
  - intros env x <- Hx. by injection Hx as <-.
  - intros env jh' <- Hj. by injection Hj as <-.
Defined.

(** ** One stale vote evicts good ones *)

(** The node advances to [top + 1] on another branch: block 9001 at height
    [top + 2] is still unknown. *)
Definition env_next : Shared := {|
  get_best_canonical_block_number := Some (top + 1);
  get_canonical_header_by_number := get_canonical_header_by_number env0;
  header_by_hash_provider := header_by_hash_provider env0;
  get_snapshot_provider := get_snapshot_provider env0;
  has_fork_choice_engine := true;
|}.

Definition future_d (n : Z) : VoteData :=
  {| source_number := 0; source_hash := 7000; target_number := n; target_hash := 9001 |}.
(** Votes of two validators for the block to come, and one of the third with the
    same hash and a height 100 blocks back. *)
Definition good_votes : list VoteEnvelope := [signed 1 (future_d (top + 2)); signed 2 (future_d (top + 2))].
Definition stale_vote : VoteEnvelope := signed 3 (future_d (top - 100)).

Definition held (st : PoolState) (v : VoteEnvelope) : bool := contains (pool st) (envelope_hash v).

(** The queue entry of a future bucket carries the height of its first vote
    only, and promotion takes the whole bucket as expired by it: after a stale
    vote of one validator for the same hash, the next head advance drops every
    vote that waits for the block, although its height is still ahead; without
    the stale vote they are kept. *)
Theorem stale_vote_evicts :
  let kept := foldl (put env_before) state_new good_votes in
  let spoiled := foldl (put env_before) state_new (stale_vote :: good_votes) in
  map (held kept) good_votes = [true; true] ∧ map (held spoiled) good_votes = [true; true] ∧
  map (held (put env_next kept (vote_by 1))) good_votes = [true; true] ∧
  map (held (put env_next spoiled (vote_by 1))) good_votes = [false; false].
Proof. by vm_compute. Qed.
End PoolNet.
