(* ===== verification/VoteJournal.v ===== *)
(** * VoteJournal: the votes this node has signed

    Models [src/node/vote_journal.rs]: the rules a validator checks before it
    releases a vote, the first-in first-out cache they are checked against, and
    the file the cache is restored from after a restart.  JSON is a parameter;
    what the file system answers to an append is an argument. *)

From stdpp Require Import base tactics numbers option list gmap.
From Stdlib Require Import ZArith Lia Bool.
From S2P Require Import Prelude.
From S2P Require Import Header.
From S2P Require Import Collections.
From S2P Require Import VoteMonitor.

Definition MAX_RECENT_ENTRIES : nat := 512.

(** ** The cache *)

Record VoteDataLru := { capacity : nat; order : list Z; lru_map : gmap Z VoteData }.

Definition votes_new (n : nat) : VoteDataLru := {| capacity := n; order := []; lru_map := ∅ |}.

(** [VoteDataLru::add] *)
Definition votes_add (self : VoteDataLru) (key : Z) (value : VoteData) : VoteDataLru :=
  let self :=
    match lru_map self !! key with
    | Some _ => self
    | None =>
        let order' := order self ++ [key] in
        if Nat.ltb (capacity self) (length order')
        then match order' with
             | old :: rest => {| capacity := capacity self; order := rest; lru_map := delete old (lru_map self) |}
             | [] => {| capacity := capacity self; order := order'; lru_map := lru_map self |}
             end
        else {| capacity := capacity self; order := order'; lru_map := lru_map self |}
    end in
  {| capacity := capacity self; order := order self; lru_map := <[key := value]> (lru_map self) |}.

(** ** The rules *)

(** [while block_number < target_number] *)
Fixpoint scan_backward (fuel : nat) (m : gmap Z VoteData) (block_number source_number' target_number' : Z) : option bool :=
  match fuel with
  | O => None
  | S fuel =>
      if block_number <? target_number'
      then
        let bad := match m !! block_number with
                   | Some vd => source_number' <? source_number vd
                   | None => false end in
        if bad then Some false
        else scan_backward fuel m (add64 block_number 1) source_number' target_number'
      else Some true
  end.

(** [while bn <= upper] *)
Fixpoint scan_forward (fuel : nat) (m : gmap Z VoteData) (bn source_number' upper : Z) : option bool :=
  match fuel with
  | O => None
  | S fuel =>
      if bn <=? upper
      then
        let bad := match m !! bn with
                   | Some vd => source_number vd <? source_number'
                   | None => false end in
        if bad then Some false else scan_forward fuel m (add64 bn 1) source_number' upper
      else Some true
  end.

(** At most 256 heights behind and 11 ahead are visited. *)
Definition rules_fuel : nat := 257.

(** [None]: out of fuel. *)
Definition under_rules (self : VoteDataLru) (source_number' target_number' : Z) : option bool :=
  if bool_decide (is_Some (lru_map self !! target_number')) then Some false
  else
    let block_number := sat_add64 source_number' 1 in
    let block_number :=
      if add64 block_number MALICIOUS_VOTE_SLASH_SCOPE <? target_number'
      then sat_sub64 target_number' MALICIOUS_VOTE_SLASH_SCOPE else block_number in
    back ← scan_backward rules_fuel (lru_map self) block_number source_number' target_number';
    if negb back then Some false
    else scan_forward rules_fuel (lru_map self) (add64 target_number' 1) source_number'
           (add64 target_number' UPPER_LIMIT_OF_VOTE_BLOCK_NUMBER).

(** ** The file *)

(** [serde_json] on [VoteEnvelope]. *)
Class JsonApi := {
  to_json : VoteEnvelope → option bytes;
  from_json : bytes → option VoteEnvelope;
}.

(** A line of JSON is ASCII on one line and is read back. *)
Class JsonLaws (J : JsonApi) := {
  json_roundtrip e l : to_json e = Some l → from_json l = Some e;
  json_ascii e l : to_json e = Some l → Forall (λ c, 32 <= c < 127) l;
  json_nonempty e l : to_json e = Some l → l ≠ [];
}.

Definition in_range (a b c : Z) : bool := (a <=? c) && (c <=? b).

(** [str::from_utf8] *)
Fixpoint utf8_valid (l : bytes) : bool :=
  match l with
  | [] => true
  | a :: l1 =>
      if a <? 128 then utf8_valid l1
      else match l1 with
      | [] => false
      | b :: l2 =>
          if in_range 194 223 a && in_range 128 191 b then utf8_valid l2
          else match l2 with
          | [] => false
          | c :: l3 =>
              if (((a =? 224) && in_range 160 191 b) || (in_range 225 236 a && in_range 128 191 b)
                  || ((a =? 237) && in_range 128 159 b) || (in_range 238 239 a && in_range 128 191 b))
                 && in_range 128 191 c
              then utf8_valid l3
              else match l3 with
              | [] => false
              | d :: l4 =>
                  (((a =? 240) && in_range 144 191 b) || (in_range 241 243 a && in_range 128 191 b)
                   || ((a =? 244) && in_range 128 143 b))
                  && in_range 128 191 c && in_range 128 191 d && utf8_valid l4
              end
          end
      end
  end.

(** A carriage return before the newline is not part of the line. *)
Definition chomp (l : bytes) : bytes :=
  if bool_decide (last l = Some 13) then removelast l else l.

(** [BufRead::lines]: [acc] is the line read so far. *)
Fixpoint lines (acc l : bytes) : list bytes :=
  match l with
  | [] => if bool_decide (acc = []) then [] else [acc]
  | c :: l => if c =? 10 then chomp acc :: lines [] l else lines (acc ++ [c]) l
  end.

(** [map_while(Result::ok)] *)
Fixpoint readable (ls : list bytes) : list bytes :=
  match ls with
  | [] => []
  | l :: ls => if utf8_valid l then l :: readable ls else []
  end.

(** The file as a validator leaves it on disk; [None]: there is none. *)
Record VoteJournal := { jfile : option bytes; jlru : VoteDataLru }.

(** What the file system does with an append. *)
Inductive Append :=
| OpenFails
| MetadataFails
| WriteFails (residue : bytes)  (* what is left of the line after the roll-back *)
| WriteOk.

Inductive IoErrorKind : Set := AlreadyExists | OtherError.

Section Journal.
Context `{J : JsonApi}.

(** One line of the journal in the loop of [load_from_disk]. *)
Definition load_line (buf : list VoteData) (line : bytes) : list VoteData :=
  if bool_decide (line = []) then buf
  else match from_json line with
       | Some env =>
           let buf := buf ++ [data env] in
           if Nat.ltb MAX_RECENT_ENTRIES (length buf) then tail buf else buf
       | None => buf
       end.

Definition load_from_disk (file : option bytes) : VoteDataLru :=
  let lru := votes_new MAX_RECENT_ENTRIES in
  match file with
  | None => lru
  | Some content =>
      fold_left (λ lru vd, votes_add lru (target_number vd) vd)
        (fold_left load_line (readable (lines [] content)) []) lru
  end.

Definition journal_open (file : option bytes) : VoteJournal := {| jfile := file; jlru := load_from_disk file |}.

Definition claim (self : VoteJournal) (env : VoteEnvelope) (file : option bytes) : VoteJournal :=
  {| jfile := file; jlru := votes_add (jlru self) (target_number (data env)) (data env) |}.

(** Result: [None] for [Ok(())]. *)
Definition write_vote (self : VoteJournal) (env : VoteEnvelope) (mem_only : bool) (io : Append)
    : option (option IoErrorKind * VoteJournal) :=
  allowed ← under_rules (jlru self) (source_number (data env)) (target_number (data env));
  if negb allowed then Some (Some AlreadyExists, self)
  else if mem_only then Some (None, claim self env (jfile self))
  else match to_json env with
  | None => Some (Some OtherError, self)
  | Some line =>
      let content := default [] (jfile self) in
      match io with
      | OpenFails => Some (Some OtherError, self)
      | MetadataFails => Some (Some OtherError, {| jfile := Some content; jlru := jlru self |})
      | WriteFails residue => Some (Some OtherError, claim self env (Some (content ++ residue)))
      | WriteOk => Some (None, claim self env (Some (content ++ line ++ [10])))
      end
  end.
End Journal.

(** ** What the rules say *)

(** The vote from [s] to [t] is compatible with the votes in [m] around it. *)
Record allowed (m : gmap Z VoteData) (s t : Z) : Prop := {
  al_height : m !! t = None;
  al_backward k vd : Z.max (s + 1) (t - 256) <= k < t → m !! k = Some vd → source_number vd <= s;
  al_forward k vd : t < k <= t + 11 → m !! k = Some vd → s <= source_number vd;
}.

Lemma window_cons (P : Z → Prop) a b :
  a < b → (∀ k, a <= k < b → P k) ↔ P a ∧ ∀ k, a + 1 <= k < b → P k.
Proof.
  intros Hab. split; [intros Hall; split; [apply Hall; lia|intros k Hk; apply Hall; lia]|].
  intros [Ha Hall] k Hk. destruct (decide (k = a)) as [->|]; [done|]. apply Hall. lia.
Qed.

(** One step of either scan: the height [bn], then the rest of the window. *)
Lemma scan_step (m : gmap Z VoteData) (bad : VoteData → bool) (rest : option bool) a b bit :
  a < b → rest = Some bit →
  (bit = true ↔ ∀ k, a + 1 <= k < b → ∀ vd, m !! k = Some vd → bad vd = false) →
  ∃ bit', (if match m !! a with Some vd => bad vd | None => false end then Some false else rest) = Some bit' ∧
          (bit' = true ↔ ∀ k, a <= k < b → ∀ vd, m !! k = Some vd → bad vd = false).
Proof.
  intros Hab -> Hiff. setoid_rewrite (window_cons (λ k, ∀ vd, m !! k = Some vd → bad vd = false)); [|done].
  setoid_rewrite <- Hiff. destruct (m !! a) as [vd|]; [destruct (bad vd) eqn:Eb|].
  - exists false. split; [done|]. split; [done|]. intros [Hbad _]. by rewrite (Hbad vd eq_refl) in Eb.
  - exists bit. split; [done|]. split; [|tauto]. intros ->. split; [|done]. by intros vd' [= <-].
  - exists bit. split; [done|]. split; [|tauto]. by intros ->.
Qed.

Lemma scan_backward_spec m s t fuel bn :
  0 <= bn → t < 2 ^ 64 → Z.max 0 (t - bn) < Z.of_nat fuel →
  ∃ b, scan_backward fuel m bn s t = Some b ∧
       (b = true ↔ ∀ k, bn <= k < t → ∀ vd, m !! k = Some vd → (s <? source_number vd) = false).
Proof.
  revert bn. induction fuel as [|fuel IH]; intros bn Hbn Ht Hf; cbn [scan_backward]; [lia|].
  destruct (Z.ltb_spec bn t) as [Hlt|Hge]; [|exists true; split; [done|]; split; [lia|done]].
  destruct (IH (add64 bn 1)) as (b & Hb & Hiff); [rewrite add64_small; lia|done|rewrite add64_small; lia|].
  rewrite add64_small in Hiff by lia. by eapply (scan_step _ (λ vd, s <? source_number vd)).
Qed.

Lemma scan_forward_spec m s upper fuel bn :
  0 <= bn → upper + 1 < 2 ^ 64 → Z.max 0 (upper + 1 - bn) < Z.of_nat fuel →
  ∃ b, scan_forward fuel m bn s upper = Some b ∧
       (b = true ↔ ∀ k, bn <= k < upper + 1 → ∀ vd, m !! k = Some vd → (source_number vd <? s) = false).
Proof.
  revert bn. induction fuel as [|fuel IH]; intros bn Hbn Ht Hf; cbn [scan_forward]; [lia|].
  destruct (Z.leb_spec bn upper) as [Hle|Hgt]; [|exists true; split; [done|]; split; [lia|done]].
  destruct (IH (add64 bn 1)) as (b & Hb & Hiff); [rewrite add64_small; lia|done|rewrite add64_small; lia|].
  rewrite add64_small in Hiff by lia. eapply (scan_step _ (λ vd, source_number vd <? s)); [lia|done|done].
Qed.

Lemma rules_start s t :
  0 <= s < 2 ^ 64 - 257 →
  (if add64 (sat_add64 s 1) 256 <? t then sat_sub64 t 256 else sat_add64 s 1) = Z.max (s + 1) (t - 256).
Proof.
  intros Hs. assert (sat_add64 s 1 = s + 1) as -> by (unfold sat_add64, u64_max; lia).
  rewrite add64_small by lia. unfold sat_sub64. destruct (Z.ltb_spec (s + 1 + 256) t); lia.
Qed.

Lemma under_rules_spec self s t :
  0 <= s < 2 ^ 64 - 257 → 0 <= t < 2 ^ 64 - 12 →
  ∃ b, under_rules self s t = Some b ∧ (b = true ↔ allowed (lru_map self) s t).
Proof.
  intros Hs Ht. unfold under_rules, MALICIOUS_VOTE_SLASH_SCOPE, UPPER_LIMIT_OF_VOTE_BLOCK_NUMBER.
  case_bool_decide as Hk.
  { exists false. split; [done|]. split; [done|]. intros [Hn _ _]. rewrite Hn in Hk. by destruct Hk. }
  apply eq_None_not_Some in Hk. cbv zeta. rewrite rules_start, !add64_small by lia.
  destruct (scan_backward_spec (lru_map self) s t rules_fuel (Z.max (s + 1) (t - 256))) as (b & -> & Hb);
    [lia|lia|unfold rules_fuel; lia|].
  destruct (scan_forward_spec (lru_map self) s (t + 11) rules_fuel (t + 1)) as (b' & Hf & Hb');
    [lia|lia|unfold rules_fuel; lia|].
  cbn [mbind option_bind]. setoid_rewrite Z.ltb_ge in Hb. setoid_rewrite Z.ltb_ge in Hb'. destruct b; cbn [negb].
  - exists b'. split; [done|]. rewrite Hb'. split.
    + intros Hall. split; [done|intros k vd Hr; by apply Hb|]. intros k vd Hr. apply Hall. lia.
    + intros [_ _ Hall] k Hr vd. apply Hall. lia.
  - exists false. split; [done|]. split; [done|]. intros [_ Hall _]. apply Hb. intros k Hr vd. by apply Hall.
Qed.

(** ** The cache is the last votes *)

Definition last_n {A} (n : nat) (l : list A) : list A := drop (length l - n) l.

Lemma last_n_snoc {A} n (l : list A) x :
  last_n (S n) (l ++ [x]) = last_n n l ++ [x].
Proof.
  unfold last_n. rewrite length_app. cbn [length].
  replace (length l + 1 - S n)%nat with (length l - n)%nat by lia. apply drop_app_le. lia.
Qed.

Lemma last_n_shift {A} n (l : list A) x :
  (0 < n)%nat →
  last_n n (l ++ [x]) = if Nat.ltb n (length (last_n n l ++ [x])) then tail (last_n n l ++ [x]) else last_n n l ++ [x].
Proof.
  intros Hn. destruct n as [|n]; [lia|]. rewrite last_n_snoc. unfold last_n. rewrite length_app, length_drop. cbn [length].
  destruct (Nat.ltb_spec (S n) (length l - (length l - S n) + 1)) as [Hlt|Hge].
  - assert (Hl : (S n <= length l)%nat) by lia.
    rewrite <- (app_nil_l (drop (length l - n) l ++ [x])). destruct (drop (length l - S n) l) as [|y ys] eqn:E.
    + apply (f_equal length) in E. rewrite length_drop in E. cbn in E. lia.
    + cbn. f_equal. replace (length l - n)%nat with (S (length l - S n)) by lia.
      rewrite <- (Nat.add_1_r (length l - S n)), <- drop_drop, E. done.
  - replace (length l - n)%nat with 0%nat by lia. replace (length l - S n)%nat with 0%nat by lia. done.
Qed.

(** The cache that holds exactly [l], oldest first. *)
Definition lru_of (l : list VoteData) : VoteDataLru :=
  {| capacity := MAX_RECENT_ENTRIES; order := target_number <$> l;
     lru_map := list_to_map ((λ vd, (target_number vd, vd)) <$> l) |}.

Definition one_per_height (l : list VoteData) : Prop := NoDup (target_number <$> l).

Lemma pair_keys (l : list VoteData) : ((λ vd, (target_number vd, vd)) <$> l).*1 = target_number <$> l.
Proof. by rewrite <- list_fmap_compose. Qed.

Lemma lru_of_None l k : lru_map (lru_of l) !! k = None ↔ k ∉ target_number <$> l.
Proof. cbn. by rewrite <- not_elem_of_list_to_map, pair_keys. Qed.

Lemma lru_of_Some l vd : one_per_height l → vd ∈ l → lru_map (lru_of l) !! target_number vd = Some vd.
Proof.
  intros Hnd Hin. cbn. apply elem_of_list_to_map; [by rewrite pair_keys|].
  by apply (list_elem_of_fmap_2 (λ vd, (target_number vd, vd))).
Qed.

(** A new height goes to the back; the oldest leaves when the cache is full. *)
Lemma lru_of_add l v :
  one_per_height l → target_number v ∉ target_number <$> l →
  votes_add (lru_of l) (target_number v) v =
  lru_of (if Nat.ltb MAX_RECENT_ENTRIES (length (l ++ [v])) then tail (l ++ [v]) else l ++ [v]).
Proof.
  intros Hnd Hv. pose proof (proj2 (lru_of_None l (target_number v)) Hv) as Hn. unfold votes_add. rewrite Hn.
  assert (Hsnoc : lru_map (lru_of (l ++ [v])) = <[target_number v := v]> (lru_map (lru_of l))).
  { cbn [lru_map lru_of]. rewrite fmap_app. apply list_to_map_snoc. by rewrite pair_keys. }
  cbn [order capacity lru_of]. replace (length ((target_number <$> l) ++ [target_number v])) with (length (l ++ [v]))
    by (by rewrite !length_app, length_fmap).
  destruct (Nat.ltb _ _) eqn:Elt.
  - destruct l as [|old rest]; [apply Nat.ltb_lt in Elt; cbn in Elt; unfold MAX_RECENT_ENTRIES in Elt; lia|].
    cbn in Hv, Hnd. apply not_elem_of_cons in Hv as [Hne Hv]. apply NoDup_cons in Hnd as [Hold Hnd].
    unfold lru_of. cbn [fmap list_fmap app tail]. f_equal; [by rewrite fmap_app|].
    rewrite fmap_app. cbn [fmap list_fmap app]. rewrite list_to_map_snoc by (by rewrite pair_keys).
    cbn [lru_map list_to_map foldr]. f_equal. apply delete_insert_id, not_elem_of_list_to_map. by rewrite pair_keys.
  - cbn [lru_map lru_of] in Hsnoc |- *. rewrite <- Hsnoc. unfold lru_of. by rewrite !fmap_app.
Qed.

Lemma lru_of_load l :
  one_per_height l → (length l <= MAX_RECENT_ENTRIES)%nat →
  fold_left (λ lru vd, votes_add lru (target_number vd) vd) l (votes_new MAX_RECENT_ENTRIES) = lru_of l.
Proof.
  unfold one_per_height. induction l as [|v l IH] using rev_ind; intros Hnd Hlen; [done|].
  rewrite fmap_app in Hnd. apply NoDup_app in Hnd as (Hnd & Hv & _). rewrite fold_left_app, IH; [|done|rewrite length_app in Hlen; lia].
  cbn [fold_left]. rewrite lru_of_add; [|done|].
  - by rewrite (proj2 (Nat.ltb_ge _ _)).
  - intros Hin. apply (Hv _ Hin). by left.
Qed.

(** ** Reading the file back *)

Definition journal_bytes (ls : list bytes) : bytes := mjoin ((λ l, l ++ [10]) <$> ls).

(** Printable ASCII, as JSON of hexadecimal strings and numbers is. *)
Definition plain (l : bytes) : Prop := Forall (λ c, 32 <= c < 127) l.

Lemma lines_plain acc l rest : plain l → lines acc (l ++ rest) = lines (acc ++ l) rest.
Proof.
  intros Hl. revert acc. induction Hl as [|c l Hc _ IH]; intros acc; [by rewrite app_nil_r|].
  cbn [app lines]. destruct (Z.eqb_spec c 10); [lia|]. by rewrite IH, <- app_assoc.
Qed.

Lemma chomp_plain l : plain l → chomp l = l.
Proof.
  intros Hl. unfold chomp. case_bool_decide as E; [|done]. exfalso.
  apply last_Some_elem_of in E. unfold plain in Hl. rewrite Forall_forall in Hl. specialize (Hl 13 E). lia.
Qed.

Lemma utf8_plain l : plain l → utf8_valid l = true.
Proof. induction 1 as [|c l Hc _ IH]; [done|]. cbn. by rewrite (proj2 (Z.ltb_lt _ _)) by lia. Qed.

Lemma lines_journal ls : Forall plain ls → readable (lines [] (journal_bytes ls)) = ls.
Proof.
  unfold journal_bytes. induction 1 as [|l ls Hl _ IH]; [done|].
  rewrite fmap_cons, mjoin_cons, <- app_assoc, lines_plain by done. cbn. rewrite chomp_plain, utf8_plain by done.
  by rewrite IH.
Qed.

Section Reload.
Context `{J : JsonApi} {JL : JsonLaws J}.

(** [ls] are the lines written for [es]. *)
Definition written (es : list VoteEnvelope) (ls : list bytes) : Prop := Forall2 (λ e l, to_json e = Some l) es ls.

Lemma written_plain es ls : written es ls → Forall plain ls.
Proof. induction 1; constructor; [by eapply json_ascii|done]. Qed.

(** The reading loop keeps the last votes. *)
Lemma load_lines es ls : written es ls → fold_left load_line ls [] = last_n MAX_RECENT_ENTRIES (data <$> es).
Proof.
  intros Hw. apply Forall2_flip in Hw. revert es Hw. induction ls as [|l ls IH] using rev_ind; intros es Hw.
  { by apply Forall2_nil_inv_l in Hw as ->. }
  apply Forall2_app_inv_l in Hw as (es' & tl & Hw & Htl & ->).
  apply Forall2_cons_inv_l in Htl as (e & ? & He & ->%Forall2_nil_inv_l & ->).
  rewrite fold_left_app, (IH es' Hw), fmap_app. cbn [fold_left fmap list_fmap]. unfold load_line. cbn in He.
  rewrite bool_decide_eq_false_2 by (by eapply json_nonempty). rewrite (json_roundtrip _ _ He). cbv zeta.
  by rewrite last_n_shift by (unfold MAX_RECENT_ENTRIES; lia).
Qed.

Lemma last_n_length {A} n (l : list A) : (length (last_n n l) <= n)%nat.
Proof. unfold last_n. rewrite length_drop. lia. Qed.

Lemma reload es ls :
  written es ls → one_per_height (last_n MAX_RECENT_ENTRIES (data <$> es)) →
  load_from_disk (Some (journal_bytes ls)) = lru_of (last_n MAX_RECENT_ENTRIES (data <$> es)).
Proof.
  intros Hw Hnd. unfold load_from_disk. rewrite lines_journal by (by eapply written_plain).
  rewrite (load_lines _ _ Hw). apply lru_of_load; [done|apply last_n_length].
Qed.

(** ** Runs of a validator *)

(** Two votes a validator may both release, as far as the journal looks: 256
    blocks back and 11 ahead. *)
Record compatible (old new : VoteData) : Prop := {
  co_height : target_number old ≠ target_number new;
  co_around : ¬ (source_number new < source_number old ∧ target_number old < target_number new ∧
                 target_number new - 256 <= target_number old);
  co_inside : ¬ (source_number old < source_number new ∧ target_number new < target_number old ∧
                 target_number old <= target_number new + 11);
}.

Definition sane (v : VoteEnvelope) : Prop :=
  0 <= source_number (data v) < target_number (data v) ∧ target_number (data v) < 2 ^ 64 - 257.

(** [released] lists the votes that [write_vote] let out, oldest first, over any
    number of restarts.  An append either succeeds or leaves the file as it is. *)
Inductive journal_run : list VoteEnvelope → VoteJournal → Prop :=
| run_start : journal_run [] (journal_open None)
| run_write released j v io res j' :
    journal_run released j → sane v → (∀ residue, io ≠ WriteFails residue) →
    write_vote j v false io = Some (res, j') →
    journal_run (match res with None => released ++ [v] | Some _ => released end) j'
| run_restart released j :
    journal_run released j → journal_run released (journal_open (jfile j)).

Record journal_ok (released : list VoteEnvelope) (j : VoteJournal) : Prop := {
  jo_file : ∃ ls, written released ls ∧ default [] (jfile j) = journal_bytes ls;
  jo_lru : jlru j = lru_of (last_n MAX_RECENT_ENTRIES (data <$> released));
  jo_heights : one_per_height (last_n MAX_RECENT_ENTRIES (data <$> released));
  jo_sane : Forall sane released;
  jo_pairs i k old new :
    released !! i = Some old → released !! k = Some new → (i < k <= i + MAX_RECENT_ENTRIES)%nat →
    compatible (data old) (data new);
}.

Lemma last_n_elem {A} n (l : list A) i x : l !! i = Some x → (length l <= i + n)%nat → x ∈ last_n n l.
Proof.
  intros Hx Hi. unfold last_n. apply list_elem_of_lookup. exists (i - (length l - n))%nat.
  apply lookup_lt_Some in Hx as Hlt. rewrite lookup_drop.
  by replace (length l - n + (i - (length l - n)))%nat with i by lia.
Qed.

Lemma allowed_compatible l old new :
  one_per_height l → old ∈ l → source_number old < target_number old →
  allowed (lru_map (lru_of l)) (source_number new) (target_number new) → compatible old new.
Proof.
  intros Hnd Hin Hold [Hh Hb Hf]. pose proof (lru_of_Some l old Hnd Hin) as Hl. split.
  - intros Heq. rewrite Heq in Hl. congruence.
  - intros (Hs & Ht & Hw). specialize (Hb (target_number old) old ltac:(lia) Hl). lia.
  - intros (Hs & Ht & Hw). specialize (Hf (target_number old) old ltac:(lia) Hl). lia.
Qed.

Lemma reload_default file : load_from_disk file = load_from_disk (Some (default [] file)).
Proof. by destruct file. Qed.

Lemma journal_ok_write released j v line :
  journal_ok released j → sane v → to_json v = Some line →
  allowed (lru_map (jlru j)) (source_number (data v)) (target_number (data v)) →
  journal_ok (released ++ [v]) (claim j v (Some (default [] (jfile j) ++ line ++ [10]))).
Proof.
  intros [(ls & Hw & Hfile) Hlru Hnd Hsane Hpairs] Hv Hline Hall. rewrite Hlru in Hall.
  assert (Hnew : target_number (data v) ∉ target_number <$> last_n MAX_RECENT_ENTRIES (data <$> released))
    by apply lru_of_None, Hall.
  assert (Hshift : lru_of (last_n MAX_RECENT_ENTRIES (data <$> released ++ [v])) = jlru (claim j v None)).
  { cbn [jlru claim]. rewrite Hlru, lru_of_add by done. rewrite fmap_app. cbn [fmap list_fmap].
    by rewrite last_n_shift by (unfold MAX_RECENT_ENTRIES; lia). }
  split.
  - exists (ls ++ [line]). split; [apply Forall2_app; [done|by repeat constructor]|]. cbn [jfile claim default].
    rewrite Hfile. unfold journal_bytes. rewrite fmap_app, join_app. cbn. by rewrite app_nil_r.
  - by rewrite Hshift.
  - rewrite fmap_app. cbn [fmap list_fmap]. rewrite last_n_shift by (unfold MAX_RECENT_ENTRIES; lia).
    assert (Hs : one_per_height (last_n MAX_RECENT_ENTRIES (data <$> released) ++ [data v])).
    { unfold one_per_height. rewrite fmap_app. apply NoDup_app. split; [done|]. split; [|apply NoDup_singleton].
      intros x Hx ->%list_elem_of_singleton. done. }
    destruct (Nat.ltb _ _); [|done]. unfold one_per_height in *.
    destruct (last_n MAX_RECENT_ENTRIES _ ++ _) as [|y ys]; [constructor|]. cbn in Hs |- *. by apply NoDup_cons in Hs as [_ ?].
  - by apply Forall_app_2; [|constructor].
  - intros i k old new Hi Hk Hik. destruct (decide (k < length released)%nat) as [Hlt|Hge].
    { rewrite lookup_app_l in Hk by done. rewrite lookup_app_l in Hi by lia. by apply (Hpairs i k). }
    apply lookup_lt_Some in Hk as Hkl. rewrite length_app in Hkl. cbn in Hkl.
    assert (k = length released) as -> by lia. rewrite lookup_app_r, Nat.sub_diag in Hk by lia. injection Hk as <-.
    rewrite lookup_app_l in Hi by lia.
    apply (allowed_compatible (last_n MAX_RECENT_ENTRIES (data <$> released))); [done| | |done].
    + apply (last_n_elem _ _ i); [by rewrite list_lookup_fmap, Hi|rewrite length_fmap; lia].
    + rewrite Forall_forall in Hsane. apply (Hsane old). by eapply list_elem_of_lookup_2.
Qed.

Lemma journal_run_ok released j : journal_run released j → journal_ok released j.
Proof.
  induction 1 as [|released j v io res j' _ IH Hv Hio Hw|released j _ IH].
  - split; [exists []; split; [apply Forall2_nil_2|done]|done|constructor|constructor|by intros i k old new Hi].
  - unfold write_vote in Hw. destruct Hv as [Hs Ht].
    destruct (under_rules_spec (jlru j) (source_number (data v)) (target_number (data v))) as (b & Hb & Hiff); [lia..|].
    rewrite Hb in Hw. cbn in Hw. destruct b; cbn in Hw; [|by injection Hw as <- <-].
    destruct (to_json v) as [line|] eqn:Hline; [|by injection Hw as <- <-].
    destruct io as [| |residue|]; [by injection Hw as <- <-| |by destruct (Hio residue)|].
    + injection Hw as <- <-. destruct IH as [Hf Hl Hn Hsn Hp]. by split.
    + injection Hw as <- <-. apply journal_ok_write; [done|by split|done|by apply Hiff].
  - destruct IH as [(ls & Hw & Hfile) Hlru Hnd Hsane Hpairs]. split; try done; [by exists ls|].
    cbn [jlru journal_open]. rewrite reload_default, Hfile. by apply reload.
Qed.

(** The node never releases two votes that conflict, restarts included: of
    any two votes the journal let out with at most 512 votes between them, the
    heights differ and neither lies inside the span of the other, within the
    256 blocks behind and 11 ahead the rules look at. *)
Theorem journal_never_conflicts released j i k old new :
  journal_run released j → released !! i = Some old → released !! k = Some new →
  (i < k <= i + MAX_RECENT_ENTRIES)%nat → compatible (data old) (data new).
Proof. intros Hr. apply (jo_pairs _ _ (journal_run_ok _ _ Hr)). Qed.

(** A restart loses nothing: opening the file again restores exactly the
    journal in memory, so the rules answer as before. *)
Theorem restart_restores released j : journal_run released j → journal_open (jfile j) = j.
Proof.
  intros Hr. destruct (journal_run_ok _ _ Hr) as [(ls & Hw & Hfile) Hlru Hnd _ _].
  unfold journal_open. rewrite reload_default, Hfile, (reload _ _ Hw Hnd), <- Hlru. by destruct j.
Qed.

Lemma claimed_refused lru key vd s : under_rules (votes_add lru key vd) s key = Some false.
Proof.
  unfold under_rules. rewrite bool_decide_eq_true_2; [done|].
  unfold votes_add. cbn [lru_map]. rewrite lookup_insert_eq. eauto.
Qed.

(** [write_vote] on every branch: it always returns; it refuses with
    [AlreadyExists] exactly the votes the rules forbid, leaving the journal as
    it was; it returns [Ok] only once the vote is on disk (or in memory, in
    memory-only mode); and after a failed write it either has changed nothing
    or refuses every later vote for that height. *)
Theorem write_vote_outcomes j v mem_only io :
  sane v →
  ∃ res j', write_vote j v mem_only io = Some (res, j') ∧
    (res = Some AlreadyExists ↔ ¬ allowed (lru_map (jlru j)) (source_number (data v)) (target_number (data v))) ∧
    (res = Some AlreadyExists → j' = j) ∧
    (res = None → mem_only = false →
       ∃ line, to_json v = Some line ∧ jfile j' = Some (default [] (jfile j) ++ line ++ [10])) ∧
    (jlru j' = jlru j ∧ res ≠ None ∨ ∀ s, under_rules (jlru j') s (target_number (data v)) = Some false).
Proof.
  intros [Hs Ht]. unfold write_vote.
  destruct (under_rules_spec (jlru j) (source_number (data v)) (target_number (data v))) as (b & -> & Hiff); [lia..|].
  cbn [mbind option_bind]. destruct b; cbn [negb].
  - assert (Hall : ¬ ¬ allowed (lru_map (jlru j)) (source_number (data v)) (target_number (data v))) by (intros Hn; by apply Hn, Hiff).
    destruct mem_only; [eexists _, _; split_and!; [done|done|done|done|right; intros s; apply claimed_refused]|].
    destruct (to_json v) as [line|]; [|eexists _, _; split_and!; [done|done|done|done|by left]].
    destruct io; eexists _, _; split_and!; try done; try (by left); try (right; intros s; apply claimed_refused).
    intros _ _. by exists line.
  - assert (Hno : ¬ allowed (lru_map (jlru j)) (source_number (data v)) (target_number (data v)))
      by (intros Hall%Hiff; done).
    eexists _, _. split_and!; [done|done|done|done|by left].
Qed.

(** Lines that are not votes leave no trace. *)
Lemma lines_tail ls t : Forall plain ls → plain t → readable (lines [] (journal_bytes ls ++ t)) = ls ++ (if bool_decide (t = []) then [] else [t]).
Proof.
  unfold journal_bytes. intros Hls Ht. induction Hls as [|l ls Hl _ IH].
  - cbn. rewrite <- (app_nil_r t) at 1. rewrite lines_plain by done. cbn. case_bool_decide; [done|]. cbn. by rewrite utf8_plain.
  - rewrite fmap_cons, mjoin_cons, <- !app_assoc, lines_plain by done. cbn. rewrite chomp_plain, utf8_plain by done. by rewrite IH.
Qed.

Lemma load_garbage ls t :
  Forall plain ls → plain t → from_json t = None →
  load_from_disk (Some (journal_bytes ls ++ t)) = load_from_disk (Some (journal_bytes ls)).
Proof.
  intros Hls Ht Hn. unfold load_from_disk. rewrite lines_tail, lines_journal, fold_left_app by done.
  case_bool_decide; [done|]. cbn [fold_left]. unfold load_line at 1. rewrite bool_decide_eq_false_2 by done. by rewrite Hn.
Qed.

(** C40: a torn append hides the next vote.  A crash in the middle of an append
    leaves part of a line, [torn], without its newline.  The journal opens, the
    next vote is written behind it and let out, and while the process lives its
    height is taken; but the line it is on is not JSON, and after one more
    restart the journal is as if that vote had never been cast. *)
Theorem torn_append_allows_double_vote es ls torn v line j' :
  written es ls → plain torn → from_json torn = None →
  to_json v = Some line → from_json (torn ++ line) = None →
  let crashed := journal_open (Some (journal_bytes ls ++ torn)) in
  write_vote crashed v false WriteOk = Some (None, j') →
  (∀ s, under_rules (jlru j') s (target_number (data v)) = Some false) ∧
  jlru (journal_open (jfile j')) = jlru crashed.
Proof.
  intros Hw Ht Hn Hline Hgarbage crashed Hwr. unfold write_vote in Hwr.
  destruct (under_rules _ _ _) as [[]|]; [|done..]. cbn in Hwr. rewrite Hline in Hwr. injection Hwr as <-.
  split; [intros s; apply claimed_refused|]. pose proof (written_plain _ _ Hw) as Hls.
  assert (Hl : plain (torn ++ line)) by (apply Forall_app; split; [done|by eapply json_ascii]).
  cbn [jlru journal_open jfile claim crashed default]. rewrite (load_garbage ls torn) by done.
  rewrite <- app_assoc, (app_assoc torn). unfold load_from_disk.
  assert (Hsnoc : journal_bytes ls ++ (torn ++ line) ++ [10] = journal_bytes (ls ++ [torn ++ line])).
  { unfold journal_bytes. rewrite fmap_app, join_app. cbn. by rewrite app_nil_r. }
  rewrite Hsnoc, !lines_journal, fold_left_app; [|done|by apply Forall_app_2; [|constructor]].
  cbn [fold_left]. unfold load_line at 1. rewrite Hgarbage. by case_bool_decide.
Qed.

Lemma last_n_fmap {A B} (f : A → B) n l : last_n n (f <$> l) = f <$> last_n n l.
Proof. unfold last_n. by rewrite length_fmap, fmap_drop. Qed.

Context `{L : LruApi, HashApi} {LL : LruLaws L}.

(** The journal and the monitor of everyone else agree: a vote the journal
    lets out for the head is not reported as malicious by any monitor that has
    recorded nothing of this validator but what it released. *)
Theorem own_votes_not_reported released j v j' m pending :
  journal_run released j → sane v → write_vote j v false WriteOk = Some (None, j') →
  monitor_wf m → (∀ old, old ∈ recorded m (vote_address v) → old ∈ last_n MAX_RECENT_ENTRIES released) →
  target_number (data v) - 1 <= pending <= target_number (data v) →
  ∃ m', conflict_detect scan_fuel m v pending = Some (false, m') ∧ v ∈ recorded m' (vote_address v).
Proof.
  intros Hr [Hs Ht] Hw Hm Hrec Hp. destruct (journal_run_ok _ _ Hr) as [_ Hlru Hnd Hsane _].
  destruct (under_rules_spec (jlru j) (source_number (data v)) (target_number (data v))) as (b & Hb & Hiff); [lia..|].
  unfold write_vote in Hw. rewrite Hb in Hw. destruct b; [|done].
  destruct (conflict_detect_result m v pending) as (b & m' & Hc & _ & Hbt & Hbf); [done|lia..|].
  destruct b; [|exists m'; split; [done|apply Hbf; [done|lia]]].
  exfalso. destruct (proj1 Hbt eq_refl) as (_ & old & Hold & Hwin & Hd). apply Hrec in Hold.
  assert (Hcomp : compatible (data old) (data v)).
  { apply (allowed_compatible (last_n MAX_RECENT_ENTRIES (data <$> released))); [done| | |].
    - rewrite last_n_fmap. by apply list_elem_of_fmap_2.
    - rewrite Forall_forall in Hsane. apply (Hsane old). unfold last_n in Hold.
      apply list_elem_of_lookup in Hold as (i & Hi). rewrite lookup_drop in Hi. by eapply list_elem_of_lookup_2.
    - rewrite <- Hlru. by apply Hiff. }
  destruct Hcomp as [Hh Ha Hi]. destruct Hd as [[? _]|[?|?]]; [done|apply Ha; lia|apply Hi; lia].
Qed.
End Reload.

(** ** A validator on examples *)

Module JournalDemo.
Import ListContainers MonitorDemo.

(** Records as binary digits in braces. *)
Fixpoint digits (p : positive) : bytes :=
  match p with xH => [125] | xO p => 48 :: digits p | xI p => 49 :: digits p end.
Fixpoint parse_digits (l : bytes) : option positive :=
  match l with
  | [] => None
  | c :: l => if c =? 125 then (if bool_decide (l = []) then Some xH else None)
              else if c =? 48 then xO <$> parse_digits l
              else if c =? 49 then xI <$> parse_digits l
              else None
  end.

Definition fields (e : VoteEnvelope) : Z * Z * (Z * Z * Z * Z) :=
  (vote_address e, signature e,
   (source_number (data e), source_hash (data e), target_number (data e), target_hash (data e))).
Definition of_fields (f : Z * Z * (Z * Z * Z * Z)) : VoteEnvelope :=
  let '(a, s, (sn, sh, tn, th)) := f in
  {| vote_address := a; signature := s;
     data := {| source_number := sn; source_hash := sh; target_number := tn; target_hash := th |} |}.

#[export] Instance demo_json : JsonApi := {|
  to_json e := Some (123 :: digits (encode (fields e)));
  from_json l := match l with
                 | c :: l => if c =? 123 then of_fields <$> (parse_digits l ≫= decode) else None
                 | [] => None end;
|}.

Lemma parse_digits_of p : parse_digits (digits p) = Some p.
Proof. induction p as [p IH|p IH|]; cbn; rewrite ?IH; done. Qed.

#[export] Instance demo_json_laws : JsonLaws demo_json.
Proof.
  split.
  - intros [a s [sn sh tn th]] l [= <-]. cbn [from_json demo_json]. rewrite Z.eqb_refl, parse_digits_of.
    cbn [mbind option_bind]. by rewrite decode_encode.
  - intros e l [= <-]. constructor; [lia|]. induction (encode (fields e)); repeat constructor; done || lia.
  - by intros e l [= <-].
Qed.

(** Votes for heights 20 and 21, and one for 20 again with another hash. *)
Definition v20 : VoteEnvelope := vote 10 20 170.
Definition v21 : VoteEnvelope := vote 10 21 171.
Definition v20' : VoteEnvelope := vote 10 20 999.

Definition step (j : VoteJournal) (v : VoteEnvelope) (io : Append) : VoteJournal :=
  match write_vote j v false io with Some (_, j') => j' | None => j end.
Definition answer (j : VoteJournal) (v : VoteEnvelope) (io : Append) : option (option IoErrorKind) :=
  fst <$> write_vote j v false io.

Definition j0 : VoteJournal := journal_open None.
Definition j1 : VoteJournal := step j0 v20 WriteOk.
Definition j2 : VoteJournal := step j1 v21 WriteOk.

Lemma j2_run : journal_run [v20; v21] j2.
Proof.
  apply (run_write [v20] j1 v21 WriteOk None j2); [|split; cbn; lia|done|by vm_compute].
  apply (run_write [] j0 v20 WriteOk None j1); [apply run_start|split; cbn; lia|done|by vm_compute].
Qed.

Lemma journal_never_conflicts_witness : compatible (data v20) (data v21).
Proof.
  apply (journal_never_conflicts [v20; v21] j2 0 1 v20 v21); [apply j2_run|done|done|unfold MAX_RECENT_ENTRIES; lia].
Defined.

Lemma restart_restores_witness : journal_open (jfile j2) = j2.
Proof. apply (restart_restores [v20; v21] j2), j2_run. Defined.

Lemma write_vote_outcomes_witness :
  answer j2 v20' WriteOk = Some (Some AlreadyExists) ∧
  ∃ res j', write_vote j2 v20' false WriteOk = Some (res, j') ∧ (res = Some AlreadyExists → j' = j2).
Proof.
  split; [by vm_compute|].
  destruct (write_vote_outcomes j2 v20' false WriteOk) as (res & j' & Hw & _ & Hj & _); [split; cbn; lia|].
  exact (ex_intro _ res (ex_intro _ j' (conj Hw Hj))).
Defined.

Lemma own_votes_not_reported_witness :
  ∃ m', conflict_detect scan_fuel after_first v21 21 = Some (false, m') ∧ v21 ∈ recorded m' 1.
Proof.
  apply (own_votes_not_reported [v20] j1 v21 j2 after_first 21);
    [|split; cbn; lia|by vm_compute|apply after_first_wf| |cbn; lia].
  - apply (run_write [] j0 v20 WriteOk None j1); [apply run_start|split; cbn; lia|done|by vm_compute].
  - intros old Hold. vm_compute in Hold. vm_compute. exact Hold.
Defined.

(** Part of the record of [v21] is left; [v20] is let out; after a restart so is
    another vote for height 20. *)
Definition torn : bytes := firstn 20 (default [] (to_json v21)).
Definition crashed : VoteJournal := journal_open (Some (journal_bytes [] ++ torn)).
Definition j_after : VoteJournal := step crashed v20 WriteOk.

Lemma torn_append_allows_double_vote_witness :
  answer j_after v20' WriteOk = Some (Some AlreadyExists) ∧
  answer (journal_open (jfile j_after)) v20' WriteOk = Some None ∧
  jlru (journal_open (jfile j_after)) = jlru crashed.
Proof.
  split; [by vm_compute|]. split; [by vm_compute|].
  apply (torn_append_allows_double_vote [] [] torn v20 (default [] (to_json v20)) j_after);
    [apply Forall2_nil_2| |by vm_compute|done|by vm_compute|by vm_compute].
  apply (bool_decide_unpack _). by vm_compute.
Defined.
End JournalDemo.
