(* ===== verification/VoteProducer.v ===== *)
(** * VoteProducer: the votes of the own validator

    Models [src/node/vote_producer.rs] and the signer of
    [src/consensus/parlia/bls_signer.rs]: for each new canonical head the node
    decides whether to vote, signs, writes the vote to its journal, and only
    then hands it to the pool and to its peers.  The secret key operations of
    the BLS library are parameters; clock, configuration and file system are
    arguments. *)

From stdpp Require Import base tactics numbers option list gmap.
From Stdlib Require Import ZArith Lia Bool.
From S2P Require Import Prelude.
From S2P Require Import Hardforks.
From S2P Require Import Header.
From S2P Require Import Snapshot.
From S2P Require Import Attestation.
From S2P Require Import Collections.
From S2P Require Import VoteMonitor.
From S2P Require Import VotePool.
From S2P Require Import VotePoolClaims.
From S2P Require Import VotePoolFinality.
From S2P Require Import VoteJournal.

Definition DEFAULT_WARMUP_BLOCKS : Z := 40.
Definition TIME_FOR_BROADCAST_MS : Z := 50.

(** ** The signer *)

(** [blst::min_pk::SecretKey]: bytes to key, the bytes of its public key, the
    bytes of its signature on a digest. *)
Class BlsSecretApi := {
  SecretKey : Type;
  secret_key_from_bytes : Z → option SecretKey;
  sk_to_pk : SecretKey → Z;
  sk_sign : SecretKey → Z → Z;
}.

(** A signature verifies under the public key of its secret key. *)
Class BlsSecretLaws (B : BlsApi) (S : BlsSecretApi) := {
  sk_sign_verifies sk h :
    ∃ pk sig, public_key_from_bytes (sk_to_pk sk) = Some pk ∧ signature_from_bytes (sk_sign sk h) = Some sig ∧
              verify_one sig h pk = true;
}.

Section Signer.
Context `{HashApi, S : BlsSecretApi}.

Record BlsVoteSigner := { sk_bytes : Z }.

Definition new_from_bytes (bytes : Z) : option BlsVoteSigner :=
  _ ← secret_key_from_bytes bytes; Some {| sk_bytes := bytes |}.

Definition signer_public_key (self : BlsVoteSigner) : option Z := sk_to_pk <$> secret_key_from_bytes (sk_bytes self).

Definition sign_hash (self : BlsVoteSigner) (hash : Z) : option Z :=
  sk ← secret_key_from_bytes (sk_bytes self); Some (sk_sign sk hash).

Definition sign_vote (self : BlsVoteSigner) (d : VoteData) : option VoteEnvelope :=
  address ← signer_public_key self;
  sig ← sign_hash self (vote_data_hash d);
  Some {| vote_address := address; signature := sig; data := d |}.

Context `{B : BlsApi} {SL : BlsSecretLaws B S}.

Lemma sign_vote_verifies self d v : sign_vote self d = Some v → data v = d ∧ verify_vote_envelope v = true.
Proof.
  unfold sign_vote, signer_public_key, sign_hash. intros Hs.
  destruct (secret_key_from_bytes (sk_bytes self)) as [sk|]; [|done]. cbn in Hs. injection Hs as <-.
  split; [done|]. unfold verify_vote_envelope. cbn [vote_address signature data].
  destruct (sk_sign_verifies sk (vote_data_hash d)) as (pk & sig & -> & -> & Hv). done.
Qed.
End Signer.

(** ** The producer *)

(** The fields of [MiningConfig] that decide whether the node mines. *)
Record MiningConfig := { mining_on : bool; has_keystore_path : bool; has_private_key_hex : bool }.

Definition is_mining_enabled (c : MiningConfig) : bool :=
  mining_on c && (has_keystore_path c || has_private_key_hex c).

Definition warmup_blocks (var : option Z) : Z :=
  match var with
  | Some v => if 0 <? v then v else DEFAULT_WARMUP_BLOCKS
  | None => DEFAULT_WARMUP_BLOCKS
  end.

Section Producer.
Context `{L : LruApi, HashApi, B : BlsApi, S : BlsSecretApi, J : JsonApi, F : ForkConditionApi}.
Context {HP : HeapApi VoteData by_target} {HK : HeapApi (Z * Z) key_leb}.

(** What one call reads besides the statics of the module. *)
Record HeadEvent := {
  chain_spec : ChainSpec;
  snapshot_by : Z → option Snapshot;
  mining_config : option MiningConfig;
  warmup_var : option Z;            (* BSC_VOTE_WARMUP_BLOCKS, parsed *)
  bls_signer : option BlsVoteSigner;
  genesis_header : option Header;   (* get_cannonical_header_from_cache(0) *)
  now_ms : Z;
  memory_only : bool;
  append : Append;
  shared : Shared;
}.

(** The statics: the votes in [broadcast] went to the pool and to the peers. *)
Record ProducerState := {
  produced_targets : LruCache unit;
  start_vote : bool;
  blocks_since_mining : Z;
  voteaddr_index : LruCache (gset Z);
  journal : VoteJournal;
  vote_pool : PoolState;
  broadcast : list VoteEnvelope;
}.

Definition producer_new (j : VoteJournal) : ProducerState := {|
  produced_targets := lru_new 2048; start_vote := true; blocks_since_mining := 0;
  voteaddr_index := lru_new 1024; journal := j; vote_pool := state_new; broadcast := [] |}.

Implicit Types (st : ProducerState) (ev : HeadEvent).

Definition set_downloader_active (active : bool) st : ProducerState := {|
  produced_targets := produced_targets st; start_vote := negb active; blocks_since_mining := blocks_since_mining st;
  voteaddr_index := voteaddr_index st; journal := journal st; vote_pool := vote_pool st; broadcast := broadcast st |}.

Definition with_produced (c : LruCache unit) st : ProducerState := {|
  produced_targets := c; start_vote := start_vote st; blocks_since_mining := blocks_since_mining st;
  voteaddr_index := voteaddr_index st; journal := journal st; vote_pool := vote_pool st; broadcast := broadcast st |}.
Definition with_blocks (n : Z) st : ProducerState := {|
  produced_targets := produced_targets st; start_vote := start_vote st; blocks_since_mining := n;
  voteaddr_index := voteaddr_index st; journal := journal st; vote_pool := vote_pool st; broadcast := broadcast st |}.
Definition with_index (c : LruCache (gset Z)) st : ProducerState := {|
  produced_targets := produced_targets st; start_vote := start_vote st; blocks_since_mining := blocks_since_mining st;
  voteaddr_index := c; journal := journal st; vote_pool := vote_pool st; broadcast := broadcast st |}.
Definition with_journal (j : VoteJournal) st : ProducerState := {|
  produced_targets := produced_targets st; start_vote := start_vote st; blocks_since_mining := blocks_since_mining st;
  voteaddr_index := voteaddr_index st; journal := j; vote_pool := vote_pool st; broadcast := broadcast st |}.
Definition send (p : PoolState) (v : VoteEnvelope) st : ProducerState := {|
  produced_targets := produced_targets st; start_vote := start_vote st; blocks_since_mining := blocks_since_mining st;
  voteaddr_index := voteaddr_index st; journal := journal st; vote_pool := p; broadcast := broadcast st ++ [v] |}.

(** The vote addresses of a snapshot, zero left out. *)
Definition vote_addrs_of (snap : Snapshot) : gset Z :=
  fold_left (λ hs info, if vote_addr info =? 0 then hs else {[vote_addr info]} ∪ hs)
    (map_to_list (validators_map snap)).*2 ∅.

(** The set of a snapshot, through the cache. *)
Definition indexed_addrs (snap : Snapshot) st : gset Z * ProducerState :=
  let '(found, c) := lru_get (voteaddr_index st) (block_hash snap) in
  match found with
  | Some s => (s, with_index c st)
  | None => let hs := vote_addrs_of snap in (hs, with_index (lru_put c (block_hash snap) hs) st)
  end.

(** Whether the vote could still reach the next producer. *)
Definition too_late ev (head : Header) (snap : Snapshot) : bool :=
  let cur_ms := calculate_millisecond_timestamp head in
  let count := if is_fermi_active_at_timestamp (chain_spec ev) (number head) (timestamp head)
               then K_ANCESTOR_GENERATION_DEPTH else 1 in
  let vote_assemble_ms := sat_add64 cur_ms (mul64 (block_interval snap) count) in
  vote_assemble_ms <? sat_add64 (now_ms ev) TIME_FOR_BROADCAST_MS.

(** The source of the vote: the justified block, or genesis. *)
Definition vote_source ev (snap : Snapshot) : option (Z * Z) :=
  if target_hash (vote_data snap) =? 0
  then genesis ← genesis_header ev; Some (number genesis, hash_slow genesis)
  else Some (target_number (vote_data snap), target_hash (vote_data snap)).

(** From the rules check on: sign, persist, send.  [None]: out of fuel. *)
Definition cast_vote ev (signer : BlsVoteSigner) (d : VoteData) st : option ProducerState :=
  allowed ← under_rules (jlru (journal st)) (source_number d) (target_number d);
  if negb allowed then Some st
  else match sign_vote signer d with
  | None => Some st
  | Some envelope =>
      '(res, j) ← write_vote (journal st) envelope (memory_only ev) (append ev);
      let st := with_journal j st in
      match res with
      | Some _ => Some st
      | None => p ← put_vote (shared ev) envelope (vote_pool st); Some (send p envelope st)
      end
  end.

Definition maybe_produce_and_broadcast_for_head ev (head : Header) st : option ProducerState :=
  if negb (match mining_config ev with Some c => is_mining_enabled c | None => false end)
  then Some (with_blocks 0 st)
  else if negb (start_vote st) then Some st
  else if negb (is_luban_active_at_block (chain_spec ev) (number head)) then Some st
  else match bls_signer ev with
  | None => Some st
  | Some signer =>
      let target := hash_slow head in
      let '(seen, lru) := lru_get (produced_targets st) target in
      match seen with
      | Some _ => Some (with_produced lru st)
      | None =>
          let st := with_produced (lru_put lru target tt) st in
          let threshold := warmup_blocks (warmup_var ev) in
          let cnt := add64 (blocks_since_mining st) 1 in
          let st := with_blocks cnt st in
          if cnt <=? threshold then Some st
          else
            let st := with_blocks threshold st in
            match snapshot_by ev target with
            | None => Some st
            | Some snap =>
                match signer_public_key signer with
                | None => Some st
                | Some my_vote_addr =>
                    let '(set, st) := indexed_addrs snap st in
                    if negb (bool_decide (my_vote_addr ∈ set)) then Some st
                    else if too_late ev head snap then Some st
                    else match vote_source ev snap with
                    | None => Some st
                    | Some (source_number', source_hash') =>
                        cast_vote ev signer
                          {| source_number := source_number'; source_hash := source_hash';
                             target_number := number head; target_hash := target |} st
                    end
                end
            end
      end
  end.

(** ** One call *)

(** [v] is a vote for [head] from the justified block. *)
Definition vote_for ev (head : Header) (v : VoteEnvelope) : Prop :=
  target_number (data v) = number head ∧
  ∃ snap, snapshot_by ev (hash_slow head) = Some snap ∧
          vote_source ev snap = Some (source_number (data v), source_hash (data v)).

(** What a call may change besides its caches: nothing is sent, or one vote that
    the journal let out. *)
Inductive outcome ev (head : Header) st st' : Prop :=
| silent : broadcast st' = broadcast st → journal st' = journal st → vote_pool st' = vote_pool st → outcome ev head st st'
| unreleased v e :
    broadcast st' = broadcast st → vote_pool st' = vote_pool st →
    write_vote (journal st) v (memory_only ev) (append ev) = Some (Some e, journal st') →
    vote_for ev head v → outcome ev head st st'
| voted v signer snap set :
    broadcast st' = broadcast st ++ [v] →
    bls_signer ev = Some signer → sign_vote signer (data v) = Some v →
    snapshot_by ev (hash_slow head) = Some snap →
    vote_source ev snap = Some (source_number (data v), source_hash (data v)) →
    target_number (data v) = number head → target_hash (data v) = hash_slow head →
    signer_public_key signer = Some (vote_address v) → vote_address v ∈ set →
    set = (indexed_addrs snap st).1 →
    write_vote (journal st) v (memory_only ev) (append ev) = Some (None, journal st') →
    put_vote (shared ev) v (vote_pool st) = Some (vote_pool st') →
    outcome ev head st st'.

Lemma sign_vote_data signer d v : sign_vote signer d = Some v → data v = d ∧ signer_public_key signer = Some (vote_address v).
Proof.
  unfold sign_vote. intros Hs. destruct (signer_public_key signer) as [a|]; [|done]. cbn in Hs.
  destruct (sign_hash signer _) as [sig|]; [|done]. by injection Hs as <-.
Qed.

Lemma indexed_frame snap st :
  let st' := (indexed_addrs snap st).2 in
  broadcast st' = broadcast st ∧ journal st' = journal st ∧ vote_pool st' = vote_pool st ∧
  blocks_since_mining st' = blocks_since_mining st.
Proof. unfold indexed_addrs. destruct (lru_get _ _) as [[s|] c]; done. Qed.

Lemma produce_outcome ev head st st' :
  maybe_produce_and_broadcast_for_head ev head st = Some st' → outcome ev head st st'.
Proof.
  unfold maybe_produce_and_broadcast_for_head. intros Hp.
  assert (Hsilent : ∀ x, broadcast x = broadcast st → journal x = journal st → vote_pool x = vote_pool st →
            Some x = Some st' → outcome ev head st st') by (intros x ? ? ? [= <-]; by apply silent).
  case_if; [by apply Hsilent in Hp|]. case_if; [by apply Hsilent in Hp|]. case_if; [by apply Hsilent in Hp|].
  destruct (bls_signer ev) as [signer|] eqn:Esig; [|by apply Hsilent in Hp].
  destruct (lru_get _ _) as [[[]|] lru]; [by apply Hsilent in Hp|]. cbv zeta in Hp.
  case_if; [by apply Hsilent in Hp|].
  destruct (snapshot_by ev _) as [snap|] eqn:Esnap; [|by apply Hsilent in Hp].
  destruct (signer_public_key signer) as [addr|] eqn:Eaddr; [|by apply Hsilent in Hp].
  set (st1 := with_blocks _ _) in Hp. pose proof (indexed_frame snap st1) as (Hb & Hj & Hv & _).
  assert (Hset : (indexed_addrs snap st1).1 = (indexed_addrs snap st).1).
  { unfold indexed_addrs. cbn [voteaddr_index st1 with_blocks with_produced]. by destruct (lru_get _ _) as [[s|] c]. }
  destruct (indexed_addrs snap st1) as [set st2]. cbn [fst snd] in *. cbv zeta in Hb, Hj, Hv.
  case_bool_decide as Hmem; [|by apply Hsilent in Hp]. cbn [negb] in Hp.
  case_if; [by apply Hsilent in Hp|].
  destruct (vote_source ev snap) as [[sn sh]|] eqn:Esrc; [|by apply Hsilent in Hp].
  unfold cast_vote in Hp. cbn [source_number target_number] in Hp.
  destruct (under_rules _ _ _) as [b|]; [|done]. cbn in Hp. destruct b; cbn in Hp; [|by apply Hsilent in Hp].
  destruct (sign_vote signer _) as [v|] eqn:Ev; [|by apply Hsilent in Hp].
  destruct (sign_vote_data _ _ _ Ev) as [Hd Ha]. destruct (write_vote _ _ _ _) as [[res j]|] eqn:Ew; [|done]. cbn in Hp.
  rewrite Hj in Ew. destruct res as [e|].
  - injection Hp as <-. apply (unreleased _ _ _ _ v e); [done|done|done|]. split; [by rewrite Hd|]. exists snap. by rewrite Hd.
  - destruct (put_vote _ _ _) as [p|] eqn:Epool; [|done]. cbn in Hp. injection Hp as <-.
    rewrite Eaddr in Ha. injection Ha as ->. cbn [vote_pool with_journal] in Epool. rewrite Hv in Epool.
    apply (voted _ _ _ _ v signer snap set); try done; try (by rewrite Hd).
    cbn [broadcast send with_journal]. by rewrite Hb.
Qed.

(** ** A validator over time *)

(** The justified block lies below the head, heights are real heights, and a
    failing append is rolled back; [torn_append_allows_double_vote] is about the
    others. *)
Definition event_sane ev (head : Header) : Prop :=
  (∀ residue, append ev = WriteFails residue → residue = []) ∧ number head < 2 ^ 64 - 257 ∧
  (∀ snap sn sh, snapshot_by ev (hash_slow head) = Some snap → vote_source ev snap = Some (sn, sh) → 0 <= sn < number head).

(** A vote the rules let the validator cast: whether it is on disk, whether it
    was sent (a vote whose append failed is not), and the process that cast it. *)
Record Cast := { c_vote : VoteEnvelope; c_durable : bool; c_sent : bool; c_life : nat }.

Definition reaches_disk ev : bool :=
  negb (memory_only ev) && match append ev with WriteOk => true | _ => false end.

(** The votes the journal of process [life] can know of. *)
Definition visible (life : nat) (c : Cast) : bool := c_durable c || Nat.eqb (c_life c) life.
Definition cast_votes (P : Cast → bool) (cs : list Cast) : list VoteEnvelope := c_vote <$> List.filter P cs.

(** Whether the call for [head] from [st] to [st'] took a height, and by which vote. *)
Definition cast_of (life : nat) ev (head : Header) st st' (c : option Cast) : Prop :=
  match c with
  | None => jlru (journal st') = jlru (journal st) ∧ broadcast st' = broadcast st
  | Some c =>
      ∃ res, write_vote (journal st) (c_vote c) (memory_only ev) (append ev) = Some (res, journal st') ∧
        jlru (journal st') ≠ jlru (journal st) ∧
        vote_for ev head (c_vote c) ∧
        c_durable c = reaches_disk ev ∧ c_sent c = bool_decide (res = None) ∧ c_life c = life ∧
        broadcast st' = broadcast st ++ (if c_sent c then [c_vote c] else [])
  end.

(** The file can be read back: all that was cast is on it, or it names no
    height twice within the journal's window. *)
Definition file_readable (cs : list Cast) : Prop :=
  (∀ c, c ∈ cs → c_durable c = true) ∨
  one_per_height (last_n MAX_RECENT_ENTRIES (data <$> cast_votes c_durable cs)).

(** Heads arrive, the downloader comes and goes, the process restarts with the
    journal it finds on disk; every call has its own configuration, memory-only
    or not, and its own luck with the file system. *)
Inductive producer_run : nat → list Cast → ProducerState → Prop :=
| producer_start : producer_run 0 [] (producer_new (journal_open None))
| producer_head life cs ev head st st' c :
    producer_run life cs st → event_sane ev head →
    maybe_produce_and_broadcast_for_head ev head st = Some st' → cast_of life ev head st st' c →
    producer_run life (cs ++ option_list c) st'
| producer_downloader life cs active st :
    producer_run life cs st → producer_run life cs (set_downloader_active active st)
| producer_restart life cs st :
    producer_run life cs st → file_readable cs →
    producer_run (life + 1) cs
      {| produced_targets := lru_new 2048; start_vote := true; blocks_since_mining := 0;
         voteaddr_index := lru_new 1024; journal := journal_open (jfile (journal st));
         vote_pool := state_new; broadcast := broadcast st |}.

Context {JL : JsonLaws J}.

Lemma under_rules_free lru s t : under_rules lru s t = Some true → lru_map lru !! t = None.
Proof. unfold under_rules. case_bool_decide as Hk; [done|]. intros _. by apply eq_None_not_Some. Qed.

(** A journal that errs without a write keeps its cache; a failed write takes the height. *)
Lemma write_vote_cases j v mem_only io res j' :
  write_vote j v mem_only io = Some (res, j') →
  (jlru j' = jlru j ∧ default [] (jfile j') = default [] (jfile j) ∧ res ≠ None) ∨
  (jlru j' = votes_add (jlru j) (target_number (data v)) (data v) ∧ jlru j' ≠ jlru j ∧
   under_rules (jlru j) (source_number (data v)) (target_number (data v)) = Some true ∧
   ((mem_only = true ∧ res = None ∧ jfile j' = jfile j) ∨
    (mem_only = false ∧ ∃ line, to_json v = Some line ∧
      ((io = WriteOk ∧ res = None ∧ default [] (jfile j') = default [] (jfile j) ++ line ++ [10]) ∨
       (∃ residue, io = WriteFails residue ∧ res = Some OtherError ∧ default [] (jfile j') = default [] (jfile j) ++ residue))))).
Proof.
  unfold write_vote. intros Hw.
  destruct (under_rules _ _ _) as [[]|] eqn:Hr; cbn in Hw; [|by injection Hw as <- <-; left|done].
  assert (Hne : votes_add (jlru j) (target_number (data v)) (data v) ≠ jlru j).
  { intros E%(f_equal (λ l, lru_map l !! target_number (data v))). rewrite (under_rules_free _ _ _ Hr) in E.
    unfold votes_add in E. cbn [lru_map] in E. by rewrite lookup_insert_eq in E. }
  destruct mem_only; [injection Hw as <- <-; right; split_and!; try done; by left|].
  destruct (to_json v) as [line|]; [|by injection Hw as <- <-; left].
  destruct io as [| |residue|]; injection Hw as <- <-; try (by left); right; split_and!; try done; right;
    (split; [done|]); exists line; (split; [done|]); [right; by exists residue|by left].
Qed.

(** Every call casts one vote or none. *)
Lemma every_call_casts life ev head st st' :
  maybe_produce_and_broadcast_for_head ev head st = Some st' → ∃ c, cast_of life ev head st st' c.
Proof.
  intros Hp. destruct (produce_outcome _ _ _ _ Hp) as [Hb Hj _|v e Hb _ Hw Ht|v signer snap set Hb _ _ Hsn Hs Ht _ _ _ _ Hw _].
  - exists None. split; [by rewrite Hj|done].
  - destruct (write_vote_cases _ _ _ _ _ _ Hw) as [(Hl & _)|(Hl & Hr & _)]; [by exists None|].
    exists (Some {| c_vote := v; c_durable := reaches_disk ev; c_sent := false; c_life := life |}).
    exists (Some e). cbn. rewrite app_nil_r. by split_and!.
  - destruct (write_vote_cases _ _ _ _ _ _ Hw) as [(_ & _ & ?)|(Hl & Hr & _)]; [done|].
    exists (Some {| c_vote := v; c_durable := reaches_disk ev; c_sent := true; c_life := life |}).
    exists None. cbn. split_and!; try done. split; [done|]. by exists snap.
Qed.

Record casts_ok (life : nat) (cs : list Cast) st : Prop := {
  ca_file : ∃ ls, written (cast_votes c_durable cs) ls ∧ default [] (jfile (journal st)) = journal_bytes ls;
  ca_lru : jlru (journal st) = lru_of (last_n MAX_RECENT_ENTRIES (data <$> cast_votes (visible life) cs));
  ca_heights : one_per_height (last_n MAX_RECENT_ENTRIES (data <$> cast_votes (visible life) cs));
  ca_sane : Forall (λ c, sane (c_vote c)) cs;
  ca_life : Forall (λ c, c_life c <= life)%nat cs;
  ca_sent : broadcast st = cast_votes c_sent cs;
  ca_pairs i k old new :
    cs !! i = Some old → cs !! k = Some new → (i < k <= i + MAX_RECENT_ENTRIES)%nat → visible (c_life new) old = true →
    compatible (data (c_vote old)) (data (c_vote new));
}.

Lemma cast_votes_snoc (P : Cast → bool) cs c :
  cast_votes P (cs ++ [c]) = cast_votes P cs ++ (if P c then [c_vote c] else []).
Proof. unfold cast_votes. rewrite List.filter_app, fmap_app. cbn. by destruct (P c). Qed.

(** What stands at most [n] places from the end is among the last [n] of any selection. *)
Lemma last_n_selected (P : Cast → bool) n (cs : list Cast) i c :
  cs !! i = Some c → P c = true → (length cs <= i + n)%nat → data (c_vote c) ∈ last_n n (data <$> cast_votes P cs).
Proof.
  intros Hc Hsel Hl. unfold cast_votes. rewrite !last_n_fmap. apply list_elem_of_fmap_2, list_elem_of_fmap_2.
  rewrite <- (take_drop i cs), List.filter_app. set (rest := List.filter P (drop i cs)).
  assert (Hr : (length rest <= n)%nat) by (etrans; [apply List.filter_length_le|rewrite length_drop; lia]).
  assert (Hin : c ∈ rest).
  { unfold rest. apply list_elem_of_In, List.filter_In. split; [|done]. apply list_elem_of_In, (list_elem_of_lookup_2 _ 0).
    by rewrite lookup_drop, Nat.add_0_r. }
  unfold last_n. rewrite length_app, drop_app_le by lia. apply elem_of_app. by right.
Qed.

(** A new height goes behind the votes the journal knows. *)
Lemma claim_known (known : list VoteEnvelope) v :
  let window l := last_n MAX_RECENT_ENTRIES (data <$> l) in
  one_per_height (window known) → lru_map (lru_of (window known)) !! target_number (data v) = None →
  one_per_height (window (known ++ [v])) ∧
  votes_add (lru_of (window known)) (target_number (data v)) (data v) = lru_of (window (known ++ [v])).
Proof.
  intros window Hnd Hnew%lru_of_None. unfold window. rewrite fmap_app. cbn [fmap list_fmap].
  rewrite last_n_shift by (unfold MAX_RECENT_ENTRIES; lia). fold (window known). split; [|by apply lru_of_add].
  assert (Hs : one_per_height (window known ++ [data v])).
  { unfold one_per_height. rewrite fmap_app. apply NoDup_app. split; [done|]. split; [|apply NoDup_singleton].
    by intros x Hx ->%list_elem_of_singleton. }
  destruct (Nat.ltb _ _); [|done]. unfold one_per_height in *.
  destruct (window known ++ _) as [|y ys]; [constructor|]. cbn in Hs |- *. by apply NoDup_cons in Hs as [_ ?].
Qed.

Lemma casts_ok_cast life cs ev head st st' c :
  casts_ok life cs st → event_sane ev head → cast_of life ev head st st' (Some c) → casts_ok life (cs ++ [c]) st'.
Proof.
  intros [(ls & Hw & Hfile) Hlru Hnd Hsane Hlife Hsent Hpairs] (Hio & Hn & Hsrc).
  intros (res & Hwr & Hne & (Ht & snap & Hsn & Hs) & Hd & Hse & Hli & Hb).
  assert (Hv : sane (c_vote c)) by (pose proof (Hsrc _ _ _ Hsn Hs); unfold sane; rewrite Ht; lia).
  destruct (write_vote_cases _ _ _ _ _ _ Hwr) as [(? & _)|(Hlru' & _ & Hrules & Hf)]; [done|].
  pose proof (under_rules_free _ _ _ Hrules) as Hfree. rewrite Hlru in Hfree.
  assert (Hvis : visible life c = true) by (unfold visible; by rewrite Hli, Nat.eqb_refl, orb_true_r).
  destruct (claim_known _ _ Hnd Hfree) as [Hnd' Hadd].
  split.
  - rewrite cast_votes_snoc, Hd. unfold reaches_disk.
    destruct Hf as [(-> & _ & ->)|(-> & line & Hline & [(-> & _ & ->)|(residue & Hres & _ & ->)])]; cbn [negb andb].
    + exists ls. by rewrite app_nil_r.
    + exists (ls ++ [line]). split; [apply Forall2_app; [done|by repeat constructor]|].
      rewrite Hfile. unfold journal_bytes. rewrite fmap_app, join_app. cbn. by rewrite app_nil_r.
    + rewrite Hres, (Hio residue Hres), !app_nil_r. by exists ls.
  - by rewrite Hlru', Hlru, cast_votes_snoc, Hvis.
  - by rewrite cast_votes_snoc, Hvis.
  - by apply Forall_app_2; [|constructor].
  - apply Forall_app_2; [done|]. constructor; [lia|constructor].
  - by rewrite Hb, Hsent, cast_votes_snoc.
  - intros i k old new Hi Hk Hik Hold. destruct (decide (k < length cs)%nat) as [Hlt|Hge].
    { rewrite lookup_app_l in Hk by done. rewrite lookup_app_l in Hi by lia. by apply (Hpairs i k). }
    apply lookup_lt_Some in Hk as Hkl. rewrite length_app in Hkl. cbn in Hkl.
    assert (k = length cs) as -> by lia. rewrite lookup_app_r, Nat.sub_diag in Hk by lia. injection Hk as <-.
    rewrite lookup_app_l in Hi by lia. rewrite Hli in Hold.
    apply (allowed_compatible (last_n MAX_RECENT_ENTRIES (data <$> cast_votes (visible life) cs))); [done| | |].
    + apply (last_n_selected _ _ _ i); [done|done|lia].
    + rewrite Forall_forall in Hsane. apply (Hsane old). by eapply list_elem_of_lookup_2.
    + rewrite <- Hlru. destruct Hv as [Hvs Hvt].
      destruct (under_rules_spec (jlru (journal st)) (source_number (data (c_vote c))) (target_number (data (c_vote c))))
        as (b & Hb' & Hiff); [lia..|]. apply Hiff. congruence.
Qed.

(** After a restart the journal knows what is on disk. *)
Lemma casts_ok_restart life cs st st' :
  casts_ok life cs st → file_readable cs →
  journal st' = journal_open (jfile (journal st)) → broadcast st' = broadcast st → casts_ok (life + 1) cs st'.
Proof.
  intros [(ls & Hw & Hfile) Hlru Hnd Hsane Hlife Hsent Hpairs] Hread Hj Hb.
  assert (Hvis : cast_votes (visible (life + 1)) cs = cast_votes c_durable cs).
  { unfold cast_votes. f_equal. apply List.filter_ext_in. intros c Hc%list_elem_of_In.
    rewrite Forall_forall in Hlife. specialize (Hlife c Hc). unfold visible.
    rewrite (proj2 (Nat.eqb_neq _ _)) by lia. apply orb_false_r. }
  assert (Hone : one_per_height (last_n MAX_RECENT_ENTRIES (data <$> cast_votes c_durable cs))).
  { destruct Hread as [Hall|?]; [|done]. replace (cast_votes c_durable cs) with (cast_votes (visible life) cs); [done|].
    unfold cast_votes. f_equal. apply List.filter_ext_in. intros c Hc%list_elem_of_In. unfold visible. by rewrite (Hall c Hc). }
  split; [| | |done| |by rewrite Hb|done].
  - exists ls. by rewrite Hj.
  - rewrite Hj, Hvis. cbn [jlru journal_open]. rewrite reload_default, Hfile. by apply reload.
  - by rewrite Hvis.
  - eapply Forall_impl; [done|]. cbn. lia.
Qed.

Lemma producer_casts life cs st : producer_run life cs st → casts_ok life cs st.
Proof.
  induction 1 as [|life cs ev head st st' c _ IH Hev Hp Hc|life cs active st _ IH|life cs st _ IH Hread].
  - split; [exists []; split; [apply Forall2_nil_2|done]|done|apply NoDup_nil_2|constructor|constructor|done|done].
  - destruct c as [c|]; cbn [option_list]; [by eapply casts_ok_cast|]. rewrite app_nil_r. destruct Hc as [Hl Hb].
    destruct IH as [(ls & Hw & Hfile) Hlru Hnd Hsane Hlife Hsent Hpairs].
    split; [|by rewrite Hl|done|done|done|by rewrite Hb|done]. exists ls. split; [done|]. rewrite <- Hfile.
    destruct (produce_outcome _ _ _ _ Hp) as [_ Hj _|v e _ _ Hwr _|v signer snap set Hb' _ _ _ _ _ _ _ _ _ _ _].
    + by rewrite Hj.
    + by destruct (write_vote_cases _ _ _ _ _ _ Hwr) as [(_ & Hf & _)|(_ & Hne & _)].
    + apply (f_equal length) in Hb'. rewrite Hb, length_app in Hb'. cbn in Hb'. lia.
  - by destruct IH; split.
  - by eapply casts_ok_restart.
Qed.

(** C19: the validator does not equivocate.  The node sends out votes over its
    whole life, with restarts, resynchronisations, changes of configuration,
    memory-only journals and appends that fail and are rolled back; the votes it
    sent are among the votes it cast.  Take two votes it cast, at most 512 casts
    apart, of which the later process could know the earlier: it was on disk, or
    the process had not been restarted since.  Then they are for different
    heights, and neither surrounds the other within 256 blocks behind and 11
    ahead.  Left out are appends that leave part of a line, votes kept in memory
    only across a restart, and a restart on a file that names a height twice
    after a vote was cast that is not on it. *)
Theorem producer_never_equivocates life cs st :
  producer_run life cs st →
  broadcast st = cast_votes c_sent cs ∧
  ∀ i k old new,
    cs !! i = Some old → cs !! k = Some new → (i < k <= i + MAX_RECENT_ENTRIES)%nat →
    c_durable old = true ∨ c_life old = c_life new → compatible (data (c_vote old)) (data (c_vote new)).
Proof.
  intros Hr%producer_casts. split; [apply Hr|]. intros i k old new Hi Hk Hik Hold.
  apply (ca_pairs _ _ _ Hr i k); [done|done|done|]. unfold visible. apply orb_true_iff. by rewrite Nat.eqb_eq.
Qed.

(** ** The warm-up *)

Definition run_heads : list (HeadEvent * Header) → ProducerState → option ProducerState :=
  λ evs st, foldl (λ o e, o ≫= maybe_produce_and_broadcast_for_head e.1 e.2) (Some st) evs.

Lemma foldl_None (evs : list (HeadEvent * Header)) :
  foldl (λ o e, o ≫= maybe_produce_and_broadcast_for_head e.1 e.2) None evs = None.
Proof. by induction evs. Qed.

Lemma warmup_step ev head st st' :
  0 <= blocks_since_mining st < warmup_blocks (warmup_var ev) → warmup_blocks (warmup_var ev) < 2 ^ 64 →
  maybe_produce_and_broadcast_for_head ev head st = Some st' →
  broadcast st' = broadcast st ∧ 0 <= blocks_since_mining st' <= blocks_since_mining st + 1.
Proof.
  intros Hb Hw Hp. unfold maybe_produce_and_broadcast_for_head in Hp.
  case_if; [injection Hp as <-; cbn; split; [done|lia]|]. case_if; [injection Hp as <-; split; [done|lia]|].
  case_if; [injection Hp as <-; split; [done|lia]|].
  destruct (bls_signer ev); [|injection Hp as <-; split; [done|lia]].
  destruct (lru_get _ _) as [[[]|] lru]; [injection Hp as <-; cbn; split; [done|lia]|]. cbv zeta in Hp.
  cbn [blocks_since_mining with_produced] in Hp. rewrite add64_small in Hp by lia.
  rewrite (proj2 (Z.leb_le _ _)) in Hp by lia. injection Hp as <-. cbn. split; [done|lia].
Qed.

(** The warm-up holds: after mining is enabled (or the node starts), the first
    [BSC_VOTE_WARMUP_BLOCKS] heads, 40 by default, bring no vote whatever they
    are; a second validator with the same key has that long to be noticed. *)
Theorem warmup_holds n evs st st' :
  blocks_since_mining st = 0 → Forall (λ e, warmup_blocks (warmup_var e.1) = n) evs → n < 2 ^ 64 →
  zlen evs <= n → run_heads evs st = Some st' → broadcast st' = broadcast st.
Proof.
  intros Hz Hall Hn Hlen Hr.
  assert (Hgen : ∀ c s, 0 <= c → blocks_since_mining s <= c → 0 <= blocks_since_mining s → c + zlen evs <= n →
            run_heads evs s = Some st' → broadcast st' = broadcast s).
  { clear Hz Hlen Hr st. unfold run_heads. induction Hall as [|[ev head] evs Hev _ IH]; intros c s Hc Hb Hb0 Hlen Hr.
    { cbn in Hr. by injection Hr as <-. }
    cbn [foldl fst snd mbind option_bind] in Hr. rewrite zlen_cons in Hlen. pose proof (zlen_nonneg evs).
    destruct (maybe_produce_and_broadcast_for_head ev head s) as [s1|] eqn:E; [|by rewrite foldl_None in Hr].
    cbn [fst] in Hev. apply warmup_step in E as [Hb1 Hblk]; [|lia|lia].
    rewrite <- Hb1. apply (IH (c + 1)); [lia|lia|lia|lia|done]. }
  apply (Hgen 0); [lia|lia|lia|lia|done].
Qed.

(** ** The own pool *)

Context {SL : BlsSecretLaws B S}.

(** The pool sees the chain the producer votes on. *)
Record same_view ev (head : Header) : Prop := {
  sv_header : get_canonical_header_by_hash_from_provider (shared ev) (hash_slow head) = Some head;
  sv_snapshot : get_snapshot_provider (shared ev) = Some (snapshot_by ev);
  sv_genesis : get_canonical_header_by_number (shared ev) 0 = genesis_header ev;
}.

(** The vote the node casts is one everyone accepts: it is signed correctly
    and, if the validator belongs to the set that governs its target (the one
    of the target's parent), it passes the origin check of the pool. *)
Theorem own_vote_accepted ev head st st' v parent_snap :
  maybe_produce_and_broadcast_for_head ev head st = Some st' → broadcast st' = broadcast st ++ [v] →
  same_view ev head → snapshot_by ev (parent_hash head) = Some parent_snap →
  has_vote_addr (validators_map parent_snap) (vote_address v) = true →
  verify_vote_envelope v = true ∧ verify_vote_origin (shared ev) v = OriginOk.
Proof.
  intros Hp Hb [Hh Hsp Hg] Hps Ha.
  destruct (produce_outcome _ _ _ _ Hp) as [Hb' _ _|w e Hb' _ _ _|w signer snap set Hb' _ Hs Hsn Hsrc Ht Hth _ _ _ _ _];
    [apply (f_equal length) in Hb; rewrite Hb', length_app in Hb; cbn in Hb; lia..|].
  rewrite Hb' in Hb. apply (inj (app (broadcast st))) in Hb. injection Hb as ->.
  split; [by apply (sign_vote_verifies signer (data v))|].
  apply origin_ok. exists head, parent_snap. rewrite Hth. split_and!; [done|done| |unfold snapshot_of; by rewrite Hsp|done].
  apply justified_pair_iff. exists snap. unfold snapshot_of. rewrite Hsp. split; [done|].
  unfold justified_pair_of, vote_source in *. case_if; [|done]. by rewrite Hg.
Qed.
End Producer.
