(* ===== verification/VoteProducerDemo.v ===== *)
(** * VoteProducerDemo: a validator on the demo network

    The theorems on the vote producer applied to concrete heads, and what it
    does at the block where the validator set changes. *)

From stdpp Require Import gmultiset countable.
From stdpp Require Import base tactics numbers option list sorting gmap fin_maps.
From Stdlib Require Import ZArith Lia Bool.
From S2P Require Import Prelude.
From S2P Require Import Hardforks.
From S2P Require Import Header.
From S2P Require Import Snapshot.
From S2P Require Import SnapshotProps.
From S2P Require Import SnapshotClaims.
From S2P Require Import Attestation.
From S2P Require Import AttestationProps.
From S2P Require Import AttestationDemo.
From S2P Require Import Collections.
From S2P Require Import VoteMonitor.
From S2P Require Import VotePool.
From S2P Require Import VotePoolDemo.
From S2P Require Import VoteJournal.
From S2P Require Import VoteProducer.

Module ProducerNet.
Import ThresholdForks DemoApis DemoChain AttestationNet ListContainers PoolNet JournalDemo.

(** The secret key of an address is the address. *)
#[export] Instance demo_secret : BlsSecretApi := {|
  SecretKey := Z;
  secret_key_from_bytes z := Some z;
  sk_to_pk sk := sk;
  sk_sign sk h := signature_to_bytes ({[+ (sk, h) +]} : gmultiset (Z * Z));
|}.

#[export] Instance demo_secret_laws : BlsSecretLaws demo_bls demo_secret.
Proof.
  split. intros sk h. exists sk, {[+ (sk, h) +]}. split; [done|]. split.
  - apply (signature_bytes_roundtrip (B := demo_bls)).
  - apply bool_decide_eq_true_2.
    by rewrite fmap_cons, fmap_nil, list_to_set_disj_cons, list_to_set_disj_nil, (right_id_L ∅ (⊎)).
Qed.

(** A head event for the validator with key [key]; the snapshot of the head has
    the validators of [after], that of its parent those of [s0]. *)
Definition event (key : Z) (after : Snapshot) (warmup : Z) : HeadEvent := {|
  chain_spec := mainnet;
  snapshot_by := λ h, if h =? 7000 + top then Some s0 else Some after;
  mining_config := Some {| mining_on := true; has_keystore_path := true; has_private_key_hex := false |};
  warmup_var := Some warmup;
  bls_signer := Some {| sk_bytes := key |};
  genesis_header := Some (demo_header 0 0);
  now_ms := 0;
  memory_only := false;
  append := WriteOk;
  shared := {|
    get_best_canonical_block_number := Some (top + 1);
    get_canonical_header_by_number := λ n,
      if n =? top + 1 then Some h1 else if n =? 0 then Some (demo_header 0 0) else None;
    header_by_hash_provider := Some (λ h, if h =? 7000 + (top + 1) then Some h1 else None);
    get_snapshot_provider := Some (λ h, if h =? 7000 + top then Some s0 else Some after);
    has_fork_choice_engine := true |};
|}.

Definition start : ProducerState := producer_new (journal_open None).
Definition on_head (ev : HeadEvent) (st : ProducerState) (head : Header) : ProducerState :=
  default st (maybe_produce_and_broadcast_for_head ev head st).

Lemma nothing_justified : target_hash (vote_data s0) = 0 ∧ target_hash (vote_data s1) = 0.
Proof. by vm_compute. Qed.

(** The same event with a journal in memory only, and with an append that fails. *)
Definition with_storage (mem_only : bool) (io : Append) (ev : HeadEvent) : HeadEvent := {|
  chain_spec := chain_spec ev; snapshot_by := snapshot_by ev; mining_config := mining_config ev; warmup_var := warmup_var ev;
  bls_signer := bls_signer ev; genesis_header := genesis_header ev; now_ms := now_ms ev;
  memory_only := mem_only; append := io; shared := shared ev |}.

Lemma event_ok head key w m io :
  0 < number head < 2 ^ 64 - 257 → (∀ residue, io = WriteFails residue → residue = []) →
  event_sane (with_storage m io (event key s1 w)) head.
Proof.
  intros Hn Hio. split; [done|]. split; [lia|]. intros snap sn sh Hsnap Hs.
  assert (H0 : target_hash (vote_data snap) = 0).
  { cbn [snapshot_by event with_storage] in Hsnap. destruct nothing_justified. by case_if; injection Hsnap as <-. }
  unfold vote_source in Hs. rewrite H0 in Hs. injection Hs as <- _. lia.
Qed.

Lemma on_head_run life cs ev st head c :
  producer_run life cs st → event_sane ev head → cast_of life ev head st (on_head ev st head) c →
  producer_run life (cs ++ option_list c) (on_head ev st head).
Proof.
  intros Hr He Hc. unfold on_head in *. destruct (maybe_produce_and_broadcast_for_head ev head st) as [st'|] eqn:E.
  - by apply (producer_head life cs ev head st).
  - cbn [default] in *. destruct c as [c|]; [|by rewrite app_nil_r]. destruct Hc as (res & _ & Hne & _). done.
Qed.

(** One head for the warm-up; a vote on disk for the second; a failed append for
    the third; a vote in memory for the fourth; then a restart, a head for the
    warm-up, and a vote for the sixth. *)
Definition head_at (i : Z) : Header := demo_header (top + i) bohr_time.
Definition on_disk : HeadEvent := with_storage false WriteOk (event 1 s1 1).
Definition failing : HeadEvent := with_storage false (WriteFails []) (event 1 s1 1).
Definition in_memory : HeadEvent := with_storage true WriteOk (event 1 s1 1).
Definition p1 : ProducerState := on_head on_disk start (head_at 1).
Definition p2 : ProducerState := on_head on_disk p1 (head_at 2).
Definition p3 : ProducerState := on_head failing p2 (head_at 3).
Definition p4 : ProducerState := on_head in_memory p3 (head_at 4).
Definition p5 : ProducerState :=
  {| produced_targets := lru_new 2048; start_vote := true; blocks_since_mining := 0; voteaddr_index := lru_new 1024;
     journal := journal_open (jfile (journal p4)); vote_pool := state_new; broadcast := broadcast p4 |}.
Definition p6 : ProducerState := on_head on_disk p5 (head_at 5).
Definition p7 : ProducerState := on_head on_disk p6 (head_at 6).

Definition vote_at (i : Z) : VoteEnvelope :=
  default wrong_source (sign_vote {| sk_bytes := 1 |}
    {| source_number := 0; source_hash := 7000; target_number := top + i; target_hash := 7000 + (top + i) |}).
Definition c2 : Cast := {| c_vote := vote_at 2; c_durable := true; c_sent := true; c_life := 0 |}.
Definition c3 : Cast := {| c_vote := vote_at 3; c_durable := false; c_sent := false; c_life := 0 |}.
Definition c4 : Cast := {| c_vote := vote_at 4; c_durable := false; c_sent := true; c_life := 0 |}.
Definition c6 : Cast := {| c_vote := vote_at 6; c_durable := true; c_sent := true; c_life := 1 |}.

Lemma casts life ev st head c :
  write_vote (journal st) (c_vote c) (memory_only ev) (append ev)
    = Some (if c_sent c then None else Some OtherError, journal (on_head ev st head)) →
  order (jlru (journal (on_head ev st head))) ≠ order (jlru (journal st)) →
  vote_for ev head (c_vote c) → c_durable c = reaches_disk ev → c_life c = life →
  broadcast (on_head ev st head) = broadcast st ++ (if c_sent c then [c_vote c] else []) →
  cast_of life ev head st (on_head ev st head) (Some c).
Proof.
  intros Hw Ho Hv Hd Hl Hb. exists (if c_sent c then None else Some OtherError). split_and!; try done.
  - intros E. by rewrite E in Ho.
  - by destruct (c_sent c).
Qed.

Ltac cast_step :=
  apply casts; [vm_compute; reflexivity|by vm_compute|split; [by vm_compute|eexists; split; by vm_compute]
               |done|done|vm_compute; reflexivity].

Lemma p7_run : producer_run 1 [c2; c3; c4; c6] p7.
Proof.
  assert (H1 : producer_run 0 [] p1).
  { apply (on_head_run 0 [] on_disk start (head_at 1) None); [apply producer_start|by apply event_ok; vm_compute|by vm_compute]. }
  assert (H2 : producer_run 0 [c2] p2).
  { apply (on_head_run 0 [] on_disk p1 (head_at 2) (Some c2)); [done|by apply event_ok; vm_compute|cast_step]. }
  assert (H3 : producer_run 0 [c2; c3] p3).
  { apply (on_head_run 0 [c2] failing p2 (head_at 3) (Some c3)); [done| |cast_step].
    apply event_ok; [by vm_compute|by intros residue [= <-]]. }
  assert (H4 : producer_run 0 [c2; c3; c4] p4).
  { apply (on_head_run 0 [c2; c3] in_memory p3 (head_at 4) (Some c4)); [done|by apply event_ok; vm_compute|cast_step]. }
  assert (H5 : producer_run 1 [c2; c3; c4] p5).
  { apply (producer_restart 0 [c2; c3; c4] p4); [done|right; apply NoDup_singleton]. }
  assert (H6 : producer_run 1 [c2; c3; c4] p6).
  { apply (on_head_run 1 [c2; c3; c4] on_disk p5 (head_at 5) None); [done|by apply event_ok; vm_compute|by vm_compute]. }
  apply (on_head_run 1 [c2; c3; c4] on_disk p6 (head_at 6) (Some c6)); [done|by apply event_ok; vm_compute|cast_step].
Qed.

(** The vote on disk is compatible with the one after the restart, and with the
    one in memory before it. *)
Lemma producer_never_equivocates_witness :
  broadcast p7 = [vote_at 2; vote_at 4; vote_at 6] ∧
  compatible (data (vote_at 2)) (data (vote_at 6)) ∧ compatible (data (vote_at 3)) (data (vote_at 4)).
Proof.
  destruct (producer_never_equivocates 1 [c2; c3; c4; c6] p7 p7_run) as [Hb Hp]. split; [exact Hb|]. split.
  - apply (Hp 0%nat 3%nat c2 c6); [done|done|unfold MAX_RECENT_ENTRIES; lia|by left].
  - apply (Hp 1%nat 2%nat c3 c4); [done|done|unfold MAX_RECENT_ENTRIES; lia|by right].
Defined.

(** With the default warm-up, 40 heads pass in silence. *)
Definition quiet : list (HeadEvent * Header) :=
  (λ i, (event 1 s1 40, demo_header (top + i) bohr_time)) <$> seqZ 1 40.

Lemma warmup_holds_witness : broadcast (default start (run_heads quiet start)) = broadcast start.
Proof.
  apply (warmup_holds 40 quiet start (default start (run_heads quiet start)));
    [done| |lia|by vm_compute|apply (returned start (run_heads quiet start)); by vm_compute].
  apply Forall_fmap, Forall_true. intros i. reflexivity.
Defined.

(** The validator with vote address 1 votes for [h1]. *)
Definition st_first : ProducerState := foldl (on_head (event 1 s1 1)) start [h2; h1].
Definition own : VoteEnvelope := default wrong_source (broadcast st_first !! 0%nat).

Lemma own_vote_accepted_witness :
  verify_vote_envelope own = true ∧ verify_vote_origin (shared (event 1 s1 1)) own = OriginOk.
Proof.
  apply (own_vote_accepted (event 1 s1 1) h1 (on_head (event 1 s1 1) start h2) st_first own s0);
    [apply (returned (on_head (event 1 s1 1) start h2)); by vm_compute|by vm_compute|by split|by vm_compute|by vm_compute].
Defined.

(** ** The block where the set changes *)

(** The head's snapshot has the vote addresses 1, 2 and 9 instead of 1, 2 and 3. *)
Definition s_new : Snapshot := get_done no_snapshot (snapshot_new [10; 20; 40] (top + 1) (7000 + (top + 1)) 200 (Some [1; 2; 9])).

Definition vote_of (key : Z) (after : Snapshot) : ProducerState := foldl (on_head (event key after 1)) start [h2; h1].

(** At the block that installs a new validator set the producer asks the
    snapshot of the head, while the set that governs votes for the head is the
    parent's: a validator that joins with this block signs, journals and
    broadcasts a vote that every pool rejects, and one that leaves with it
    keeps silent although its vote would count. *)
Theorem set_change_votes :
  let joined := vote_of 9 s_new in
  map vote_address (broadcast joined) = [9] ∧
  map (verify_vote_origin (shared (event 9 s_new 1))) (broadcast joined) = [OriginRejected] ∧
  broadcast (vote_of 3 s_new) = [] ∧
  map (verify_vote_origin (shared (event 3 s_new 1))) (broadcast (vote_of 3 s1)) = [OriginOk].
Proof. by vm_compute. Qed.
End ProducerNet.
