(* ===== verification/Provider.v ===== *)
(** * Provider: the store of snapshots and their reconstruction

    Models [src/consensus/parlia/provider.rs].  Snapshots are kept in an LRU
    cache, and in the database for every checkpoint; any other is rebuilt by
    walking back to one that is kept and applying the headers in between.  The
    database is a map from hashes to snapshots (their CBOR form is another
    crate's) that may be out of order; headers come from the cache of
    [util.rs] or the database. *)

From stdpp Require Import base tactics numbers option list gmap.
From Stdlib Require Import ZArith Lia Bool.
From S2P Require Import Prelude.
From S2P Require Import Hardforks.
From S2P Require Import Header.
From S2P Require Import Snapshot.
From S2P Require Import SnapshotProps.
From S2P Require Import SnapshotClaims.
From S2P Require Import Extra.
From S2P Require Import ExtraProps.
From S2P Require Import Collections.

(** [None] of the source, or the loop over parents cut short by its fuel. *)
Inductive Missing : Set := NotFound | OutOfFuel.

Section Provider.
Context `{L : LruApi, F : ForkConditionApi, HashApi, HexApi, R : AttestationRlp}.

(** What the provider reads: the headers by hash, cache first; the consensus
    instance; whether transactions on the database succeed. *)
Record ProviderEnv := {
  header_by_hash : Z → option Header;
  parlia_of : Parlia;
  db_ok : bool;
}.

Record Provider := { cache_by_hash : LruCache Snapshot; db : gmap Z Snapshot }.

Implicit Types (env : ProviderEnv) (self : Provider) (snap : Snapshot).

Definition query_db_by_hash env (block_hash' : Z) self : option Snapshot :=
  if db_ok env then db self !! block_hash' else None.

(** [None] for [Err]. *)
Definition persist_to_db env snap self : option Provider :=
  if db_ok env then Some {| cache_by_hash := cache_by_hash self; db := <[block_hash snap := snap]> (db self) |}
  else None.

Definition with_cache (c : LruCache Snapshot) self : Provider := {| cache_by_hash := c; db := db self |}.

Definition insert_cache_only snap self : Provider :=
  with_cache (lru_put (cache_by_hash self) (block_hash snap) snap) self.

(** [DbSnapshotProvider::snapshot_by_hash] *)
Definition base_snapshot_by_hash env (block_hash' : Z) self : Provider * option Snapshot :=
  let '(found, c) := lru_get (cache_by_hash self) block_hash' in
  let self := with_cache c self in
  match found with
  | Some snap => (self, Some snap)
  | None =>
      match query_db_by_hash env block_hash' self with
      | None => (self, None)
      | Some snap => (with_cache (lru_put (cache_by_hash self) block_hash' snap) self, Some snap)
      end
  end.

(** [DbSnapshotProvider::insert] *)
Definition base_insert env snap self : Provider :=
  let self := insert_cache_only snap self in
  if is_multiple_of (block_number snap) CHECKPOINT_INTERVAL
  then default self (persist_to_db env snap self)
  else self.

Fixpoint find_ancient_header env (header : Header) (steps : nat) : option Header :=
  match steps with
  | O => Some header
  | S steps =>
      p ← header_by_hash env (parent_hash header);
      if hash_slow p =? parent_hash header then find_ancient_header env p steps else None
  end.

(** The snapshot at genesis. *)
Definition genesis_snapshot env (genesis_header : Header) : exec Missing Snapshot :=
  info ← map_err (λ _, NotFound) (parse_validators_from_header (parlia_of env) genesis_header (parlia_epoch (parlia_of env)));
  map_err (λ _, NotFound)
    (snapshot_new (consensus_addrs info) 0 (hash_slow genesis_header) (parlia_epoch (parlia_of env)) (vote_addrs info)).

Definition init_genesis_snapshot env (genesis_header : Header) self : Provider * exec Missing Snapshot :=
  match genesis_snapshot env genesis_header with
  | Done snap => (base_insert env snap self, Done snap)
  | r => (self, r)
  end.

(** The loop of [try_rebuild] over the parents: the base snapshot and the hashes
    to apply, the target first. *)
Fixpoint walk (fuel : nat) env (parent_block_hash : Z) (hashes : list Z) self
    : Provider * exec Missing (Snapshot * list Z) :=
  match fuel with
  | O => (self, Fail OutOfFuel)
  | S fuel =>
      match header_by_hash env parent_block_hash with
      | None => (self, Fail NotFound)
      | Some parent_header =>
          let '(self, panicked) :=
            if number parent_header =? 0
            then let '(self, r) := init_genesis_snapshot env parent_header self in
                 (self, match r with Panics => true | _ => false end)
            else (self, false) in
          if panicked : bool then (self, Panics)
          else
            match base_snapshot_by_hash env parent_block_hash self with
            | (self, Some snap) => (self, Done (snap, hashes))
            | (self, None) => walk fuel env (parent_hash parent_header) (hashes ++ [parent_block_hash]) self
            end
      end
  end.

(** One header of the rebuild: what [apply] is given and what it returns. *)
Definition advance env snap (header : Header) : exec Missing Snapshot :=
  let parlia := parlia_of env in
  epoch_remainder ← rmod (number header) (epoch_num snap);
  let miner_check_len := miner_history_check_len snap in
  let is_epoch_boundary := (0 <? number header) && (epoch_remainder =? miner_check_len) in
  '(info, turn_length') ←
    (if is_epoch_boundary
     then
       checkpoint_header ← ok_or (find_ancient_header env header (Z.to_nat miner_check_len)) NotFound;
       match parse_validators_from_header parlia checkpoint_header (epoch_num snap) with
       | Panics => Panics
       | parsed =>
           tl ← map_err (λ _, NotFound) (get_turn_length_from_header parlia checkpoint_header (epoch_num snap));
           info ← map_err (λ _, NotFound) parsed;
           Done (info, tl)
       end
     else Done ({| consensus_addrs := []; vote_addrs := None |}, None));
  attestation ← map_err (λ _, NotFound) (get_vote_attestation_from_header parlia header (epoch_num snap));
  map_err (λ _, NotFound)
    (apply snap (beneficiary header) header (consensus_addrs info) (vote_addrs info) attestation turn_length'
       (parlia_spec parlia)).

(** The loop of [try_rebuild] over the headers, oldest first. *)
Fixpoint replay env (hashes : list Z) (working_snapshot : Snapshot) self : Provider * exec Missing Snapshot :=
  match hashes with
  | [] => (self, Done working_snapshot)
  | block_hash' :: hashes =>
      match header_by_hash env block_hash' with
      | None => (self, Fail NotFound)
      | Some header =>
          match advance env working_snapshot header with
          | Done snap =>
              let self := insert_cache_only snap self in
              if is_multiple_of (block_number snap) CHECKPOINT_INTERVAL
              then match persist_to_db env snap self with
                   | None => (self, Fail NotFound)
                   | Some self => replay env hashes snap self
                   end
              else replay env hashes snap self
          | Fail e => (self, Fail e)
          | Panics => (self, Panics)
          end
      end
  end.

Definition try_rebuild (fuel : nat) env (target_header : Header) self : Provider * exec Missing Snapshot :=
  match walk fuel env (parent_hash target_header) [hash_slow target_header] self with
  | (self, Done (base, hashes)) => replay env (rev hashes) base self
  | (self, Fail e) => (self, Fail e)
  | (self, Panics) => (self, Panics)
  end.

(** [EnhancedDbSnapshotProvider::snapshot_by_hash] *)
Definition provider_snapshot_by_hash (fuel : nat) env (block_hash' : Z) self : Provider * exec Missing Snapshot :=
  match base_snapshot_by_hash env block_hash' self with
  | (self, Some snap) => (self, Done snap)
  | (self, None) =>
      match header_by_hash env block_hash' with
      | None => (self, Fail NotFound)
      | Some target_header =>
          if number target_header =? 0 then init_genesis_snapshot env target_header self
          else match try_rebuild fuel env target_header self with
               | (self, Done snap) => (base_insert env snap self, Done snap)
               | r => r
               end
      end
  end.

Definition provider_insert env snap self : Provider := base_insert env snap self.

(** ** The snapshot of a block *)

(** The snapshot the chain defines for a block: that of genesis, carried forward
    header by header. *)
Inductive chain_snapshot env : Z → Snapshot → Prop :=
| cs_genesis h hd s :
    header_by_hash env h = Some hd → number hd = 0 → genesis_snapshot env hd = Done s → chain_snapshot env h s
| cs_block h hd s s' :
    header_by_hash env h = Some hd → number hd ≠ 0 → chain_snapshot env (parent_hash hd) s →
    advance env s hd = Done s' → chain_snapshot env h s'.

(** Headers are stored under their hash and follow their parent; nothing precedes
    genesis. *)
Record headers_ok env : Prop := {
  ho_hash h hd : header_by_hash env h = Some hd → hash_slow hd = h;
  ho_number h hd : header_by_hash env h = Some hd → 0 <= number hd;
  ho_parent h hd p : header_by_hash env h = Some hd → number hd ≠ 0 →
    header_by_hash env (parent_hash hd) = Some p → number p + 1 = number hd;
  ho_genesis h hd : header_by_hash env h = Some hd → number hd = 0 → header_by_hash env (parent_hash hd) = None;
}.

Record store_ok env self : Prop := {
  so_nodup : NoDup (lru_iter (cache_by_hash self)).*1;
  so_cap : 0 < lru_cap (cache_by_hash self);
  so_cache h s : (h, s) ∈ lru_iter (cache_by_hash self) → chain_snapshot env h s;
  so_db h s : db self !! h = Some s → chain_snapshot env h s;
}.

Lemma chain_snapshot_fun env h s s' : chain_snapshot env h s → chain_snapshot env h s' → s = s'.
Proof.
  intros Hs. revert s'. induction Hs as [h hd s Hh Hn Hg|h hd s0 s1 Hh Hn _ IH Ha]; intros s' Hs';
    inversion Hs' as [h' hd' s2 Hh' Hn' Hg'|h' hd' s2 s3 Hh' Hn' Hc Ha']; subst; try congruence.
  assert (hd' = hd) as -> by congruence. apply IH in Hc as <-. congruence.
Qed.

Lemma apply_position s v h nv va att tl spec s' :
  apply s v h nv va att tl spec = Done s' → block_number s' = number h ∧ block_hash s' = hash_slow h.
Proof.
  unfold apply. intros Ha. apply seq_Done in Ha as [_ Ha].
  destruct (slide_windows_Done s h) as (snap & Hs & _ & Hbn & Hbh & _). rewrite Hs in Ha. cbn [mbind exec_bind] in Ha.
  apply seq_Done in Ha as [_ Ha]. apply bind_Done in Ha as (q & _ & Ha).
  destruct (record_block_same snap v h att spec) as (_ & Hbn1 & Hbh1 & _).
  match goal with H : context [update_epoch_num ?r ?m ?l ?b] |- _ =>
    destruct (update_epoch_num_same r m l b) as (_ & Hbn2 & Hbh2 & _) end.
  case_if; [apply switch_validators_Done in Ha as (_ & _ & _ & _ & Hbn3 & Hbh3 & _); split; congruence|].
  injection Ha as <-. split; congruence.
Qed.

Lemma advance_position env s hd s' : advance env s hd = Done s' → block_number s' = number hd ∧ block_hash s' = hash_slow hd.
Proof.
  unfold advance. intros Ha. apply bind_Done in Ha as (rem & _ & Ha). apply bind_Done in Ha as ([info tl] & _ & Ha).
  apply bind_Done in Ha as (att & _ & Ha%map_err_Done). by apply apply_position in Ha.
Qed.

Lemma chain_snapshot_hash env h s : headers_ok env → chain_snapshot env h s → block_hash s = h.
Proof.
  intros Ho Hs. destruct Hs as [h hd s Hh Hn Hg|h hd s0 s Hh Hn _ Ha].
  - unfold genesis_snapshot in Hg. apply bind_Done in Hg as (info & _ & Hs%map_err_Done).
    unfold snapshot_new in Hs. apply bind_Done in Hs as ([vs m] & _ & Hs). injection Hs as <-. cbn.
    apply (ho_hash _ Ho _ _ Hh).
  - apply advance_position in Ha as [_ ->]. apply (ho_hash _ Ho _ _ Hh).
Qed.

(** ** The store holds snapshots of the chain *)

Context {LL : LruLaws L}.

Lemma store_put env self h s :
  store_ok env self → chain_snapshot env h s → store_ok env (with_cache (lru_put (cache_by_hash self) h s) self).
Proof.
  intros [Hnd Hcap Hc Hdb] Hs. split; cbn; [by apply lru_put_NoDup|by rewrite lru_put_cap| |done].
  intros h' s' [[= -> ->]|Hin]%lru_put_elem; [done|by apply Hc].
Qed.

Lemma store_insert env self h s :
  headers_ok env → store_ok env self → chain_snapshot env h s → store_ok env (insert_cache_only s self).
Proof.
  intros Ho Hst Hs. unfold insert_cache_only. rewrite (chain_snapshot_hash _ _ _ Ho Hs). by apply store_put.
Qed.

Lemma store_persist env self self' h s :
  headers_ok env → store_ok env self → chain_snapshot env h s → persist_to_db env s self = Some self' →
  store_ok env self' ∧ cache_by_hash self' = cache_by_hash self.
Proof.
  intros Ho [Hnd Hcap Hc Hdb] Hs Hp. unfold persist_to_db in Hp. destruct (db_ok env); [|done]. injection Hp as <-.
  split; [|done]. split; cbn; [done|done|done|].
  intros h' s' [[<- <-]|[_ Hin]]%lookup_insert_Some; [|by apply Hdb]. by rewrite (chain_snapshot_hash _ _ _ Ho Hs).
Qed.

Lemma store_base_insert env self h s :
  headers_ok env → store_ok env self → chain_snapshot env h s →
  store_ok env (base_insert env s self) ∧ (h, s) ∈ lru_iter (cache_by_hash (base_insert env s self)).
Proof.
  intros Ho Hst Hs. pose proof (store_insert env self h s Ho Hst Hs) as Hi.
  assert (Hin : (h, s) ∈ lru_iter (cache_by_hash (insert_cache_only s self))).
  { unfold insert_cache_only. cbn. rewrite (chain_snapshot_hash _ _ _ Ho Hs). by apply lru_put_self, Hst. }
  unfold base_insert. cbv zeta. case_if; [|done].
  destruct (persist_to_db env s (insert_cache_only s self)) as [self'|] eqn:Hp; [|done].
  destruct (store_persist _ _ _ _ _ Ho Hi Hs Hp) as [? Hc]. cbn. split; [done|by rewrite Hc].
Qed.

Lemma store_lookup env self h self' r :
  store_ok env self → base_snapshot_by_hash env h self = (self', r) →
  store_ok env self' ∧ (∀ s, r = Some s → chain_snapshot env h s) ∧
  (∀ s, (h, s) ∈ lru_iter (cache_by_hash self) → is_Some r).
Proof.
  intros Hst Hb. pose proof Hst as [Hnd Hcap Hc Hdb]. unfold base_snapshot_by_hash in Hb.
  pose proof (lru_get_value (cache_by_hash self) h) as Hv. pose proof (lru_get_NoDup (cache_by_hash self) h Hnd) as Hnd'.
  pose proof (lru_get_cap (cache_by_hash self) h) as Hcap'. pose proof (λ p, lru_get_elem (cache_by_hash self) h p Hnd) as He.
  destruct (lru_get (cache_by_hash self) h) as [found c]. cbn [fst snd] in *.
  assert (Hst' : store_ok env (with_cache c self)).
  { split; cbn; [done|by rewrite Hcap'| |done]. intros h' s' Hin%He. by apply Hc. }
  symmetry in Hv. destruct found as [s|].
  - injection Hb as <- <-. split; [done|]. split; [|eauto]. intros s' [= <-]. by apply Hc, assoc_Some.
  - unfold query_db_by_hash in Hb. cbn [db with_cache cache_by_hash] in Hb.
    assert (Hmiss : ∀ s, (h, s) ∈ lru_iter (cache_by_hash self) → is_Some r).
    { intros s Hin. by apply (assoc_None _ _ s) in Hv. }
    destruct (if db_ok env then db self !! h else None) as [s|] eqn:Hq; injection Hb as <- <-; [|by split].
    assert (Hs : chain_snapshot env h s) by (destruct (db_ok env); [by apply Hdb|done]).
    split; [by apply (store_put env (with_cache c self))|]. split; [by intros s' [= <-]|done].
Qed.

Lemma store_genesis env self h hd self' r :
  headers_ok env → store_ok env self → header_by_hash env h = Some hd → number hd = 0 →
  init_genesis_snapshot env hd self = (self', r) →
  store_ok env self' ∧ r = genesis_snapshot env hd ∧
  (∀ s, r = Done s → chain_snapshot env h s ∧ (h, s) ∈ lru_iter (cache_by_hash self')).
Proof.
  intros Ho Hst Hh Hn Hi. unfold init_genesis_snapshot in Hi.
  destruct (genesis_snapshot env hd) as [s|e|] eqn:Hg; injection Hi as <- <-; [|by split|by split].
  assert (Hs : chain_snapshot env h s) by (by apply (cs_genesis env h hd)).
  destruct (store_base_insert env self h s Ho Hst Hs) as [? ?].
  split; [done|]. split; [done|]. by intros s' [= <-].
Qed.

(** ** The walk *)

(** The blocks [hs], each the child of the one before it, the first of [p]. *)
Fixpoint linked env (p : Z) (hs : list Z) : Prop :=
  match hs with
  | [] => True
  | h :: hs => (∃ hd, header_by_hash env h = Some hd ∧ number hd ≠ 0 ∧ parent_hash hd = p) ∧ linked env h hs
  end.

(** The header at the start of an iteration is looked at and, if it is genesis,
    its snapshot stored: then the lookup decides. *)
Lemma walk_step fuel env pbh hashes self hd :
  headers_ok env → store_ok env self → header_by_hash env pbh = Some hd →
  (number hd = 0 ∧ genesis_snapshot env hd = Panics ∧ walk (S fuel) env pbh hashes self = (self, Panics)) ∨
  ∃ self1 r,
    store_ok env self1 ∧ (∀ s, r = Some s → chain_snapshot env pbh s) ∧
    (∀ s, number hd = 0 → genesis_snapshot env hd = Done s → is_Some r) ∧
    walk (S fuel) env pbh hashes self =
      match r with
      | Some s => (self1, Done (s, hashes))
      | None => walk fuel env (parent_hash hd) (hashes ++ [pbh]) self1
      end.
Proof.
  intros Ho Hst Hh. cbn [walk]. rewrite Hh. destruct (Z.eqb_spec (number hd) 0) as [En|En].
  - destruct (init_genesis_snapshot env hd self) as [self1 g] eqn:Hi.
    destruct (store_genesis _ _ _ _ _ _ Ho Hst Hh En Hi) as (Hst1 & -> & Hg).
    destruct (base_snapshot_by_hash env pbh self1) as [self2 r] eqn:Hb.
    destruct (store_lookup _ _ _ _ _ Hst1 Hb) as (Hst2 & Hr & Hhit).
    destruct (genesis_snapshot env hd) as [s|e|] eqn:Eg.
    + right. exists self2, r. split_and!; [done|done| |by destruct r]. intros s' _ [= <-]. by eapply Hhit, Hg.
    + right. exists self2, r. by destruct r.
    + left. split; [done|]. split; [done|]. unfold init_genesis_snapshot in Hi. rewrite Eg in Hi. by injection Hi as <-.
  - destruct (base_snapshot_by_hash env pbh self) as [self2 r] eqn:Hb.
    destruct (store_lookup _ _ _ _ _ Hst Hb) as (Hst2 & Hr & Hhit).
    right. exists self2, r. by destruct r.
Qed.

Lemma last_cons {A} (h : A) hs p : List.last (h :: hs) p = List.last hs h.
Proof. cbn. destruct hs as [|x hs]; [done|]. revert x. induction hs as [|y hs IH]; intros x; [done|]. apply IH. Qed.

Lemma walk_sound fuel env pbh hashes self self' r :
  headers_ok env → store_ok env self → linked env pbh (rev hashes) → walk fuel env pbh hashes self = (self', r) →
  store_ok env self' ∧
  ∀ base hs, r = Done (base, hs) →
    ∃ p more, chain_snapshot env p base ∧ hs = hashes ++ more ∧ linked env p (rev hs).
Proof.
  intros Ho. revert pbh hashes self. induction fuel as [|fuel IH]; intros pbh hashes self Hst Hl Hw.
  { by injection Hw as <- <-. }
  destruct (header_by_hash env pbh) as [hd|] eqn:Hh; [|cbn in Hw; rewrite Hh in Hw; by injection Hw as <- <-].
  destruct (walk_step fuel env pbh hashes self hd Ho Hst Hh) as [(_ & _ & Hp)|(self1 & found & Hst1 & Hs & _ & Hw')];
    [rewrite Hp in Hw; by injection Hw as <- <-|].
  rewrite Hw' in Hw. destruct found as [s|].
  - injection Hw as <- <-. split; [done|]. intros base hs [= <- <-]. exists pbh, []. rewrite app_nil_r. auto.
  - destruct (decide (number hd = 0)) as [En|En].
    { destruct fuel as [|fuel]; cbn in Hw; [by injection Hw as <- <-|].
      rewrite (ho_genesis _ Ho _ _ Hh En) in Hw. by injection Hw as <- <-. }
    apply IH in Hw as [Hst' Hr]; [|done|rewrite rev_app_distr; cbn; split; [by exists hd|done]].
    split; [done|]. intros base hs Hd. destruct (Hr base hs Hd) as (p & more & Hc & -> & Hlk).
    exists p, ([pbh] ++ more). rewrite app_assoc. auto.
Qed.

Lemma replay_sound env hs p s self self' r :
  headers_ok env → store_ok env self → chain_snapshot env p s → linked env p hs →
  replay env hs s self = (self', r) →
  store_ok env self' ∧ ∀ s', r = Done s' → chain_snapshot env (List.last hs p) s'.
Proof.
  intros Ho. revert p s self. induction hs as [|h hs IH]; intros p s self Hst Hs Hl Hr; cbn [replay] in Hr.
  { injection Hr as <- <-. split; [done|]. by intros s' [= <-]. }
  cbn in Hl. destruct Hl as ((hd & Hh & Hn & Hp) & Hl). rewrite Hh in Hr.
  destruct (advance env s hd) as [s1|e|] eqn:Ha; [|by injection Hr as <- <-|by injection Hr as <- <-].
  assert (Hs1 : chain_snapshot env h s1) by (apply (cs_block env h hd s); [done|done|by rewrite Hp|done]).
  pose proof (store_insert env self h s1 Ho Hst Hs1) as Hi.
  rewrite last_cons. cbv zeta in Hr. case_if; [|by apply (IH h s1 (insert_cache_only s1 self))].
  destruct (persist_to_db env s1 (insert_cache_only s1 self)) as [self1|] eqn:Hpd; [|by injection Hr as <- <-].
  destruct (store_persist _ _ _ _ _ Ho Hi Hs1 Hpd) as [Hst1 _]. by apply (IH h s1 self1).
Qed.

(** ** Every snapshot of the chain is found *)

Lemma chain_snapshot_parent env h hd s :
  header_by_hash env h = Some hd → number hd ≠ 0 → chain_snapshot env h s →
  ∃ s0, chain_snapshot env (parent_hash hd) s0 ∧ advance env s0 hd = Done s.
Proof. intros Hh Hn Hs. inversion Hs as [? hd' ? Hh'|? hd' s0 ? Hh' _ Hc Ha]; subst; [congruence|]. exists s0. split; congruence. Qed.

Lemma chain_snapshot_header env h s : chain_snapshot env h s → ∃ hd, header_by_hash env h = Some hd.
Proof. intros [? hd ? Hh _ _|? hd ? ? Hh _ _ _]; eauto. Qed.

Lemma linked_chain env p hs s :
  linked env p hs → chain_snapshot env (List.last hs p) s → ∃ s0, chain_snapshot env p s0.
Proof.
  revert p. induction hs as [|h hs IH]; intros p Hl Hs; [by exists s|]. rewrite last_cons in Hs.
  destruct Hl as ((hd & Hh & Hn & <-) & Hl). destruct (IH h Hl Hs) as (sh & Hsh).
  destruct (chain_snapshot_parent _ _ _ _ Hh Hn Hsh) as (s0 & Hs0 & _). by exists s0.
Qed.

Lemma replay_complete env hs p s self s' :
  headers_ok env → db_ok env = true → chain_snapshot env p s → linked env p hs →
  chain_snapshot env (List.last hs p) s' → (replay env hs s self).2 = Done s'.
Proof.
  intros Ho Hdb. revert p s self. induction hs as [|h hs IH]; intros p s self Hs Hl Hs'; cbn [replay].
  { by rewrite (chain_snapshot_fun _ _ _ _ Hs Hs'). }
  rewrite last_cons in Hs'. destruct Hl as ((hd & Hh & Hn & <-) & Hl). rewrite Hh.
  destruct (linked_chain _ _ _ _ Hl Hs') as (sh & Hsh).
  destruct (chain_snapshot_parent _ _ _ _ Hh Hn Hsh) as (s0 & Hs0 & Ha).
  rewrite (chain_snapshot_fun _ _ _ _ Hs Hs0), Ha. cbv zeta. unfold persist_to_db. rewrite Hdb.
  case_if; by apply (IH h).
Qed.

Lemma walk_complete fuel env pbh hashes self hd s :
  headers_ok env → store_ok env self → header_by_hash env pbh = Some hd → chain_snapshot env pbh s →
  number hd < Z.of_nat fuel → ∃ base hs, (walk fuel env pbh hashes self).2 = Done (base, hs).
Proof.
  intros Ho. revert pbh hashes self hd s. induction fuel as [|fuel IH]; intros pbh hashes self hd s Hst Hh Hs Hf.
  { pose proof (ho_number _ Ho _ _ Hh). lia. }
  assert (Hgenesis : number hd = 0 → genesis_snapshot env hd = Done s).
  { intros En. inversion Hs as [? hd' ? Hh' _ Hg|? hd' ? ? Hh' Hn]; subst; congruence. }
  destruct (walk_step fuel env pbh hashes self hd Ho Hst Hh) as [(En & Hp & _)|(self1 & found & Hst1 & _ & Hgen & ->)];
    [rewrite Hgenesis in Hp; done|].
  destruct found as [b|]; [by exists b, hashes|].
  destruct (decide (number hd = 0)) as [En|En]; [by destruct (Hgen s En (Hgenesis En))|].
  destruct (chain_snapshot_parent _ _ _ _ Hh En Hs) as (s0 & Hs0 & _).
  destruct (chain_snapshot_header _ _ _ Hs0) as (p & Hp). pose proof (ho_parent _ Ho _ _ _ Hh En Hp) as Hnum.
  apply (IH _ _ _ p s0); [done|done|done|lia].
Qed.

Lemma try_rebuild_correct fuel env h hd self self' r :
  headers_ok env → store_ok env self → header_by_hash env h = Some hd → number hd ≠ 0 →
  try_rebuild fuel env hd self = (self', r) →
  store_ok env self' ∧
  (∀ s, r = Done s → chain_snapshot env h s) ∧
  (∀ s, chain_snapshot env h s → db_ok env = true → number hd <= Z.of_nat fuel → r = Done s).
Proof.
  intros Ho Hst Hh En Hr.
  pose proof (ho_hash _ Ho _ _ Hh) as Hhash. unfold try_rebuild in Hr.
  assert (Hl0 : linked env (parent_hash hd) (rev [hash_slow hd])) by (cbn; rewrite Hhash; split; [by exists hd|done]).
  destruct (walk fuel env (parent_hash hd) [hash_slow hd] self) as [self2 w] eqn:Hw.
  destruct (walk_sound _ _ _ _ _ _ _ Ho Hst Hl0 Hw) as [Hst2 Hdone].
  assert (Hfound : ∀ s, chain_snapshot env h s → number hd <= Z.of_nat fuel → ∃ base hs, w = Done (base, hs)).
  { intros s Hs Hfuel. destruct (chain_snapshot_parent _ _ _ _ Hh En Hs) as (s0 & Hs0 & _).
    destruct (chain_snapshot_header _ _ _ Hs0) as (p & Hp). pose proof (ho_parent _ Ho _ _ _ Hh En Hp).
    destruct (walk_complete fuel env (parent_hash hd) [hash_slow hd] self p s0) as (b & hs & Hwd); [done|done|done|done|lia|].
    exists b, hs. by rewrite Hw in Hwd. }
  destruct w as [[base hs]|e|]; [|injection Hr as <- <-; split; [done|]; split; [done|]; intros s Hs _ Hfuel;
    by destruct (Hfound s Hs Hfuel) as (? & ? & ?)..].
  destruct (Hdone base hs eq_refl) as (p & more & Hbase & -> & Hlk).
  assert (Hlast : List.last (rev ([hash_slow hd] ++ more)) p = h).
  { rewrite rev_app_distr. cbn [rev app]. by rewrite List.last_last. }
  destruct (replay env (rev ([hash_slow hd] ++ more)) base self2) as [self3 x] eqn:Hrep.
  destruct (replay_sound _ _ _ _ _ _ _ Ho Hst2 Hbase Hlk Hrep) as [Hst3 Hx]. rewrite Hlast in Hx.
  assert (Hcomp : ∀ s, chain_snapshot env h s → db_ok env = true → x = Done s).
  { intros s Hs Hdb. rewrite <- Hlast in Hs.
    pose proof (replay_complete env _ p base self2 s Ho Hdb Hbase Hlk Hs) as Hc. by rewrite Hrep in Hc. }
  injection Hr as <- <-. split; [done|]. split; [done|]. intros s Hs Hdb _. by apply Hcomp.
Qed.

(** C11: the provider returns the snapshot of the chain: whatever it has cached or
    stored, what it returns for a block is the genesis snapshot carried forward
    over every header up to that block, and all it keeps are such snapshots;
    and whenever the chain defines a snapshot and the database works, it is
    found, the walk needing no more steps than the height of the block. *)
Theorem provider_correct fuel env h self self' r :
  headers_ok env → store_ok env self → provider_snapshot_by_hash fuel env h self = (self', r) →
  store_ok env self' ∧
  (∀ s, r = Done s → chain_snapshot env h s) ∧
  (∀ s hd, chain_snapshot env h s → header_by_hash env h = Some hd → db_ok env = true →
     number hd <= Z.of_nat fuel → r = Done s).
Proof.
  intros Ho Hst Hr. unfold provider_snapshot_by_hash in Hr.
  destruct (base_snapshot_by_hash env h self) as [self1 found] eqn:Hb.
  destruct (store_lookup _ _ _ _ _ Hst Hb) as (Hst1 & Hf & _). destruct found as [s|].
  { injection Hr as <- <-. split; [done|]. split; [intros s' [= <-]; by apply Hf|].
    intros s' hd Hs' _ _ _. f_equal. by apply (chain_snapshot_fun env h); [apply Hf|]. }
  destruct (header_by_hash env h) as [hd|] eqn:Hh; [|by injection Hr as <- <-].
  destruct (Z.eqb_spec (number hd) 0) as [En|En].
  { destruct (store_genesis _ _ _ _ _ _ Ho Hst1 Hh En Hr) as (Hst' & -> & Hg). split; [done|].
    split; [intros s Hs; by apply Hg|]. intros s hd' Hs _ _ _.
    inversion Hs as [? hd0 ? Hh' _ Hg'|? hd0 ? ? Hh' Hn]; subst; congruence. }
  destruct (try_rebuild fuel env hd self1) as [self2 x] eqn:Ht.
  destruct (try_rebuild_correct _ _ _ _ _ _ _ Ho Hst1 Hh En Ht) as (Hst2 & Hx & Hcomp).
  assert (Hcomp' : ∀ s hd', chain_snapshot env h s → Some hd = Some hd' → db_ok env = true → number hd' <= Z.of_nat fuel → x = Done s)
    by (intros s hd' Hs [= <-]; by apply Hcomp).
  destruct x as [s|e|]; injection Hr as <- <-; [|by split..].
  split; [by apply (store_base_insert env self2 h s); [..|apply Hx]|by split].
Qed.
End Provider.

(** ** Three blocks *)

Module ProviderDemo.
Import ThresholdForks DemoApis DemoChain ExtraDemo TaggedRlp ListContainers.

(** Genesis lists the validators 10 and 20 in the format before Luban. *)
Definition genesis : Header :=
  set_extra_data (replicate 32 0 ++ be_encode 20 10 ++ be_encode 20 20 ++ replicate 65 0) (demo_header 0 0).
Definition b1 : Header := set_beneficiary 20 (demo_header 1 3).
Definition b2 : Header := set_beneficiary 10 (demo_header 2 6).

Definition chain : ProviderEnv := {|
  header_by_hash h := if h =? 7000 then Some genesis else if h =? 7001 then Some b1 else if h =? 7002 then Some b2 else None;
  parlia_of := {| parlia_spec := mainnet; parlia_epoch := 200 |};
  db_ok := true;
|}.
Definition empty_store : Provider := {| cache_by_hash := lru_new 16; db := ∅ |}.

Lemma chain_headers_ok : headers_ok chain.
Proof.
  assert (Hcases : ∀ h hd, header_by_hash chain h = Some hd →
            h = 7000 ∧ hd = genesis ∨ h = 7001 ∧ hd = b1 ∨ h = 7002 ∧ hd = b2).
  { intros h hd. cbn. destruct (Z.eqb_spec h 7000); [|destruct (Z.eqb_spec h 7001); [|destruct (Z.eqb_spec h 7002)]];
      intros [= <-]; auto. }
  split.
  - intros h hd [[-> ->]|[[-> ->]|[-> ->]]]%Hcases; done.
  - intros h hd [[-> ->]|[[-> ->]|[-> ->]]]%Hcases; done.
  - intros h hd p [[-> ->]|[[-> ->]|[-> ->]]]%Hcases Hn Hp; [done| |]; by injection Hp as <-.
  - intros h hd [[-> ->]|[[-> ->]|[-> ->]]]%Hcases Hn; done.
Qed.

Lemma empty_store_ok : store_ok chain empty_store.
Proof. split; [constructor|done|by intros h s Hin%elem_of_nil|done]. Qed.

Definition rebuilt : Provider * exec Missing Snapshot := provider_snapshot_by_hash 2 chain 7002 empty_store.

Definition rebuilt_snapshot : Snapshot := get_done no_snapshot rebuilt.2.

Lemma rebuilt_ok : rebuilt.2 = Done rebuilt_snapshot.
Proof. unfold rebuilt_snapshot. by destruct rebuilt.2 eqn:E; [|vm_compute in E..]. Qed.

Lemma provider_correct_witness :
  validators rebuilt_snapshot = [10; 20] ∧ block_number rebuilt_snapshot = 2 ∧ chain_snapshot chain 7002 rebuilt_snapshot.
Proof.
  split; [by vm_compute|]. split; [by vm_compute|].
  destruct (provider_correct 2 chain 7002 empty_store rebuilt.1 rebuilt.2) as (_ & Hs & _);
    [apply chain_headers_ok|apply empty_store_ok|exact (surjective_pairing rebuilt)|].
  apply Hs. exact rebuilt_ok.
Defined.
End ProviderDemo.
