(* ===== verification/PaymentLane.v ===== *)
(** * PaymentLane: gas reserved for payment transactions

    Models [src/consensus/payment_lane/] (BEP-703): the block rule and the
    producer's admission rule ([rules.rs]), the paged read of the governance
    contract and its cache ([meta.rs]), the state of one block ([state.rs]),
    and the executor's use of them ([src/node/evm/executor.rs],
    [pre_execution.rs]).

    The ABI codec and the EVM are other crates' code: the class [LaneAbi] and
    the argument [access], which answers a getter call on one state.  Error
    messages are the constructors of [LaneCorruption]; metrics and logs are
    left out. *)

From stdpp Require Import base tactics numbers option list gmap strings.
From Stdlib Require Import ZArith Lia Bool.
From S2P Require Import Prelude.
From S2P Require Import Hardforks.
From S2P Require Import Header.
From S2P Require Import Extra.
From S2P Require Import Collections.

(** ** Constants, errors and data ([mod.rs]) *)

Definition RATIO_DENOM : Z := 10000.
Definition MAX_LANE_RATIO : Z := 1000.
Definition PAGE_SIZE : Z := 128.
Definition MAX_LISTED_CONTRACTS : Z := 100000.
(** [PAYMENT_LANE_CONTRACT], the system contract 0x2007. *)
Definition PAYMENT_LANE_CONTRACT : Z := 0x2007.

Inductive LaneType := GeneralLane | PaymentLane.
#[export] Instance LaneType_eq_dec : EqDecision LaneType.
Proof. solve_decision. Defined.

(** Which check a [CorruptConfig] message reports. *)
Inductive LaneCorruption :=
| RatioDecode | RatioOutside (ratio : Z)
| ContractsDecode | CountExceedsU64 (total : Z) | CountExceedsCeiling (total : Z)
| CountChanged (first total : Z) | EmptyPage (offset total : Z) | PageTooLong (n : Z)
| OffsetPastTotal (offset total : Z) | PageOverruns (n offset total : Z) | ListedTwice (addr : Z)
| NoPagesRead | CollectedWrongCount (collected total : Z)
| GetterFailed (what : string).

Inductive LaneError :=
| Violated (gas_limit gas_used quota payment_gas_used : Z)
| BidEatsReservation (idle shared : Z)
| CorruptConfig (why : LaneCorruption)
| StateUnavailable (why : string).

Record Budget := { payment_lane_quota : Z; payment_lane_used : Z }.

(** ** The rules ([rules.rs]) *)

Definition check_ratio (ratio : Z) : exec LaneError Z :=
  if (ratio <? 2 ^ 64) && (0 <? ratio) && (ratio <=? MAX_LANE_RATIO)
  then Done ratio else Fail (CorruptConfig (RatioOutside ratio)).

(** The product is taken in 128 bits, in which it fits. *)
Definition quota {E} (ratio gas_limit : Z) : exec E Z :=
  let q := (ratio * gas_limit) mod 2 ^ 128 / RATIO_DENOM in
  if q <? 2 ^ 64 then Done q else Panics.

Definition check_inequality (gas_limit gas_used payment_gas_used payment_lane_quota : Z) : exec LaneError unit :=
  let idle := sat_sub64 payment_lane_quota payment_gas_used in
  let violated := Fail (Violated gas_limit gas_used payment_lane_quota payment_gas_used) in
  let total := gas_used + idle in
  if total <? 2 ^ 64 then if total <=? gas_limit then Done tt else violated else violated.

Definition classify (is_system : bool) (to : option Z) (tx_type value : Z) (listed : gset Z)
    (code_at_to_is_empty : Z → exec LaneError bool) : exec LaneError LaneType :=
  if is_system then Done GeneralLane else
  match to with
  | None => Done GeneralLane
  | Some to =>
      if negb ((0 <=? tx_type) && (tx_type <=? 2)) then Done GeneralLane
      else if bool_decide (to ∈ listed) then Done PaymentLane
      else if value =? 0 then Done GeneralLane
      else
        empty ← code_at_to_is_empty to;
        Done (if (empty : bool) then PaymentLane else GeneralLane)
  end.

Definition budget_idle_lane (b : Budget) : Z := sat_sub64 (payment_lane_quota b) (payment_lane_used b).

Definition max_available_gas (b : Budget) (shared : Z) (lane : LaneType) : Z :=
  match lane with
  | PaymentLane => shared
  | GeneralLane => sat_sub64 shared (budget_idle_lane b)
  end.

Definition budget_admits (b : Budget) (shared : Z) (lane : LaneType) (tx_gas_limit : Z) : bool :=
  tx_gas_limit <=? max_available_gas b shared lane.

Definition budget_record_used (lane : LaneType) (delta : Z) (b : Budget) : Budget :=
  match lane with
  | PaymentLane => {| payment_lane_quota := payment_lane_quota b;
                      payment_lane_used := add64 (payment_lane_used b) delta |}
  | GeneralLane => b
  end.

Definition budget_verify (b : Budget) (gas_limit gas_used : Z) : exec LaneError unit :=
  check_inequality gas_limit gas_used (payment_lane_used b) (payment_lane_quota b).

(** ** Reading the governance contract ([meta.rs]) *)

(** The Solidity ABI of the two getters: calldata, and what [abi_decode_returns]
    makes of the returned bytes. *)
Class LaneAbi := {
  getPaymentLaneRatio : bytes;
  getPaymentContracts : Z → Z → bytes;
  decode_ratio_returns : bytes → option Z;
  decode_contracts_returns : bytes → option (list Z * Z);
}.

Record LaneMeta := { ratio : Z; listed : gset Z }.

Record PageWalk := { walk_total : option Z; walk_listed : gset Z }.
Definition new_walk : PageWalk := {| walk_total := None; walk_listed := ∅ |}.

(** One getter call against a state ([LaneParentState::call_lane_getter]). *)
Definition Getter : Type := Z → bytes → exec LaneError bytes.

(** [for addr in page { if !self.listed.insert(addr) .. }] *)
Fixpoint insert_page (listed : gset Z) (page : list Z) : exec LaneError (gset Z) :=
  match page with
  | [] => Done listed
  | addr :: page =>
      if bool_decide (addr ∈ listed) then Fail (CorruptConfig (ListedTwice addr))
      else insert_page ({[addr]} ∪ listed) page
  end.

Section Meta.
Context `{Abi : LaneAbi}.

Definition contracts_calldata (offset : Z) : bytes := getPaymentContracts offset PAGE_SIZE.

Definition decode_ratio (ret : bytes) : exec LaneError Z :=
  value ← ok_or (decode_ratio_returns ret) (CorruptConfig RatioDecode);
  check_ratio value.

Definition accept (self : PageWalk) (offset : Z) (ret : bytes) : exec LaneError (PageWalk * option Z) :=
  r ← ok_or (decode_contracts_returns ret) (CorruptConfig ContractsDecode);
  let '(page, total) := (r : list Z * Z) in
  _ ← ensure (total <? 2 ^ 64) (CorruptConfig (CountExceedsU64 total));
  _ ← match walk_total self with
      | None => ensure (total <=? MAX_LISTED_CONTRACTS) (CorruptConfig (CountExceedsCeiling total))
      | Some first => ensure (total =? first) (CorruptConfig (CountChanged first total))
      end;
  let self := {| walk_total := Some total; walk_listed := walk_listed self |} in
  if total =? 0 then Done (self, None) else
  let n := zlen page in
  _ ← ensure (negb (n =? 0)) (CorruptConfig (EmptyPage offset total));
  _ ← ensure (n <=? PAGE_SIZE) (CorruptConfig (PageTooLong n));
  _ ← ensure (offset <=? total) (CorruptConfig (OffsetPastTotal offset total));
  _ ← ensure (n <=? sub64 total offset) (CorruptConfig (PageOverruns n offset total));
  listed ← insert_page (walk_listed self) page;
  let next := add64 offset n in
  Done ({| walk_total := Some total; walk_listed := listed |},
        if total <=? next then None else Some next).

Definition finish (self : PageWalk) : exec LaneError (gset Z) :=
  total ← ok_or (walk_total self) (CorruptConfig NoPagesRead);
  _ ← ensure (Z.of_nat (size (walk_listed self)) =? total)
        (CorruptConfig (CollectedWrongCount (Z.of_nat (size (walk_listed self))) total));
  Done (walk_listed self).

(** The [loop] of [load]; [None]: more than [fuel] pages. *)
Fixpoint walk_pages (fuel : nat) (access : Getter) (walk : PageWalk) (offset : Z) : option (exec LaneError PageWalk) :=
  match fuel with
  | O => None
  | S fuel =>
      match
        ret ← access PAYMENT_LANE_CONTRACT (contracts_calldata offset);
        accept walk offset ret
      with
      | Done (walk, Some next) => walk_pages fuel access walk next
      | Done (walk, None) => Some (Done walk)
      | Fail e => Some (Fail e)
      | Panics => Some Panics
      end
  end.

(** Every page but the last holds a contract, so there are at most
    [MAX_LISTED_CONTRACTS] pages. *)
Definition walk_fuel : nat := Z.to_nat MAX_LISTED_CONTRACTS.

(** The part of [load] after a cache miss. *)
Definition load_config (access : Getter) : option (exec LaneError LaneMeta) :=
  match (ret ← access PAYMENT_LANE_CONTRACT getPaymentLaneRatio; decode_ratio ret) with
  | Done r =>
      walked ← walk_pages walk_fuel access new_walk 0;
      Some (walk ← walked;
            l ← finish walk;
            Done {| ratio := r; listed := l |})
  | Fail e => Some (Fail e)
  | Panics => Some Panics
  end.

Context `{Lru : LruApi}.

Definition new_cache : LruCache LaneMeta := lru_new 1024.

Definition load (cache : LruCache LaneMeta) (access : Getter) (parent_hash : Z)
  : option (exec LaneError LaneMeta) * LruCache LaneMeta :=
  match lru_get cache parent_hash with
  | (Some hit, cache) => (Some (Done hit), cache)
  | (None, cache) =>
      match load_config access with
      | Some (Done meta) => (Some (Done meta), lru_put cache parent_hash meta)
      | r => (r, cache)
      end
  end.

(** [touched]: the bundle of the block has an entry for the lane contract. *)
Definition inherit_if_untouched (touched : bool) (parent child : Z) (cache : LruCache LaneMeta)
  : LruCache LaneMeta :=
  if touched then cache
  else match lru_get cache parent with
       | (Some meta, cache) => lru_put cache child meta
       | (None, cache) => cache
       end.

(** ** One block ([state.rs]) *)

Record Active := { meta : LaneMeta; budget : Budget; lane_gas_limit : Z }.
(** [None]: the lane is switched off. *)
Definition LaneState : Type := option Active.

Definition lane_resolve (cache : LruCache LaneMeta) (access : Getter) (parent_hash gas_limit : Z)
  : option (exec LaneError LaneState) * LruCache LaneMeta :=
  let '(loaded, cache) := load cache access parent_hash in
  (loaded ← loaded;
   Some (meta ← loaded;
         q ← quota (ratio meta) gas_limit;
         Done (Some {| meta := meta;
                       budget := {| payment_lane_quota := q; payment_lane_used := 0 |};
                       lane_gas_limit := gas_limit |})),
   cache).

Record Tx := { tx_is_system : bool; tx_to : option Z; tx_ty : Z; tx_value : Z; tx_gas_limit : Z }.

(** [live] answers [lane_code_is_empty] on the state of the moment. *)
Definition lane_classify (self : LaneState) (live : Z → exec LaneError bool) (tx : Tx) : exec LaneError LaneType :=
  match self with
  | None => Done GeneralLane
  | Some a => classify (tx_is_system tx) (tx_to tx) (tx_ty tx) (tx_value tx) (listed (meta a)) live
  end.

Definition lane_record_used (self : LaneState) (lane : LaneType) (delta : Z) : LaneState :=
  (λ a, {| meta := meta a; budget := budget_record_used lane delta (budget a);
           lane_gas_limit := lane_gas_limit a |}) <$> self.

Definition lane_admits (self : LaneState) (shared : Z) (lane : LaneType) (gas : Z) : bool :=
  match self with None => true | Some a => budget_admits (budget a) shared lane gas end.

Definition verify_packed_bid (self : LaneState) (shared : Z) : exec LaneError unit :=
  match self with
  | Some a => if shared <? budget_idle_lane (budget a)
              then Fail (BidEatsReservation (budget_idle_lane (budget a)) shared) else Done tt
  | None => Done tt
  end.

Definition lane_verify (self : LaneState) (gas_used : Z) : exec LaneError unit :=
  match self with
  | Some a => budget_verify (budget a) (lane_gas_limit a) gas_used
  | None => Done tt
  end.

Definition inherit_to (self : LaneState) (block_hash : Z) (cache : LruCache LaneMeta) : LruCache LaneMeta :=
  match self with Some a => lru_put cache block_hash (meta a) | None => cache end.

Definition lane_quota (self : LaneState) : Z := from_option (λ a, payment_lane_quota (budget a)) 0 self.
Definition lane_used (self : LaneState) : Z := from_option (λ a, payment_lane_used (budget a)) 0 self.
Definition idle_lane (self : LaneState) : Z := from_option (λ a, budget_idle_lane (budget a)) 0 self.

(** ** The executor's use of the lane ([executor.rs], [pre_execution.rs]) *)

Inductive BscExecutionMode := Mining | BidSimulation | Import | Simulation.
#[export] Instance BscExecutionMode_eq_dec : EqDecision BscExecutionMode.
Proof. solve_decision. Defined.

(** The fields of [BscBlockExecutor] the lane touches. *)
Record BscBlockExecutor := {
  mode : BscExecutionMode;
  env_gas_limit : Z;
  reserved : Z;                 (* estimate_gas_reserved_for_system_txs *)
  gas_used : Z;
  lane : LaneState;
  lane_contract_changed : bool;
  header_hash : option Z;
}.

Definition producer_shared_gas (self : BscBlockExecutor) : Z :=
  sat_sub64 (sat_sub64 (env_gas_limit self) (reserved self)) (gas_used self).

Inductive GasError :=
| TransactionGasLimitMoreThanAvailableBlockGas (tx_gas_limit available : Z)
| InvalidTx
| PaymentLaneError (e : LaneError).

(** The gas and lane gates a user transaction of lane [lane_type] passes before
    it is run by the EVM. *)
Definition transaction_gate (self : BscBlockExecutor) (lane_type : LaneType) (gas : Z) : exec GasError unit :=
  let block_available_gas := sub64 (env_gas_limit self) (gas_used self) in
  _ ← ensure (gas <=? block_available_gas) (TransactionGasLimitMoreThanAvailableBlockGas gas block_available_gas);
  if bool_decide (mode self = Mining) && bool_decide (is_Some (lane self))
     && negb (lane_admits (lane self) (producer_shared_gas self) lane_type gas)
  then Fail InvalidTx else Done tt.

(** The accounting of [commit_transaction]. *)
Definition commit_gas (self : BscBlockExecutor) (lane_type : LaneType) (used : Z) : BscBlockExecutor :=
  {| mode := mode self; env_gas_limit := env_gas_limit self; reserved := reserved self;
     gas_used := add64 (gas_used self) used;
     lane := lane_record_used (lane self) lane_type used;
     lane_contract_changed := lane_contract_changed self; header_hash := header_hash self |}.

(** What the world answers while a transaction is executed: whether there is
    code at an address, and the gas the EVM uses. *)
Record TxRun := { executed_tx : Tx; live_code : Z → exec LaneError bool; tx_gas_used : Z }.

(** [execute_transaction_without_commit] and [commit_transaction], as far as gas
    and lane go.  The executor of either side classifies on its own; a system
    transaction is set aside for the end of the block. *)
Definition execute_transaction (self : BscBlockExecutor) (r : TxRun) : exec GasError BscBlockExecutor :=
  lane_type ← map_err PaymentLaneError (lane_classify (lane self) (live_code r) (executed_tx r));
  if tx_is_system (executed_tx r) then Done self
  else
    _ ← transaction_gate self lane_type (tx_gas_limit (executed_tx r));
    Done (commit_gas self lane_type (tx_gas_used r)).

Fixpoint execute_transactions (self : BscBlockExecutor) (rs : list TxRun) : exec GasError BscBlockExecutor :=
  match rs with
  | [] => Done self
  | r :: rs => self ← execute_transaction self r; execute_transactions self rs
  end.

(** The lane starts in the child of the first Jenner block. *)
Definition init_payment_lane `{ForkConditionApi} (spec : ChainSpec) (self : BscBlockExecutor)
    (cache : LruCache LaneMeta) (access : Getter) (parent : Header) (parent_hash gas_limit : Z)
  : option (exec GasError BscBlockExecutor) * LruCache LaneMeta :=
  if negb (is_jenner_active_at_timestamp spec (number parent) (timestamp parent))
  then (Some (Done self), cache)
  else
    let '(resolved, cache) := lane_resolve cache access parent_hash gas_limit in
    (map_err PaymentLaneError <$> (fmap (λ l,
       {| mode := mode self; env_gas_limit := env_gas_limit self; reserved := reserved self;
          gas_used := gas_used self; lane := l;
          lane_contract_changed := lane_contract_changed self; header_hash := header_hash self |}) <$> resolved),
     cache).

(** What [commit_state] looks at in the changes of a transaction. *)
Record LaneAccountChange := {
  is_touched : bool; is_created : bool; is_selfdestructed : bool; storage_changed : bool;
  code_hash : Z;
}.

(** [before]: the code hash of the contract in the database, [Fail] if unreadable,
    [None] if there is no such account. *)
Definition commit_state (self : BscBlockExecutor) (change : option LaneAccountChange)
    (before : exec unit (option Z)) : BscBlockExecutor :=
  match change with
  | Some account =>
      if negb (lane_contract_changed self) && is_touched account
      then
        {| mode := mode self; env_gas_limit := env_gas_limit self; reserved := reserved self;
           gas_used := gas_used self; lane := lane self;
           lane_contract_changed :=
             is_created account || is_selfdestructed account || storage_changed account
             || match before with
                | Done b => bool_decide (b ≠ Some (code_hash account))
                | _ => true
                end;
           header_hash := header_hash self |}
      else self
  | None => self
  end.

Definition try_inherit_lane_meta (self : BscBlockExecutor) (cache : LruCache LaneMeta) : LruCache LaneMeta :=
  if lane_contract_changed self then cache
  else match header_hash self with
       | Some hash => inherit_to (lane self) hash cache
       | None => cache
       end.

Definition verify_payment_lane (self : BscBlockExecutor) (gas : Z) (cache : LruCache LaneMeta)
  : exec GasError unit * LruCache LaneMeta :=
  if bool_decide (lane self = None) then (Done tt, cache)
  else match map_err PaymentLaneError (lane_verify (lane self) gas) with
       | Done _ => (Done tt, try_inherit_lane_meta self cache)
       | e => (e, cache)
       end.
End Meta.
