(* ===== verification/PaymentLaneProps.v ===== *)
(** * PaymentLaneProps: theorems about the payment lane

    The paged read of the contract list terminates on every contract and
    returns exactly what the pages say; the cache cannot be told from reading
    the contract; the producer's admission rule is exactly as strict as the
    block rule asks, so a packed block passes it and the reservation is there
    for payments. *)

From stdpp Require Import base tactics numbers option list gmap strings.
From Stdlib Require Import ZArith Lia Bool.
From S2P Require Import Prelude.
From S2P Require Import Hardforks.
From S2P Require Import Header.
From S2P Require Import Collections.
From S2P Require Import PaymentLane.

(** ** The walk over the pages *)

Lemma insert_page_Done l page l' :
  insert_page l page = Done l' ↔ NoDup page ∧ (∀ a, a ∈ page → a ∉ l) ∧ l' = list_to_set page ∪ l.
Proof.
  revert l. induction page as [|a page IH]; intros l; cbn [insert_page].
  { split; [intros [= <-]|intros (_ & _ & ->)]; [|f_equal; set_solver].
    split_and!; [constructor|set_solver..]. }
  case_bool_decide as Ha; [split; [done|set_solver]|].
  rewrite IH, NoDup_cons, list_to_set_cons. split.
  - intros (Hnd & Hf & ->). split_and!; [|done|set_solver|set_solver].
    intros Hin. by apply (Hf a) in Hin; set_solver.
  - intros ((? & ?) & Hf & ->). split_and!; [done|set_solver|set_solver].
Qed.

Section Walk.
Context `{Abi : LaneAbi}.
Context (access : Getter).
Implicit Types (w : PageWalk).

(** The contract answers [page] and the count [total] to the call at [off]. *)
Definition answers (off : Z) (page : list Z) (total : Z) : Prop :=
  ∃ ret, access PAYMENT_LANE_CONTRACT (contracts_calldata off) = Done ret
         ∧ decode_contracts_returns ret = Some (page, total).

(** From [off] on the pages list [all], one after the other, up to [total]. *)
Inductive tiled (total : Z) : Z → list Z → Prop :=
| tiled_last off page :
    answers off page total → 0 < zlen page <= PAGE_SIZE → off + zlen page = total → tiled total off page
| tiled_more off page rest :
    answers off page total → 0 < zlen page <= PAGE_SIZE → off + zlen page < total →
    tiled total (off + zlen page) rest → tiled total off (page ++ rest).

(** What the contract describes, if it is consistent. *)
Definition config_ok (m : LaneMeta) : Prop :=
  (∃ ret, access PAYMENT_LANE_CONTRACT getPaymentLaneRatio = Done ret
          ∧ decode_ratio_returns ret = Some (ratio m))
  ∧ 0 < ratio m <= MAX_LANE_RATIO
  ∧ ((∃ page, answers 0 page 0) ∧ listed m = ∅
     ∨ ∃ total all, 0 < total <= MAX_LISTED_CONTRACTS ∧ tiled total 0 all ∧ NoDup all
                    ∧ listed m = list_to_set all).

(** A contract that pages through [all] as it is asked to. *)
Definition serves (r : Z) (all : list Z) : Prop :=
  (∃ ret, access PAYMENT_LANE_CONTRACT getPaymentLaneRatio = Done ret ∧ decode_ratio_returns ret = Some r)
  ∧ ∀ off, 0 <= off <= zlen all →
      answers off (take (Z.to_nat PAGE_SIZE) (drop (Z.to_nat off) all)) (zlen all).

Lemma tiled_length total off all : tiled total off all → off + zlen all = total.
Proof. induction 1; rewrite ?zlen_app; lia. Qed.

Definition total_ok w (total : Z) : Prop :=
  match walk_total w with None => total <= MAX_LISTED_CONTRACTS | Some first => total = first end.

Lemma accept_Done w off ret w' nx :
  0 <= off < 2 ^ 64 →
  accept w off ret = Done (w', nx) ↔
  ∃ page total, decode_contracts_returns ret = Some (page, total) ∧ total < 2 ^ 64 ∧ total_ok w total
    ∧ (total = 0 ∧ w' = {| walk_total := Some 0; walk_listed := walk_listed w |} ∧ nx = None
       ∨ total ≠ 0 ∧ 0 < zlen page <= PAGE_SIZE ∧ off + zlen page <= total ∧ NoDup page
         ∧ (∀ a, a ∈ page → a ∉ walk_listed w)
         ∧ w' = {| walk_total := Some total; walk_listed := list_to_set page ∪ walk_listed w |}
         ∧ nx = if total <=? off + zlen page then None else Some (off + zlen page)).
Proof.
  intros Hoff. unfold accept. destruct (decode_contracts_returns ret) as [[page total]|]; cbn [ok_or mbind exec_bind].
  2:{ split; [done|]. by intros (? & ? & [=] & _). }
  pose proof (zlen_nonneg page) as Hn. rewrite !seq_Done, ensure_Done.
  assert (Ht : (match walk_total w with
                | None => ensure (total <=? MAX_LISTED_CONTRACTS) (CorruptConfig (CountExceedsCeiling total))
                | Some first => ensure (total =? first) (CorruptConfig (CountChanged first total))
                end = Done tt) ↔ total_ok w total)
    by (unfold total_ok; destruct (walk_total w); rewrite ensure_Done; lia).
  rewrite Ht. cbn [walk_listed]. destruct (Z.eqb_spec total 0) as [->|Ht0].
  - split.
    + intros (? & ? & [= <- <-]). exists page, 0. split_and!; [done|lia|done|by left].
    + intros (? & ? & [= <- <-] & _ & ? & [(_ & -> & ->)|(? & _)]); [|done]. done.
  - rewrite !seq_Done, !ensure_Done, bind_Done, negb_true_iff, Z.eqb_neq, !Z.leb_le, Z.ltb_lt.
    split.
    + intros (? & ? & ? & ? & ? & Hs & l & (? & ? & ->)%insert_page_Done & [= <- <-]).
      rewrite sub64_small in Hs by lia. exists page, total.
      split_and!; [done..|]. right. rewrite add64_small by lia. by split_and!; try lia.
    + intros (? & ? & [= <- <-] & ? & ? & [(? & _)|(_ & ? & ? & ? & ? & -> & ->)]); [done|].
      rewrite sub64_small by lia. split_and!; try done; try lia.
      eexists. rewrite insert_page_Done. split; [by split_and!|]. by rewrite add64_small by lia.
Qed.

(** The walk continued at [off] ends in [w']. *)
Definition walk_reads w off w' : Prop :=
  ((∃ page, answers off page 0) ∧ total_ok w 0
       ∧ w' = {| walk_total := Some 0; walk_listed := walk_listed w |})
  ∨ ∃ total all, total_ok w total ∧ 0 < total ∧ tiled total off all ∧ NoDup all
                   ∧ (∀ a, a ∈ all → a ∉ walk_listed w)
                   ∧ w' = {| walk_total := Some total; walk_listed := list_to_set all ∪ walk_listed w |}.

Lemma reads_accept w off ret w' :
  0 <= off < 2 ^ 64 → default MAX_LISTED_CONTRACTS (walk_total w) <= MAX_LISTED_CONTRACTS →
  access PAYMENT_LANE_CONTRACT (contracts_calldata off) = Done ret →
  walk_reads w off w' → ∃ r, accept w off ret = Done r.
Proof.
  intros Hoff Hmax Ha [((page & ret' & Ea & Ed) & Hok & ->)|(total & all & Hok & Hp & Ht & Hnd & Hf & ->)].
  - rewrite Ha in Ea. injection Ea as <-. eexists (_, _). apply accept_Done; [done|].
    exists page, 0. split_and!; [done|lia|done|by left].
  - assert (total < 2 ^ 64)
      by (unfold total_ok, MAX_LISTED_CONTRACTS in *; destruct (walk_total w); cbn in *; lia).
    destruct Ht as [off page (ret' & Ea & Ed) Hn He|off page rest (ret' & Ea & Ed) Hn He Ht];
      rewrite Ha in Ea; injection Ea as <-; eexists (_, _); apply accept_Done; try done;
      exists page, total; (split_and!; [done|lia|done|right]); (split_and!; [lia|lia|lia|lia| | |done|done]).
    + done.
    + done.
    + by apply NoDup_app in Hnd as (? & _).
    + set_solver.
Qed.

Lemma walk_pages_spec fuel w off :
  0 <= off < default MAX_LISTED_CONTRACTS (walk_total w) →
  default MAX_LISTED_CONTRACTS (walk_total w) <= MAX_LISTED_CONTRACTS →
  default MAX_LISTED_CONTRACTS (walk_total w) - off <= Z.of_nat fuel →
  ∃ r, walk_pages fuel access w off = Some r ∧ ∀ w', r = Done w' ↔
    walk_reads w off w'.
Proof.
  revert w off. induction fuel as [|fuel IH]; intros w off Hoff Hmax Hfuel; [lia|].
  cbn [walk_pages].
  destruct (access _ _) as [ret|e|] eqn:Ea; cbn [mbind exec_bind].
  2,3: eexists; split; [done|]; intros w'; split; [done|];
       intros [((page & ret & E & _) & _)|(total & all & _ & _ & Ht & _)]; [congruence|];
       destruct Ht as [? ? (ret & E & _)|? ? ? (ret & E & _)]; congruence.
  (* every tiling starts with the page just read *)
  assert (Hans : ∀ page total, answers off page total ↔ decode_contracts_returns ret = Some (page, total)).
  { intros page total. unfold answers. rewrite Ea. naive_solver. }
  assert (Hoff64 : 0 <= off < 2 ^ 64) by (unfold MAX_LISTED_CONTRACTS in *; lia).
  destruct (accept w off ret) as [[w1 [nx|]]|e|] eqn:Eacc.
  - apply accept_Done in Eacc as (page & total & Ed & Hu & Hok & [(_ & _ & ?)|(Ht0 & Hn & Hle & Hnd & Hf & -> & Enx)]); [done| |lia].
    destruct (Z.leb_spec total (off + zlen page)); [done|]. injection Enx as ->.
    assert (Htm : total <= default MAX_LISTED_CONTRACTS (walk_total w))
      by (unfold total_ok in Hok; destruct (walk_total w); cbn in *; lia).
    destruct (IH {| walk_total := Some total; walk_listed := list_to_set page ∪ walk_listed w |} (off + zlen page))
      as (r & -> & Hr); [cbn; lia..|].
    exists r. split; [done|]. intros w'. rewrite Hr. unfold walk_reads. cbn [walk_listed]. split.
    + intros [(_ & ? & _)|(t & all & -> & Hp & Ht & Hnd' & Hf' & ->)]; [unfold total_ok in *; cbn in *; congruence|].
      right. exists total, (page ++ all). split_and!; [done|lia| | |set_solver|].
      * by apply tiled_more; [apply Hans| | |].
      * apply NoDup_app. split_and!; [done|set_solver|done].
      * f_equal. rewrite list_to_set_app_L. set_solver.
    + intros [((page' & E') & _ & _)|(t & all & Hok' & Hp & Ht & Hnd' & Hf' & ->)].
      { apply Hans in E'. rewrite Ed in E'. injection E' as <- ->. congruence. }
      right. destruct Ht as [off page' E' Hn' He|off page' rest E' Hn' Hlt Ht].
      { apply Hans in E'. rewrite Ed in E'. injection E' as <- <-. lia. }
      apply Hans in E'. rewrite Ed in E'. injection E' as <- <-.
      apply NoDup_app in Hnd' as (_ & Hx & Hr'). exists total, rest.
      split_and!; [done|lia|done|done|set_solver|]. f_equal. rewrite list_to_set_app_L. set_solver.
  - apply accept_Done in Eacc as (page & total & Ed & Hu & Hok & Hcase); [|lia].
    eexists. split; [done|]. intros w'. split.
    + intros [= <-]. destruct Hcase as [(-> & -> & _)|(Ht0 & Hn & Hle & Hnd & Hf & -> & Enx)].
      * left. split_and!; [exists page; by apply Hans|done|done].
      * right. destruct (Z.leb_spec total (off + zlen page)); [|done].
        exists total, page. split_and!; try done; [lia|]. apply tiled_last; [by apply Hans|lia|lia].
    + intros [((page' & E') & _ & ->)|(t & all & Hok' & Hp & Ht & Hnd' & Hf' & ->)].
      * apply Hans in E'. rewrite Ed in E'. injection E' as <- ->. destruct Hcase as [(_ & -> & _)|(? & _)]; done.
      * destruct Ht as [off page' E' Hn' He|off page' rest E' Hn' Hlt Ht];
          apply Hans in E'; rewrite Ed in E'; injection E' as <- <-.
        -- destruct Hcase as [(-> & _)|(_ & _ & _ & _ & _ & -> & _)]; [lia|done].
        -- destruct Hcase as [(-> & _)|(_ & _ & _ & _ & _ & _ & Enx)]; [lia|].
           destruct (Z.leb_spec total (off + zlen page)); [lia|done].
  - eexists. split; [done|]. intros w'. split; [done|]. intros H.
    destruct (reads_accept _ _ _ _ Hoff64 Hmax Ea H); congruence.
  - eexists. split; [done|]. intros w'. split; [done|]. intros H.
    destruct (reads_accept _ _ _ _ Hoff64 Hmax Ea H); congruence.
Qed.
Lemma check_ratio_Done z r : check_ratio z = Done r ↔ r = z ∧ 0 < z <= MAX_LANE_RATIO.
Proof.
  unfold check_ratio, MAX_LANE_RATIO. case_if; split_tests.
  - split; [by intros [= <-]|by intros [-> _]].
  - split; [done|]. intros [-> ?]. exfalso. apply andb_false_iff in Eif as [[?%Z.ltb_ge|?%Z.ltb_ge]%andb_false_iff|?%Z.leb_gt]; lia.
Qed.

Lemma decode_ratio_Done ret r :
  decode_ratio ret = Done r ↔ decode_ratio_returns ret = Some r ∧ 0 < r <= MAX_LANE_RATIO.
Proof.
  unfold decode_ratio. rewrite bind_Done. setoid_rewrite ok_or_Done. setoid_rewrite check_ratio_Done. naive_solver.
Qed.

(** Whatever was walked adds up to the reported count. *)
Lemma finish_reads w : walk_reads new_walk 0 w → finish w = Done (walk_listed w).
Proof.
  intros [(_ & _ & ->)|(total & all & _ & Hp & Ht & Hnd & _ & ->)]; unfold finish, new_walk; cbn [walk_total walk_listed ok_or mbind exec_bind].
  - by rewrite size_empty.
  - rewrite union_empty_r_L, size_list_to_set by done. apply tiled_length in Ht. unfold zlen in Ht.
    rewrite seq_Done, ensure_Done, Z.eqb_eq. split; [lia|]. f_equal. set_solver.
Qed.

Lemma load_config_spec :
  ∃ r, load_config access = Some r ∧ ∀ m, r = Done m ↔ config_ok m.
Proof.
  destruct (walk_pages_spec walk_fuel new_walk 0) as (rw & Hw & Hspec); [cbn; unfold MAX_LISTED_CONTRACTS; lia|done|
    cbn; unfold walk_fuel, MAX_LISTED_CONTRACTS; lia|].
  unfold load_config. destruct (ret ← access _ _; decode_ratio ret) as [r|e|] eqn:Er.
  2,3: eexists; split; [done|]; intros m; split; [done|]; intros ((ret & Ha & Hd) & Hr & _);
    rewrite Ha in Er; cbn in Er; by rewrite (proj2 (decode_ratio_Done ret (ratio m))) in Er.
  apply bind_Done in Er as (ret & Ha & (Hd & Hr)%decode_ratio_Done). rewrite Hw. clear Hw. cbn [mbind option_bind].
  eexists. split; [done|]. intros m. rewrite bind_Done. split.
  - intros (w & Ew & (l & Hl & [= <-])%bind_Done). apply Hspec in Ew.
    rewrite (finish_reads _ Ew) in Hl. injection Hl as <-.
    split_and!; [by exists ret|cbn; lia|cbn; lia|]. cbn [listed].
    destruct Ew as [(? & _ & ->)|(total & all & Hok & ? & ? & ? & _ & ->)]; [by left|].
    right. exists total, all. split; [split; [done|exact Hok]|]. split_and!; [done|done|]. cbn [walk_listed new_walk]. apply union_empty_r_L.
  - intros ((ret' & Ha' & Hd') & _ & Hl). rewrite Ha in Ha'. injection Ha' as <-. rewrite Hd in Hd'. injection Hd' as Hrm.
    assert (∃ w, walk_reads new_walk 0 w ∧ walk_listed w = listed m) as (w & Hrw & Hlw).
    { destruct Hl as [(? & ->)|(total & all & H & ? & ? & ->)].
      - eexists. split; [by left|done].
      - eexists. split; [right; exists total, all; split_and!; [apply H|lia|done|done| |done]|].
        + intros a _. apply not_elem_of_empty.
        + cbn [walk_listed new_walk]. apply union_empty_r_L. }
    exists w. split; [by apply Hspec|]. rewrite (finish_reads _ Hrw). cbn. destruct m. cbn in *. by subst.
Qed.

Lemma serves_tiled r all off :
  serves r all → 0 <= off < zlen all → tiled (zlen all) off (drop (Z.to_nat off) all).
Proof.
  intros [_ Hs]. remember (Z.to_nat (zlen all - off)) as k eqn:Ek.
  revert off Ek. induction (lt_wf k) as [k _ IH]; intros off -> Hoff.
  rewrite <- (take_drop (Z.to_nat PAGE_SIZE) (drop _ all)), drop_drop.
  pose proof (Hs off ltac:(lia)) as Ha. set (page := take _ (drop _ all)) in *.
  assert (Hn : zlen page = Z.min PAGE_SIZE (zlen all - off))
    by (unfold page, zlen in *; rewrite length_take, length_drop; unfold PAGE_SIZE; lia).
  destruct (decide (off + zlen page = zlen all)) as [He|He].
  - rewrite drop_ge by (clearbody page; unfold zlen, PAGE_SIZE in *; lia). rewrite app_nil_r. apply tiled_last; [done|unfold PAGE_SIZE in *; lia|done].
  - replace (Z.to_nat off + Z.to_nat PAGE_SIZE)%nat with (Z.to_nat (off + zlen page)) by (unfold PAGE_SIZE in *; lia).
    apply tiled_more; [done|unfold PAGE_SIZE in *; lia|lia|]. clearbody page. unfold PAGE_SIZE in *.
    apply (IH (Z.to_nat (zlen all - (off + zlen page)))); [lia|done|lia].
Qed.

Lemma serves_config r all :
  serves r all → 0 < r <= MAX_LANE_RATIO → zlen all <= MAX_LISTED_CONTRACTS → NoDup all →
  config_ok {| ratio := r; listed := list_to_set all |}.
Proof.
  intros Hs Hr Hmax Hnd. split; [apply Hs|]. split; [done|].
  destruct (decide (all = [])) as [->|Hne]; [left|right].
  - split; [|done]. eexists. apply (proj2 Hs 0). unfold zlen. cbn. lia.
  - assert (0 < zlen all) by (destruct all; [done|unfold zlen; cbn; lia]).
    exists (zlen all), all. split_and!; [lia|done| |done|done]. apply (serves_tiled r all 0 Hs). lia.
Qed.
End Walk.

Lemma serves_loads `{Abi : LaneAbi} (access : Getter) r all :
  serves access r all → 0 < r <= MAX_LANE_RATIO → zlen all <= MAX_LISTED_CONTRACTS → NoDup all →
  load_config access = Some (Done {| ratio := r; listed := list_to_set all |}).
Proof.
  intros. destruct (load_config_spec access) as (q & -> & Hspec). f_equal. by apply Hspec, serves_config.
Qed.

(** ** The claims about loading *)

(** Reading the lane's configuration returns on every contract, however it
    answers, and succeeds exactly when the ratio is within its bounds and the
    pages list, one after the other, at most [MAX_LISTED_CONTRACTS] distinct
    contracts whose number they all agree on; the result is what the pages say.
    In particular a contract that pages through a list is read back exactly. *)
Theorem load_config_exact `{Abi : LaneAbi} (access : Getter) :
  (∃ r, load_config access = Some r ∧ ∀ m, r = Done m ↔ config_ok access m)
  ∧ ∀ r all, serves access r all → 0 < r <= MAX_LANE_RATIO → zlen all <= MAX_LISTED_CONTRACTS → NoDup all →
      load_config access = Some (Done {| ratio := r; listed := list_to_set all |}).
Proof. split; [apply load_config_spec|]. apply serves_loads. Qed.

(** ** The cache *)

Section Cache.
Context `{Abi : LaneAbi} `{LL : LruLaws}.

Lemma walk_pages_ext (f g : Getter) fuel w off :
  (∀ d, f PAYMENT_LANE_CONTRACT d = g PAYMENT_LANE_CONTRACT d) → walk_pages fuel f w off = walk_pages fuel g w off.
Proof.
  intros Hfg. revert w off. induction fuel as [|fuel IH]; intros w off; [done|]. cbn [walk_pages].
  rewrite Hfg. destruct (_ ≫= _) as [[w' [nx|]]| |]; done.
Qed.

Lemma load_config_ext (f g : Getter) :
  (∀ d, f PAYMENT_LANE_CONTRACT d = g PAYMENT_LANE_CONTRACT d) → load_config f = load_config g.
Proof. intros Hfg. unfold load_config. rewrite Hfg. by rewrite (walk_pages_ext f g). Qed.

(** [post h]: the getters on the state after the block of hash [h]. *)
Context (post : Z → Getter).

Definition same_contract (h k : Z) : Prop :=
  ∀ d, post h PAYMENT_LANE_CONTRACT d = post k PAYMENT_LANE_CONTRACT d.

(** The calls that touch the cache, in any order: a block's lane is resolved at
    its parent; a sealed block whose bundle has no entry for the contract
    inherits; an executed block inherits unless it changed the contract. *)
Inductive cache_run : LruCache LaneMeta → Prop :=
| run_new : cache_run new_cache
| run_resolve c parent gas_limit :
    cache_run c → cache_run (lane_resolve c (post parent) parent gas_limit).2
| run_inherit c touched parent child :
    cache_run c → (touched = false → same_contract child parent) →
    cache_run (inherit_if_untouched touched parent child c)
| run_block c0 c parent gas_limit l e gas :
    cache_run c0 → (lane_resolve c0 (post parent) parent gas_limit).1 = Some (Done l) →
    cache_run c → meta <$> lane e = meta <$> l →
    (lane_contract_changed e = false → ∀ h, header_hash e = Some h → same_contract h parent) →
    cache_run (verify_payment_lane e gas c).2.

Definition cache_ok (c : LruCache LaneMeta) : Prop :=
  NoDup (lru_iter c).*1 ∧ ∀ h m, (h, m) ∈ lru_iter c → load_config (post h) = Some (Done m).

Lemma cache_ok_get c h : cache_ok c → cache_ok (lru_get c h).2.
Proof.
  intros [Hnd Hc]. split; [by apply lru_get_NoDup|]. intros k m. rewrite lru_get_elem by done. apply Hc.
Qed.

Lemma cache_ok_put c h m : cache_ok c → load_config (post h) = Some (Done m) → cache_ok (lru_put c h m).
Proof.
  intros [Hnd Hc] Hm. split; [by apply lru_put_NoDup|].
  intros k m' [[= -> ->]|Hin]%lru_put_elem; [done|by apply Hc].
Qed.

Lemma cache_ok_hit c h m : cache_ok c → (lru_get c h).1 = Some m → load_config (post h) = Some (Done m).
Proof. intros [_ Hc]. rewrite lru_get_value. intros ?%assoc_Some. by apply Hc. Qed.

Lemma load_ok c h :
  cache_ok c → (load c (post h) h).1 = load_config (post h) ∧ cache_ok (load c (post h) h).2.
Proof.
  intros Hc. unfold load. pose proof (cache_ok_hit c h) as Hhit. pose proof (cache_ok_get c h Hc) as Hget.
  destruct (lru_get c h) as [[m|] c']; cbn in *.
  - by rewrite (Hhit m).
  - destruct (load_config (post h)) as [[m| |]|] eqn:E; cbn; (split; [done|]); [|done..].
    by apply cache_ok_put.
Qed.

Lemma resolve_meta c h gas_limit l :
  cache_ok c → (lane_resolve c (post h) h gas_limit).1 = Some (Done l) →
  ∃ a, l = Some a ∧ load_config (post h) = Some (Done (meta a)) ∧ payment_lane_used (budget a) = 0
       ∧ quota (ratio (meta a)) gas_limit = Done (E := LaneError) (payment_lane_quota (budget a))
       ∧ lane_gas_limit a = gas_limit.
Proof.
  intros Hc. unfold lane_resolve. destruct (load_ok c h Hc) as [<- _].
  destruct (load c (post h) h) as [[[m| |]|] c']; cbn [fst mbind option_bind exec_bind]; try done.
  destruct (quota _ _) as [q| |] eqn:Eq; cbn; [|done..]. intros [= <-].
  eexists. by split_and!.
Qed.

Lemma resolve_cache c h gas_limit : cache_ok c → cache_ok (lane_resolve c (post h) h gas_limit).2.
Proof.
  intros Hc. unfold lane_resolve. destruct (load_ok c h Hc) as [_ Hok]. by destruct (load c (post h) h).
Qed.

Lemma cache_run_ok c : cache_run c → cache_ok c.
Proof.
  induction 1 as [|c h gl _ IH|c touched p k _ IH Hsame|c0 c p gl l e gas _ IH0 Hl _ IH Hm Hsame].
  - split; unfold new_cache; rewrite lru_iter_new; [constructor|set_solver].
  - by apply resolve_cache.
  - unfold inherit_if_untouched. destruct touched; [done|].
    pose proof (cache_ok_hit c p) as Hhit. pose proof (cache_ok_get c p IH) as Hget.
    destruct (lru_get c p) as [[m|] c']; cbn in *; [|done].
    apply cache_ok_put; [done|]. rewrite (load_config_ext _ (post p)); [by apply Hhit|by apply Hsame].
  - destruct (resolve_meta _ _ _ _ IH0 Hl) as (a & -> & Hload & _).
    unfold verify_payment_lane. case_bool_decide as Hn; [done|].
    destruct (map_err _ _); cbn; [|done..]. unfold try_inherit_lane_meta.
    destruct (lane_contract_changed e) eqn:Ec; [done|]. destruct (header_hash e) as [h|] eqn:Eh; [|done].
    destruct (lane e) as [a'|]; [|done]. cbn in Hm. injection Hm as Hm. cbn.
    apply cache_ok_put; [done|]. rewrite Hm, (load_config_ext _ (post p)); [done|by apply Hsame].
Qed.

(** The cache of lane configurations is invisible: whatever blocks were
    resolved, sealed and executed before, in whatever order and with whatever
    evictions, loading the configuration at a block gives what reading the
    contract on the state of that block gives. *)
Theorem lane_cache_transparent c h :
  cache_run c → (load c (post h) h).1 = load_config (post h).
Proof. intros Hc%cache_run_ok. by apply load_ok. Qed.
End Cache.

(** ** Admission and the block rule *)

Lemma check_inequality_Done gas_limit used payment q :
  gas_limit < 2 ^ 64 →
  check_inequality gas_limit used payment q = Done tt ↔ used + Z.max (q - payment) 0 <= gas_limit.
Proof.
  intros Hl. unfold check_inequality, sat_sub64.
  destruct (Z.ltb_spec (used + Z.max (q - payment) 0) (2 ^ 64)), (Z.leb_spec (used + Z.max (q - payment) 0) gas_limit);
    split; try done; lia.
Qed.

(** The producer's admission test is exact: in a block that respects the
    rule so far, a transaction is admitted if and only if the block still
    respects the rule when the transaction uses all the gas it declares. *)
Theorem admission_exact b capacity general lane gas :
  0 <= payment_lane_quota b → 0 <= payment_lane_used b → 0 <= general → 0 <= gas →
  general + payment_lane_used b + gas < 2 ^ 64 → capacity < 2 ^ 64 →
  budget_verify b capacity (general + payment_lane_used b) = Done tt →
  budget_admits b (capacity - payment_lane_used b - general) lane gas = true ↔
  budget_verify (budget_record_used lane gas b) capacity (general + payment_lane_used b + gas) = Done tt.
Proof.
  intros Hq Hu Hg Hgas Hsum Hc. unfold budget_verify, budget_admits. rewrite !check_inequality_Done by done.
  intros Hok. rewrite Z.leb_le. unfold max_available_gas, budget_idle_lane, sat_sub64.
  destruct lane; cbn [budget_record_used payment_lane_quota payment_lane_used]; [|rewrite add64_small by lia]; lia.
Qed.

(** ** Packing a block *)

(** From [e0] on, transactions that pass the gate are run and booked with the
    gas they use, which is at most what they declare. *)
Inductive packed (e0 : BscBlockExecutor) : BscBlockExecutor → Prop :=
| packed_none : packed e0 e0
| packed_tx e lane_type gas used :
    packed e0 e → transaction_gate e lane_type gas = Done tt → 0 <= used <= gas →
    packed e0 (commit_gas e lane_type used).

(** What packing keeps: the reservation that no payment has claimed is still
    free, beside the reserve for system transactions. *)
Definition reservation_kept (e0 : BscBlockExecutor) (a0 : Active) (e : BscBlockExecutor) : Prop :=
  mode e = mode e0 ∧ env_gas_limit e = env_gas_limit e0 ∧ reserved e = reserved e0 ∧ 0 <= gas_used e
  ∧ ∃ a, lane e = Some a ∧ lane_gas_limit a = lane_gas_limit a0
         ∧ payment_lane_quota (budget a) = payment_lane_quota (budget a0)
         ∧ 0 <= payment_lane_used (budget a) <= gas_used e
         ∧ gas_used e + budget_idle_lane (budget a) + reserved e <= env_gas_limit e.

Lemma packed_keeps e0 a0 e :
  mode e0 = Mining → is_u64 (env_gas_limit e0) → 0 <= reserved e0 →
  reservation_kept e0 a0 e0 → packed e0 e → reservation_kept e0 a0 e.
Proof.
  intros Hm [_ Hl] Hr H0. induction 1 as [|e lt gas used _ IH Hgate Hused]; [done|].
  destruct IH as (Em & El & Er & Hg & a & Ea & Elg & Eq & Hp & Hsum).
  unfold transaction_gate in Hgate. apply seq_Done in Hgate as [_ Hgate]. rewrite Em, Hm, Ea in Hgate.
  rewrite !bool_decide_true in Hgate by done. cbn [andb] in Hgate.
  destruct (lane_admits _ _ _ _) eqn:Ead; [|done]. clear Hgate. cbn in Ead.
  unfold budget_admits in Ead. apply Z.leb_le in Ead.
  unfold budget_idle_lane, producer_shared_gas, max_available_gas, budget_idle_lane, sat_sub64 in *.
  repeat split; try done.
  { cbn. apply wrap64_range. }
  cbn [commit_gas lane gas_used env_gas_limit reserved]. rewrite Ea. eexists. split; [done|].
  assert (gas <= 0 ∨ gas_used e + gas + reserved e <= env_gas_limit e) by (destruct lt; lia).
  rewrite add64_small by lia.
  unfold budget_idle_lane, sat_sub64.
  destruct lt; cbn [budget budget_record_used payment_lane_quota payment_lane_used lane_gas_limit];
    rewrite ?add64_small by lia; (split_and!; [done|done|lia..]).
Qed.

Lemma quota_bound {E} r gas_limit :
  0 < r <= MAX_LANE_RATIO → is_u64 gas_limit →
  ∃ q, quota (E := E) r gas_limit = Done q ∧ 0 <= q ∧ 10 * q <= gas_limit.
Proof.
  unfold MAX_LANE_RATIO, is_u64. intros Hr Hg. unfold quota.
  rewrite Z.mod_small by nia. unfold RATIO_DENOM.
  pose proof (Z.div_mod (r * gas_limit) 10000 ltac:(lia)).
  pose proof (Z.mod_pos_bound (r * gas_limit) 10000 ltac:(lia)).
  assert (r * gas_limit / 10000 * 10 <= gas_limit) by nia.
  rewrite (proj2 (Z.ltb_lt _ _)) by lia. eexists. split; [done|]. nia.
Qed.

(** The executor of a new block, with the lane resolved at its parent. *)
Definition new_block (gas_limit reserve : Z) (l : LaneState) : BscBlockExecutor :=
  {| mode := Mining; env_gas_limit := gas_limit; reserved := reserve; gas_used := 0; lane := l;
     lane_contract_changed := false; header_hash := None |}.
(** The executor of a node that receives the block with the hash [hash]. *)
Definition received_block (gas_limit reserve hash : Z) (l : LaneState) : BscBlockExecutor :=
  {| mode := Import; env_gas_limit := gas_limit; reserved := reserve; gas_used := 0; lane := l;
     lane_contract_changed := false; header_hash := Some hash |}.

(** The EVM uses no more gas than the transaction offers. *)
Definition run_ok (r : TxRun) : Prop := 0 <= tx_gas_used r <= tx_gas_limit (executed_tx r).

Lemma executed_packed e0 e rs e' :
  packed e0 e → Forall run_ok rs → execute_transactions e rs = Done e' → packed e0 e'.
Proof.
  intros Hp Hrs. revert e Hp. induction Hrs as [|r rs Hr _ IH]; intros e Hp He; cbn [execute_transactions] in He.
  { by injection He as <-. }
  apply bind_Done in He as (e1 & He1 & He). apply (IH e1); [|done].
  unfold execute_transaction in He1. apply bind_Done in He1 as (lt & _ & He1).
  destruct (tx_is_system _); [by injection He1 as <-|]. apply seq_Done in He1 as [Hg He1]. injection He1 as <-.
  by eapply packed_tx.
Qed.

(** Same gas, same lane: all an importer's gates look at. *)
Definition same_gas (e i : BscBlockExecutor) : Prop :=
  env_gas_limit i = env_gas_limit e ∧ gas_used i = gas_used e ∧ lane i = lane e ∧ mode i = Import.

(** The importer classifies as the miner did and lets through what the miner did. *)
Lemma import_step e i r e' :
  same_gas e i → execute_transaction e r = Done e' → ∃ i', execute_transaction i r = Done i' ∧ same_gas e' i'.
Proof.
  intros (El & Eg & Ea & Em) He. unfold execute_transaction in *. rewrite Ea.
  apply bind_Done in He as (lt & -> & He). cbn [mbind exec_bind].
  destruct (tx_is_system _); [injection He as <-; by exists i|]. apply seq_Done in He as [Hg He]. injection He as <-.
  unfold transaction_gate in *. apply seq_Done in Hg as [Hg _]. rewrite El, Eg, Hg. cbn [mbind exec_bind].
  rewrite (bool_decide_false (mode i = Mining)) by (by rewrite Em). cbn [andb mbind exec_bind].
  eexists. split; [done|]. unfold same_gas. cbn. by rewrite Eg, Ea.
Qed.

Lemma import_steps e i rs e' :
  same_gas e i → execute_transactions e rs = Done e' → ∃ i', execute_transactions i rs = Done i' ∧ same_gas e' i'.
Proof.
  revert e i. induction rs as [|r rs IH]; intros e i Hs He; cbn [execute_transactions] in *.
  { injection He as <-. by exists i. }
  apply bind_Done in He as (e1 & He1 & He). destruct (import_step _ _ _ _ Hs He1) as (i1 & -> & Hs1). by apply (IH e1 i1).
Qed.

(** The system transactions at the end are set aside. *)
Lemma system_aside i rs sys :
  Forall (λ r, tx_is_system (executed_tx r) = true) sys →
  execute_transactions i (rs ++ sys) = execute_transactions i rs.
Proof.
  intros Hsys. revert i. induction rs as [|r rs IH]; intros i.
  - induction Hsys as [|r sys Hr _ IH]; [done|]. cbn [app execute_transactions]. unfold execute_transaction.
    assert (map_err PaymentLaneError (lane_classify (lane i) (live_code r) (executed_tx r)) = Done GeneralLane) as ->.
    { unfold lane_classify, classify. rewrite Hr. by destruct (lane i). }
    cbn [mbind exec_bind]. rewrite Hr. cbn [mbind exec_bind]. apply IH.
  - cbn [app execute_transactions]. destruct (execute_transaction i r); cbn; [apply IH|done|done].
Qed.

Section Packing.
Context `{Abi : LaneAbi} `{LL : LruLaws} (post : Z → Getter).

(** Two nodes resolve the lane of a block alike, whatever is in their caches. *)
Lemma resolve_agrees c c' parent gas_limit :
  cache_run post c → cache_run post c' →
  (lane_resolve c' (post parent) parent gas_limit).1 = (lane_resolve c (post parent) parent gas_limit).1.
Proof.
  intros Hc%cache_run_ok Hc'%cache_run_ok. unfold lane_resolve.
  destruct (load_ok post c parent Hc) as [E _], (load_ok post c' parent Hc') as [E' _].
  destruct (load c _ parent) as [r ?], (load c' _ parent) as [r' ?]. cbn in E, E'. by subst r r'.
Qed.

(** What the packed executor leaves free. *)
Lemma packed_rule cache parent gas_limit reserve l e system :
  cache_run post cache → (lane_resolve cache (post parent) parent gas_limit).1 = Some (Done l) →
  is_u64 gas_limit → 0 <= reserve → 10 * reserve <= 9 * gas_limit →
  packed (new_block gas_limit reserve l) e → 0 <= system <= reserve →
  (lane e ≠ None ∧ lane_verify (lane e) (gas_used e + system) = Done tt)
  ∧ idle_lane (lane e) <= producer_shared_gas e
  ∧ ∀ gas, 0 <= gas <= idle_lane (lane e) → transaction_gate e PaymentLane gas = Done tt.
Proof.
  intros Hc%cache_run_ok Hl Hu Hr0 Hr Hp Hs. destruct (resolve_meta _ _ _ _ _ Hc Hl) as (a0 & -> & Hm & Hused & Hq & Elg).
  destruct (load_config_spec (post parent)) as (r & Er & Hspec). rewrite Er in Hm. injection Hm as ->.
  destruct (proj1 (Hspec _) eq_refl) as (_ & Hratio & _).
  destruct (quota_bound (E := LaneError) _ _ Hratio Hu) as (q & Eq & Hq0 & Hq10).
  rewrite Hq in Eq. injection Eq as Eq.
  assert (reservation_kept (new_block gas_limit reserve (Some a0)) a0 (new_block gas_limit reserve (Some a0))) as H0.
  { repeat split; try done. exists a0. cbn. unfold budget_idle_lane, sat_sub64.
    rewrite Hused. split_and!; try done; lia. }
  destruct (packed_keeps (new_block gas_limit reserve (Some a0)) a0 e eq_refl Hu Hr0 H0 Hp) as (Em & El & Ere & Hg & a & Ea & Elga & Eqa & Hpay & Hsum).
  cbn in El, Ere. unfold is_u64 in Hu. rewrite Ea, El, Ere in *. unfold producer_shared_gas, transaction_gate. cbn [idle_lane from_option].
  rewrite El, Ere, Em. rewrite (bool_decide_true (mode _ = Mining)) by done.
  unfold budget_idle_lane, sat_sub64 in *. split_and!.
  - done.
  - cbn. unfold budget_verify. apply check_inequality_Done; [lia|]. lia.
  - lia.
  - intros gas Hgas. rewrite Ea, sub64_small by lia. apply seq_Done. rewrite ensure_Done, Z.leb_le. split; [lia|].
    unfold lane_admits, budget_admits, max_available_gas.
    assert (gas <=? producer_shared_gas e = true) as ->; [|by rewrite andb_false_r].
    apply Z.leb_le. unfold producer_shared_gas, sat_sub64. rewrite El, Ere. lia.
Qed.

(** C34: a block packed by the miner passes the lane rule of every importer.  The
    miner resolves the lane at the parent, classifies each transaction on the
    state it meets and runs it through its gates; the reserve for system
    transactions is at most nine tenths of the gas limit.  If the system
    transactions then stay within that reserve, the miner's own check passes,
    and so does every node that receives the block: from its own cache it
    resolves the same lane, it classifies the transactions for itself, the EVM
    answering as it did to the miner, lets all of them through, arrives at the
    same gas and finds the rule kept.  Meanwhile the reservation is never
    eaten: the gas no payment has claimed fits what is left, so a payment up to
    it is always admitted. *)
Theorem packed_block_passes cache import_cache cache' parent gas_limit reserve reserve' hash l txs sys e system :
  cache_run post cache → cache_run post import_cache →
  (lane_resolve cache (post parent) parent gas_limit).1 = Some (Done l) →
  is_u64 gas_limit → 0 <= reserve → 10 * reserve <= 9 * gas_limit →
  Forall run_ok txs → execute_transactions (new_block gas_limit reserve l) txs = Done e → 0 <= system <= reserve →
  Forall (λ r, tx_is_system (executed_tx r) = true) sys →
  (verify_payment_lane e (gas_used e + system) cache').1 = Done tt
  ∧ idle_lane (lane e) <= producer_shared_gas e
  ∧ (∀ gas, 0 <= gas <= idle_lane (lane e) → transaction_gate e PaymentLane gas = Done tt)
  ∧ ∃ l' i, (lane_resolve import_cache (post parent) parent gas_limit).1 = Some (Done l') ∧
      execute_transactions (received_block gas_limit reserve' hash l') (txs ++ sys) = Done i ∧
      gas_used i = gas_used e ∧ lane i = lane e ∧
      (verify_payment_lane i (gas_used i + system) cache').1 = Done tt.
Proof.
  intros Hc Hci Hl Hu Hr0 Hr Hok He Hs Hsys.
  destruct (packed_rule cache parent gas_limit reserve l e system) as ((Hon & Hv) & Hidle & Hpay); try done.
  { eapply executed_packed; [apply packed_none|done|done]. }
  assert (Hver : ∀ x, lane x = lane e → (verify_payment_lane x (gas_used e + system) cache').1 = Done tt).
  { intros x Ex. unfold verify_payment_lane. by rewrite Ex, bool_decide_false, Hv. }
  split_and!; [by apply Hver|done|done|]. exists l.
  destruct (import_steps (new_block gas_limit reserve l) (received_block gas_limit reserve' hash l) txs e)
    as (i & Hi & _ & Eg & Ea & _); [done|done|].
  exists i. split_and!; [by rewrite (resolve_agrees cache)|by rewrite system_aside|done|done|]. rewrite Eg. by apply Hver.
Qed.
End Packing.

(** ** A concrete contract *)

Module LaneDemo.
Import ListContainers.

#[export] Instance demo_abi : LaneAbi := {|
  getPaymentLaneRatio := [0];
  getPaymentContracts offset limit := [1; offset; limit];
  decode_ratio_returns ret := match ret with [r] => Some r | _ => None end;
  decode_contracts_returns ret := match ret with total :: page => Some (page, total) | [] => None end;
|}.

(** 300 contracts, and 5% of the gas. *)
Definition contracts : list Z := seqZ 1000 300.
Definition getter : Getter := λ to data,
  match data with
  | [0] => Done [500]
  | [1; offset; limit] => Done (zlen contracts :: take (Z.to_nat limit) (drop (Z.to_nat offset) contracts))
  | _ => Fail (StateUnavailable "no such function")
  end.
Definition post (h : Z) : Getter := getter.

Lemma getter_serves : serves getter 500 contracts.
Proof. split; [by exists [500]|]. intros off Hoff. by eexists. Qed.

Lemma getter_loads : load_config getter = Some (Done {| ratio := 500; listed := list_to_set contracts |}).
Proof. apply serves_loads; [apply getter_serves|done|done|apply NoDup_seqZ]. Qed.

Lemma load_config_exact_witness :
  load_config getter = Some (Done {| ratio := 500; listed := list_to_set contracts |}).
Proof.
  destruct (load_config_exact getter) as [_ H]. apply (H 500 contracts); [apply getter_serves|done|done|apply NoDup_seqZ].
Defined.

Definition warm : LruCache LaneMeta := (lane_resolve new_cache (post 1) 1 100000000).2.
(** The child of block 1 inherits. *)
Definition inherited : LruCache LaneMeta := inherit_if_untouched false 1 2 warm.

Lemma inherited_run : cache_run post inherited.
Proof. apply run_inherit; [apply run_resolve, run_new|done]. Qed.

Lemma lane_cache_transparent_witness :
  (load inherited (post 2) 2).1 = Some (Done {| ratio := 500; listed := list_to_set contracts |}).
Proof. rewrite (lane_cache_transparent post inherited 2 inherited_run). apply getter_loads. Defined.

Lemma admission_exact_witness :
  budget_verify {| payment_lane_quota := 20; payment_lane_used := 5 |} 100 (60 + 5 + 20) = Done tt.
Proof.
  apply (admission_exact {| payment_lane_quota := 20; payment_lane_used := 5 |} 100 60 GeneralLane 20);
    by vm_compute.
Defined.

(** Block 3: the lane resolved at block 2, one general and one payment
    transaction, and system transactions of half a million gas. *)
Definition lane3 : LaneState :=
  Some {| meta := {| ratio := 500; listed := list_to_set contracts |};
          budget := {| payment_lane_quota := 5000000; payment_lane_used := 0 |};
          lane_gas_limit := 100000000 |}.
Definition block3 : BscBlockExecutor := new_block 100000000 1000000 lane3.
(** A call of a listed contract is a payment, one of another contract is not; the
    deposit of the fees comes last. *)
Definition tx_of (system : bool) (to value gas : Z) : Tx :=
  {| tx_is_system := system; tx_to := Some to; tx_ty := 2; tx_value := value; tx_gas_limit := gas |}.
Definition coded (_ : Z) : exec LaneError bool := Done false.
Definition txs3 : list TxRun :=
  [{| executed_tx := tx_of false 7 5 500000; live_code := coded; tx_gas_used := 400000 |};
   {| executed_tx := tx_of false 1001 0 21000; live_code := coded; tx_gas_used := 21000 |}].
Definition deposit3 : TxRun := {| executed_tx := tx_of true 4096 9 100000; live_code := coded; tx_gas_used := 0 |}.
Definition block3_packed : BscBlockExecutor := commit_gas (commit_gas block3 GeneralLane 400000) PaymentLane 21000.

Lemma lane3_resolved : (lane_resolve inherited (post 2) 2 100000000).1 = Some (Done lane3).
Proof.
  destruct (load_ok post inherited 2 (cache_run_ok post _ inherited_run)) as [H _].
  unfold lane_resolve. change (post 2) with getter in *. rewrite getter_loads in H.
  destruct (load inherited _ 2) as [r c]. cbn [fst] in *. subst r. by vm_compute.
Qed.

Lemma block3_executed : execute_transactions block3 txs3 = Done block3_packed.
Proof. vm_compute. reflexivity. Qed.

Lemma packed_block_passes_witness :
  (verify_payment_lane block3_packed (gas_used block3_packed + 500000) new_cache).1 = Done tt
  ∧ ∃ l' i, (lane_resolve new_cache (post 2) 2 100000000).1 = Some (Done l') ∧
      execute_transactions (received_block 100000000 0 3 l') (txs3 ++ [deposit3]) = Done i ∧
      (verify_payment_lane i (gas_used i + 500000) new_cache).1 = Done tt.
Proof.
  destruct (packed_block_passes post inherited new_cache new_cache 2 100000000 1000000 0 3 lane3 txs3 [deposit3] block3_packed 500000)
    as (Hv & _ & _ & l' & i & Hl & Hi & _ & _ & Hvi).
  - apply inherited_run.
  - apply run_new.
  - apply lane3_resolved.
  - by vm_compute.
  - lia.
  - lia.
  - repeat constructor; by vm_compute.
  - apply block3_executed.
  - lia.
  - repeat constructor.
  - split; [exact Hv|]. exists l', i. split; [exact Hl|]. split; [exact Hi|exact Hvi].
Defined.
End LaneDemo.
