(* ===== verification/Election.v ===== *)
(** * Election: the validators with the most voting power

    Models [src/system_contracts/feynman_fork.rs]: on a breathe block the
    validators of the next day are the [max_elected_validators] with the most
    voting power, ties going to the smaller address in its textual form.  Every
    node computes them, so the result must not depend on the order of the list
    nor on the heap.  The checksummed text of an address is another crate's
    ([AddressText]). *)

From stdpp Require Import base tactics numbers option list sorting.
From Stdlib Require Import ZArith Lia Bool.
From S2P Require Import Prelude.
From S2P Require Import Collections.

(** ** Lexicographic order of strings ([str::cmp]: byte by byte) *)

Fixpoint str_cmp (s t : bytes) : comparison :=
  match s, t with
  | [], [] => Eq
  | [], _ :: _ => Lt
  | _ :: _, [] => Gt
  | a :: s, b :: t => match a ?= b with Eq => str_cmp s t | c => c end
  end.

Lemma str_cmp_antisym s t : str_cmp t s = CompOpp (str_cmp s t).
Proof.
  revert t. induction s as [|a s IH]; intros [|b t]; cbn; try done.
  rewrite (Z.compare_antisym a b). destruct (a ?= b); cbn; [apply IH|done|done].
Qed.

Lemma str_cmp_eq s t : str_cmp s t = Eq ↔ s = t.
Proof.
  revert t. induction s as [|a s IH]; intros [|b t]; cbn; try done.
  destruct (Z.compare_spec a b) as [->|?|?]; [rewrite IH; naive_solver|split; [done|]; intros [= ? _]; lia..].
Qed.

Lemma str_cmp_trans s t u : str_cmp s t ≠ Gt → str_cmp t u ≠ Gt → str_cmp s u ≠ Gt.
Proof.
  revert t u. induction s as [|a s IH]; intros [|b t] [|c u]; cbn; try done.
  destruct (Z.compare_spec a b), (Z.compare_spec b c), (Z.compare_spec a c); subst; try done; try lia.
  apply IH.
Qed.

(** ** The election *)

Record ValidatorElectionInfo := { address : Z; voting_power : Z; vote_address : bytes }.

Record ElectedValidators := { validators : list Z; voting_powers : list Z; vote_addrs : list bytes }.

(** [Address::to_string]: distinct addresses have distinct texts. *)
Class AddressText := { to_string : Z → bytes }.
Class AddressTextLaws (T : AddressText) := { to_string_inj : Inj (=) (=) to_string }.

Section Election.
Context `{T : AddressText}.

Definition info_cmp (self other : ValidatorElectionInfo) : comparison :=
  match voting_power self ?= voting_power other with
  | Eq => str_cmp (to_string (address other)) (to_string (address self))
  | c => c
  end.

Definition info_leb (a b : ValidatorElectionInfo) : bool :=
  match info_cmp a b with Gt => false | _ => true end.

Context {H : HeapApi ValidatorElectionInfo info_leb}.

(** [U256::to::<u64>]: panics on a value that does not fit. *)
Definition to_u64 {E} (z : Z) : exec E Z := if z <? 2 ^ 64 then Done z else Panics.

Definition push_positive (heap : BinaryHeap H) (info : ValidatorElectionInfo) : BinaryHeap H :=
  if 0 <? voting_power info then heap_push info heap else heap.

(** The [for _ in 0..top_n] loop. *)
Fixpoint elect (top_n : nat) (heap : BinaryHeap H) : exec unit (list (Z * Z * bytes)) :=
  match top_n with
  | O => Done []
  | S n =>
      match heap_pop heap with
      | None => elect n heap
      | Some (item, heap) =>
          power ← to_u64 (voting_power item / 10 ^ 10);
          rest ← elect n heap;
          Done ((address item, power, vote_address item) :: rest)
      end
  end.

Definition get_top_validators_by_voting_power (infos : list ValidatorElectionInfo) (max_elected_validators : Z)
  : exec unit ElectedValidators :=
  let heap := fold_left push_positive infos heap_new in
  top_n ← to_u64 max_elected_validators;
  let len := zlen (heap_iter heap) in
  let top_n := if len <? top_n then len else top_n in
  elected ← elect (Z.to_nat top_n) heap;
  Done {| validators := elected.*1.*1; voting_powers := elected.*1.*2; vote_addrs := elected.*2 |}.
End Election.

(** ** The order of the candidates *)

Section Order.
Context `{T : AddressText} `{TL : !AddressTextLaws T}.

Lemma info_leb_spec a b :
  info_leb a b = true ↔ voting_power a < voting_power b
    ∨ voting_power a = voting_power b ∧ str_cmp (to_string (address b)) (to_string (address a)) ≠ Gt.
Proof.
  unfold info_leb, info_cmp. destruct (Z.compare_spec (voting_power a) (voting_power b)) as [E|E|E].
  - destruct (str_cmp _ _); (split; [try done; intros _; right; by split|intros [?|[_ ?]]; [lia|done]]).
  - split; [intros _; by left|done].
  - split; [done|intros [?|[? _]]; lia].
Qed.

Lemma info_leb_total a b : info_leb a b = true ∨ info_leb b a = true.
Proof.
  rewrite !info_leb_spec. rewrite (str_cmp_antisym (to_string (address b))).
  destruct (Z.lt_trichotomy (voting_power a) (voting_power b)) as [?|[?|?]]; [lia| |lia].
  destruct (str_cmp _ _); cbn; naive_solver.
Qed.

Lemma info_leb_trans a b c : info_leb a b = true → info_leb b c = true → info_leb a c = true.
Proof.
  rewrite !info_leb_spec. intros [?|[? H1]] [?|[? H2]]; [lia|lia|lia|]. right. split; [lia|].
  by apply (str_cmp_trans _ (to_string (address b))).
Qed.

Lemma info_leb_antisym a b : info_leb a b = true → info_leb b a = true → address a = address b.
Proof using TL.
  rewrite !info_leb_spec, (str_cmp_antisym (to_string (address b))). intros [?|[? H1]] [?|[? H2]]; [lia..|].
  symmetry. apply to_string_inj, str_cmp_eq. by destruct (str_cmp _ _).
Qed.
End Order.

(** ** The reference: sort the candidates and take the first *)

Section Reference.
Context `{T : AddressText}.

Definition before (a b : ValidatorElectionInfo) : Prop := info_leb b a = true.
#[export] Instance before_dec : RelDecision before.
Proof. intros a b. unfold before. apply _. Defined.

#[export] Instance before_trans : Transitive before.
Proof. intros a b c Hab Hbc. by apply (info_leb_trans _ b). Qed.
#[export] Instance before_total : Total before.
Proof. intros a b. destruct (info_leb_total a b); [by right|by left]. Qed.

Definition ranking (infos : list ValidatorElectionInfo) : list ValidatorElectionInfo :=
  merge_sort before (filter (λ i, 0 < voting_power i) infos).

Definition fits (i : ValidatorElectionInfo) : bool := voting_power i / 10 ^ 10 <? 2 ^ 64.
Definition result (winners : list ValidatorElectionInfo) : ElectedValidators :=
  {| validators := address <$> winners;
     voting_powers := (λ i, voting_power i / 10 ^ 10) <$> winners;
     vote_addrs := vote_address <$> winners |}.

Definition top_validators (infos : list ValidatorElectionInfo) (n : Z) : exec unit ElectedValidators :=
  if n <? 2 ^ 64 then
    let winners := take (Z.to_nat n) (ranking infos) in
    if forallb fits winners then Done (result winners) else Panics
  else Panics.

Context `{TL : !AddressTextLaws T}.
Context {H : HeapApi ValidatorElectionInfo info_leb} `{HL : !HeapLaws H}.

Lemma push_all infos h :
  heap_iter (fold_left push_positive infos h) ≡ₚ filter (λ i, 0 < voting_power i) infos ++ heap_iter h.
Proof using HL.
  revert h. induction infos as [|i infos IH]; intros h; [done|]. cbn [fold_left]. rewrite IH, filter_cons.
  unfold push_positive. destruct (Z.ltb_spec 0 (voting_power i)).
  - rewrite decide_True, heap_iter_push by lia. apply Permutation_sym, Permutation_middle.
  - by rewrite decide_False by lia.
Qed.

Lemma elect_sorted n h l :
  heap_iter h ≡ₚ l → StronglySorted before l → NoDup (address <$> l) →
  elect n h = if forallb fits (take n l)
              then Done ((λ i, (address i, voting_power i / 10 ^ 10, vote_address i)) <$> take n l) else Panics.
Proof using TL HL.
  revert h l. induction n as [|n IH]; intros h l Hp Hs Hnd; [done|]. cbn [elect].
  destruct (heap_pop h) as [[item h']|] eqn:Epop.
  - destruct (heap_pop_Some _ _ _ Epop) as [Hp' Hmax].
    destruct l as [|x l]; [rewrite Hp in Hp'; by apply Permutation_nil_cons in Hp'|].
    apply StronglySorted_inv in Hs as [Hs Hx]. rewrite fmap_cons, NoDup_cons in Hnd. destruct Hnd as [Hxl Hnd].
    assert (Hi : item ∈ x :: l) by (rewrite <- Hp, Hp'; by left).
    assert (item = x) as ->.
    { apply elem_of_cons in Hi as [?|Hi]; [done|]. exfalso. apply Hxl.
      rewrite Forall_forall in Hx. specialize (Hx _ Hi). unfold before in Hx.
      rewrite <- (info_leb_antisym item x); [by apply list_elem_of_fmap_2|done|]. apply Hmax. rewrite Hp. by left. }
    rewrite Hp in Hp'. apply Permutation_cons_inv in Hp'.
    rewrite (IH h' l) by done. unfold to_u64. cbn [take forallb].
    destruct (fits x) eqn:Ef; unfold fits in Ef; rewrite Ef; cbn [mbind exec_bind andb]; [|done].
    by destruct (forallb fits _).
  - apply heap_pop_None in Epop. rewrite Epop in Hp. apply Permutation_nil in Hp as ->.
    by rewrite (IH h []), take_nil by (rewrite ?Epop; by constructor).
Qed.

(** C35: The election is deterministic: whatever the order in which the
    candidates are listed and however the heap arranges them, the elected
    validators are the first [n] of the candidates with any voting power, in
    decreasing order of power and, at equal power, of increasing text; it
    panics exactly when [n] or an elected power does not fit 64 bits. *)
Theorem election_refines infos infos' n :
  NoDup (address <$> infos) → infos' ≡ₚ infos → 0 <= n →
  get_top_validators_by_voting_power infos' n = top_validators infos n.
Proof using TL HL.
  intros Hnd Hperm Hn. unfold get_top_validators_by_voting_power, top_validators, to_u64.
  destruct (n <? 2 ^ 64) eqn:En; cbn [mbind exec_bind]; [|done].
  set (h := fold_left push_positive infos' heap_new).
  assert (Hh : heap_iter h ≡ₚ ranking infos).
  { unfold h, ranking. rewrite push_all, heap_iter_new, app_nil_r, merge_sort_Permutation. by rewrite Hperm. }
  assert (Hs : StronglySorted before (ranking infos)).
  { apply StronglySorted_merge_sort; apply _. }
  assert (Hnd' : NoDup (address <$> ranking infos)).
  { unfold ranking. rewrite merge_sort_Permutation. apply (sublist_NoDup _ (address <$> infos)); [done|].
    apply fmap_sublist, sublist_filter. }
  rewrite (elect_sorted _ h (ranking infos)) by done.
  assert (take (Z.to_nat (if zlen (heap_iter h) <? n then zlen (heap_iter h) else n)) (ranking infos)
          = take (Z.to_nat n) (ranking infos)) as ->.
  { assert (zlen (heap_iter h) = zlen (ranking infos)) as -> by (by rewrite Hh).
    unfold zlen. destruct (Z.ltb_spec (Z.of_nat (length (ranking infos))) n); [|done].
    by rewrite !take_ge by lia. }
  destruct (forallb fits _); cbn; [|done]. unfold result. f_equal. f_equal; by rewrite <- !list_fmap_compose.
Qed.
End Reference.

(** ** The cases of the source's tests *)

Module ElectionDemo.
Import ListContainers.

(** Any injective text will do: here the address in base 256. *)
#[export] Instance demo_text : AddressText := {| to_string a := [a] |}.
#[export] Instance demo_text_laws : AddressTextLaws demo_text.
Proof. split. by intros a b [= ->]. Qed.
#[export] Instance demo_heap : HeapApi ValidatorElectionInfo info_leb := list_heap info_leb.
#[export] Instance demo_heap_laws : HeapLaws demo_heap.
Proof. apply list_heap_laws; [apply info_leb_total|apply info_leb_trans]. Qed.

Definition with_power (a p : Z) : ValidatorElectionInfo :=
  {| address := a; voting_power := p * 10 ^ 10; vote_address := [a] |}.
Definition candidates := [with_power 3 100; with_power 4 0; with_power 1 300; with_power 2 100].

Lemma election_refines_witness :
  get_top_validators_by_voting_power (reverse candidates) 2
  = Done {| validators := [1; 2]; voting_powers := [300; 100]; vote_addrs := [[1]; [2]] |}.
Proof.
  rewrite (election_refines candidates (reverse candidates) 2).
  - by vm_compute.
  - by apply (bool_decide_unpack _).
  - apply reverse_Permutation.
  - lia.
Defined.
End ElectionDemo.
