(* ===== verification/EvmEnv.v ===== *)
(** * EvmEnv: the block environment of execution

    [evm_env_for_header] of [node/evm/config.rs] makes the environment in which an
    importer executes a block, [next_evm_env] the one in which the miner builds
    it, [with_block_rules] reconciles an environment that an RPC call has
    changed; [evm/block_env.rs] adds the milliseconds of the block, which the
    precompile of [evm/precompiles/milli_timestamp.rs] reads.

    [revm]'s configuration is kept as far as the code sets it.  The blob fee
    schedule of [alloy] is a parameter. *)

From stdpp Require Import base tactics numbers option list gmap strings.
From Stdlib Require Import ZArith Lia Bool.
From S2P Require Import Prelude.
From S2P Require Import Hardforks.
From S2P Require Import Header.
From S2P Require Import Validation.

(** [BlobParams] of [alloy] and what the code asks of them. *)
Class BlobApi `{F : ForkConditionApi} := {
  BlobParams : Type;
  blob_params_at_timestamp : ChainSpec → Z → option BlobParams;
  maybe_next_block_excess_blob_gas : Header → BlobParams → option Z;
  cancun_excess_of_nothing : Z;  (* [BlobParams::cancun().next_block_excess_blob_gas_osaka(0, 0, 0)] *)
  cancun_params : BlobParams;    (* [BlobParams::cancun()] *)
  max_blobs_per_tx_of : BlobParams → Z;  (* the field [max_blobs_per_tx] *)
  max_blob_count_of : BlobParams → Z;    (* the field [max_blob_count], per block *)
  calc_blob_fee : BlobParams → Z → Z;
}.

(** ** The environment *)

Record BlobExcessGasAndPrice := { env_excess_blob_gas : Z; blob_gasprice : Z }.

(** [revm]'s [BlockEnv]. *)
Record BlockEnv := {
  env_number : Z;
  env_beneficiary : Z;
  env_timestamp : Z;
  env_difficulty : Z;
  env_prevrandao : option Z;
  env_gas_limit : Z;
  basefee : Z;
  blob_excess_gas_and_price : option BlobExcessGasAndPrice;
  slot_num : Z;
}.

Record BscBlockEnv := {
  inner : BlockEnv;
  milli_remainder : Z;
  disabled_cas20 : gset Z;
  opcode_44_override : option Z;
}.

Definition bsc_block_env_new (inner : BlockEnv) (milli_remainder : Z) : BscBlockEnv :=
  {| inner := inner; milli_remainder := milli_remainder; disabled_cas20 := ∅; opcode_44_override := None |}.

(** [U256::saturating_to::<u64>] *)
Definition saturating_to_u64 (z : Z) : Z := Z.min z u64_max.

Lemma saturating_u64 z : is_u64 z → saturating_to_u64 z = z.
Proof. unfold is_u64, saturating_to_u64, u64_max. lia. Qed.

Definition env_milli_timestamp (self : BscBlockEnv) : Z :=
  add64 (mul64 (saturating_to_u64 (env_timestamp (inner self))) 1000) (milli_remainder self).

(** What opcode 0x44 sees before and after the merge. *)
Definition block_difficulty (self : BscBlockEnv) : Z :=
  default (env_difficulty (inner self)) (opcode_44_override self).
Definition block_prevrandao (self : BscBlockEnv) : option Z :=
  match opcode_44_override self with
  | Some v => Some v
  | None => env_prevrandao (inner self)
  end.

(** The part of [CfgEnv] the code sets. *)
Record CfgEnv := {
  cfg_spec : BscHardfork;
  cfg_chain_id : Z;
  max_blobs_per_tx : option Z;
  tx_gas_limit_cap : option Z;
}.

Record EvmEnv := { cfg_env : CfgEnv; block_env : BscBlockEnv }.

(** [2^24], see [evm/handler.rs]. *)
Definition MAX_TX_GAS_LIMIT_OSAKA : Z := 2 ^ 24.
Definition EIP1559_INITIAL_BASE_FEE : Z := 0.

(** [SpecId::MERGE] lies between [LONDON] and [SHANGHAI]. *)
Definition from_merge (s : SpecId) : bool := spec_rank LONDON <? spec_rank s.
Definition from_cancun (s : SpecId) : bool := spec_rank CANCUN <=? spec_rank s.

(** ** Overrides of an RPC call *)

Definition MAX_BSC_MILLI_REMAINDER : Z := 1000.

Definition bsc_milli_remainder (prev_randao : Z) : exec Z Z :=
  if MAX_BSC_MILLI_REMAINDER <=? prev_randao then Fail prev_randao else Done prev_randao.

(** The overrides [apply_block_overrides_ext] looks at; [alloy] has already
    written the others into the standard fields. *)
Record BlockOverrides := {
  over_time : option Z;
  over_random : option Z;
  over_difficulty : option Z;
  over_blob_base_fee : option Z;
}.

Definition set_blob_price (p : option BlobExcessGasAndPrice) (b : BlockEnv) : BlockEnv :=
  {| env_number := env_number b; env_beneficiary := env_beneficiary b; env_timestamp := env_timestamp b;
     env_difficulty := env_difficulty b; env_prevrandao := env_prevrandao b; env_gas_limit := env_gas_limit b;
     basefee := basefee b; blob_excess_gas_and_price := p; slot_num := slot_num b |}.

(** [blob_gasprice] has 128 bits. *)
Definition apply_block_overrides_ext (overrides : BlockOverrides) (self : BscBlockEnv) : exec Z BscBlockEnv :=
  let remainder := match over_time overrides with Some _ => 0 | None => milli_remainder self end in
  remainder ← (match over_random overrides with
               | Some prev_randao => bsc_milli_remainder prev_randao
               | None => Done remainder
               end);
  Done
    {| inner := match over_blob_base_fee overrides with
                | Some fee =>
                    set_blob_price
                      (Some {| env_excess_blob_gas :=
                                 default 0 (env_excess_blob_gas <$> blob_excess_gas_and_price (inner self));
                               blob_gasprice := Z.min fee (2 ^ 128 - 1) |}) (inner self)
                | None => inner self
                end;
       milli_remainder := remainder;
       disabled_cas20 := disabled_cas20 self;
       opcode_44_override := match over_random overrides, over_difficulty overrides with
                             | Some v, _ => Some v
                             | None, Some v => Some v
                             | None, None => opcode_44_override self
                             end |}.

(** ** Making an environment *)

(** [BscNextBlockEnvAttributes], as far as the environment depends on it. *)
Record NextBlockEnvAttributes := {
  next_timestamp : Z;
  next_fee_recipient : Z;
  next_prev_randao : Z;
  next_gas_limit : Z;
  next_milli_remainder : Z;
}.

Section Environments.
Context `{F : ForkConditionApi} `{BP : !BlobApi}.
Implicit Types (spec : ChainSpec).

Definition next_block_excess_blob_gas_with_mendel spec (block_number timestamp : Z) (parent : Header)
    (blob_params : option BlobParams) : option Z :=
  blob_params ← blob_params;
  if negb (should_recalculate_excess_blob_gas spec block_number timestamp)
  then Some (default 0 (excess_blob_gas parent))
  else match maybe_next_block_excess_blob_gas parent blob_params with
       | Some e => Some e
       | None => Some cancun_excess_of_nothing
       end.

(** [spec.chain().id()] is the chain id of the model's specification. *)
Definition evm_env_for_header spec (header : Header) : EvmEnv :=
  let blob_params :=
    if is_cancun_active_at_timestamp spec (number header) (timestamp header)
    then blob_params_at_timestamp spec (timestamp header) else None in
  let hardfork := revm_spec_by_timestamp_and_block_number spec (timestamp header) (number header) in
  let spec_id := spec_id_from hardfork in
  {| cfg_env :=
       {| cfg_spec := hardfork; cfg_chain_id := chain_id spec;
          max_blobs_per_tx := max_blobs_per_tx_of <$> blob_params;
          tx_gas_limit_cap :=
            if is_osaka_active_at_timestamp spec (number header) (timestamp header)
            then Some MAX_TX_GAS_LIMIT_OSAKA else None |};
     block_env :=
       bsc_block_env_new
         {| env_number := number header;
            env_beneficiary := beneficiary header;
            env_timestamp := timestamp header;
            env_difficulty := if from_merge spec_id then 0 else difficulty header;
            env_prevrandao := if from_merge spec_id then Some (difficulty header) else None;
            env_gas_limit := gas_limit header;
            basefee := default 0 (base_fee_per_gas header);
            blob_excess_gas_and_price :=
              e ← excess_blob_gas header; params ← blob_params;
              Some {| env_excess_blob_gas := e; blob_gasprice := calc_blob_fee params e |};
            slot_num := 0 |}
         (millisecond_remainder header) |}.

(** The gas limit computed for the London boundary is not used by the source. *)
Definition next_evm_env spec (parent : Header) (attributes : NextBlockEnvAttributes) : EvmEnv :=
  let n := add64 (number parent) 1 in
  let spec_id := revm_spec_by_timestamp_and_block_number spec (next_timestamp attributes) n in
  let blob_params := blob_params_at_timestamp spec (next_timestamp attributes) in
  {| cfg_env :=
       {| cfg_spec := spec_id; cfg_chain_id := chain_id spec; max_blobs_per_tx := None;
          tx_gas_limit_cap :=
            if is_osaka_active_at_timestamp spec n (next_timestamp attributes)
            then Some MAX_TX_GAS_LIMIT_OSAKA else None |};
     block_env :=
       bsc_block_env_new
         {| env_number := n;
            env_beneficiary := next_fee_recipient attributes;
            env_timestamp := next_timestamp attributes;
            env_difficulty := 0;
            env_prevrandao := Some (next_prev_randao attributes);
            env_gas_limit := next_gas_limit attributes;
            basefee := EIP1559_INITIAL_BASE_FEE;
            blob_excess_gas_and_price :=
              e ← next_block_excess_blob_gas_with_mendel spec n (next_timestamp attributes) parent blob_params;
              Some {| env_excess_blob_gas := e; blob_gasprice := calc_blob_fee (default cancun_params blob_params) e |};
            slot_num := 0 |}
         (next_milli_remainder attributes) |}.

Definition set_opcode_44_fields (d : Z) (r : option Z) (b : BlockEnv) : BlockEnv :=
  {| env_number := env_number b; env_beneficiary := env_beneficiary b; env_timestamp := env_timestamp b;
     env_difficulty := d; env_prevrandao := r; env_gas_limit := env_gas_limit b;
     basefee := basefee b; blob_excess_gas_and_price := blob_excess_gas_and_price b; slot_num := slot_num b |}.

(** The header-derived fields of opcode 0x44 across the merge. *)
Definition translate_opcode_44 (old_spec new_spec : SpecId) (b : BlockEnv) : BlockEnv :=
  if negb (from_merge old_spec) && from_merge new_spec
  then set_opcode_44_fields (env_difficulty b) (Some (default (env_difficulty b) (env_prevrandao b))) b
  else if from_merge old_spec && negb (from_merge new_spec)
  then set_opcode_44_fields (default (env_difficulty b) (env_prevrandao b)) (env_prevrandao b) b
  else b.

(** Gas parameters that follow the specification are not part of [CfgEnv] here. *)
Definition with_block_rules spec (env : EvmEnv) : EvmEnv :=
  let b := block_env env in
  let cfg := cfg_env env in
  let n := saturating_to_u64 (env_number (inner b)) in
  let t := saturating_to_u64 (env_timestamp (inner b)) in
  let new := revm_spec_by_timestamp_and_block_number spec t n in
  if bool_decide (new = cfg_spec cfg) then env
  else
    let old_spec := spec_id_from (cfg_spec cfg) in
    let new_spec := spec_id_from new in
    let blk := match opcode_44_override b with
               | None => translate_opcode_44 old_spec new_spec (inner b)
               | Some _ => inner b
               end in
    let enters_cancun := negb (from_cancun old_spec) && from_cancun new_spec in
    let params := default cancun_params (blob_params_at_timestamp spec t) in
    {| cfg_env :=
         {| cfg_spec := new; cfg_chain_id := cfg_chain_id cfg;
            max_blobs_per_tx :=
              if enters_cancun then Some (default (max_blobs_per_tx_of params) (max_blobs_per_tx cfg)) else max_blobs_per_tx cfg;
            tx_gas_limit_cap :=
              if bool_decide (tx_gas_limit_cap cfg = None ∨ tx_gas_limit_cap cfg = Some MAX_TX_GAS_LIMIT_OSAKA)
              then if is_osaka_active_at_timestamp spec n t then Some MAX_TX_GAS_LIMIT_OSAKA else None
              else tx_gas_limit_cap cfg |};
       block_env :=
         {| inner :=
              if enters_cancun
              then set_blob_price
                     (Some (default {| env_excess_blob_gas := 0; blob_gasprice := calc_blob_fee params 0 |}
                              (blob_excess_gas_and_price blk))) blk
              else blk;
            milli_remainder := milli_remainder b; disabled_cas20 := disabled_cas20 b;
            opcode_44_override := opcode_44_override b |} |}.
End Environments.
