(* ===== verification/Sealing.v ===== *)
(** * Sealing: from the parent block to a sealed header

    Models the path of a header through the miner: [prepare_new_attributes] of
    [src/node/miner/util.rs] plans the time of the block, [next_evm_env] of
    [src/node/evm/config.rs] and [assemble_block_body_only] of
    [src/node/evm/assembler.rs] fill the header after execution,
    [block_mev_info.rs] tags it with its builder, [finalize_new_header] adds the
    consensus fields, the attestation and the seal ([signer.rs]), and
    [refresh_vote_attestation_and_seal] replaces attestation and seal when more
    votes have arrived.

    The secp256k1 signature, the blob fee schedule of [alloy], execution and the
    computation of roots are parameters. *)

From stdpp Require Import base tactics numbers option list sorting gmap strings.
From Stdlib Require Import ZArith Lia Bool.
From S2P Require Import Prelude.
From S2P Require Import Collections.
From S2P Require Import PaymentLane.
From S2P Require Import Hardforks.
From S2P Require Import Header.
From S2P Require Import Snapshot.
From S2P Require Import Extra.
From S2P Require Import Backoff.
From S2P Require Import Validation.
From S2P Require Import Attestation.
From S2P Require Import EvmEnv.

(** ** The signer *)

(** [SecretKey::from_slice] and [SECP256K1.sign_ecdsa_recoverable] with
    [serialize_compact]; keys are the numbers of their bytes. *)
Class SecretKeyApi := {
  secret_key_valid : Z → bool;
  sign_ecdsa_recoverable : Z → Z → bytes * Z;  (* key, digest: 64 bytes, recovery id *)
  key_address : Z → Z;                         (* the address of the public key *)
}.

(** A signature has 64 bytes and recovers to the address of the key that made it. *)
Class SecretKeyLaws (S : SecretKeyApi) (E : EcdsaApi) := {
  signature_length k d : zlen (sign_ecdsa_recoverable k d).1 = 64;
  signature_recovers k d : secret_key_valid k = true →
    recover_address d (sign_ecdsa_recoverable k d).1 (sign_ecdsa_recoverable k d).2 = Some (key_address k);
}.

(** What [SigningFailed] is raised for; the source carries a message. *)
Inductive SigningFailure : Set :=
| InvalidPrivateKey
| EpochValidatorsMissing (number parent_hash : Z).

Inductive SignerError : Set :=
| NotInitialized
| AlreadyInitialized
| SigningFailed (reason : SigningFailure).

Record MinerSigner := { secret_bytes : Z }.

(** [GLOBAL_SIGNER]: a [OnceCell], set at most once. *)
Definition GlobalSigner : Type := option MinerSigner.

Section Signer.
Context `{S : SecretKeyApi, R : RlpApi}.

Definition init_global_signer (private_key : Z) (cell : GlobalSigner) : exec SignerError unit * GlobalSigner :=
  if negb (secret_key_valid private_key) then (Fail (SigningFailed InvalidPrivateKey), cell)
  else match cell with
       | Some _ => (Fail AlreadyInitialized, cell)
       | None => (Done tt, Some {| secret_bytes := private_key |})
       end.

(** [MinerSigner::seal_header]: [r ++ s ++ recovery id]. *)
Definition seal_header (self : MinerSigner) (header : Header) (chain_id : Z) : exec SignerError bytes :=
  let message := hash_with_chain_id header chain_id in
  if negb (secret_key_valid (secret_bytes self)) then Fail (SigningFailed InvalidPrivateKey)
  else
    let '(signature_bytes, recovery_id) := sign_ecdsa_recoverable (secret_bytes self) message in
    Done (signature_bytes ++ [recovery_id]).

Definition seal_header_with_global_signer (cell : GlobalSigner) (header : Header) (chain_id : Z)
    : exec SignerError bytes :=
  signer ← ok_or cell NotInitialized;
  seal_header signer header chain_id.
End Signer.

(** ** Tagging a header with its builder ([block_mev_info.rs]) *)

Inductive BlockMevInfoVersion : Set := Bid | BidBlock.
#[export] Instance BlockMevInfoVersion_eq_dec : EqDecision BlockMevInfoVersion.
Proof. solve_decision. Defined.

Definition mev_version_byte (version : BlockMevInfoVersion) : Z :=
  match version with Bid => 1 | BidBlock => 2 end.

(** Eleven zero bytes, the version, the builder. *)
Definition encode_block_mev_info (version : BlockMevInfoVersion) (builder : Z) : Z :=
  be_decode (replicate 11 0 ++ [mev_version_byte version] ++ be_encode 20 builder).

Definition set_requests_hash (r : option Z) (h : Header) : Header :=
  {| parent_hash := parent_hash h; ommers_hash := ommers_hash h; beneficiary := beneficiary h;
     state_root := state_root h; transactions_root := transactions_root h;
     receipts_root := receipts_root h; logs_bloom := logs_bloom h; difficulty := difficulty h;
     number := number h; gas_limit := gas_limit h; gas_used := gas_used h; timestamp := timestamp h;
     extra_data := extra_data h; mix_hash := mix_hash h; nonce := nonce h;
     base_fee_per_gas := base_fee_per_gas h; withdrawals_root := withdrawals_root h;
     blob_gas_used := blob_gas_used h; excess_blob_gas := excess_blob_gas h;
     parent_beacon_block_root := parent_beacon_block_root h; requests_hash := r;
     block_access_list_hash := block_access_list_hash h; slot_number := slot_number h |}.

Definition set_block_mev_info (version : BlockMevInfoVersion) (builder : Z) (prague_active : bool)
    (header : Header) : Header :=
  if prague_active then set_requests_hash (Some (encode_block_mev_info version builder)) header else header.

Definition decode_block_mev_info (h : Z) : option (BlockMevInfoVersion * Z) :=
  let bs := be_encode 32 h in
  if existsb (λ b, negb (b =? 0)) (take 11 bs) then None
  else
    version ← (match bs !! 11%nat with Some 1 => Some Bid | Some 2 => Some BidBlock | _ => None end);
    let builder := be_decode (drop 12 bs) in
    if builder =? 0 then None else Some (version, builder).

(** ** Planning the block *)

(** Constants of [alloy] besides those of [Validation]. *)
Class AlloyHeader := {
  default_header : Header;       (* [Header::default()] *)
  EMPTY_REQUESTS_HASH : Z;
  BEACON_NONCE : Z;
}.

Record SealedHeader := { sealed : Header; sealed_hash : Z }.

(** The part of [MiningContext] the functions below read and write. *)
Record MiningContext := {
  mc_header : option Header;
  parent_header : SealedHeader;
  parent_snapshot : Snapshot;
  block_timestamp_ms : Z;
  end_mining_timestamp_ms : Z;
}.

Record EthPayloadAttributes := {
  attr_timestamp : Z;
  suggested_fee_recipient : Z;
  prev_randao : Z;
  attr_parent_beacon_block_root : option Z;
}.

Definition set_excess_blob_gas (e : option Z) (h : Header) : Header :=
  {| parent_hash := parent_hash h; ommers_hash := ommers_hash h; beneficiary := beneficiary h;
     state_root := state_root h; transactions_root := transactions_root h;
     receipts_root := receipts_root h; logs_bloom := logs_bloom h; difficulty := difficulty h;
     number := number h; gas_limit := gas_limit h; gas_used := gas_used h; timestamp := timestamp h;
     extra_data := extra_data h; mix_hash := mix_hash h; nonce := nonce h;
     base_fee_per_gas := base_fee_per_gas h; withdrawals_root := withdrawals_root h;
     blob_gas_used := blob_gas_used h; excess_blob_gas := e;
     parent_beacon_block_root := parent_beacon_block_root h; requests_hash := requests_hash h;
     block_access_list_hash := block_access_list_hash h; slot_number := slot_number h |}.

(** [Header { number, parent_hash, beneficiary, timestamp, ..Default::default() }] *)
Definition new_header_of (base : Header) (n parent signer t : Z) : Header :=
  {| parent_hash := parent; ommers_hash := ommers_hash base; beneficiary := signer;
     state_root := state_root base; transactions_root := transactions_root base;
     receipts_root := receipts_root base; logs_bloom := logs_bloom base; difficulty := difficulty base;
     number := n; gas_limit := gas_limit base; gas_used := gas_used base; timestamp := t;
     extra_data := extra_data base; mix_hash := mix_hash base; nonce := nonce base;
     base_fee_per_gas := base_fee_per_gas base; withdrawals_root := withdrawals_root base;
     blob_gas_used := blob_gas_used base; excess_blob_gas := excess_blob_gas base;
     parent_beacon_block_root := parent_beacon_block_root base; requests_hash := requests_hash base;
     block_access_list_hash := block_access_list_hash base; slot_number := slot_number base |}.

Section Plan.
Context `{F : ForkConditionApi} `{BP : !BlobApi} `{AH : AlloyHeader}.
Implicit Types (self : Parlia) (spec : ChainSpec) (ctx : MiningContext).

(** [now] is [present_millis_timestamp]. *)
Definition prepare_new_header (now : Z) self (parent : SealedHeader) (signer : Z) : Header :=
  let t := now / 1000 in
  let t := if t <=? timestamp (sealed parent) then add64 (timestamp (sealed parent)) 1 else t in
  let new_header := new_header_of default_header (add64 (number (sealed parent)) 1) (sealed_hash parent) signer t in
  if is_cancun_active_at_timestamp (parlia_spec self) (number new_header) (timestamp new_header)
  then set_excess_blob_gas
         (next_block_excess_blob_gas_with_mendel (parlia_spec self) (number new_header) (timestamp new_header)
            (sealed parent) (blob_params_at_timestamp (parlia_spec self) (timestamp new_header)))
         new_header
  else new_header.

(** The clock is read three times: [now1] by [prepare_new_header], [now2] for the
    block time, [now3] for the end of mining. *)
Definition prepare_new_attributes (fuel : nat) (now1 now2 now3 : Z) (random_range : Z → Z) ctx self
    (parent : SealedHeader) (signer : Z) : exec unit (EthPayloadAttributes * MiningContext) :=
  let new_header := prepare_new_header now1 self parent signer in
  '(ms, new_header) ← prepare_timestamp fuel now2 self (parent_snapshot ctx) (sealed parent) new_header;
  let end_mining_delay_ms := delay_for_ramanujan_fork now3 random_range self (parent_snapshot ctx) new_header in
  difficulty' ← calculate_difficulty (parent_snapshot ctx) signer;
  let attributes :=
    {| attr_timestamp := timestamp new_header;
       suggested_fee_recipient := beneficiary new_header;
       prev_randao := difficulty';
       attr_parent_beacon_block_root :=
         if is_bohr_active_at_timestamp (parlia_spec self) (number new_header) (timestamp new_header)
         then Some 0 else None |} in
  Done (attributes,
        {| mc_header := Some new_header; parent_header := parent_header ctx; parent_snapshot := parent_snapshot ctx;
           block_timestamp_ms := ms; end_mining_timestamp_ms := now3 + end_mining_delay_ms |}).
End Plan.

(** ** Filling the header *)

(** The attributes the payload builder passes on, with its gas limit; the
    milliseconds are those of the planned time ([bsc_miner.rs], [payload.rs]). *)
Definition build_attributes (attributes : EthPayloadAttributes) (attr_gas_limit block_timestamp_ms : Z)
    : NextBlockEnvAttributes :=
  {| next_timestamp := attr_timestamp attributes;
     next_fee_recipient := suggested_fee_recipient attributes;
     next_prev_randao := prev_randao attributes;
     next_gas_limit := attr_gas_limit;
     next_milli_remainder := block_timestamp_ms mod 1000 |}.

(** What execution and the trie produced. *)
Record Executed := {
  ex_state_root : Z;
  ex_transactions_root : Z;
  ex_receipts_root : Z;
  ex_logs_bloom : Z;
  ex_gas_used : Z;
  ex_transactions : list TxBlob;
}.

Section Assemble.
Context `{F : ForkConditionApi} `{AC : AlloyConstants} `{BP : !BlobApi} `{AH : AlloyHeader}.

(** [ctx_parent_hash] and [ctx_extra_data] are those of the execution context,
    [default_extra] the assembler's own extra data. *)
Definition assemble_block_body_only (spec : ChainSpec) (default_extra : bytes) (env : BlockEnv)
    (ctx_parent_hash : Z) (ctx_extra_data : bytes) (parent : SealedHeader) (out : Executed) : Header :=
  let t := saturating_to_u64 (env_timestamp env) in
  let n := saturating_to_u64 (env_number env) in
  let cancun := is_cancun_active_at_timestamp spec n t in
  {| parent_hash := ctx_parent_hash;
     ommers_hash := EMPTY_OMMER_ROOT_HASH;
     beneficiary := env_beneficiary env;
     state_root := ex_state_root out;
     transactions_root := ex_transactions_root out;
     receipts_root := ex_receipts_root out;
     logs_bloom := ex_logs_bloom out;
     difficulty := env_difficulty env;
     number := n;
     gas_limit := env_gas_limit env;
     gas_used := ex_gas_used out;
     timestamp := t;
     extra_data := if bool_decide (ctx_extra_data = []) then default_extra else ctx_extra_data;
     mix_hash := default 0 (env_prevrandao env);
     nonce := BEACON_NONCE;
     base_fee_per_gas := if is_london_active_at_block spec n then Some (basefee env) else None;
     withdrawals_root := if cancun then Some EMPTY_WITHDRAWALS_HASH else None;
     blob_gas_used :=
       if cancun
       then Some (fold_left (λ acc tx, add64 acc (default 0 (tx_blob_gas_used tx))) (ex_transactions out) 0)
       else None;
     excess_blob_gas :=
       if cancun
       then next_block_excess_blob_gas_with_mendel spec n t (sealed parent) (blob_params_at_timestamp spec t)
       else None;
     parent_beacon_block_root := if cancun && is_bohr_active_at_timestamp spec n t then Some 0 else None;
     requests_hash := if cancun && is_prague_active_at_block_and_timestamp spec n t
                      then Some EMPTY_REQUESTS_HASH else None;
     block_access_list_hash := None;
     slot_number := None |}.
End Assemble.

(** ** Finalizing *)

Section Finalize.
Context `{F : ForkConditionApi, HashApi, R : AttestationRlp, B : BlsApi, RA : RlpApi, S : SecretKeyApi}.
Implicit Types (self : Parlia) (view : ChainView) (parent_snap : Snapshot) (new_header header : Header).

(** A computation without an error of its own, inside one that has some. *)
Definition or_panic {A} (m : exec unit A) : exec SignerError A :=
  match m with Done x => Done x | _ => Panics end.

(** [padded.resize(EXTRA_VANITY_LEN, 0)] *)
Definition pad_vanity new_header : Header :=
  if zlen (extra_data new_header) <? EXTRA_VANITY_LEN
  then set_extra_data (extra_data new_header
         ++ replicate (Z.to_nat (EXTRA_VANITY_LEN - zlen (extra_data new_header))) 0) new_header
  else new_header.

(** Room for the seal is appended, then filled with the signature. *)
Definition append_seal (signer : GlobalSigner) self new_header : exec SignerError Header :=
  let new_header := set_extra_data (extra_data new_header ++ replicate (Z.to_nat EXTRA_SEAL_LEN) 0) new_header in
  seal_data ← seal_header_with_global_signer signer new_header (chain_id (parlia_spec self));
  let start := zlen (extra_data new_header) - EXTRA_SEAL_LEN in
  Done (set_extra_data (take (Z.to_nat start) (extra_data new_header) ++ seal_data) new_header).

(** An error of [assemble_vote_attestation] is logged, and the header goes without. *)
Definition try_attestation self view parent_snap (parent : Header) new_header : exec SignerError Header :=
  match assemble_vote_attestation self view parent_snap parent new_header with
  | Done new_header => Done new_header
  | Fail _ => Done new_header
  | Panics => Panics
  end.

(** The turn-length cache is written whatever comes of the header. *)
Definition finalize_new_header (signer : GlobalSigner) self view parent_snap (parent : SealedHeader) (cache : gmap Z Z)
    (timestamp_ms : Z) (epoch_validators : option (list Z * list Z)) new_header
    : gmap Z Z * exec SignerError Header :=
  let prepared : exec SignerError Header :=
    difficulty' ← or_panic (calculate_difficulty parent_snap (beneficiary new_header));
    let new_header := set_difficulty difficulty' new_header in
    let new_header :=
      if is_lorentz_active_at_timestamp (parlia_spec self) (number new_header) (timestamp new_header)
      then set_millisecond_part_of_timestamp timestamp_ms new_header
      else set_mix_hash 0 new_header in
    let new_header := pad_vanity new_header in
    if is_multiple_of (number new_header) (epoch_num parent_snap)
    then
      validators' ← ok_or epoch_validators
        (SigningFailed (EpochValidatorsMissing (number new_header) (sealed_hash parent)));
      or_panic (prepare_validators self parent_snap (Some validators') new_header)
    else Done new_header in
  match prepared with
  | Done new_header =>
      let '(cache, new_header) := prepare_turn_length self parent_snap cache new_header in
      (cache,
       new_header ← try_attestation self view parent_snap (sealed parent) new_header;
       append_seal signer self new_header)
  | Fail e => (cache, Fail e)
  | Panics => (cache, Panics)
  end.

(** In [finalize_payload] a payload made of a bid is tagged before it is sealed. *)
Definition tag_payload self (builder : option Z) header : Header :=
  match builder with
  | Some builder =>
      set_block_mev_info Bid builder
        (is_prague_active_at_block_and_timestamp (parlia_spec self) (number header) (timestamp header)) header
  | None => header
  end.

(** Where the attestation starts in the extra data. *)
Definition attestation_start self parent_snap header : exec SignerError Z :=
  if is_multiple_of (number header) (epoch_num parent_snap)
  then
    count ← index (extra_data header) EXTRA_VANITY_LEN;
    let start := EXTRA_VANITY_LEN + VALIDATOR_NUMBER_SIZE + count * VALIDATOR_BYTES_LEN_AFTER_LUBAN in
    Done (if is_bohr_active_at_timestamp (parlia_spec self) (number header) (timestamp header)
          then start + TURN_LENGTH_SIZE else start)
  else Done EXTRA_VANITY_LEN.

(** Every failure puts the original extra data back. *)
Definition refresh_vote_attestation_and_seal (signer : GlobalSigner) self view parent_snap (parent : Header) header
    : exec SignerError Header :=
  if negb (is_luban_active_at_block (parlia_spec self) (number header)) then Done header
  else if zlen (extra_data header) <? EXTRA_VANITY_LEN + EXTRA_SEAL_LEN then Done header
  else
    start ← attestation_start self parent_snap header;
    if zlen (extra_data header) <? start then Done header
    else
      let stripped := set_extra_data (take (Z.to_nat start) (extra_data header)) header in
      match assemble_vote_attestation self view parent_snap parent stripped with
      | Panics => Panics
      | Fail _ => Done header
      | Done refreshed =>
          match append_seal signer self refreshed with
          | Panics => Panics
          | Fail _ => Done header
          | Done sealed => Done sealed
          end
      end.
End Finalize.

(** ** The payload *)

(** The caches of the node that finalizing writes. *)
Record Caches `{L : LruApi} := {
  validator_cache : gmap Z (list Z * list Z);
  turn_length_cache : gmap Z Z;
  lane_cache : LruCache LaneMeta;
}.

(** [BscBuiltPayload], as far as finalizing changes or reads it: [sidecar_hashes]
    are the block hashes in the blob sidecars, [lane_touched] tells whether the
    bundle has an entry for the lane contract. *)
Record BscBuiltPayload := {
  payload_header : Header;
  bid_builder : option Z;
  pending_validators : option (list Z * list Z);
  pending_turn_length : option Z;
  lane_touched : bool;
  sidecar_hashes : option (list Z);
}.

Section Payload.
Context `{F : ForkConditionApi, HashApi, R : AttestationRlp, B : BlsApi, RA : RlpApi, S : SecretKeyApi} `{L : LruApi}.

Definition finalize_payload (signer : GlobalSigner) (self : Parlia) (view : ChainView) (parent_snap : Snapshot)
    (parent : SealedHeader) (timestamp_ms : Z) (epoch_validators : option (list Z * list Z))
    (payload : BscBuiltPayload) (caches : Caches) : exec SignerError BscBuiltPayload * Caches :=
  let header := tag_payload self (bid_builder payload) (payload_header payload) in
  let '(turn_lengths, finalized) :=
    finalize_new_header signer self view parent_snap parent (turn_length_cache caches) timestamp_ms epoch_validators header in
  let caches := {| validator_cache := validator_cache caches; turn_length_cache := turn_lengths;
                   lane_cache := lane_cache caches |} in
  match finalized with
  | Done header =>
      let final_hash := hash_slow header in
      (Done {| payload_header := header; bid_builder := bid_builder payload; pending_validators := None;
               pending_turn_length := None; lane_touched := lane_touched payload;
               sidecar_hashes := option_map (map (λ _, final_hash)) (sidecar_hashes payload) |},
       {| validator_cache := match pending_validators payload with
                             | Some vs => <[final_hash := vs]> (validator_cache caches)
                             | None => validator_cache caches
                             end;
          turn_length_cache := match pending_turn_length payload with
                               | Some t => <[final_hash := t]> (turn_length_cache caches)
                               | None => turn_length_cache caches
                               end;
          lane_cache := inherit_if_untouched (lane_touched payload) (sealed_hash parent) final_hash (lane_cache caches) |})
  | Fail e => (Fail e, caches)
  | Panics => (Panics, caches)
  end.
End Payload.
