(* ===== verification/SealingProps.v ===== *)
(** * SealingProps: what the miner seals, every node accepts

    The header that comes out of the miner passes both the stateless checks of
    [Validation] and the checks against its ancestors of [Attestation], also
    after its attestation was refreshed. *)

From stdpp Require Import base tactics numbers option list sorting gmap strings.
From Stdlib Require Import ZArith Lia Bool.
From S2P Require Import Prelude.
From S2P Require Import Collections.
From S2P Require Import PaymentLane.
From S2P Require Import Hardforks.
From S2P Require Import Header.
From S2P Require Import Snapshot.
From S2P Require Import SnapshotProps.
From S2P Require Import SnapshotClaims.
From S2P Require Import Extra.
From S2P Require Import ExtraProps.
From S2P Require Import Backoff.
From S2P Require Import BackoffProps.
From S2P Require Import Validation.
From S2P Require Import Attestation.
From S2P Require Import AttestationProps.
From S2P Require Import EvmEnv.
From S2P Require Import Sealing.

(** ** The tag of the builder *)

(** A tag reads back as the path and the builder it was made of, and the hash of
    empty requests, like every hash that does not start with eleven zero bytes,
    reads as local. *)
Lemma mev_info_roundtrip version builder :
  0 < builder < 256 ^ 20 →
  decode_block_mev_info (encode_block_mev_info version builder) = Some (version, builder).
Proof.
  intros Hb. unfold decode_block_mev_info, encode_block_mev_info.
  set (bs := replicate 11 0 ++ [mev_version_byte version] ++ be_encode 20 builder).
  assert (Hok : Forall byte_ok bs).
  { apply Forall_app. split; [apply Forall_replicate; unfold byte_ok; lia|]. apply Forall_app.
    split; [|apply be_encode_ok]. apply Forall_cons_2; [|apply Forall_nil_2]. by destruct version. }
  assert (Hl : length bs = 32%nat) by (unfold bs; rewrite !length_app, length_replicate, be_encode_length; done).
  replace (be_encode 32 (be_decode bs)) with bs by (rewrite <- Hl; symmetry; by apply be_encode_decode).
  unfold bs at 1. rewrite take_app_length' by by rewrite length_replicate. cbn [existsb replicate negb Z.eqb orb].
  assert (bs !! 11%nat = Some (mev_version_byte version)) as ->.
  { unfold bs. rewrite lookup_app_r by (rewrite length_replicate; lia). by rewrite length_replicate. }
  assert (drop 12 bs = be_encode 20 builder) as -> by done.
  rewrite be_decode_encode by (cbn; lia). rewrite (proj2 (Z.eqb_neq builder 0)) by lia.
  by destruct version.
Qed.

(** ** The seal *)

Section SealLemmas.
Context `{R : RlpApi, E : EcdsaApi, S : SecretKeyApi} `{SL : !SecretKeyLaws S E} `{F : ForkConditionApi}.
Implicit Types (self : Parlia) (h : Header) (seal : bytes).

Lemma signed_extra_append seal h : zlen seal = 65 → signed_extra_data (append_extra seal h) = extra_data h.
Proof.
  intros Hs. unfold signed_extra_data, append_extra, EXTRA_SEAL_LEN. cbn [extra_data set_extra_data].
  rewrite zlen_app, Hs. unfold sat_sub64. pose proof (zlen_nonneg (extra_data h)).
  replace (Z.max (zlen (extra_data h) + 65 - 65) 0) with (zlen (extra_data h)) by lia.
  unfold zlen. rewrite Nat2Z.id. apply take_app_length.
Qed.

(** The seal is not part of what it signs. *)
Lemma hash_append_seal seal seal' h cid :
  zlen seal = 65 → zlen seal' = 65 →
  hash_with_chain_id (append_extra seal h) cid = hash_with_chain_id (append_extra seal' h) cid.
Proof.
  intros Hs Hs'. unfold hash_with_chain_id, encode_header_with_chain_id, rlp_header.
  by rewrite !signed_extra_append by done.
Qed.

Lemma append_seal_ok k self h :
  secret_key_valid k = true → 32 <= zlen (extra_data h) →
  ∃ seal, append_seal (Some {| secret_bytes := k |}) self h = Done (append_extra seal h) ∧ zlen seal = 65 ∧
    recover_proposer self (append_extra seal h) = Done (key_address k).
Proof.
  intros Hk Hl. unfold append_seal, seal_header_with_global_signer, seal_header. cbn [ok_or mbind exec_bind secret_bytes].
  rewrite Hk. cbn [negb]. set (zeros := replicate _ 0). change (set_extra_data (extra_data h ++ zeros) h) with (append_extra zeros h).
  set (d := hash_with_chain_id (append_extra zeros h) (chain_id (parlia_spec self))).
  pose proof (signature_length k d) as Hsl. pose proof (signature_recovers k d Hk) as Hrec.
  destruct (sign_ecdsa_recoverable k d) as [sig rid]. cbn [fst snd mbind exec_bind] in *.
  assert (Hz : zlen zeros = 65) by (unfold zeros, zlen; by rewrite length_replicate).
  assert (Hseal : zlen (sig ++ [rid]) = 65) by (rewrite zlen_app, Hsl; done).
  exists (sig ++ [rid]). split_and!; [|done|].
  - f_equal. match goal with |- set_extra_data ?e _ = _ => change (set_extra_data e h = append_extra (sig ++ [rid]) h) end.
    unfold append_extra. cbn [extra_data set_extra_data]. f_equal.
    rewrite zlen_app, Hz. unfold EXTRA_SEAL_LEN. replace (zlen (extra_data h) + 65 - 65) with (zlen (extra_data h)) by lia.
    unfold zlen. by rewrite Nat2Z.id, take_app_length.
  - unfold recover_proposer. extra_consts. rewrite (hash_append_seal (sig ++ [rid]) zeros) by done. fold d.
    cbn [extra_data append_extra set_extra_data]. rewrite zlen_app, Hseal.
    rewrite (proj2 (Z.ltb_ge _ _)) by lia.
    replace (zlen (extra_data h) + 65 - 65) with (zlen (extra_data h)) by lia.
    rewrite app_assoc, (index_app_mid (extra_data h ++ sig) [] rid) by (rewrite zlen_app; lia). cbn [mbind exec_bind].
    rewrite <- app_assoc, (slice_app_at (extra_data h) sig [rid]) by lia. cbn [mbind exec_bind].
    by rewrite Hrec.
Qed.
End SealLemmas.

(** ** The extra data *)

Section ExtraLemmas.
Context `{F : ForkConditionApi, HashApi, R : AttestationRlp, B : BlsApi, E : EcdsaApi, RA : RlpApi}.
Context `{RL : !AttestationRlpLaws R, BL : !BlsLaws B}.
Implicit Types (self : Parlia) (view : ChainView) (snap : Snapshot) (h parent : Header) (seal : bytes).

Lemma pad_vanity_eq h :
  zlen (extra_data h) <= 32 → ∃ e, pad_vanity h = set_extra_data e h ∧ zlen e = 32.
Proof.
  intros Hl. unfold pad_vanity, EXTRA_VANITY_LEN. case_if; split_tests.
  - eexists. split; [done|]. rewrite zlen_app. unfold zlen at 2. rewrite length_replicate. lia.
  - exists (extra_data h). split; [by destruct h|]. lia.
Qed.

(** What the caller supplies for an epoch block. *)
Definition epoch_supplied snap (evs : option (list Z * list Z)) h : Prop :=
  is_multiple_of (number h) (epoch_num snap) = true → ∃ vs vas, evs = Some (vs, vas) ∧ epoch_args vs vas.

(** Validators and turn length go where the attestation is expected after them. *)
Lemma prepared_ready self snap cache evs parent_hash' h :
  zlen (extra_data h) = 32 → is_luban_active_at_block (parlia_spec self) (number h) = true → epoch_supplied snap evs h →
  ∃ h1 bs, (if is_multiple_of (number h) (epoch_num snap)
            then validators' ← ok_or evs (SigningFailed (EpochValidatorsMissing (number h) parent_hash'));
                 or_panic (prepare_validators self snap (Some validators') h)
            else Done h) = Done h1 ∧
    (prepare_turn_length self snap cache h1).2 = append_extra bs h ∧
    ready_for_attestation self (epoch_num snap) (append_extra bs h).
Proof.
  intros Hl Hlub Hevs. unfold ready_for_attestation. cbn [number append_extra set_extra_data timestamp].
  destruct (is_multiple_of (number h) (epoch_num snap)) eqn:He.
  - destruct (Hevs He) as (vs & vas & -> & Hargs). cbn [ok_or mbind exec_bind].
    rewrite prepare_validators_luban by done. eexists _, _. split; [reflexivity|].
    rewrite prepare_turn_length_bytes by done. set (recs := concat _). split.
    { unfold append_extra. cbn [extra_data set_extra_data number timestamp]. by rewrite <- app_assoc. }
    set (tl := if is_bohr_active_at_timestamp _ _ _ then _ else _).
    exists (extra_data h), (zlen vs), recs, tl. split_and!; [done|done|apply Hargs|apply Hargs| |].
    + unfold recs. rewrite (concat_zlen _ 68) by apply zlen_enc_record. f_equal. unfold records_of, zlen.
      by rewrite length_fmap, sort_Z_length.
    + unfold tl. cbn [number append_extra set_extra_data timestamp]. by destruct (is_bohr_active_at_timestamp _ _ _).
  - exists h, []. split; [done|]. unfold append_extra. rewrite app_nil_r. split; [|done].
    unfold prepare_turn_length. rewrite He. by destruct h.
Qed.

(** An attestation or none, then the seal: what a reader gets. *)
Lemma sealed_attestation self epoch_length att seal h :
  ready_for_attestation self epoch_length h → zlen seal = 65 →
  is_luban_active_at_block (parlia_spec self) (number h) = true →
  get_vote_attestation_from_header self (append_extra seal (append_extra (attestation_bytes att) h)) epoch_length = Done att.
Proof.
  intros Hr Hs Hl. destruct att as [a|]; [by apply appended_attestation|]. cbn [attestation_bytes].
  unfold ready_for_attestation in Hr. destruct (is_multiple_of (number h) epoch_length) eqn:He.
  - destruct Hr as (vanity & count & recs & tl & Hex & Hv & Hc & Hrl & Htl).
    erewrite (read_attestation self _ vanity recs tl [] seal count); try done.
    unfold append_extra. simpl. by rewrite Hex, app_nil_r, <- !app_assoc.
  - erewrite (plain_attestation self _ (extra_data h) [] seal); try done.
    unfold append_extra. simpl. by rewrite app_nil_r.
Qed.

Lemma sealed_extra_checks self snap bs seal h :
  ready_for_attestation self (epoch_num snap) h → zlen seal = 65 →
  is_luban_active_at_block (parlia_spec self) (number h) = true →
  is_multiple_of (number h) (get_epoch_length self h) = is_multiple_of (number h) (epoch_num snap) →
  check_header_extra self (append_extra seal (append_extra bs h)) = Done tt.
Proof.
  intros Hr Hs Hl Heq. unfold ready_for_attestation in Hr.
  destruct (is_multiple_of (number h) (epoch_num snap)) eqn:He.
  - destruct Hr as (vanity & count & recs & tl & Hex & Hv & Hc & Hrl & Htl).
    eapply (epoch_check self _ vanity recs tl bs seal count); try done.
    unfold append_extra. simpl. by rewrite Hex, <- !app_assoc.
  - unfold check_header_extra, check_header_extra_len, get_validator_len_from_header.
    change (get_epoch_length self (append_extra seal _)) with (get_epoch_length self h).
    cbn [number append_extra set_extra_data extra_data]. rewrite Heq, Hl. extra_consts. rewrite !zlen_app.
    pose proof (zlen_nonneg bs). rewrite !(proj2 (Z.ltb_ge _ _)) by lia. done.
Qed.
End ExtraLemmas.

(** ** Finalizing *)

Section Finalized.
Context `{F : ForkConditionApi, HashApi, R : AttestationRlp, B : BlsApi, E : EcdsaApi, RA : RlpApi, S : SecretKeyApi}.
Context `{RL : !AttestationRlpLaws R, BL : !BlsLaws B, SL : !SecretKeyLaws S E}.
Implicit Types (self : Parlia) (view : ChainView) (snap : Snapshot) (h parent : Header) (key : Z).

Lemma find_target_no_panic view jn times h : find_target view jn times h ≠ Panics.
Proof.
  revert h. induction times as [|times IH]; intros h; cbn [find_target]; [done|].
  destruct (snapshot_by_hash _ _); cbn [ok_or mbind exec_bind]; [|done]. case_if; [done|].
  destruct (provider_header_by_hash _ _); cbn [ok_or mbind exec_bind]; [|done]. case_if; [done|apply IH].
Qed.

Lemma decode_signatures_no_panic (es : list (Z * Z * Z)) : mapM decode_signature es ≠ Panics.
Proof.
  induction es as [|e es IH]; [done|]. cbn [mapM].
  assert (decode_signature e ≠ Panics) by (unfold decode_signature; by destruct (signature_from_bytes e.2)).
  destruct (decode_signature e); [|done|done]. cbn [mbind exec_bind]. by destruct (mapM decode_signature es).
Qed.

Lemma assemble_no_panic self view snap parent h : assemble_vote_attestation self view snap parent h ≠ Panics.
Proof.
  unfold assemble_vote_attestation. case_if; [done|].
  assert (Hj : (if target_hash (vote_data snap) =? 0
                then match provider_header_by_number view 0 with
                     | Some genesis => Done (number genesis, hash_slow genesis)
                     | None => Fail (HeaderNotFound 0) end
                else Done (target_number (vote_data snap), target_hash (vote_data snap))) ≠ Panics)
    by (case_if; [by destruct (provider_header_by_number _ _)|done]).
  destruct (if target_hash _ =? 0 then _ else _) as [[jn jh]|e|]; cbn [mbind exec_bind]; [|done|done].
  pose proof (find_target_no_panic view jn (if is_fermi_active_at_timestamp (parlia_spec self) (number h) (timestamp h)
    then Z.to_nat K_ANCESTOR_GENERATION_DEPTH else 1%nat) parent) as Hf.
  destruct (find_target _ _ _ _) as [[[votes t] found]|e|]; cbn [mbind exec_bind]; [|done|done].
  destruct found as [s|]; [|done].
  assert (Hc : ∀ d vs, check_votes d vs ≠ Panics) by (intros d vs; induction vs; cbn; [done|by case_if]).
  destruct (check_votes _ _) eqn:Ec; cbn [mbind exec_bind]; [|done|by apply Hc in Ec]. case_if; [done|].
  pose proof (decode_signatures_no_panic (ordered_votes s (unique_votes s votes))) as Hd.
  destruct (mapM decode_signature _) as [sigs|e|]; cbn [mbind exec_bind]; [|done|done].
  destruct (aggregate sigs); cbn [ok_or mbind exec_bind]; [by case_if|done].
Qed.

(** With votes for an attestation or without, the other nodes accept the outcome. *)
Lemma attestation_step_ok self view snap parent h :
  view_ok view → older_parent view parent → justified_known view snap → ready_for_attestation self (epoch_num snap) h →
  is_luban_active_at_block (parlia_spec self) (number h) = true →
  ∃ att, try_attestation self view snap parent h = Done (append_extra (attestation_bytes att) h) ∧
    ∀ seal, zlen seal = 65 →
      verify_vote_attestation self view snap (append_extra seal (append_extra (attestation_bytes att) h)) parent = Done tt.
Proof.
  intros Hv Ho Hj Hr Hl.
  assert (Hnone : append_extra (attestation_bytes None) h = h) by (unfold append_extra; cbn; rewrite app_nil_r; by destruct h).
  assert (Hplain : ∀ seal, zlen seal = 65 →
            verify_vote_attestation self view snap (append_extra seal (append_extra (attestation_bytes None) h)) parent = Done tt).
  { intros seal Hs. unfold verify_vote_attestation. case_if; [done|]. by rewrite sealed_attestation. }
  unfold try_attestation. pose proof (assemble_no_panic self view snap parent h) as Hp.
  destruct (assemble_vote_attestation self view snap parent h) as [h'|e|] eqn:Ea; [| |done].
  - destruct (decide (h' = h)) as [->|Hne]; [exists None; by rewrite Hnone at 1|].
    pose proof Ea as Ea'.
    apply assemble_Done in Ea' as [->|(jn & jh & votes & t & s & sigs & agg & Hrest)]; [done|].
    cbv zeta in Hrest. destruct Hrest as (_ & _ & _ & _ & _ & _ & _ & _ & ->).
    match goal with |- context [encode_attestation ?a] => exists (Some a) end.
    split; [done|]. intros seal Hs. by eapply assembled_verifies.
  - exists None. by rewrite Hnone at 1.
Qed.

(** Whoever signs with [key] may propose on [parent], whose snapshot is [snap], as
    far as this node knows. *)
Record may_seal view snap parent key : Prop := {
  ms_key : secret_key_valid key = true;
  ms_wf : snap_wf snap;
  ms_number : block_number snap < u64_max;
  ms_member : key_address key ∈ validators snap;
  ms_recent : sign_recently snap (key_address key) = false;
  ms_view : view_ok view;
  ms_parent : older_parent view parent;
  ms_justified : justified_known view snap;
}.

(** The fields [finalize_new_header] sets besides the extra data. *)
Definition consensus_fields self (d ms : Z) h : Header :=
  let h := set_difficulty d h in
  if is_lorentz_active_at_timestamp (parlia_spec self) (number h) (timestamp h)
  then set_millisecond_part_of_timestamp ms h else set_mix_hash 0 h.

Lemma consensus_fields_same self d ms h :
  let h' := consensus_fields self d ms h in
  number h' = number h ∧ timestamp h' = timestamp h ∧ beneficiary h' = beneficiary h ∧ difficulty h' = d
  ∧ extra_data h' = extra_data h.
Proof. unfold consensus_fields. by destruct (is_lorentz_active_at_timestamp _ _ _). Qed.

(** A header that was finalized: vanity, validators and turn length, then an
    attestation or none, then the seal. *)
Definition sealed_shape self snap h : Prop :=
  ∃ hr att seal, h = append_extra seal (append_extra (attestation_bytes att) hr)
    ∧ ready_for_attestation self (epoch_num snap) hr ∧ zlen seal = 65.

Lemma finalize_accepted self view snap (parent : SealedHeader) key cache ms evs h0 :
  may_seal view snap (sealed parent) key → zlen (extra_data h0) <= 32 → beneficiary h0 = key_address key →
  is_luban_active_at_block (parlia_spec self) (number h0) = true → epoch_supplied snap evs h0 →
  ∃ cache' d e h, finalize_new_header (Some {| secret_bytes := key |}) self view snap parent cache ms evs h0 = (cache', Done h)
    ∧ h = set_extra_data e (consensus_fields self d ms h0)
    ∧ verify_vote_attestation self view snap h (sealed parent) = Done tt
    ∧ verify_seal self snap h = Done tt
    ∧ sealed_shape self snap h
    ∧ (is_multiple_of (number h0) (get_epoch_length self h0) = is_multiple_of (number h0) (epoch_num snap) →
       check_header_extra self h = Done tt).
Proof.
  intros [Hk Hwf Hmax Hm Hrec Hv Ho Hj] Hx Hb Hl Hevs.
  assert (∃ d, calculate_difficulty snap (key_address key) = Done d) as [d Hd].
  { unfold calculate_difficulty, is_inturn. destruct (inturn_validator_eq snap Hwf Hmax) as (u & -> & _).
    cbn [mbind exec_bind]. eauto. }
  unfold finalize_new_header. rewrite Hb, Hd. cbn [or_panic mbind exec_bind].
  fold (consensus_fields self d ms h0). set (hc := consensus_fields self d ms h0).
  destruct (consensus_fields_same self d ms h0) as (Hn & Ht & Hbe & Hdi & Hex). fold hc in Hn, Ht, Hbe, Hdi, Hex.
  destruct (pad_vanity_eq hc) as (e & -> & He); [by rewrite Hex|].
  set (hp := set_extra_data e hc).
  destruct (prepared_ready self snap cache evs (sealed_hash parent) hp) as (h1 & bs & -> & Htl & Hready);
    [done|by change (number hp) with (number hc); rewrite Hn|
     intros Hm'; apply Hevs; by change (number hp) with (number hc) in Hm'; rewrite <- Hn|].
  destruct (prepare_turn_length self snap cache h1) as [cache' h2]. cbn [snd] in Htl. subst h2.
  set (hr := append_extra bs hp) in *.
  assert (Hlr : is_luban_active_at_block (parlia_spec self) (number hr) = true)
    by (change (number hr) with (number hc); by rewrite Hn).
  destruct (attestation_step_ok self view snap (sealed parent) hr Hv Ho Hj Hready Hlr) as (att & -> & Hatt).
  cbn [mbind exec_bind]. set (ha := append_extra (attestation_bytes att) hr) in *.
  destruct (append_seal_ok key self ha Hk) as (seal & -> & Hseal & Hp).
  { unfold ha, hr, hp, append_extra. cbn [extra_data set_extra_data]. rewrite !zlen_app, He.
    pose proof (zlen_nonneg bs). pose proof (zlen_nonneg (attestation_bytes att)). lia. }
  eexists cache', d, _, (append_extra seal ha). split_and!; [reflexivity|reflexivity|by apply Hatt| |by exists hr, att, seal|].
  - apply verify_seal_spec; [done|done|]. change (beneficiary (append_extra seal ha)) with (beneficiary hc).
    change (difficulty (append_extra seal ha)) with (difficulty hc). by rewrite Hbe, Hb, Hdi, Hp, Hd.
  - intros Hep. apply (sealed_extra_checks self snap (attestation_bytes att) seal hr); try done.
    change (number hr) with (number hc). change (get_epoch_length self hr) with (get_epoch_length self hc).
    unfold get_epoch_length in *. by rewrite Ht, Hn.
Qed.

(** ** Refreshing *)

Lemma attestation_start_ok self snap hr bs :
  ready_for_attestation self (epoch_num snap) hr →
  attestation_start self snap (append_extra bs hr) = Done (zlen (extra_data hr)).
Proof.
  unfold ready_for_attestation, attestation_start. cbn [number timestamp append_extra set_extra_data extra_data].
  extra_consts. case_if; [|by intros ->]. intros (vanity & count & recs & tl & Hex & Hv & Hc & Hr & Htl).
  rewrite Hex. rewrite <- app_assoc. cbn [app]. rewrite index_app_mid by done. cbn [mbind exec_bind].
  rewrite !zlen_app, zlen_cons, zlen_app. f_equal. case_if; lia.
Qed.

(** The checks of the time do not look at the extra data. *)
Lemma block_time_extra fuel self snap h parent e :
  block_time_verify_for_ramanujan_fork fuel self snap h parent = Done tt →
  block_time_verify_for_ramanujan_fork fuel self snap (set_extra_data e h) parent = Done tt.
Proof.
  unfold block_time_verify_for_ramanujan_fork. cbn [number set_extra_data].
  change (back_off_time fuel self snap parent (set_extra_data e h)) with (back_off_time fuel self snap parent h).
  change (calculate_millisecond_timestamp (set_extra_data e h)) with (calculate_millisecond_timestamp h).
  case_if; [|done]. destruct (back_off_time _ _ _ _ _); cbn [map_err mbind exec_bind]; [|done|done]. by case_if.
Qed.

(** The node's view with other votes. *)
Definition with_votes (votes : Z → Z → list VoteEnvelope) view : ChainView := {|
  cached_header_by_hash := cached_header_by_hash view;
  provider_header_by_hash := provider_header_by_hash view;
  cached_header_by_number := cached_header_by_number view;
  provider_header_by_number := provider_header_by_number view;
  snapshot_by_hash := snapshot_by_hash view;
  fetch_vote_by_block_hash_and_source_number := votes;
|}.

Lemma verify_other_votes votes self view snap h parent :
  verify_vote_attestation self (with_votes votes view) snap h parent = verify_vote_attestation self view snap h parent.
Proof.
  unfold verify_vote_attestation.
  assert (Hm : ∀ b x depth anc, match_ancestor (with_votes votes view) b x depth anc = match_ancestor view b x depth anc)
    by (intros b x depth; induction depth as [|depth IH]; intros anc; cbn [match_ancestor]; [done|]; case_if; [done|];
        change (get_header_by_hash_from_cache (with_votes votes view)) with (get_header_by_hash_from_cache view);
        destruct (get_header_by_hash_from_cache view _); cbn [ok_or mbind exec_bind]; [apply IH|done]).
  case_if; [done|]. destruct (get_vote_attestation_from_header _ _ _) as [[att|]|e|]; cbn [map_err mbind exec_bind]; [|done..].
  case_if; [done|]. by rewrite Hm.
Qed.

Lemma append_extra_app bs bs' h : append_extra bs' (append_extra bs h) = append_extra (bs ++ bs') h.
Proof. unfold append_extra. cbn [extra_data set_extra_data]. by rewrite app_assoc. Qed.

Lemma ready_long self epoch_length h : ready_for_attestation self epoch_length h → 32 <= zlen (extra_data h).
Proof.
  unfold ready_for_attestation. case_if; [|lia]. intros (vanity & count & recs & tl & -> & Hv & _).
  rewrite !zlen_app. pose proof (zlen_nonneg [count]). pose proof (zlen_nonneg recs). pose proof (zlen_nonneg tl). lia.
Qed.

Lemma validator_bytes_same self snap hr bs seal bs' seal' :
  ready_for_attestation self (epoch_num snap) hr → zlen seal = 65 → zlen seal' = 65 →
  is_luban_active_at_block (parlia_spec self) (number hr) = true →
  get_validator_bytes_from_header self (append_extra seal (append_extra bs hr)) (epoch_num snap) =
  get_validator_bytes_from_header self (append_extra seal' (append_extra bs' hr)) (epoch_num snap).
Proof.
  intros Hr Hs Hs' Hl. unfold ready_for_attestation in Hr.
  destruct (is_multiple_of (number hr) (epoch_num snap)) eqn:He.
  - destruct Hr as (vanity & count & recs & tl & Hex & Hv & Hc & Hrl & Htl).
    erewrite (read_validator_bytes self _ vanity recs tl bs seal count); try done.
    2: { unfold append_extra. simpl. by rewrite Hex, <- !app_assoc. }
    symmetry. erewrite (read_validator_bytes self _ vanity recs tl bs' seal' count); try done.
    unfold append_extra. simpl. by rewrite Hex, <- !app_assoc.
  - unfold get_validator_bytes_from_header. cbn [number append_extra set_extra_data]. rewrite Hl, He. cbn [negb].
    by repeat case_if.
Qed.

(** Refreshing the attestation never breaks a header.  Whatever votes have
    arrived or gone since the header was sealed, refreshing returns, changes
    nothing but the extra data, keeps vanity, validators and turn length, and if
    the header was accepted before, it is accepted after. *)
Theorem refreshed_header_accepted fuel self view votes snap parent key h :
  may_seal (with_votes votes view) snap parent key → sealed_shape self snap h →
  is_luban_active_at_block (parlia_spec self) (number h) = true →
  verify_cascading_fields fuel self view h parent snap = Done tt →
  beneficiary h = key_address key →
  ∃ h', refresh_vote_attestation_and_seal (Some {| secret_bytes := key |}) self (with_votes votes view) snap parent h = Done h'
    ∧ (∃ e, h' = set_extra_data e h) ∧ sealed_shape self snap h'
    ∧ get_validator_bytes_from_header self h' (epoch_num snap) = get_validator_bytes_from_header self h (epoch_num snap)
    ∧ verify_cascading_fields fuel self view h' parent snap = Done tt.
Proof.
  intros Hms (hr & att & seal & -> & Hready & Hseal) Hl Hver Hb.
  pose proof Hms as [Hk Hwf Hmax Hm Hrec Hv Ho Hj]. set (h := append_extra seal _) in *.
  change (number h) with (number hr) in Hl. change (beneficiary h) with (beneficiary hr) in Hb.
  pose proof (ready_long _ _ _ Hready) as Hlong.
  assert (Hkeep : ∃ h', Done (E := SignerError) h = Done h' ∧ (∃ e, h' = set_extra_data e h) ∧ sealed_shape self snap h'
    ∧ get_validator_bytes_from_header self h' (epoch_num snap) = get_validator_bytes_from_header self h (epoch_num snap)
    ∧ verify_cascading_fields fuel self view h' parent snap = Done tt).
  { exists h. split_and!; try done; [by exists (extra_data h)|by exists hr, att, seal]. }
  unfold refresh_vote_attestation_and_seal. change (number h) with (number hr). rewrite Hl. cbn [negb].
  assert (Hlen : zlen (extra_data h) = zlen (extra_data hr) + zlen (attestation_bytes att) + 65).
  { unfold h, append_extra. cbn [extra_data set_extra_data]. rewrite !zlen_app. lia. }
  pose proof (zlen_nonneg (attestation_bytes att)).
  rewrite (proj2 (Z.ltb_ge _ _)) by (unfold EXTRA_VANITY_LEN, EXTRA_SEAL_LEN; lia).
  assert (attestation_start self snap h = Done (zlen (extra_data hr))) as ->
    by (unfold h; rewrite append_extra_app; by apply attestation_start_ok).
  cbn [mbind exec_bind]. rewrite (proj2 (Z.ltb_ge _ _)) by lia.
  assert (set_extra_data (take (Z.to_nat (zlen (extra_data hr))) (extra_data h)) h = hr) as ->.
  { unfold h. rewrite append_extra_app. unfold append_extra. cbn [extra_data set_extra_data]. unfold zlen.
    rewrite Nat2Z.id, take_app_length. by destruct hr. }
  destruct (attestation_step_ok self _ snap parent hr Hv Ho Hj Hready Hl) as (att' & Htry & Hatt).
  unfold try_attestation in Htry. destruct (assemble_vote_attestation _ _ _ _ _) as [hr'|e|]; [|done|done].
  injection Htry as ->. set (ha := append_extra (attestation_bytes att') hr) in *.
  assert (Hla : 32 <= zlen (extra_data ha)).
  { unfold ha, append_extra. cbn [extra_data set_extra_data]. rewrite zlen_app.
    pose proof (zlen_nonneg (attestation_bytes att')). lia. }
  destruct (append_seal_ok key self ha Hk Hla) as (seal' & -> & Hseal' & Hp).
  exists (append_extra seal' ha). unfold verify_cascading_fields in *.
  apply seq_Done in Hver as [Ht Hver]. apply seq_Done in Hver as [_ Hs]. apply map_err_Done in Ht.
  split_and!; [done|by eexists|by exists hr, att', seal'|by apply validator_bytes_same|].
  pose proof (block_time_extra fuel self snap h parent (extra_data ha ++ seal') Ht) as Ht'.
  change (set_extra_data (extra_data ha ++ seal') h) with (append_extra seal' ha) in Ht'. rewrite Ht'. cbn [map_err mbind exec_bind].
  rewrite <- (verify_other_votes votes), Hatt by done. cbn [mbind exec_bind].
  apply verify_seal_spec in Hs as (_ & _ & _ & Hd); [|done|done].
  apply verify_seal_spec; [done|done|]. change (beneficiary (append_extra seal' ha)) with (beneficiary hr).
  change (difficulty (append_extra seal' ha)) with (difficulty h). change (beneficiary h) with (beneficiary hr) in Hd.
  rewrite Hp. split_and!; [by rewrite Hb|by rewrite Hb|by rewrite Hb|done].
Qed.
End Finalized.

(** ** The whole path *)

(** What [alloy] promises of blob parameters: there are some from Cancun on, and
    the excess is counted in whole blobs. *)
Class BlobLaws `{F : ForkConditionApi} `{AC : AlloyConstants} (BP : BlobApi) := {
  params_from_cancun spec n t :
    is_cancun_active_at_timestamp spec n t = true → is_Some (blob_params_at_timestamp spec t);
  excess_whole parent p e :
    default 0 (excess_blob_gas parent) mod DATA_GAS_PER_BLOB = 0 →
    default 0 (blob_gas_used parent) mod DATA_GAS_PER_BLOB = 0 →
    maybe_next_block_excess_blob_gas parent p = Some e → e mod DATA_GAS_PER_BLOB = 0;
  nothing_whole : cancun_excess_of_nothing mod DATA_GAS_PER_BLOB = 0;
}.

Section Mined.
Context `{F : ForkConditionApi} `{AC : AlloyConstants} `{BP : !BlobApi} `{AH : AlloyHeader}.
Context `{HashApi, R : AttestationRlp, B : BlsApi, E : EcdsaApi, RA : RlpApi, S : SecretKeyApi}.
Context `{RL : !AttestationRlpLaws R, BL : !BlsLaws B, SL : !SecretKeyLaws S E, PL : !BlobLaws BP}.
Implicit Types (self : Parlia) (view : ChainView) (snap : Snapshot) (parent : SealedHeader) (key : Z).

(** The clocks and intervals are such that no time overflows, and the height
    [n] and the time [t] of the block see forks in their order. *)
Record slot_ok self snap parent (now ms n t t0 : Z) : Prop := {
  so_size : zlen (validators snap) < 2 ^ 31;
  so_interval : is_u64 (block_interval snap);
  so_now : 0 <= now < 2 ^ 63;
  so_parent : 0 <= calculate_millisecond_timestamp (sealed parent);
  so_sum : calculate_millisecond_timestamp (sealed parent) + block_interval snap + 2000
           + 1000 * zlen (validators snap) < 2 ^ 63;
  so_bohr : is_bohr_active_at_timestamp (parlia_spec self) n t0 = is_bohr_active_at_timestamp (parlia_spec self) n t;
  so_seconds : is_lorentz_active_at_timestamp (parlia_spec self) n t = false →
    calculate_millisecond_timestamp (sealed parent) mod 1000 = 0 ∧ block_interval snap mod 1000 = 0;
  so_luban : is_luban_active_at_block (parlia_spec self) n = true;
  so_beacon : is_bohr_active_at_timestamp (parlia_spec self) n t = true →
    is_cancun_active_at_timestamp (parlia_spec self) n t = true;
  so_requests : is_prague_active_at_block_and_timestamp (parlia_spec self) n t = true →
    is_cancun_active_at_timestamp (parlia_spec self) n t = true;
  so_epoch h : number h = n → timestamp h = t →
    is_multiple_of n (get_epoch_length self h) = is_multiple_of n (epoch_num snap);
}.

Definition blob_total (out : Executed) : Z :=
  fold_left (λ acc tx, add64 acc (default 0 (tx_blob_gas_used tx))) (ex_transactions out) 0.

(** What was executed fits the block. *)
Record body_ok self parent (n t gas_limit' : Z) (out : Executed) : Prop := {
  bo_gas : ex_gas_used out <= gas_limit';
  bo_eligible : is_blob_eligible_block (parlia_spec self) n t = false → blob_total out = 0;
  bo_max : blob_total out <= MAX_DATA_GAS_PER_BLOCK_DENCUN;
  bo_whole : blob_total out mod DATA_GAS_PER_BLOB = 0;
  bo_parent_excess : default 0 (excess_blob_gas (sealed parent)) mod DATA_GAS_PER_BLOB = 0;
  bo_parent_used : default 0 (blob_gas_used (sealed parent)) mod DATA_GAS_PER_BLOB = 0;
}.

Lemma next_excess_ok self parent n t :
  is_cancun_active_at_timestamp (parlia_spec self) n t = true →
  default 0 (excess_blob_gas (sealed parent)) mod DATA_GAS_PER_BLOB = 0 →
  default 0 (blob_gas_used (sealed parent)) mod DATA_GAS_PER_BLOB = 0 →
  ∃ e, next_block_excess_blob_gas_with_mendel (parlia_spec self) n t (sealed parent)
         (blob_params_at_timestamp (parlia_spec self) t) = Some e ∧ e mod DATA_GAS_PER_BLOB = 0.
Proof.
  intros Hc Hx Hu. destruct (params_from_cancun (parlia_spec self) n t Hc) as [p Hp].
  unfold next_block_excess_blob_gas_with_mendel. rewrite Hp. cbn [mbind option_bind]. case_if; [eauto|].
  destruct (maybe_next_block_excess_blob_gas (sealed parent) p) as [e|] eqn:Em; [|eauto using nothing_whole].
  exists e. split; [done|]. by eapply excess_whole.
Qed.

Lemma assembled_fields_ok self parent env out default_extra extra (h : Header) bid e d ms :
  let n := saturating_to_u64 (env_number env) in let t := saturating_to_u64 (env_timestamp env) in
  let h0 := assemble_block_body_only (parlia_spec self) default_extra env (sealed_hash parent) extra parent out in
  h = set_extra_data e (consensus_fields self d ms (tag_payload self bid h0)) →
  t = ms / 1000 → is_u64 ms → basefee env = 0 →
  (is_bohr_active_at_timestamp (parlia_spec self) n t = true → is_cancun_active_at_timestamp (parlia_spec self) n t = true) →
  (is_prague_active_at_block_and_timestamp (parlia_spec self) n t = true →
     is_cancun_active_at_timestamp (parlia_spec self) n t = true) →
  body_ok self parent n t (env_gas_limit env) out →
  fields_ok self h.
Proof.
  intros n t h0 -> Ht Hu Hbf Hb Hp [Hgas Hel Hmax Hw Hxe Hxu].
  set (ht := tag_payload self bid h0).
  assert (Hh : number ht = n ∧ timestamp ht = t) by (unfold ht, tag_payload, set_block_mev_info; destruct bid; [case_if|]; done).
  destruct Hh as [Hn Htt].
  assert (Hrq : is_Some (requests_hash ht) ↔ is_prague_active_at_block_and_timestamp (parlia_spec self) n t = true).
  { unfold ht, tag_payload, set_block_mev_info. cbn [number timestamp assemble_block_body_only h0]. fold n t.
    destruct bid; [|cbn [requests_hash assemble_block_body_only h0]]; fold n t;
      destruct (is_prague_active_at_block_and_timestamp _ n t) eqn:Epr; cbn [requests_hash set_requests_hash h0 assemble_block_body_only];
      fold n t; rewrite ?Epr, ?andb_false_r, ?(Hp eq_refl); rewrite is_Some_alt; done. }
  assert (Hsame : ∀ {A} (f : Header → A), (∀ r h, f (set_requests_hash r h) = f h) → f ht = f h0)
    by (intros A f Hf; unfold ht, tag_payload, set_block_mev_info; destruct bid; [case_if|]; rewrite ?Hf; done).
  set (hc := consensus_fields self d ms ht).
  assert (Hc : ∀ {A} (f : Header → A), (∀ x h, f (set_difficulty x h) = f h) → (∀ x h, f (set_mix_hash x h) = f h) → f hc = f ht).
  { intros A f Hf1 Hf2. unfold hc, consensus_fields, set_millisecond_part_of_timestamp. case_if; by rewrite Hf2, Hf1. }
  assert (Hall : ∀ {A} (f : Header → A), (∀ x h, f (set_extra_data x h) = f h) → (∀ x h, f (set_difficulty x h) = f h) →
            (∀ x h, f (set_mix_hash x h) = f h) → (∀ x h, f (set_requests_hash x h) = f h) → f (set_extra_data e hc) = f h0).
  { intros A f H1 H2 H3 H4. by rewrite H1, Hc, Hsame. }
  assert (En : number (set_extra_data e hc) = n) by by rewrite Hall.
  assert (Et : timestamp (set_extra_data e hc) = t) by by rewrite Hall.
  split; rewrite ?En, ?Et.
  - unfold hc, consensus_fields. cbn [number timestamp set_difficulty]. rewrite Hn, Htt.
    destruct (is_lorentz_active_at_timestamp _ n t); [|done].
    replace (calculate_millisecond_timestamp _) with ms; [by rewrite Ht|].
    rewrite <- (set_ms_roundtrip ms ht) at 1 by done. unfold calculate_millisecond_timestamp, millisecond_remainder.
    cbn [timestamp set_extra_data set_millisecond_part_of_timestamp set_mix_hash mix_hash set_timestamp set_difficulty].
    by rewrite Htt, Ht.
  - by rewrite Hall.
  - rewrite Hall by done. cbn [parent_beacon_block_root h0 assemble_block_body_only]. fold n t.
    destruct (is_bohr_active_at_timestamp _ n t); [by rewrite Hb|by rewrite andb_false_r].
  - change (requests_hash (set_extra_data e hc)) with (requests_hash hc). by rewrite Hc.
  - by rewrite Hall.
  - by rewrite Hall.
  - rewrite Hall by done. cbn [base_fee_per_gas h0 assemble_block_body_only]. by rewrite Hbf.
  - by rewrite Hall.
  - rewrite !Hall by done. cbn [blob_gas_used excess_blob_gas h0 assemble_block_body_only]. fold n t.
    destruct (is_cancun_active_at_timestamp _ n t) eqn:Ec; [|done].
    destruct (next_excess_ok self parent n t Ec Hxe Hxu) as (x & -> & Hx).
    by exists (blob_total out), x.
  - by rewrite !Hall.
Qed.

Lemma prepared_header_same now self parent signer :
  number (prepare_new_header now self parent signer) = add64 (number (sealed parent)) 1
  ∧ beneficiary (prepare_new_header now self parent signer) = signer.
Proof. unfold prepare_new_header. by case_if. Qed.

Lemma prepared_attributes fuel now1 now2 now3 rr ctx self parent signer attrs ctx' :
  prepare_new_attributes fuel now1 now2 now3 rr ctx self parent signer = Done (attrs, ctx') →
  block_time_for_ramanujan_fork fuel now2 self (parent_snapshot ctx) (sealed parent)
    (prepare_new_header now1 self parent signer) = Done (block_timestamp_ms ctx')
  ∧ attr_timestamp attrs = block_timestamp_ms ctx' / 1000 ∧ suggested_fee_recipient attrs = signer
  ∧ calculate_difficulty (parent_snapshot ctx) signer = Done (prev_randao attrs).
Proof.
  unfold prepare_new_attributes, prepare_timestamp. intros Hp. apply bind_Done in Hp as ([ms h] & Hts & Hp).
  apply bind_Done in Hts as (ms' & Hb & [= -> <-]). apply bind_Done in Hp as (d & Hd & [= <- <-]).
  cbn [attr_timestamp suggested_fee_recipient block_timestamp_ms prev_randao].
  destruct (prepared_header_same now1 self parent signer) as [_ Hben].
  destruct (is_lorentz_active_at_timestamp _ _ _); cbn; rewrite ?Hben; done.
Qed.

Lemma finalize_assembled fuel now1 now2 now3 rr ctx self view parent key cache evs bid gas_limit' default_extra extra
    out attrs ctx' :
  let snap := parent_snapshot ctx in
  let n := add64 (number (sealed parent)) 1 in
  let env := inner (block_env (next_evm_env (parlia_spec self) (sealed parent)
               (build_attributes attrs gas_limit' (block_timestamp_ms ctx')))) in
  let h0 := assemble_block_body_only (parlia_spec self) default_extra env (sealed_hash parent) extra parent out in
  DATA_GAS_PER_BLOB ≠ 0 → may_seal view snap (sealed parent) key →
  prepare_new_attributes fuel now1 now2 now3 rr ctx self parent (key_address key) = Done (attrs, ctx') →
  slot_ok self snap parent now2 (block_timestamp_ms ctx') n (attr_timestamp attrs)
    (timestamp (prepare_new_header now1 self parent (key_address key))) →
  body_ok self parent n (attr_timestamp attrs) gas_limit' out →
  zlen default_extra <= 32 → zlen extra <= 32 → epoch_supplied snap evs h0 →
  ∃ cache' h, finalize_new_header (Some {| secret_bytes := key |}) self view snap parent cache (block_timestamp_ms ctx') evs
      (tag_payload self bid h0)
      = (cache', Done h)
    ∧ (∀ clock, timestamp h <= clock → validate_header clock self h = Done tt)
    ∧ verify_cascading_fields fuel self view h (sealed parent) snap = Done tt
    ∧ sealed_shape self snap h.
Proof.
  intros snap n env h0 Hd Hms Hprep Hslot Hbody Hdx Hx Hevs.
  apply prepared_attributes in Hprep as (Hbt & Hts & Hfee & _). fold snap in Hbt.
  destruct (prepared_header_same now1 self parent (key_address key)) as [Hpn Hpb].
  destruct (block_time_bounds _ _ _ _ _ _ _ (so_size _ _ _ _ _ _ _ _ Hslot) (so_interval _ _ _ _ _ _ _ _ Hslot)
    (so_now _ _ _ _ _ _ _ _ Hslot) (so_parent _ _ _ _ _ _ _ _ Hslot) (so_sum _ _ _ _ _ _ _ _ Hslot) Hbt) as (Hu64 & _).
  assert (Hsn : saturating_to_u64 n = n) by (apply saturating_u64, wrap64_range).
  assert (Hst : saturating_to_u64 (attr_timestamp attrs) = attr_timestamp attrs).
  { apply saturating_u64. rewrite Hts. unfold is_u64 in *. split; [apply Z.div_pos; lia|].
    apply Z.div_lt_upper_bound; lia. }
  set (ht := tag_payload self bid h0).
  assert (Hht : number ht = n ∧ timestamp ht = attr_timestamp attrs ∧ beneficiary ht = key_address key
                ∧ zlen (extra_data ht) <= 32).
  { unfold ht, tag_payload, set_block_mev_info.
    assert (number h0 = n ∧ timestamp h0 = attr_timestamp attrs ∧ beneficiary h0 = key_address key ∧ zlen (extra_data h0) <= 32).
    { split_and!; [exact Hsn|exact Hst|exact Hfee|]. cbn. by case_bool_decide. }
    by destruct bid; [case_if|]. }
  destruct Hht as (Hn & Ht & Hb & Hlen).
  destruct (finalize_accepted self view snap parent key cache (block_timestamp_ms ctx') evs ht)
    as (cache' & d & e & h & Hfin & Hh & Hatt & Hseal & Hshape & Hextra); [done|done|done|by rewrite Hn; apply Hslot| |].
  { intros Hm. apply Hevs. rewrite Hn in Hm. change (number h0) with (saturating_to_u64 n). by rewrite Hsn. }
  destruct (consensus_fields_same self d (block_timestamp_ms ctx') ht) as (En & Et & Eb & _ & _).
  assert (Fn : number h = n ∧ timestamp h = attr_timestamp attrs ∧ beneficiary h = key_address key)
    by (rewrite Hh; cbn [number timestamp beneficiary set_extra_data]; by rewrite En, Et, Eb, Hn, Ht, Hb).
  destruct Fn as (Fn & Ft & Fb).
  destruct (planned_time_ok fuel now2 self snap (sealed parent) (prepare_new_header now1 self parent (key_address key))
              (block_timestamp_ms ctx') h) as (Htime & _); try (apply Hslot); try done.
  { rewrite Hpn, <- Hts. apply Hslot. }
  { rewrite Hpn, <- Hts. apply Hslot. }
  { by rewrite Fn, Hpn. }
  { by rewrite Fb, Hpb. }
  { by rewrite Ft. }
  { rewrite Hh, Hpn, <- Hts. cbn [mix_hash set_extra_data]. unfold consensus_fields.
    cbn [number timestamp set_difficulty]. rewrite Hn, Ht. fold n. by destruct (is_lorentz_active_at_timestamp _ n _). }
  exists cache', h. split_and!; [exact Hfin| | |done].
  - intros clock Hclock. unfold validate_header, validate_header_not_from_future.
    rewrite (proj2 (Z.ltb_ge _ _) Hclock). cbn [mbind exec_bind]. rewrite Hextra by (rewrite Hn; by apply Hslot).
    cbn [map_err mbind exec_bind]. apply unsealed_fields_iff; [done|].
    eapply (assembled_fields_ok self parent env out default_extra extra h bid e d (block_timestamp_ms ctx'));
      cbn [env env_number env_timestamp env_gas_limit inner block_env next_evm_env bsc_block_env_new next_timestamp build_attributes];
      fold n; rewrite ?Hsn, ?Hst; [exact Hh|done|done|done|apply Hslot|apply Hslot|done].
  - unfold verify_cascading_fields. rewrite Htime. cbn [map_err mbind exec_bind]. by rewrite Hatt.
Qed.

End Mined.
