(* ===== verification/SealingDemo.v ===== *)
(** * SealingDemo: validator 30 mines a block

    The theorems of [SealingProps] applied to the network of [AttestationDemo]:
    a block is planned, assembled, tagged with a builder, finalized with an
    attestation, and refreshed. *)

From stdpp Require Import base tactics numbers option list sorting gmap strings.
From Stdlib Require Import ZArith Lia Bool.
From S2P Require Import Prelude.
From S2P Require Import Collections.
From S2P Require Import PaymentLane.
From S2P Require Import Hardforks.
From S2P Require Import Header.
From S2P Require Import Snapshot.
From S2P Require Import SnapshotProps.
From S2P Require Import SnapshotClaims.
From S2P Require Import Extra.
From S2P Require Import ExtraProps.
From S2P Require Import Backoff.
From S2P Require Import BackoffProps.
From S2P Require Import Validation.
From S2P Require Import Seal.
From S2P Require Import Attestation.
From S2P Require Import AttestationProps.
From S2P Require Import AttestationDemo.
From S2P Require Import EvmEnv.
From S2P Require Import Sealing.
From S2P Require Import SealingProps.

Module SealingNet.
Import ListContainers ThresholdForks DemoApis DemoChain ExtraDemo TaggedRlp SealDemo AttestationNet.

(** The key is the first byte of the signature. *)
#[export] Instance demo_secret : SecretKeyApi := {|
  secret_key_valid _ := true;
  sign_ecdsa_recoverable k _ := (k :: replicate 63 0, 0);
  key_address k := k;
|}.
#[export] Instance demo_secret_laws : SecretKeyLaws demo_secret demo_ecdsa.
Proof. by split. Qed.

#[export] Instance demo_blobs : BlobApi := {|
  BlobParams := unit;
  blob_params_at_timestamp _ _ := Some tt;
  maybe_next_block_excess_blob_gas parent _ := excess_blob_gas parent;
  cancun_excess_of_nothing := 0;
  cancun_params := tt;
  max_blobs_per_tx_of _ := 6;
  max_blob_count_of _ := 9;
  calc_blob_fee _ e := 1 + e / 131072;
|}.
#[export] Instance demo_blob_laws : BlobLaws demo_blobs.
Proof. split; [eauto| |done]. intros parent p e Hx _ He. cbn in He. by rewrite He in Hx. Qed.

#[export] Instance demo_alloy_header : AlloyHeader := {|
  default_header := blank_header;
  EMPTY_REQUESTS_HASH := 77;
  BEACON_NONCE := 0;
|}.

Definition parent1 : SealedHeader := {| sealed := h1; sealed_hash := hash_slow h1 |}.
Definition ctx1 : MiningContext :=
  {| mc_header := None; parent_header := parent1; parent_snapshot := s1; block_timestamp_ms := 0; end_mining_timestamp_ms := 0 |}.
Definition out1 : Executed :=
  {| ex_state_root := 1; ex_transactions_root := 2; ex_receipts_root := 3; ex_logs_bloom := 0; ex_gas_used := 21000;
     ex_transactions := [{| is_eip4844 := true; tx_blob_gas_used := Some 131072 |}] |}.
Definition now1 : Z := bohr_time * 1000 + 500.

Definition planned : EthPayloadAttributes * MiningContext :=
  get_done ({| attr_timestamp := 0; suggested_fee_recipient := 0; prev_randao := 0; attr_parent_beacon_block_root := None |}, ctx1)
    (prepare_new_attributes 100 now1 now1 now1 (λ _, 0) ctx1 parlia parent1 30).

Lemma planned_ok : prepare_new_attributes 100 now1 now1 now1 (λ _, 0) ctx1 parlia parent1 30 = Done planned.
Proof. by vm_compute. Qed.

Lemma seal_30 p : older_parent view p → may_seal view s1 p 30.
Proof.
  intros Hp. split; [done|apply s1_wf|by vm_compute| |by vm_compute|apply view_consistent|done|by apply s1_justified].
  apply (bool_decide_unpack _). by vm_compute.
Qed.

Definition body1 : Header :=
  assemble_block_body_only mainnet [] (inner (block_env (next_evm_env mainnet h1 (build_attributes planned.1 30000000 (block_timestamp_ms planned.2))))) (hash_slow h1) [] parent1 out1.
Definition payload1 : BscBuiltPayload :=
  {| payload_header := body1; bid_builder := Some 99; pending_validators := Some ([30; 10; 20], [1; 2; 3]);
     pending_turn_length := None; lane_touched := false; sidecar_hashes := Some [0] |}.
Definition caches1 : Caches :=
  {| validator_cache := ∅; turn_length_cache := ∅;
     lane_cache := lru_put (lru_new 1024) (hash_slow h1) {| ratio := 50; listed := ∅ |} |}.
Definition mined1 : Header :=
  payload_header (get_done payload1
    (finalize_payload (Some {| secret_bytes := 30 |}) parlia view s1 parent1 (block_timestamp_ms planned.2) None payload1 caches1).1).


Lemma mined1_shape : sealed_shape parlia s1 mined1.
Proof.
  exists (set_extra_data (replicate 32 0) mined1), (Some demo_att), (30 :: replicate 64 0).
  split_and!; [by vm_compute|by vm_compute|done].
Qed.

(** More votes do not hurt, and neither do fewer. *)
Definition no_votes (_ _ : Z) : list VoteEnvelope := [].
Lemma seal_30_no_votes : may_seal (with_votes no_votes view) s1 h1 30.
Proof.
  destruct (seal_30 h1 view_h1) as [H1 H2 H3 H4 H5 [Hc Ho Hs _] Hp Hj].
  split; [exact H1|exact H2|exact H3|exact H4|exact H5|split; [exact Hc|exact Ho|exact Hs|constructor]|exact Hp|exact Hj].
Qed.

Lemma refreshed_header_accepted_witness :
  ∃ h', refresh_vote_attestation_and_seal (Some {| secret_bytes := 30 |}) parlia (with_votes no_votes view) s1 h1 mined1 = Done h'
    ∧ (∃ e, h' = set_extra_data e mined1) ∧ sealed_shape parlia s1 h'
    ∧ get_validator_bytes_from_header parlia h' (epoch_num s1) = get_validator_bytes_from_header parlia mined1 (epoch_num s1)
    ∧ verify_cascading_fields 100 parlia view h' h1 s1 = Done tt.
Proof.
  apply (refreshed_header_accepted 100 parlia view no_votes s1 h1 30 mined1);
    [apply seal_30_no_votes|apply mined1_shape|by vm_compute|by vm_compute|by vm_compute].
Defined.

(** When the votes have left the pool, the refresh drops the attestation the
    header had: [assemble_vote_attestation] then succeeds without one, and only
    its errors restore the original extra data. *)
Definition pool_emptied : ChainView := {|
  cached_header_by_hash _ := None;
  provider_header_by_hash x := if x =? 7000 + top then Some (demo_header top bohr_time) else None;
  cached_header_by_number _ := None;
  provider_header_by_number n := if n =? 0 then Some (demo_header 0 0) else None;
  snapshot_by_hash x := if x =? 7000 + top then Some s0 else None;
  fetch_vote_by_block_hash_and_source_number _ _ := [];
|}.

Lemma refresh_drops_attestation :
  get_vote_attestation_from_header parlia mined1 (epoch_num s1) = Done (Some demo_att) ∧
  (h' ← refresh_vote_attestation_and_seal (Some {| secret_bytes := 30 |}) parlia pool_emptied s1 h1 mined1;
   Done (get_vote_attestation_from_header parlia h' (epoch_num s1))) = Done (Done None).
Proof. split; by vm_compute. Qed.
End SealingNet.
