(* ===== verification/NodeConsensus.v ===== *)
(** * NodeConsensus: a header against its parent, a block after its execution

    The checks of [BscConsensus] in [src/node/consensus.rs].  The header checks
    and constants of [reth] and the roots of receipts are parameters. *)

From stdpp Require Import base tactics numbers option list gmap strings.
From Stdlib Require Import ZArith Lia Bool.
From S2P Require Import Prelude.
From S2P Require Import Collections.
From S2P Require Import Hardforks.
From S2P Require Import Header.
From S2P Require Import Snapshot.
From S2P Require Import Validation.
From S2P Require Import EvmEnv.
From S2P Require Import Sealing.

(** ** Parent and child *)

(** Checks and constants of [reth]. *)
Class RethConsensus `{F : ForkConditionApi} `{BP : !BlobApi} := {
  RethError : Type;
  validate_against_parent_hash_number : Header → SealedHeader → exec RethError unit;
  validate_against_parent_4844 : Header → Header → BlobParams → exec RethError unit;
  is_byzantium_active_at_block : ChainSpec → Z → bool;
  GAS_LIMIT_BOUND_DIVISOR : Z;
  MINIMUM_GAS_LIMIT : Z;
}.

(** The errors of this file; [ConsensusError] has further ones. *)
Inductive ParentError `{RC : RethConsensus} :=
| FromReth (e : RethError)
| TimestampIsInPast (parent_timestamp timestamp : Z)
| GasLimitTooLarge (have max : Z)
| GasUsedExceedsLimit (gas_used gas_limit : Z)
| InvalidGasLimit (have parent step : Z)
| NoExcessBlobGas
| ExcessBlobGasDiff (got expected parent_blob_gas_used : Z)
| BlockGasUsed (got expected : Z)
| BodyReceiptRootDiff (got expected : Z)
| BodyBloomLogDiff (got expected : Z)
| NoRequestsHash.

Definition GAS_LIMIT_CAPACITY : Z := 0x7fffffffffffffff.
Definition GAS_LIMIT_BOUND_DIVISOR_BEFORE_LORENTZ : Z := 256.

Section HeaderChecks.
Context `{F : ForkConditionApi} `{BP : !BlobApi} `{RC : !RethConsensus}.
Implicit Types (header parent : Header) (spec : ChainSpec).

Definition validate_bsc_gas_limit_against_parent header parent spec : exec ParentError unit :=
  if GAS_LIMIT_CAPACITY <? gas_limit header then Fail (GasLimitTooLarge (gas_limit header) GAS_LIMIT_CAPACITY)
  else if gas_limit header <? gas_used header then Fail (GasUsedExceedsLimit (gas_used header) (gas_limit header))
  else
    let diff := Z.abs (gas_limit parent - gas_limit header) in
    let bound_divisor :=
      if is_lorentz_active_at_timestamp spec (number header) (timestamp header)
      then GAS_LIMIT_BOUND_DIVISOR else GAS_LIMIT_BOUND_DIVISOR_BEFORE_LORENTZ in
    _ ← rassert (negb (bound_divisor =? 0));
    let limit := gas_limit parent / bound_divisor in
    if (limit <=? diff) || (gas_limit header <? MINIMUM_GAS_LIMIT)
    then Fail (InvalidGasLimit (gas_limit header) (gas_limit parent) (sat_sub64 limit 1))
    else Done tt.

(** The blob gas a header carries over from its parent. *)
Definition validate_excess_against_parent spec header parent : exec ParentError unit :=
  match blob_params_at_timestamp spec (timestamp header) with
  | None => Done tt
  | Some blob_params =>
      if is_mendel_active_at_timestamp spec (number header) (timestamp header)
         && negb (should_recalculate_excess_blob_gas spec (number header) (timestamp header))
      then
        let expected := default 0 (excess_blob_gas parent) in
        got ← ok_or (excess_blob_gas header) NoExcessBlobGas;
        if negb (got =? expected) then Fail (ExcessBlobGasDiff got expected (default 0 (blob_gas_used parent)))
        else Done tt
      else map_err FromReth (validate_against_parent_4844 header parent blob_params)
  end.

Definition validate_header_against_parent spec header (parent : SealedHeader) : exec ParentError unit :=
  _ ← map_err FromReth (validate_against_parent_hash_number header parent);
  let header_ts := calculate_millisecond_timestamp header in
  let parent_ts := calculate_millisecond_timestamp (sealed parent) in
  if header_ts <=? parent_ts then Fail (TimestampIsInPast parent_ts header_ts)
  else
    _ ← validate_bsc_gas_limit_against_parent header (sealed parent) spec;
    if is_cancun_active_at_timestamp spec (number header) (timestamp header)
    then validate_excess_against_parent spec header (sealed parent)
    else Done tt.

(** ** After execution *)

(** A receipt, and what [alloy] computes from a list of them. *)
Class Receipts := {
  Receipt : Type;
  cumulative_gas_used : Receipt → Z;
  receipt_bloom : Receipt → Z;
  calculate_receipt_root : list Receipt → Z;
}.

Definition compare_receipts_root_and_logs_bloom (calculated_root calculated_bloom expected_root expected_bloom : Z)
    : exec ParentError unit :=
  if negb (calculated_root =? expected_root) then Fail (BodyReceiptRootDiff calculated_root expected_root)
  else if negb (calculated_bloom =? expected_bloom) then Fail (BodyBloomLogDiff calculated_bloom expected_bloom)
  else Done tt.

Definition verify_receipts `{Rc : Receipts} (expected_root expected_bloom : Z) (receipts : list Receipt) : exec ParentError unit :=
  let receipts_root := calculate_receipt_root receipts in
  let logs_bloom := fold_left (λ bloom r, Z.lor bloom (receipt_bloom r)) receipts 0 in
  compare_receipts_root_and_logs_bloom receipts_root logs_bloom expected_root expected_bloom.

Definition validate_block_post_execution `{Rc : Receipts} spec header (receipts : list Receipt) : exec ParentError unit :=
  let used := match last receipts with Some r => cumulative_gas_used r | None => 0 end in
  if negb (gas_used header =? used) then Fail (BlockGasUsed used (gas_used header))
  else
    _ ← (if is_byzantium_active_at_block spec (number header)
         then verify_receipts (receipts_root header) (logs_bloom header) receipts else Done tt);
    if is_prague_active_at_block_and_timestamp spec (number header) (timestamp header)
       && bool_decide (requests_hash header = None)
    then Fail NoRequestsHash else Done tt.
End HeaderChecks.
