(* ===== verification/BidBlock.v ===== *)
(** * BidBlock: blocks proposed by builders

    [src/consensus/parlia/bid_block.rs] and [src/node/miner/bid_block.rs]: a
    builder submits a header, raw transactions and blob sidecars; the tail of the
    transactions is unsigned.  The validator recovers the builder, checks header
    and payload, signs the tail blindly, and finalizes the header as its own.

    Decoding, hashing and sender recovery of transactions, trie roots and KZG
    proofs belong to other crates and are parameters.  Error texts are left out. *)

From stdpp Require Import base tactics numbers option list gmap strings.
From Stdlib Require Import ZArith Lia Bool.
From S2P Require Import Prelude.
From S2P Require Import Hardforks.
From S2P Require Import Header.
From S2P Require Import Snapshot.
From S2P Require Import Extra.
From S2P Require Import Backoff.
From S2P Require Import Validation.
From S2P Require Import Attestation.
From S2P Require Import EvmEnv.
From S2P Require Import Sealing.
From S2P Require Import NodeConsensus.

(** ** Transactions *)

Inductive TxType : Set := Legacy | Eip2930 | Eip1559 | Eip4844 | Eip7702.
#[export] Instance TxType_eq_dec : EqDecision TxType.
Proof. solve_decision. Defined.

(** What the code reads of an [EthereumTypedTransaction]; [tx_rest] stands for
    the access lists, tips and authorizations it does not look at. *)
Record TypedTx := {
  tx_type : TxType;
  tx_chain_id : option Z;
  tx_nonce : Z;
  max_fee_per_gas : Z;
  tx_gas : Z;
  tx_to : option Z;
  tx_value : Z;
  tx_input : bytes;
  blob_versioned_hashes : list Z;
  tx_rest : Z;
}.

Record TxSignature := { sig_r : Z; sig_s : Z; sig_v : bool }.

Record TransactionSigned := { typed : TypedTx; tx_signature : TxSignature }.

Definition tx_is_eip4844 (tx : TransactionSigned) : bool := bool_decide (tx_type (typed tx) = Eip4844).

(** [BscBlobTransactionSidecar]; [sc_proofs] are the commitments and proofs. *)
Record Sidecar := {
  sc_version : Z;
  sc_tx_hash : Z;
  sc_tx_index : Z;
  sc_blobs : list Z;
  sc_proofs : Z;
}.

(** What other crates do with transactions. *)
Class TxApi := {
  decode_2718 : bytes → option TransactionSigned;
  (* list header, [TxLegacy::rlp_decode_fields] and three numbers: read to the end *)
  decode_legacy_fields : bytes → option (TypedTx * Z * Z * Z);
  tx_hash : TransactionSigned → Z;
  signature_hash : TypedTx → Z;
  recover_signer : TransactionSigned → option Z;
  ordered_trie_root : list bytes → Z;
  calculate_transaction_root : list TransactionSigned → Z;
  kzg_validate : Sidecar → list Z → bool;
}.

(** [slice::starts_with] *)
Definition starts_with (data prefix : bytes) : bool := bool_decide (take (length prefix) data = prefix).

(** ** System transactions ([consensus/parlia/bid_block.rs]) *)

Definition VALIDATOR_CONTRACT : Z := 0x1000.

Definition SYSTEM_CONTRACTS_SET : list Z :=
  [0x1000; 0x1001; 0x1002; 0x1003; 0x1004; 0x1005; 0x1006; 0x1007; 0x1008;
   0x2000; 0x2001; 0x2002; 0x2003; 0x2004; 0x2005; 0x2006; 0x3000].

Definition is_invoke_system_contract (addr : Z) : bool := bool_decide (addr ∈ SYSTEM_CONTRACTS_SET).

Definition DEPOSIT_SELECTOR : bytes := [0xf3; 0x40; 0xfa; 0x01].
Definition DISTRIBUTE_FINALITY_REWARD_SELECTOR : bytes := [0x30; 0x0c; 0x35; 0x67].
Definition UPDATE_VALIDATOR_SET_V2_SELECTOR : bytes := [0x1e; 0x4c; 0x15; 0x24].
Definition SIGNABLE_SELECTORS : list bytes :=
  [DEPOSIT_SELECTOR; DISTRIBUTE_FINALITY_REWARD_SELECTOR; UPDATE_VALIDATOR_SET_V2_SELECTOR].

Definition FINALITY_REWARD_INTERVAL : Z := 200.

Record ExpectedSystemTxEntry := { method : string; selector : bytes }.

Inductive BidBlockSystemTxError :=
| NotSignable (index : nat)
| MissingSystemTx (method : string)
| UnexpectedExtraTx (position : nat)
| WrongSelector (method : string) (position : nat).

Definition is_zero_sig (tx : TransactionSigned) : bool :=
  let sig := tx_signature tx in
  (sig_r sig =? 0) && (sig_s sig =? 0) && negb (sig_v sig).

Definition has_signable_selector (data : bytes) : bool :=
  (4 <=? zlen data) && existsb (starts_with data) SIGNABLE_SELECTORS.

Definition is_unsigned_system_tx_candidate (tx : TransactionSigned) : bool :=
  match tx_to (typed tx) with
  | None => false
  | Some to =>
      if negb (is_invoke_system_contract to) then false
      else if negb (max_fee_per_gas (typed tx) =? 0) then false
      else is_zero_sig tx
  end.

Definition is_signable_system_tx (tx : TransactionSigned) : bool :=
  is_unsigned_system_tx_candidate tx
  && bool_decide (tx_to (typed tx) = Some VALIDATOR_CONTRACT)
  && has_signable_selector (tx_input (typed tx)).

(** [breathe_interval] is the configured length of a day, if any. *)
Definition expected_system_tx_shape (breathe_interval : option Z) (header parent : Header)
    : exec unit (list ExpectedSystemTxEntry) :=
  let shape := [{| method := "deposit"; selector := DEPOSIT_SELECTOR |}] in
  let shape :=
    if is_multiple_of (number header) FINALITY_REWARD_INTERVAL
    then shape ++ [{| method := "distributeFinalityReward"; selector := DISTRIBUTE_FINALITY_REWARD_SELECTOR |}]
    else shape in
  breathe ← is_breathe_block breathe_interval (timestamp parent) (timestamp header);
  Done (if (breathe : bool)
        then shape ++ [{| method := "updateValidatorSetV2"; selector := UPDATE_VALIDATOR_SET_V2_SELECTOR |}]
        else shape).

(** The loop of [verify_system_tx_shape]: [i] is the position. *)
Fixpoint check_selectors (i : nat) (shape : list ExpectedSystemTxEntry) (txs : list TransactionSigned)
    : exec BidBlockSystemTxError unit :=
  match shape with
  | [] => Done tt
  | exp :: shape =>
      match txs with
      | [] => Panics
      | tx :: txs =>
          if negb (starts_with (tx_input (typed tx)) (selector exp)) then Fail (WrongSelector (method exp) i)
          else check_selectors (S i) shape txs
      end
  end.

Definition verify_system_tx_shape (txs : list TransactionSigned) (shape : list ExpectedSystemTxEntry)
    : exec BidBlockSystemTxError unit :=
  if (length txs <? length shape)%nat
  then match shape !! length txs with
       | Some e => Fail (MissingSystemTx (method e))
       | None => Panics
       end
  else if (length shape <? length txs)%nat then Fail (UnexpectedExtraTx (length shape))
  else check_selectors 0 shape txs.

(** The backward loop of [extract_bid_block_deposit_value], on the reversed list:
    how many trailing transactions are candidates. *)
Fixpoint trailing_candidates (rev_txs : list TransactionSigned) : nat :=
  match rev_txs with
  | [] => 0
  | tx :: rev_txs => if negb (is_unsigned_system_tx_candidate tx) then 0 else S (trailing_candidates rev_txs)
  end.

Definition extract_bid_block_deposit_value (txs : list TransactionSigned) : nat * Z :=
  let system_tx_start := (length txs - trailing_candidates (reverse txs))%nat in
  match txs !! system_tx_start with
  | Some tx =>
      if (0 <? system_tx_start)%nat && starts_with (tx_input (typed tx)) DEPOSIT_SELECTOR
      then (system_tx_start, tx_value (typed tx)) else (system_tx_start, 0)
  | None => (system_tx_start, 0)
  end.

Fixpoint check_signable (index : nat) (txs : list TransactionSigned) : exec BidBlockSystemTxError unit :=
  match txs with
  | [] => Done tt
  | tx :: txs => if negb (is_signable_system_tx tx) then Fail (NotSignable index) else check_signable (S index) txs
  end.

Definition never {E A} (m : exec unit A) : exec E A := match m with Done a => Done a | _ => Panics end.

Definition verify_bid_block_system_txs (breathe_interval : option Z) (txs : list TransactionSigned)
    (header parent : Header) (system_tx_start : nat) : exec BidBlockSystemTxError unit :=
  _ ← rassert (system_tx_start <=? length txs)%nat;
  _ ← check_signable system_tx_start (drop system_tx_start txs);
  shape ← never (expected_system_tx_shape breathe_interval header parent);
  verify_system_tx_shape (drop system_tx_start txs) shape.

(** ** Blob sidecars ([node/miner/bid_block.rs]) *)

Definition BLOB_SIDECAR_VERSION_CELL_PROOF : Z := 1.
Definition MAX_TX_GAS : Z := 2 ^ 24.

Inductive BlobSidecarError :=
| NotEligible (block_number : Z)
| CountMismatch (sidecars blob_txs_at_least : nat)
| CellProofUnsupported (tx_index : nat)
| TxHashMismatch (tx_index : nat)
| TxIndexMismatch (tx_index : nat) (sidecar_tx_index : Z)
| TooManyBlobs (have permitted : Z)
| TrailingSidecars (sidecars blob_txs : nat).

Inductive BlobKzgError :=
| MissingSidecar (tx_index : nat)
| InvalidKzg (tx_index : nat).

Section Blobs.
Context `{F : ForkConditionApi} `{AC : AlloyConstants} `{BP : !BlobApi} `{T : TxApi}.

(** The loop over the user transactions from [tx_index] on. *)
Fixpoint check_sidecars (block_number : Z) (blob_eligible : bool) (max_blob_count : Z) (sidecars : list Sidecar)
    (tx_index sidecar_index : nat) (blob_count : Z) (txs : list TransactionSigned) : exec BlobSidecarError nat :=
  match txs with
  | [] => Done sidecar_index
  | tx :: txs =>
      if negb (tx_is_eip4844 tx)
      then check_sidecars block_number blob_eligible max_blob_count sidecars (S tx_index) sidecar_index blob_count txs
      else if negb blob_eligible then Fail (NotEligible block_number)
      else
        match sidecars !! sidecar_index with
        | None => Fail (CountMismatch (length sidecars) (sidecar_index + 1))
        | Some sidecar =>
            if sc_version sidecar =? BLOB_SIDECAR_VERSION_CELL_PROOF then Fail (CellProofUnsupported tx_index)
            else if negb (sc_tx_hash sidecar =? tx_hash tx) then Fail (TxHashMismatch tx_index)
            else if negb (sc_tx_index sidecar =? Z.of_nat tx_index)
            then Fail (TxIndexMismatch tx_index (sc_tx_index sidecar))
            else
              let blob_count := add64 blob_count (zlen (sc_blobs sidecar)) in
              if max_blob_count <? blob_count then Fail (TooManyBlobs blob_count max_blob_count)
              else check_sidecars block_number blob_eligible max_blob_count sidecars (S tx_index) (S sidecar_index)
                     blob_count txs
        end
  end.

Definition validate_bid_block_blob_sidecars (header : Header) (txs : list TransactionSigned) (sidecars : list Sidecar)
    (system_tx_start : nat) (spec : ChainSpec) : exec BlobSidecarError unit :=
  let blob_eligible := is_blob_eligible_block spec (number header) (timestamp header) in
  let max_blob_count := from_option max_blob_count_of 0 (blob_params_at_timestamp spec (timestamp header)) in
  _ ← rassert (system_tx_start <=? length txs)%nat;
  sidecar_index ← check_sidecars (number header) blob_eligible max_blob_count sidecars 0 0 0 (take system_tx_start txs);
  if negb (sidecar_index =? length sidecars)%nat then Fail (TrailingSidecars (length sidecars) sidecar_index)
  else Done tt.

Fixpoint check_kzg (sidecars : list Sidecar) (tx_index sidecar_index : nat) (txs : list TransactionSigned)
    : exec BlobKzgError unit :=
  match txs with
  | [] => Done tt
  | tx :: txs =>
      if negb (tx_is_eip4844 tx) then check_kzg sidecars (S tx_index) sidecar_index txs
      else match sidecars !! sidecar_index with
           | None => Fail (MissingSidecar tx_index)
           | Some sidecar =>
               if negb (kzg_validate sidecar (blob_versioned_hashes (typed tx))) then Fail (InvalidKzg tx_index)
               else check_kzg sidecars (S tx_index) (S sidecar_index) txs
           end
  end.

Definition validate_bid_block_blob_kzg (txs : list TransactionSigned) (sidecars : list Sidecar) (system_tx_start : nat)
    : exec BlobKzgError unit :=
  check_kzg sidecars 0 0 (take (Nat.min system_tx_start (length txs)) txs).

(** ** The average gas price *)

Definition non_system_gas_used `{Rc : Receipts} (receipts : list Receipt) (system_tx_start : nat) : Z :=
  if (system_tx_start =? 0)%nat then 0
  else from_option cumulative_gas_used 0 (receipts !! (system_tx_start - 1)%nat).

Definition validate_bid_block_average_gas_price `{Rc : Receipts} (gas_fee : Z) (receipts : list Receipt)
    (system_tx_start : nat) (min_gas_price : Z) : exec Z unit :=
  let gas_used := non_system_gas_used receipts system_tx_start in
  if gas_used =? 0 then Done tt
  else
    let avg_gas_price := gas_fee / gas_used in
    if avg_gas_price <? min_gas_price then Fail avg_gas_price else Done tt.
End Blobs.

(** ** Submission *)

(** [BidBlock], and [BidBlockArgs] with the builder's signature. *)
Record SubmittedBlock := {
  sb_header : Header;
  sb_transactions : list bytes;
  sb_sidecars : list Sidecar;
}.

Record BidBlockArgs := { bid_block : SubmittedBlock; args_signature : bytes }.

Record DecodedBidBlock := {
  builder : Z;
  bid_header : Header;
  bid_txs : list TransactionSigned;
  submitted_tx_root : Z;
  bid_sidecars : list Sidecar;
  gas_fee : Z;               (* set at admission, like the next field *)
  system_tx_start : nat;
  bid_hash : Z;
}.

Inductive BidBlockError :=
| InvalidSignatureLength (len : Z)
| Recovery
| TxDecode (index : nat).

Section Submission.
Context `{R : RlpApi} `{E : EcdsaApi} `{T : TxApi}.

(** The optional fields up to the last one present; a gap is an empty string. *)
Definition optional_fields (header : Header) : list (option RlpItem) :=
  [RlpU64 <$> base_fee_per_gas header; RlpB256 <$> withdrawals_root header; RlpU64 <$> blob_gas_used header;
   RlpU64 <$> excess_blob_gas header; RlpB256 <$> parent_beacon_block_root header; RlpB256 <$> requests_hash header;
   RlpB256 <$> block_access_list_hash header; RlpU64 <$> slot_number header].

(** [optional[..rposition(is_some) + 1]], on the reversed list. *)
Fixpoint drop_absent {A} (rev_fields : list (option A)) : list (option A) :=
  match rev_fields with
  | None :: rev_fields => drop_absent rev_fields
  | _ => rev_fields
  end.

Definition fixed_fields (header : Header) : list RlpItem :=
  [RlpB256 (parent_hash header); RlpB256 (ommers_hash header); RlpAddress (beneficiary header);
   RlpB256 (state_root header); RlpB256 (transactions_root header); RlpB256 (receipts_root header);
   RlpBloom (logs_bloom header); RlpU256 (difficulty header); RlpU64 (number header); RlpU64 (gas_limit header);
   RlpU64 (gas_used header); RlpU64 (timestamp header); RlpSlice (extra_data header); RlpB256 (mix_hash header);
   RlpB64 (nonce header)].

Definition gobsc_payload (header : Header) : bytes :=
  concat (rlp_encode <$> fixed_fields header)
  ++ concat (from_option rlp_encode [128] <$> reverse (drop_absent (reverse (optional_fields header)))).

Definition gobsc_header_hash (header : Header) : Z :=
  let payload := gobsc_payload header in
  keccak256 (rlp_list_header (zlen payload) ++ payload).

Definition block_hash_of (self : SubmittedBlock) : Z := gobsc_header_hash (sb_header self).

(** [recover_signer(hash, signature)]; a recovery id above 3 is refused. *)
Definition recover_builder (hash : Z) (signature' : bytes) : exec BidBlockError Z :=
  if negb (zlen signature' =? 65) then Fail (InvalidSignatureLength (zlen signature'))
  else
    let v := default 0 (signature' !! 64%nat) in
    let recovery_id := if 27 <=? v then v - 27 else v in
    if 3 <? recovery_id then Fail Recovery
    else ok_or (recover_address hash (take 64 signature') recovery_id) Recovery.

Definition ecrecover_sender (self : BidBlockArgs) : exec BidBlockError Z :=
  recover_builder (block_hash_of (bid_block self)) (args_signature self).

(** An untagged legacy transaction with [V = R = S = 0]. *)
Definition decode_unsigned_legacy_tx (b : bytes) : option TransactionSigned :=
  '(tx, v, r, s) ← decode_legacy_fields b;
  if (v =? 0) && (r =? 0) && (s =? 0)
  then Some {| typed := tx; tx_signature := {| sig_r := 0; sig_s := 0; sig_v := false |} |}
  else None.

Definition decode_bid_block_tx (b : bytes) : option TransactionSigned :=
  match decode_2718 b with
  | Some tx => Some tx
  | None => decode_unsigned_legacy_tx b
  end.

Fixpoint decode_txs (index : nat) (raw : list bytes) : exec BidBlockError (list TransactionSigned) :=
  match raw with
  | [] => Done []
  | b :: raw =>
      tx ← ok_or (decode_bid_block_tx b) (TxDecode index);
      txs ← decode_txs (S index) raw;
      Done (tx :: txs)
  end.

Definition to_decoded_bid_block (self : BidBlockArgs) (builder' : Z) : exec BidBlockError DecodedBidBlock :=
  txs ← decode_txs 0 (sb_transactions (bid_block self));
  Done {| builder := builder'; bid_header := sb_header (bid_block self); bid_txs := txs;
          submitted_tx_root := ordered_trie_root (sb_transactions (bid_block self));
          bid_sidecars := sb_sidecars (bid_block self); gas_fee := 0; system_tx_start := 0;
          bid_hash := block_hash_of (bid_block self) |}.
End Submission.

(** ** Verification before the seal *)

(** What [InvalidHeader] reports; the source carries a message. *)
Inductive HeaderFault `{RC : RethConsensus} :=
| FieldFault (e : ConsensusError)
| TimeFault (e : option BscBlockValidationError)
| ParentFault (e : ParentError)
| ExtraFault (e : ParliaConsensusError).

Inductive PreSealVerifyError `{RC : RethConsensus} :=
| ZeroStateRoot
| InvalidCoinbase (got want : Z)
| BidGasLimit (got want : Z)
| InvalidHeader (e : HeaderFault)
| UnauthorizedValidator (validator : Z)
| SignedTooRecently (validator : Z)
| WrongDifficulty (got want : Z)
| EmptyGasFee
| TxRootMismatch (got want : Z)
| TxGasTooHigh (tx_index : nat) (gas cap : Z)
| Blob (e : BlobSidecarError)
| SystemTx (e : BidBlockSystemTxError).

Section PreSeal.
Context `{F : ForkConditionApi} `{AC : AlloyConstants} `{BP : !BlobApi} `{RC : !RethConsensus} `{H : HashApi} `{T : TxApi}.
Implicit Types (self : Parlia) (spec : ChainSpec) (header parent : Header) (snap : Snapshot) (decoded : DecodedBidBlock).

Definition block_time_upper_check (fuel : nat) (now : Z) self snap header parent : exec (option BscBlockValidationError) unit :=
  max_allowed ← map_err (λ _, None) (block_time_for_ramanujan_fork fuel now self snap parent header);
  if max_allowed <? calculate_millisecond_timestamp header
  then Fail (Some (FutureBlock (number header) (hash_slow header)))
  else Done tt.

Definition verify_bid_block_state_root header : exec PreSealVerifyError unit :=
  if state_root header =? 0 then Fail ZeroStateRoot else Done tt.

Definition verify_bid_block_coinbase_and_gas_limit header (etherbase expected_gas_limit : Z) : exec PreSealVerifyError unit :=
  if negb (beneficiary header =? etherbase) then Fail (InvalidCoinbase (beneficiary header) etherbase)
  else if negb (gas_limit header =? expected_gas_limit) then Fail (BidGasLimit (gas_limit header) expected_gas_limit)
  else Done tt.

Definition verify_bid_block_header (fuel : nat) (now : Z) self header parent snap : exec PreSealVerifyError unit :=
  _ ← map_err (λ e, InvalidHeader (FieldFault e)) (validate_unsealed_header_fields self header);
  if negb (bool_decide (beneficiary header ∈ validators snap)) then Fail (UnauthorizedValidator (beneficiary header))
  else if sign_recently snap (beneficiary header) then Fail (SignedTooRecently (beneficiary header))
  else
    inturn ← panics_to (is_inturn snap (beneficiary header));
    let want_difficulty := if (inturn : bool) then DIFF_INTURN else DIFF_NOTURN in
    if negb (difficulty header =? want_difficulty) then Fail (WrongDifficulty (difficulty header) want_difficulty)
    else
      _ ← map_err (λ e, InvalidHeader (TimeFault e)) (block_time_verify_for_ramanujan_fork fuel self snap header parent);
      _ ← map_err (λ e, InvalidHeader (ParentFault e))
            (validate_header_against_parent (parlia_spec self) header {| sealed := parent; sealed_hash := hash_slow parent |});
      map_err (λ e, InvalidHeader (TimeFault e)) (block_time_upper_check fuel now self snap header parent).

Fixpoint check_gas_caps (tx_index : nat) (txs : list TransactionSigned) : exec PreSealVerifyError unit :=
  match txs with
  | [] => Done tt
  | tx :: txs =>
      if MAX_TX_GAS <? tx_gas (typed tx) then Fail (TxGasTooHigh tx_index (tx_gas (typed tx)) MAX_TX_GAS)
      else check_gas_caps (S tx_index) txs
  end.

Definition verify_bid_block_payload (breathe_interval : option Z) spec decoded parent (etherbase expected_gas_limit : Z)
    : exec PreSealVerifyError (nat * Z) :=
  let header := bid_header decoded in
  _ ← verify_bid_block_state_root header;
  _ ← verify_bid_block_coinbase_and_gas_limit header etherbase expected_gas_limit;
  if negb (submitted_tx_root decoded =? transactions_root header)
  then Fail (TxRootMismatch (transactions_root header) (submitted_tx_root decoded))
  else
    let '(system_tx_start, gas_fee) := extract_bid_block_deposit_value (bid_txs decoded) in
    if gas_fee =? 0 then Fail EmptyGasFee
    else
      _ ← map_err Blob (validate_bid_block_blob_sidecars header (bid_txs decoded) (bid_sidecars decoded) system_tx_start spec);
      _ ← check_gas_caps 0 (take system_tx_start (bid_txs decoded));
      _ ← map_err SystemTx (verify_bid_block_system_txs breathe_interval (bid_txs decoded) header parent system_tx_start);
      Done (system_tx_start, gas_fee).

Definition set_bid_block_mev_info header (builder' : Z) (prague_active : bool) : Header :=
  set_block_mev_info BidBlock builder' prague_active header.

Definition mev_tagged_header spec decoded : Header :=
  let header := bid_header decoded in
  let prague_active := is_prague_active_at_block_and_timestamp spec (number header) (timestamp header) in
  set_bid_block_mev_info header (builder decoded) prague_active.

Definition pre_seal_verify_bid_block (fuel : nat) (now : Z) (breathe_interval : option Z) self spec decoded parent snap
    (etherbase expected_gas_limit : Z) : exec PreSealVerifyError (nat * Z) :=
  _ ← verify_bid_block_state_root (bid_header decoded);
  _ ← verify_bid_block_coinbase_and_gas_limit (bid_header decoded) etherbase expected_gas_limit;
  _ ← verify_bid_block_header fuel now self (mev_tagged_header spec decoded) parent snap;
  verify_bid_block_payload breathe_interval spec decoded parent etherbase expected_gas_limit.
End PreSeal.

(** ** Signing and sealing *)

Record BindSignError := { bse_index : nat; bse_error : SignerError }.

Inductive SimulateBidBlockError `{RC : RethConsensus} :=
| Verify (e : PreSealVerifyError)
| BindSign (e : BindSignError)
| Finalize (e : SignerError)
| SenderRecovery.

(** The block and its senders ([RecoveredBlock]), and what is known of the bid. *)
Record BidBlockTask := {
  task_header : Header;
  task_transactions : list TransactionSigned;
  task_withdrawals : option (list Z);
  task_sidecars : option (list Sidecar);
  task_senders : list Z;
  task_gas_fee : Z;
  task_system_tx_start : nat;
  task_builder : Z;
  task_bid_hash : Z;
}.

Definition with_chain_id (chain_id' : Z) (tx : TypedTx) : TypedTx :=
  {| tx_type := tx_type tx; tx_chain_id := Some chain_id'; tx_nonce := tx_nonce tx;
     max_fee_per_gas := max_fee_per_gas tx; tx_gas := tx_gas tx; tx_to := tx_to tx; tx_value := tx_value tx;
     tx_input := tx_input tx; blob_versioned_hashes := blob_versioned_hashes tx; tx_rest := tx_rest tx |}.

Definition set_transactions_root (r : Z) (h : Header) : Header :=
  {| parent_hash := parent_hash h; ommers_hash := ommers_hash h; beneficiary := beneficiary h; state_root := state_root h;
     transactions_root := r; receipts_root := receipts_root h; logs_bloom := logs_bloom h; difficulty := difficulty h;
     number := number h; gas_limit := gas_limit h; gas_used := gas_used h; timestamp := timestamp h;
     extra_data := extra_data h; mix_hash := mix_hash h; nonce := nonce h; base_fee_per_gas := base_fee_per_gas h;
     withdrawals_root := withdrawals_root h; blob_gas_used := blob_gas_used h; excess_blob_gas := excess_blob_gas h;
     parent_beacon_block_root := parent_beacon_block_root h; requests_hash := requests_hash h;
     block_access_list_hash := block_access_list_hash h; slot_number := slot_number h |}.

Section Simulate.
Context `{F : ForkConditionApi} `{AC : AlloyConstants} `{BP : !BlobApi} `{RC : !RethConsensus} `{H : HashApi} `{T : TxApi}.
Context `{R : AttestationRlp, B : BlsApi, RA : RlpApi, S : SecretKeyApi}.
Implicit Types (self : Parlia) (spec : ChainSpec) (decoded : DecodedBidBlock) (snap : Snapshot).

(** The signature: [r] and [s] of 32 bytes each and the parity of [y]. *)
Definition sign_transaction (self : MinerSigner) (tx : TypedTx) : exec SignerError TransactionSigned :=
  let message := signature_hash tx in
  if negb (secret_key_valid (secret_bytes self)) then Fail (SigningFailed InvalidPrivateKey)
  else
    let '(sig_bytes, recovery_id) := sign_ecdsa_recoverable (secret_bytes self) message in
    Done {| typed := tx;
            tx_signature := {| sig_r := be_decode (take 32 sig_bytes); sig_s := be_decode (take 32 (drop 32 sig_bytes));
                               sig_v := negb (recovery_id =? 0) |} |}.

Definition sign_system_transaction (cell : GlobalSigner) (tx : TypedTx) : exec SignerError TransactionSigned :=
  signer ← ok_or cell NotInitialized;
  sign_transaction signer tx.

Fixpoint bind_sign (cell : GlobalSigner) (chain_id' : Z) (index : nat) (txs : list TransactionSigned)
    : exec BindSignError (list TransactionSigned) :=
  match txs with
  | [] => Done []
  | tx :: txs =>
      let unsigned := if bool_decide (tx_type (typed tx) = Legacy) then with_chain_id chain_id' (typed tx) else typed tx in
      signed ← map_err (λ e, {| bse_index := index; bse_error := e |}) (sign_system_transaction cell unsigned);
      out ← bind_sign cell chain_id' (Datatypes.S index) txs;
      Done (signed :: out)
  end.

Definition bind_sign_bid_block_system_txs (cell : GlobalSigner) (txs : list TransactionSigned) (system_tx_start : nat)
    (chain_id' : Z) : exec BindSignError (list TransactionSigned) :=
  _ ← rassert (system_tx_start <=? length txs)%nat;
  out ← bind_sign cell chain_id' system_tx_start (drop system_tx_start txs);
  Done (take system_tx_start txs ++ out).

Definition bid_block_env_attributes (header : Header) : EthPayloadAttributes :=
  {| attr_timestamp := timestamp header; suggested_fee_recipient := beneficiary header;
     prev_randao := difficulty header; attr_parent_beacon_block_root := parent_beacon_block_root header |}.

(** The header that is finalized. *)
Definition bid_block_context spec decoded (vanity : bytes) (txs : list TransactionSigned) : Header :=
  set_transactions_root (calculate_transaction_root txs) (set_extra_data vanity (mev_tagged_header spec decoded)).

Definition simulate_bid_block (fuel : nat) (now : Z) (breathe_interval : option Z) (cell : GlobalSigner) self spec
    (view : ChainView) decoded (parent : SealedHeader) (parent_snap : Snapshot) (cache : gmap Z Z)
    (validator expected_gas_limit : Z) (vanity : bytes) (block_timestamp_ms' : Z)
    (epoch_validators : option (list Z * list Z)) : gmap Z Z * exec SimulateBidBlockError BidBlockTask :=
  let signed : exec SimulateBidBlockError (nat * Z * list TransactionSigned) :=
    '(system_tx_start, gas_fee) ← map_err Verify
       (verify_bid_block_payload breathe_interval spec decoded (sealed parent) validator expected_gas_limit);
    txs ← map_err BindSign (bind_sign_bid_block_system_txs cell (bid_txs decoded) system_tx_start (chain_id spec));
    Done (system_tx_start, gas_fee, txs) in
  match signed with
  | Done (system_tx_start, gas_fee, txs) =>
      let '(cache, finalized) := finalize_new_header cell self view parent_snap parent cache block_timestamp_ms'
                                   epoch_validators (bid_block_context spec decoded vanity txs) in
      (cache,
       header ← map_err Finalize finalized;
       _ ← map_err (λ e, Verify (InvalidHeader (ExtraFault e))) (check_header_extra self header);
       _ ← map_err Verify (verify_bid_block_header fuel now self header (sealed parent) parent_snap);
       senders ← ok_or (mapM recover_signer txs) SenderRecovery;
       Done {| task_header := header; task_transactions := txs;
               task_withdrawals := (λ _, []) <$> withdrawals_root header;
               task_sidecars := if bool_decide (bid_sidecars decoded = []) then None else Some (bid_sidecars decoded);
               task_senders := senders; task_gas_fee := gas_fee; task_system_tx_start := system_tx_start;
               task_builder := builder decoded; task_bid_hash := bid_hash decoded |})
  | Fail e => (cache, Fail e)
  | Panics => (cache, Panics)
  end.
End Simulate.

(** ** The best bid of a parent ([node/miner/bid_simulator.rs]) *)

(** The validators of an epoch block, from the cache or read through the EVM. *)
Definition epoch_validators_for_next_block (validators_at_parent : Z → option (list Z * list Z)) (parent_snap : Snapshot)
    (parent_header' : SealedHeader) (cache : gmap Z (list Z * list Z))
    : option (option (list Z * list Z)) * gmap Z (list Z * list Z) :=
  if negb (is_multiple_of (add64 (number (sealed parent_header')) 1) (epoch_num parent_snap)) then (Some None, cache)
  else
    match cache !! sealed_hash parent_header' with
    | Some validators' => (Some (Some validators'), cache)
    | None =>
        match validators_at_parent (sealed_hash parent_header') with
        | Some validators' => (Some (Some validators'), <[sealed_hash parent_header' := validators']> cache)
        | None => (None, cache)
        end
    end.

(** What the simulator asks of the node when a bid arrives. *)
Record SimulatorEnv := {
  last_block_number : option Z;
  client_header : Z → option Header;
  simulator_snapshot : Z → option Snapshot;
  validators_at_parent : Z → option (list Z * list Z);
  miner_gas_limit : option Z;
  miner_extra : option bytes;
  config_gas_limit : Z → Z → Z;  (* [EthereumBuilderConfig]: ceiling and parent's limit *)
  sim_fuel : nat;
  sim_now : Z;
  sim_view : ChainView;
}.

(** The simulator's own state; both caches are shared with the executor. *)
Record BidBlockStore := {
  epoch_cache : gmap Z (list Z * list Z);
  turn_cache : gmap Z Z;
  best_bid_block : gmap Z BidBlockTask;
}.

(** [Vec::resize(len, 0)] *)
Definition resize (len : nat) (v : bytes) : bytes := take len v ++ replicate (len - length v) 0.

Section Commit.
Context `{F : ForkConditionApi} `{AC : AlloyConstants} `{BP : !BlobApi} `{RC : !RethConsensus} `{H : HashApi} `{T : TxApi}.
Context `{R : AttestationRlp, B : BlsApi, RA : RlpApi, S : SecretKeyApi}.
Context (breathe_interval : option Z) (cell : GlobalSigner) (self : Parlia) (validator_address : Z).
Implicit Types (env : SimulatorEnv) (decoded : DecodedBidBlock) (st : BidBlockStore).

(** The parent of a bid that is not stale, and its snapshot. *)
Definition bid_parent env decoded : option (SealedHeader * Snapshot) :=
  let parent_hash' := parent_hash (bid_header decoded) in
  if number (bid_header decoded) <=? default 0 (last_block_number env) then None
  else
    h ← client_header env parent_hash';
    let parent := {| sealed := h; sealed_hash := parent_hash' |} in
    if negb (number (bid_header decoded) =? add64 (number h) 1) then None
    else
      snap ← simulator_snapshot env parent_hash';
      Some (parent, snap).

(** The sealed block, if there is one, and the caches. *)
Definition bid_task env decoded st : BidBlockStore * option BidBlockTask :=
  match bid_parent env decoded with
  | None => (st, None)
  | Some (parent, parent_snap) =>
      let gas_ceil := default (gas_limit (sealed parent)) (miner_gas_limit env) in
      let expected_gas_limit := config_gas_limit env gas_ceil (gas_limit (sealed parent)) in
      let vanity := resize (Z.to_nat EXTRA_VANITY_LEN) (default [] (miner_extra env)) in
      let block_timestamp_ms' := calculate_millisecond_timestamp (bid_header decoded) in
      let '(epoch_validators, epochs) :=
        epoch_validators_for_next_block (validators_at_parent env) parent_snap parent (epoch_cache st) in
      match epoch_validators with
      | None => (st, None)
      | Some epoch_validators =>
          let '(turns, task) :=
            simulate_bid_block (sim_fuel env) (sim_now env) breathe_interval cell self (parlia_spec self) (sim_view env) decoded
              parent parent_snap (turn_cache st) validator_address expected_gas_limit vanity block_timestamp_ms' epoch_validators in
          ({| epoch_cache := epochs; turn_cache := turns; best_bid_block := best_bid_block st |},
           match task with Done task => Some task | _ => None end)
      end
  end.

(** Keep the sealed block with the highest fee per parent. *)
Definition store_best (parent_hash' : Z) (task : BidBlockTask) (best : gmap Z BidBlockTask) : gmap Z BidBlockTask :=
  let replace := match best !! parent_hash' with
                 | None => true
                 | Some t => task_gas_fee t <? task_gas_fee task
                 end in
  if replace then <[parent_hash' := task]> best else best.

Definition commit_bid_block env decoded st : BidBlockStore :=
  let '(st, task) := bid_task env decoded st in
  match task with
  | None => st
  | Some task =>
      {| epoch_cache := epoch_cache st; turn_cache := turn_cache st;
         best_bid_block := store_best (parent_hash (bid_header decoded)) task (best_bid_block st) |}
  end.

Definition retain_recent_bid_blocks (min_block_number : Z) (best : gmap Z BidBlockTask) : gmap Z BidBlockTask :=
  filter (λ p, min_block_number <= number (task_header p.2)) best.

(** [BidSimulator::clear], as far as bid blocks go. *)
Definition clear_bid_blocks (block_number' : Z) st : BidBlockStore :=
  {| epoch_cache := epoch_cache st; turn_cache := turn_cache st;
     best_bid_block := retain_recent_bid_blocks (sat_sub64 block_number' 5) (best_bid_block st) |}.
End Commit.
