(* ===== verification/ForkChoiceEngine.v ===== *)
(** * ForkChoiceEngine: from a header to the engine's fork choice state

    [BscForkChoiceEngine] of [src/node/consensus.rs]: it looks the difficulties
    of the two heads up, asks the fork choice rule, works out the justified
    (safe) and the finalized block of the chosen head, hands the three hashes to
    the engine of [reth], and has the vote pool promote what became current.

    The engine and the block provider are parameters.  A call runs from its
    first to its last line; what other tasks do during its awaits shows in the
    view of the chain the promotion gets ([after]).  Metrics are left out. *)

From stdpp Require Import base tactics numbers option list gmap strings.
From Stdlib Require Import ZArith Lia Bool.
From S2P Require Import Prelude.
From S2P Require Import Hardforks.
From S2P Require Import Header.
From S2P Require Import Snapshot.
From S2P Require Import Attestation.
From S2P Require Import ForkChoice.
From S2P Require Import Collections.
From S2P Require Import VoteMonitor.
From S2P Require Import VotePool.

Record ForkchoiceState := { head_block_hash : Z; safe_block_hash : Z; finalized_block_hash : Z }.

Inductive PayloadStatusEnum : Set := Valid | Invalid (validation_error : string) | Syncing | Accepted.

(** The handle of the engine, and the block provider. *)
Record EngineHandle := {
  query_td : Z → Z → exec string (option Z);
  fork_choice_updated : ForkchoiceState → exec string PayloadStatusEnum;
}.

Record BlockReader := {
  best_number : exec string Z;
  header_by_number : Z → exec string (option Header);
}.

(** Addition of [U256] wraps. *)
Definition add_u256 (a b : Z) : Z := (a + b) mod 2 ^ 256.

Section Engine.
Context `{F : ForkConditionApi, L : LruApi, HashApi, B : BlsApi}.
Context {HP : HeapApi VoteData by_target} {HK : HeapApi (Z * Z) key_leb}.

Record BscForkChoiceEngine := {
  provider : BlockReader;
  engine_handle : EngineHandle;
  engine_spec : ChainSpec;
}.

(** What a call changes: the cache of difficulties, the pool, and what the
    engine has been told, oldest first. *)
Record EngineState := {
  header_td_cache : LruCache (option Z);
  votes : PoolState;
  told : list ForkchoiceState;
}.

Definition HEADER_TD_CACHE_SIZE : Z := 128.

Definition engine_new (st : PoolState) : EngineState :=
  {| header_td_cache := lru_new HEADER_TD_CACHE_SIZE; votes := st; told := [] |}.

Implicit Types (self : BscForkChoiceEngine) (cache : LruCache (option Z)) (env : Shared).

Definition header_td self (number' hash : Z) cache : exec ParliaConsensusErr (option Z) * LruCache (option Z) :=
  match lru_get cache hash with
  | (Some td', cache) => (Done td', cache)
  | (None, cache) =>
      match query_td (engine_handle self) number' hash with
      | Done td' => (Done td', lru_put cache hash td')
      | Fail e => (Fail (Internal e), cache)
      | Panics => (Panics, cache)
      end
  end.

(** The difficulties of the incoming and the current head. *)
Definition header_td_fcu self (incoming current : Header) cache
    : exec ParliaConsensusErr (option Z * option Z) * LruCache (option Z) :=
  let '(current_td, cache) := header_td self (number current) (hash_slow current) cache in
  match current_td with
  | Done current_td =>
      let '(incoming_td, cache) := header_td self (number incoming) (hash_slow incoming) cache in
      match incoming_td with
      | Done td' => (Done (td', current_td), cache)
      | Fail _ =>
          let '(parent_td, cache) := header_td self (sub64 (number incoming) 1) (parent_hash incoming) cache in
          (parent_td ← parent_td;
           Done (option_map (λ t, add_u256 t (difficulty incoming)) parent_td, current_td), cache)
      | Panics => (Panics, cache)
      end
  | Fail e => (Fail e, cache)
  | Panics => (Panics, cache)
  end.

Definition get_justified_number_and_hash self env (header : Header) : option (Z * Z) :=
  if negb (is_luban_active_at_block (engine_spec self) (number header)) then None
  else justified_pair_for_hash env (hash_slow header).

(** The votes that finalize the parent of the head at once. *)
Definition eligible_votes (st : PoolState) (header : Header) (justified : Z) : list VoteEnvelope :=
  filter (λ v, source_number (data v) = justified ∧ target_number (data v) = number header)
    (fetch_vote_by_block_hash (pool st) (hash_slow header)).

Definition get_finalized_number_and_hash self env (st : PoolState) (header : Header) : option (Z * Z) :=
  if negb (is_plato_active_at_block (engine_spec self) (number header)) then None
  else
    sp ← get_snapshot_provider env;
    snap ← sp (hash_slow header);
    let current_justified_number := target_number (vote_data snap) in
    let current_justified_hash := target_hash (vote_data snap) in
    let early :=
      if (0 <? number header) && (number header - 1 =? current_justified_number)
      then match sp (parent_hash header) with
           | Some parent_snap =>
               if bool_decide (validators parent_snap = []) then false
               else
                 let quorum := div_ceil (zlen (validators parent_snap) * 2) 3 in
                 quorum <=? zlen (eligible_votes st header current_justified_number)
           | None => false
           end
      else false in
    if early then Some (current_justified_number, current_justified_hash)
    else Some (source_number (vote_data snap), source_hash (vote_data snap)).

(** The difficulty of a child is above that of its parent. *)
Definition monotone_td (incoming current : Header) (incoming_td current_td : option Z) : option Z :=
  if parent_hash incoming =? hash_slow current
  then match incoming_td, current_td with
       | Some in_td, Some cur_td => if in_td <=? cur_td then Some (add_u256 cur_td (difficulty incoming)) else Some in_td
       | _, _ => incoming_td
       end
  else incoming_td.

Definition engine_is_need_reorg self (coin : bool) env (incoming current : Header) cache
    : exec ParliaConsensusErr bool * LruCache (option Z) :=
  let '(tds, cache) := header_td_fcu self incoming current cache in
  (('(incoming_td, current_td) ← tds;
    let incoming_td := monotone_td incoming current incoming_td current_td in
    let incoming_justified_num := default 0 (fst <$> get_justified_number_and_hash self env incoming) in
    let current_justified_num := default 0 (fst <$> get_justified_number_and_hash self env current) in
    is_need_reorg (engine_spec self) coin
      {| fc_header := incoming; td := incoming_td; justified_num := incoming_justified_num |}
      {| fc_header := current; td := current_td; justified_num := current_justified_num |}), cache).

(** What the engine is told of a head. *)
Definition state_of_head self env (st : PoolState) (head : Header) : ForkchoiceState :=
  let '(_, safe) := default (0, 0) (get_justified_number_and_hash self env head) in
  let '(_, finalized) := default (0, 0) (get_finalized_number_and_hash self env st head) in
  {| head_block_hash := hash_slow head; safe_block_hash := safe; finalized_block_hash := finalized |}.

Definition outcome_of (response : exec string PayloadStatusEnum) : exec ParliaConsensusErr unit :=
  match response with
  | Done (Invalid validation_error) => Fail (ForkChoiceUpdateError validation_error)
  | Done _ => Done tt
  | Fail err => Fail (ForkChoiceUpdateError err)
  | Panics => Panics
  end.

Definition is_ok {E A} (m : exec E A) : bool := match m with Done _ => true | _ => false end.

(** The head the engine has when a header arrives. *)
Definition current_head_of self : exec ParliaConsensusErr Header :=
  current_number ← map_err Provider (best_number (provider self));
  head ← map_err Provider (header_by_number (provider self) current_number);
  ok_or head HeadHashNotFound.

(** [env] is the view before the engine is told, [after] the one it leaves. *)
Definition update_forkchoice self (coin : bool) env (after : Shared) (incoming : Header) (st : EngineState)
    : exec ParliaConsensusErr unit * EngineState :=
  match current_head_of self with
  | Done current_head =>
      let '(need_reorg, cache) := engine_is_need_reorg self coin env incoming current_head (header_td_cache st) in
      match need_reorg with
      | Done need_reorg =>
          let new_canonical_head := if need_reorg then incoming else current_head in
          let state := state_of_head self env (votes st) new_canonical_head in
          let outcome := outcome_of (fork_choice_updated (engine_handle self) state) in
          (outcome,
           {| header_td_cache := cache;
              votes := if is_ok outcome then promote_future_votes after (number new_canonical_head) (votes st) else votes st;
              told := told st ++ [state] |})
      | Fail e => (Fail e, {| header_td_cache := cache; votes := votes st; told := told st |})
      | Panics => (Panics, {| header_td_cache := cache; votes := votes st; told := told st |})
      end
  | Fail e => (Fail e, st)
  | Panics => (Panics, st)
  end.
End Engine.
