(* ===== verification/ForkChoiceEngineProps.v ===== *)
(** * ForkChoiceEngineProps: what the engine is told

    The head by the rule, the justified block as safe, and as finalized the
    source of the head's justification, or its target once two thirds of the
    validators have voted for the head. *)

From stdpp Require Import base tactics numbers option list gmap strings.
From Stdlib Require Import ZArith Lia Bool.
From S2P Require Import Prelude.
From S2P Require Import Hardforks.
From S2P Require Import Header.
From S2P Require Import Snapshot.
From S2P Require Import Attestation.
From S2P Require Import ForkChoice.
From S2P Require Import Collections.
From S2P Require Import VoteMonitor.
From S2P Require Import VotePool.
From S2P Require Import VotePoolProps.
From S2P Require Import VotePoolClaims.
From S2P Require Import VotePoolPromotion.
From S2P Require Import VotePoolFinality.
From S2P Require Import ForkChoiceEngine.

Section EngineProps.
Context `{F : ForkConditionApi, L : LruApi, HashApi, B : BlsApi}.
Context {HP : HeapApi VoteData by_target} {HK : HeapApi (Z * Z) key_leb}.
Context {LL : LruLaws L} {HPL : HeapLaws HP} {HKL : HeapLaws HK}.
Implicit Types (self : BscForkChoiceEngine) (env : Shared) (st : EngineState) (cache : LruCache (option Z)).

(** ** Difficulties *)

Lemma header_td_get self n h cache :
  (header_td self n h cache).1 =
    match assoc h (lru_iter cache) with
    | Some t => Done t
    | None => map_err Internal (query_td (engine_handle self) n h)
    end.
Proof.
  unfold header_td. rewrite <- lru_get_value. destruct (lru_get cache h) as [[t|] c]; [done|].
  by destruct (query_td _ _ _).
Qed.

Lemma header_td_failed self n h cache e :
  assoc h (lru_iter cache) = None → query_td (engine_handle self) n h = Fail e →
  lru_iter (header_td self n h cache).2 = lru_iter cache.
Proof.
  intros Ha Hq. unfold header_td. pose proof (lru_get_value cache h) as Hv. pose proof (lru_get_iter cache h) as Hi.
  rewrite Ha in Hv, Hi. destruct (lru_get cache h) as [o c]. cbn in *. subst o. by rewrite Hq.
Qed.

Lemma header_td_stores self n h cache t :
  NoDup (lru_iter cache).*1 → 0 < lru_cap cache → (header_td self n h cache).1 = Done t →
  assoc h (lru_iter (header_td self n h cache).2) = Some t.
Proof.
  intros Hnd Hcap. rewrite header_td_get. unfold header_td.
  pose proof (lru_get_value cache h) as Hv. pose proof (lru_get_iter cache h) as Hi.
  pose proof (lru_get_NoDup cache h Hnd) as Hn. pose proof (lru_get_cap cache h) as Hc.
  destruct (lru_get cache h) as [[t0|] c]; cbn in *; rewrite <- Hv in *.
  - intros [= ->]. rewrite Hi. unfold assoc. cbn. by rewrite Z.eqb_refl.
  - destruct (query_td _ _ _) as [t1|e|]; [|done|done]. intros [= ->]. cbn.
    apply assoc_NoDup; [by apply lru_put_NoDup|apply lru_put_self; lia].
Qed.

(** An answer is remembered, that the difficulty is unknown included: as long as
    the entry is in the cache the engine is not asked again. *)
Lemma td_remembered self self' n n' h cache t :
  NoDup (lru_iter cache).*1 → 0 < lru_cap cache → (header_td self n h cache).1 = Done t →
  (header_td self' n' h (header_td self n h cache).2).1 = Done t.
Proof. intros Hnd Hcap Ht. by rewrite header_td_get, (header_td_stores _ _ _ _ t). Qed.

Lemma header_td_keeps self n h cache h' x :
  NoDup (lru_iter cache).*1 → assoc h' (lru_iter (header_td self n h cache).2) = Some x →
  assoc h' (lru_iter cache) = Some x ∨ h' = h ∧ (header_td self n h cache).1 = Done x.
Proof.
  intros Hnd. rewrite header_td_get. unfold header_td.
  pose proof (lru_get_value cache h) as Hv. pose proof (lru_get_NoDup cache h Hnd) as Hn.
  pose proof (λ p, lru_get_elem cache h p Hnd) as Hel.
  destruct (lru_get cache h) as [[t0|] c]; cbn in *; rewrite <- Hv.
  - intros E%assoc_Some%Hel. left. by apply assoc_NoDup.
  - destruct (query_td _ _ _) as [t1|e|]; cbn.
    + intros E%assoc_Some%lru_put_elem. destruct E as [[= -> ->]|E%Hel]; [by right|left; by apply assoc_NoDup].
    + intros E%assoc_Some%Hel. left. by apply assoc_NoDup.
    + intros E%assoc_Some%Hel. left. by apply assoc_NoDup.
Qed.

Lemma header_td_NoDup self n h cache : NoDup (lru_iter cache).*1 → NoDup (lru_iter (header_td self n h cache).2).*1.
Proof.
  intros Hnd. unfold header_td. pose proof (lru_get_NoDup cache h Hnd) as Hn.
  destruct (lru_get cache h) as [[t0|] c]; cbn in *; [done|].
  destruct (query_td _ _ _); [by apply lru_put_NoDup|done|done].
Qed.

(** Nothing says that the difficulty of the block is unknown. *)
Definition td_obtainable self (h : Header) cache : Prop :=
  assoc (hash_slow h) (lru_iter cache) ≠ Some None ∧
  query_td (engine_handle self) (number h) (hash_slow h) ≠ Done None ∧
  query_td (engine_handle self) (number h) (hash_slow h) ≠ Panics.

(** The difficulties of a head and its child: if the engine fails on the child,
    the entry just made for the head is used. *)
Lemma child_td self incoming current cache ct :
  NoDup (lru_iter cache).*1 → 0 < lru_cap cache → parent_hash incoming = hash_slow current →
  (header_td self (number current) (hash_slow current) cache).1 = Done (Some ct) → td_obtainable self incoming cache →
  ∃ it, (header_td_fcu self incoming current cache).1 = Done (Some it, Some ct).
Proof.
  intros Hnd Hcap Hpar Hct (Hc & Hq & Hqp). unfold header_td_fcu.
  pose proof (header_td_stores _ _ _ _ _ Hnd Hcap Hct) as Hst.
  pose proof (λ h' x, header_td_keeps self (number current) (hash_slow current) cache h' x Hnd) as Hk.
  pose proof (header_td_NoDup self (number current) (hash_slow current) cache Hnd) as Hn1.
  destruct (header_td self (number current) (hash_slow current) cache) as [rc c1]. cbn in *. subst rc.
  pose proof (header_td_get self (number incoming) (hash_slow incoming) c1) as Hg.
  destruct (assoc (hash_slow incoming) (lru_iter c1)) as [[it|]|] eqn:Ea.
  - destruct (header_td self (number incoming) _ c1) as [ri c2]. cbn in Hg. subst ri. by exists it.
  - exfalso. apply Hk in Ea as [?|[_ ?]]; [done|congruence].
  - pose proof (header_td_failed self (number incoming) (hash_slow incoming) c1) as Hf.
    destruct (query_td (engine_handle self) (number incoming) _) as [[it|]|e|] eqn:Eq; [|done| |done].
    + destruct (header_td self (number incoming) _ c1) as [ri c2]. cbn in Hg. subst ri. by exists it.
    + specialize (Hf e Ea eq_refl). destruct (header_td self (number incoming) _ c1) as [ri c2]. cbn in Hg, Hf. subst ri.
      pose proof (header_td_get self (sub64 (number incoming) 1) (parent_hash incoming) c2) as Hg2.
      rewrite Hf, Hpar, Hst in Hg2. rewrite Hpar. destruct (header_td self (sub64 _ _) _ c2) as [rp c3]. cbn in Hg2. subst rp.
      cbn. by eexists.
Qed.

(** ** Finality *)

Lemma div_ceil_quorum n k : 0 <= n → div_ceil (n * 2) 3 <= k ↔ 2 * n <= 3 * k.
Proof. intros Hn. pose proof (div_ceil_spec (n * 2) 3 ltac:(lia) ltac:(lia)). lia. Qed.

(** The target of the head's justification is final at once: the head is its
    child, and the votes for the head are two thirds of those who may vote. *)
Definition early_final env (ps : PoolState) (head : Header) (snap : Snapshot) : Prop :=
  0 < number head ∧ number head = target_number (vote_data snap) + 1 ∧
  ∃ parent_snap, snapshot_of env (parent_hash head) = Some parent_snap ∧ validators parent_snap ≠ [] ∧
    2 * zlen (validators parent_snap) <= 3 * zlen (eligible_votes ps head (target_number (vote_data snap))).

Lemma finalized_iff self env ps head p :
  get_finalized_number_and_hash self env ps head = Some p ↔
  is_plato_active_at_block (engine_spec self) (number head) = true ∧
  ∃ snap, snapshot_of env (hash_slow head) = Some snap ∧
    (early_final env ps head snap ∧ p = (target_number (vote_data snap), target_hash (vote_data snap)) ∨
     ¬ early_final env ps head snap ∧ p = (source_number (vote_data snap), source_hash (vote_data snap))).
Proof.
  unfold get_finalized_number_and_hash, early_final, snapshot_of.
  destruct (is_plato_active_at_block _ _); cbn [negb]; [|naive_solver].
  destruct (get_snapshot_provider env) as [sp|]; cbn; [|naive_solver].
  destruct (sp (hash_slow head)) as [snap|]; cbn; [|naive_solver].
  set (e := if _ && _ then _ else false).
  assert (He : e = true ↔ 0 < number head ∧ number head = target_number (vote_data snap) + 1 ∧
    ∃ ps', sp (parent_hash head) = Some ps' ∧ validators ps' ≠ [] ∧
      2 * zlen (validators ps') <= 3 * zlen (eligible_votes ps head (target_number (vote_data snap)))).
  { unfold e. destruct (Z.ltb_spec 0 (number head)), (Z.eqb_spec (number head - 1) (target_number (vote_data snap)));
      cbn [andb]; [|split; [done|lia]..].
    destruct (sp (parent_hash head)) as [q|]; [|naive_solver].
    case_bool_decide; [naive_solver|]. rewrite Z.leb_le, div_ceil_quorum by (unfold zlen; lia).
    split; [intros ?; split_and!; [done|lia|]; by exists q|]. by intros (_ & _ & ? & [= <-] & _ & ?). }
  destruct e; naive_solver.
Qed.

Lemma finalized_hash self env ps head snap :
  is_plato_active_at_block (engine_spec self) (number head) = true → snapshot_of env (hash_slow head) = Some snap →
  let h := default 0 (snd <$> get_finalized_number_and_hash self env ps head) in
  (early_final env ps head snap → h = target_hash (vote_data snap)) ∧
  (¬ early_final env ps head snap → h = source_hash (vote_data snap)).
Proof.
  intros Hp Hs. cbv zeta.
  split; intros He.
  - rewrite (proj2 (finalized_iff self env ps head (target_number (vote_data snap), target_hash (vote_data snap)))); eauto 10.
  - rewrite (proj2 (finalized_iff self env ps head (source_number (vote_data snap), source_hash (vote_data snap)))); eauto 10.
Qed.

(** A signed vote of a validator of the parent's set, from the justified block
    of the head to the head. *)
Record votes_for (parent_snap snap : Snapshot) (head : Header) (v : VoteEnvelope) : Prop := {
  vf_signed : verify_vote_envelope v = true;
  vf_member : has_vote_addr (validators_map parent_snap) (vote_address v) = true;
  vf_target : target_number (data v) = number head ∧ target_hash (data v) = hash_slow head;
  vf_source : source_number (data v) = target_number (vote_data snap) ∧
              (target_hash (vote_data snap) ≠ 0 → source_hash (data v) = target_hash (vote_data snap));
}.

(** Whoever finds the header of [head] by its hash finds [head]. *)
Definition resolves (Env : Shared → Prop) (head : Header) : Prop :=
  ∀ env x, Env env → get_canonical_header_by_hash_from_provider env (hash_slow head) = Some x → x = head.

Lemma eligible_votes_for Env env ps head snap parent_snap v :
  Inj (=) (=) envelope_hash → one_chain Env → Env env → resolves Env head → pool_reachable Env (pool ps) →
  snapshot_of env (hash_slow head) = Some snap → snapshot_of env (parent_hash head) = Some parent_snap →
  v ∈ eligible_votes ps head (target_number (vote_data snap)) → votes_for parent_snap snap head v.
Proof.
  intros Hinj Hone He Hres Hr Hs Hp [[Hsrc Htgt] Hv]%list_elem_of_filter.
  destruct (served_vote _ _ _ _ Hinj Hr Hv) as (Hth & Hsig & env' & He' & Ho).
  apply origin_ok in Ho as (hd & ps' & Hh & _ & Hj & Hps & Hm). rewrite Hth in Hh, Hj.
  apply Hres in Hh as ->; [|done].
  pose proof (sc_snapshot _ _ (Hone _ _ He He') _ _ _ Hp Hps) as <-. split; try done.
  split; [done|]. intros Hnz. apply justified_pair_iff in Hj as (sn & Hsn & Hj).
  pose proof (sc_snapshot _ _ (Hone _ _ He He') _ _ _ Hs Hsn) as <-. unfold justified_pair_of in Hj.
  destruct (Z.eqb_spec (target_hash (vote_data snap)) 0); [done|]. congruence.
Qed.

Lemma eligible_distinct Env ps head j `{!BlsUnique B} :
  Inj (=) (=) envelope_hash → one_chain Env → pool_reachable Env (pool ps) →
  NoDup (vote_address <$> eligible_votes ps head j).
Proof.
  intros Hinj Hone Hr. eapply sublist_NoDup; [by apply (served_votes_distinct Env (pool ps) (hash_slow head))|].
  apply fmap_sublist, sublist_filter.
Qed.

(** ** The update *)

(** Distinct validators, two thirds of the set of the parent, signed votes from
    the justified block of the head to the head. *)
Definition quorum_for env (head : Header) (snap : Snapshot) : Prop :=
  ∃ parent_snap quorum, snapshot_of env (parent_hash head) = Some parent_snap ∧
    NoDup (vote_address <$> quorum) ∧ 2 * zlen (validators parent_snap) <= 3 * zlen quorum ∧
    Forall (votes_for parent_snap snap head) quorum.

(** What the justification [snap] of [head] makes safe: its target, or genesis. *)
Definition safe_of env (snap : Snapshot) : Z :=
  if target_hash (vote_data snap) =? 0
  then from_option hash_slow 0 (get_canonical_header_by_number env 0) else target_hash (vote_data snap).

(** What is told of [head] while the pool is [ps], exactly: its hash; as safe
    what its justification makes safe; as finalized the source of its
    justification, or its target if that is final early, which takes a quorum.
    Zero stands for a block that is not known: before the fork, or without a
    snapshot of the head. *)
Record told_soundly self env (ps : PoolState) (head : Header) (s : ForkchoiceState) : Prop := {
  ts_head : head_block_hash s = hash_slow head;
  ts_unsafe : is_luban_active_at_block (engine_spec self) (number head) = false ∨ snapshot_of env (hash_slow head) = None →
    safe_block_hash s = 0;
  ts_safe snap : is_luban_active_at_block (engine_spec self) (number head) = true →
    snapshot_of env (hash_slow head) = Some snap → safe_block_hash s = safe_of env snap;
  ts_nothing : is_plato_active_at_block (engine_spec self) (number head) = false ∨ snapshot_of env (hash_slow head) = None →
    finalized_block_hash s = 0;
  ts_final snap : is_plato_active_at_block (engine_spec self) (number head) = true →
    snapshot_of env (hash_slow head) = Some snap →
    (early_final env ps head snap → finalized_block_hash s = target_hash (vote_data snap)) ∧
    (¬ early_final env ps head snap → finalized_block_hash s = source_hash (vote_data snap));
  ts_quorum snap : snapshot_of env (hash_slow head) = Some snap → early_final env ps head snap → quorum_for env head snap;
}.

Lemma state_of_head_hashes self env ps head :
  state_of_head self env ps head =
    {| head_block_hash := hash_slow head;
       safe_block_hash := default 0 (snd <$> get_justified_number_and_hash self env head);
       finalized_block_hash := default 0 (snd <$> get_finalized_number_and_hash self env ps head) |}.
Proof.
  unfold state_of_head. by destruct (get_justified_number_and_hash _ _ _) as [[]|],
    (get_finalized_number_and_hash _ _ _ _) as [[]|].
Qed.

Lemma justified_hash self env head :
  let h := default 0 (snd <$> get_justified_number_and_hash self env head) in
  (is_luban_active_at_block (engine_spec self) (number head) = false ∨ snapshot_of env (hash_slow head) = None → h = 0) ∧
  (∀ snap, is_luban_active_at_block (engine_spec self) (number head) = true →
     snapshot_of env (hash_slow head) = Some snap → h = safe_of env snap).
Proof.
  unfold get_justified_number_and_hash, justified_pair_for_hash, snapshot_of, safe_of, justified_pair_of. cbv zeta.
  destruct (is_luban_active_at_block _ _); cbn [negb]; [|split; [done|done]].
  destruct (get_snapshot_provider env) as [sp|]; cbn; [|done]. destruct (sp (hash_slow head)) as [snap|]; cbn; [|done].
  split; [by intros []|]. intros ? _ [= <-]. case_if; [|done]. by destruct (get_canonical_header_by_number env 0).
Qed.

Lemma state_of_head_sound Env self env ps head `{!BlsUnique B} :
  Inj (=) (=) envelope_hash → one_chain Env → Env env → resolves Env head → pool_reachable Env (pool ps) →
  told_soundly self env ps head (state_of_head self env ps head).
Proof.
  intros Hinj Hone He Hres Hr. rewrite state_of_head_hashes. destruct (justified_hash self env head) as [Hj0 Hj].
  split; cbn; [done|exact Hj0|exact Hj| | |].
  - intros Hno. destruct (get_finalized_number_and_hash self env ps head) as [p|] eqn:Ef; [|done].
    apply finalized_iff in Ef as (? & snap & ? & _). destruct Hno; congruence.
  - intros snap Hp Hs. by apply finalized_hash.
  - intros snap Hs (_ & Hn & psnap & Hp & _ & Hq). exists psnap, (eligible_votes ps head (target_number (vote_data snap))).
    split_and!; [done|by apply (eligible_distinct Env)|done|].
    apply Forall_forall. intros v Hv. by apply (eligible_votes_for Env env ps).
Qed.

Lemma child_wins self coin env incoming current cache it ct :
  is_plato_active_at_block (engine_spec self) (number incoming) = true →
  parent_hash incoming = hash_slow current → (header_td_fcu self incoming current cache).1 = Done (Some it, Some ct) →
  0 < difficulty incoming → 0 <= ct → ct + difficulty incoming < 2 ^ 256 →
  default 0 (fst <$> get_justified_number_and_hash self env current) <=
    default 0 (fst <$> get_justified_number_and_hash self env incoming) →
  (engine_is_need_reorg self coin env incoming current cache).1 = Done true.
Proof.
  intros Hp Hpar Htd Hd Hc Hov Hj. unfold engine_is_need_reorg.
  destruct (header_td_fcu self incoming current cache) as [r c]. cbn in Htd. subst r. cbn.
  apply is_need_reorg_spec; [done|]. left. unfold prefers. cbn.
  apply Z.le_lteq in Hj as [Hj|Hj]; [by left|]. right. split; [done|].
  unfold monotone_td. rewrite Hpar, Z.eqb_refl. unfold add_u256.
  destruct (Z.leb_spec it ct); eexists _, ct; (split; [reflexivity|]); split; [done|left|done|left; lia].
  rewrite Z.mod_small; lia.
Qed.

(** C30: the chain grows.  From Plato on, a child of the canonical head whose
    justified block is not older than the head's becomes the head the engine
    is told of, whatever the engine's difficulties say and even when it fails to
    know the child's, as long as it knows the head's and does not claim that the
    child has none. *)
Theorem child_becomes_head self coin env after incoming current st ct :
  current_head_of self = Done current → parent_hash incoming = hash_slow current →
  is_plato_active_at_block (engine_spec self) (number incoming) = true →
  NoDup (lru_iter (header_td_cache st)).*1 → 0 < lru_cap (header_td_cache st) →
  (header_td self (number current) (hash_slow current) (header_td_cache st)).1 = Done (Some ct) →
  td_obtainable self incoming (header_td_cache st) →
  0 < difficulty incoming → 0 <= ct → ct + difficulty incoming < 2 ^ 256 →
  default 0 (fst <$> get_justified_number_and_hash self env current) <=
    default 0 (fst <$> get_justified_number_and_hash self env incoming) →
  head_block_hash <$> told (update_forkchoice self coin env after incoming st).2 =
    (head_block_hash <$> told st) ++ [hash_slow incoming].
Proof.
  intros Hcur Hpar Hp Hnd Hcap Hct Hob Hd Hc0 Hov Hj.
  destruct (child_td self incoming current _ ct Hnd Hcap Hpar Hct Hob) as [it Htd].
  pose proof (child_wins self coin env incoming current _ it ct Hp Hpar Htd Hd Hc0 Hov Hj) as Hw.
  unfold update_forkchoice. rewrite Hcur.
  destruct (engine_is_need_reorg _ _ _ _ _ _) as [r c]. cbn in Hw. subst r. cbn [snd told].
  by rewrite fmap_app, state_of_head_hashes.
Qed.


(** ** Early finality *)

Lemma notified_quorum env th n ps :
  maybe_notify_finality env th n ps ≠ ps →
  ∃ head snap, finality_head env ps th = Some (head, snap) ∧
    maybe_notify_finality env th n ps = notify th head (has_fork_choice_engine env) ps ∧
    2 * zlen (validators snap) <= 3 * zlen (eligible_votes ps head (target_number (vote_data snap))).
Proof.
  unfold maybe_notify_finality. destruct (finality_head env ps th) as [[head snap]|] eqn:Ef; [|done].
  intros Hne. exists head, snap. split; [done|].
  destruct (_ <? _); [done|]. revert Hne. case_match eqn:Eq; [done|]. intros _. split; [done|].
  apply Z.ltb_ge in Eq. apply finality_head_Some in Ef as (_ & <- & _ & _).
  by apply div_ceil_quorum; [unfold zlen; lia|].
Qed.

Lemma same_head_decided self coin env head cache t :
  NoDup (lru_iter cache).*1 → 0 < lru_cap cache →
  (header_td self (number head) (hash_slow head) cache).1 = Done (Some t) →
  ∃ b, (engine_is_need_reorg self coin env head head cache).1 = Done b.
Proof.
  intros Hnd Hcap Ht. unfold engine_is_need_reorg, header_td_fcu.
  pose proof (td_remembered self self (number head) (number head) (hash_slow head) cache _ Hnd Hcap Ht) as Hr.
  destruct (header_td self (number head) (hash_slow head) cache) as [r c]. cbn in Ht, Hr. subst r.
  destruct (header_td self (number head) (hash_slow head) c) as [r c']. cbn in Hr. subst r. cbn.
  unfold is_need_reorg. destruct (head_choice_with_fast_finality _ _ _); [by eexists|].
  unfold head_choice_with_td, monotone_td. cbn. destruct (_ =? _); [rewrite Z.leb_refl|]; cbn; case_match; by eexists.
Qed.

(** C31: what the pool's notification achieves.  When a quorum of votes makes
    the pool send the canonical head to the engine, the engine is told of that
    head with its parent, the justified block, as finalized exactly if the votes
    are also two thirds of the validators of the parent's snapshot, and
    otherwise with the old source; so the notification finalizes if the set did
    not shrink at the head, which is what the pool measures the quorum by. *)
Theorem early_finality_exact self coin env after th n st t :
  let ps := maybe_notify_finality env th n (votes st) in
  ps ≠ votes st → has_fork_choice_engine env = true →
  NoDup (lru_iter (header_td_cache st)).*1 → 0 < lru_cap (header_td_cache st) →
  ∃ head snap, forkchoice_updates ps = forkchoice_updates (votes st) ++ [head] ∧
    snapshot_of env (hash_slow head) = Some snap ∧
    ∀ parent_snap,
      current_head_of self = Done head →
      (header_td self (number head) (hash_slow head) (header_td_cache st)).1 = Done (Some t) →
      is_plato_active_at_block (engine_spec self) (number head) = true →
      0 < number head → snapshot_of env (parent_hash head) = Some parent_snap → validators parent_snap ≠ [] →
      let quorum := eligible_votes ps head (target_number (vote_data snap)) in
      ∃ s, told (update_forkchoice self coin env after head
                   {| header_td_cache := header_td_cache st; votes := ps; told := told st |}).2 = told st ++ [s] ∧
        head_block_hash s = hash_slow head ∧
        (2 * zlen (validators parent_snap) <= 3 * zlen quorum → finalized_block_hash s = target_hash (vote_data snap)) ∧
        (3 * zlen quorum < 2 * zlen (validators parent_snap) → finalized_block_hash s = source_hash (vote_data snap)) ∧
        (zlen (validators parent_snap) <= zlen (validators snap) → finalized_block_hash s = target_hash (vote_data snap)).
Proof.
  intros ps Hne Heng Hnd Hcap. destruct (notified_quorum _ _ _ _ Hne) as (head & snap & Hf & Hn & Hq).
  fold ps in Hn. apply finality_head_Some in Hf as (_ & Hh & Hs & Hnum). rewrite <- Hh in Hs.
  exists head, snap. split; [rewrite Hn; cbn; by rewrite Heng|]. split; [done|].
  intros psnap Hcur Ht Hp Hpos Hps Hne' quorum.
  assert (Hel : quorum = eligible_votes (votes st) head (target_number (vote_data snap))) by (unfold quorum; by rewrite Hn).
  destruct (same_head_decided self coin env head _ t Hnd Hcap Ht) as [b Hb].
  exists (state_of_head self env ps head). split.
  { unfold update_forkchoice. rewrite Hcur. cbn [header_td_cache].
    destruct (engine_is_need_reorg self coin env head head (header_td_cache st)) as [r c]. cbn in Hb. subst r.
    cbn. by destruct b. }
  rewrite state_of_head_hashes. cbn [head_block_hash finalized_block_hash]. split; [done|].
  assert (Hfin : 2 * zlen (validators psnap) <= 3 * zlen quorum →
    default 0 (snd <$> get_finalized_number_and_hash self env ps head) = target_hash (vote_data snap)).
  { intros Hq'. apply (finalized_hash self env ps head snap Hp Hs). split_and!; [done|done|]. by exists psnap. }
  split_and!; [exact Hfin| |intros; apply Hfin; rewrite Hel; lia].
  intros Hq'. apply (finalized_hash self env ps head snap Hp Hs). intros (_ & _ & psnap' & Hps' & _ & Hq'').
  rewrite Hps in Hps'. injection Hps' as <-. unfold quorum in Hq'. lia.
Qed.
End EngineProps.
