(* ===== verification/ForkChoiceEngineDemo.v ===== *)
(** * ForkChoiceEngineDemo: the fork choice engine on a concrete network

    The pool and chain of [VotePoolDemo]: a quorum for the head finalizes its
    parent, a child becomes the head though the engine does not know it, and a
    shrinking validator set leaves a notification without effect. *)

From stdpp Require Import base tactics numbers option list gmap strings.
From Stdlib Require Import ZArith Lia Bool.
From S2P Require Import Prelude.
From S2P Require Import Hardforks.
From S2P Require Import Header.
From S2P Require Import Snapshot.
From S2P Require Import SnapshotProps.
From S2P Require Import SnapshotClaims.
From S2P Require Import Extra.
From S2P Require Import ExtraProps.
From S2P Require Import Attestation.
From S2P Require Import AttestationProps.
From S2P Require Import AttestationDemo.
From S2P Require Import ForkChoice.
From S2P Require Import Collections.
From S2P Require Import VoteMonitor.
From S2P Require Import VotePool.
From S2P Require Import VotePoolProps.
From S2P Require Import VotePoolClaims.
From S2P Require Import VotePoolPromotion.
From S2P Require Import VotePoolFinality.
From S2P Require Import VotePoolDemo.
From S2P Require Import ForkChoiceEngine.
From S2P Require Import ForkChoiceEngineProps.

Module EngineNet.
Import ThresholdForks DemoApis DemoChain ExtraDemo TaggedRlp AttestationNet ListContainers PoolNet.

(** The engine knows the difficulty of the head and fails on every other. *)
Definition engine : BscForkChoiceEngine := {|
  provider := {| best_number := Done (top + 1);
                 header_by_number n := Done (if n =? top + 1 then Some h1 else None) |};
  engine_handle := {| query_td n _ := if n =? top + 1 then Done (Some 100) else Fail "unknown block"%string;
                      fork_choice_updated _ := Done Valid |};
  engine_spec := mainnet;
|}.

Definition fresh (ps : PoolState) : EngineState := engine_new ps.

Lemma head_resolves justified : resolves (eq (node justified)) h1.
Proof. intros ? x <- Hx. vm_compute in Hx. by injection Hx as <-. Qed.

Definition told_final : ForkchoiceState :=
  {| head_block_hash := 7000 + (top + 1); safe_block_hash := 7000 + top; finalized_block_hash := 7000 + top |}.

Example quorum_finalizes : told (update_forkchoice engine false env1 env1 h1 (fresh st_final)).2 = [told_final].
Proof. by vm_compute. Qed.


(** ** The child of the head *)

(** The child justifies nothing new. *)
Definition env_child : Shared := {|
  get_best_canonical_block_number := get_best_canonical_block_number env1;
  get_canonical_header_by_number := get_canonical_header_by_number env1;
  header_by_hash_provider := header_by_hash_provider env1;
  get_snapshot_provider := Some (λ h,
    if (h =? 7000 + (top + 1)) || (h =? 7000 + (top + 2)) then Some (head_snapshot justified_top) else None);
  has_fork_choice_engine := true;
|}.

Lemma child_becomes_head_witness :
  head_block_hash <$> told (update_forkchoice engine false env_child env_child h2 (fresh st_final)).2 = [7000 + (top + 2)].
Proof.
  etransitivity; [apply (child_becomes_head engine false env_child env_child h2 h1 (fresh st_final) 100)|by vm_compute].
  1-3: by vm_compute.
  1: constructor.
  1-2: by vm_compute.
  1: split; [by vm_compute|split; by vm_compute].
  all: by vm_compute.
Defined.

(** ** Early finality *)

Lemma early_finality_exact_witness :
  ∃ s, told (update_forkchoice engine false env1 env1 h1
               {| header_td_cache := lru_new 128; votes := notified; told := [] |}).2 = [s] ∧
    finalized_block_hash s = 7000 + top.
Proof.
  destruct (early_finality_exact engine false env1 env1 (7000 + (top + 1)) 2 (fresh (cold st_final)) 100)
    as (head & snap & Hu & Hs & Hrest).
  - intros Hst. apply (f_equal (length ∘ forkchoice_updates)) in Hst. vm_compute in Hst. discriminate Hst.
  - done.
  - constructor.
  - by vm_compute.
  - assert (Eu : forkchoice_updates notified = [h1]) by by vm_compute.
    change (forkchoice_updates notified = [head]) in Hu. rewrite Eu in Hu. injection Hu as <-.
    assert (Es : snapshot_of env1 (hash_slow h1) = Some (head_snapshot justified_top)) by by vm_compute.
    rewrite Es in Hs. injection Hs as <-.
    assert (Ep : snapshot_of env1 (parent_hash h1) = Some s0) by by vm_compute.
    destruct (Hrest s0 eq_refl ltac:(by vm_compute) ltac:(by vm_compute) ltac:(by vm_compute) Ep ltac:(by vm_compute))
      as (s & Ht & _ & Hf & _).
    exists s. split; [exact Ht|]. apply Hf. by vm_compute.
Defined.

(** The head has three validators, its parent still had six: two votes make the
    pool notify the engine, once, and the engine finalizes nothing new. *)
Definition six : Snapshot :=
  {| epoch_num := epoch_num s0; block_number := block_number s0; block_hash := block_hash s0;
     validators := validators s0 ++ [40; 50; 60]; validators_map := validators_map s0;
     recent_proposers := recent_proposers s0; vote_data := vote_data s0; turn_length := turn_length s0;
     block_interval := block_interval s0; recent_fork_hashes := recent_fork_hashes s0 |}.

Definition env_shrunk : Shared := {|
  get_best_canonical_block_number := get_best_canonical_block_number env1;
  get_canonical_header_by_number := get_canonical_header_by_number env1;
  header_by_hash_provider := header_by_hash_provider env1;
  get_snapshot_provider := Some (λ h,
    if h =? 7000 + top then Some six
    else if h =? 7000 + (top + 1) then Some (head_snapshot justified_top) else None);
  has_fork_choice_engine := true;
|}.

Definition st_shrunk : PoolState := foldl (put env_shrunk) state_new [signed 1 final_d; signed 2 final_d].

Example notified_without_effect :
  (number <$> forkchoice_updates st_shrunk) = [top + 1] ∧
  (finalized_block_hash <$> told (update_forkchoice engine false env_shrunk env_shrunk h1 (fresh st_shrunk)).2) = [7000] ∧
  forkchoice_updates (put env_shrunk st_shrunk (signed 3 final_d)) = forkchoice_updates st_shrunk.
Proof. by vm_compute. Qed.
End EngineNet.
