(* ===== verification/EvmEnvProps.v ===== *)
(** * EvmEnvProps: miner and importers execute in the same environment

    The environment in which the miner built a block is the one every importer
    derives from the header that the miner finalized; reconciling it with the
    rules of the block changes nothing. *)

From stdpp Require Import base tactics numbers option list gmap strings.
From Stdlib Require Import ZArith Lia Bool.
From S2P Require Import Prelude.
From S2P Require Import Collections.
From S2P Require Import PaymentLane.
From S2P Require Import Hardforks.
From S2P Require Import Header.
From S2P Require Import Snapshot.
From S2P Require Import SnapshotProps.
From S2P Require Import SnapshotClaims.
From S2P Require Import Extra.
From S2P Require Import ExtraProps.
From S2P Require Import Backoff.
From S2P Require Import BackoffProps.
From S2P Require Import Validation.
From S2P Require Import Seal.
From S2P Require Import Attestation.
From S2P Require Import AttestationProps.
From S2P Require Import AttestationDemo.
From S2P Require Import EvmEnv.
From S2P Require Import Sealing.
From S2P Require Import SealingProps.
From S2P Require Import SealingDemo.

(** ** What finalizing leaves alone *)

Definition extra_only (h h' : Header) : Prop := ∃ e, h' = set_extra_data e h.

#[export] Instance extra_only_refl : Reflexive extra_only.
Proof. intros h. exists (extra_data h). by destruct h. Qed.
#[export] Instance extra_only_trans : Transitive extra_only.
Proof. intros h1 h2 h3 [e ->] [e' ->]. by exists e'. Qed.

Section Finalized.
Context `{F : ForkConditionApi, HashApi, R : AttestationRlp, B : BlsApi, RA : RlpApi, S : SecretKeyApi}.
Implicit Types (self : Parlia) (view : ChainView) (snap : Snapshot) (h : Header).

Lemma pad_vanity_extra h : extra_only h (pad_vanity h).
Proof. unfold pad_vanity. case_if; [by eexists|reflexivity]. Qed.

Lemma prepare_validators_extra self snap vs h h' : prepare_validators self snap vs h = Done h' → extra_only h h'.
Proof.
  unfold prepare_validators. case_if; [intros [= <-]; reflexivity|]. destruct vs as [[vs vas]|]; [|intros [= <-]; reflexivity].
  intros Hp. apply bind_Done in Hp as (e & _ & [= <-]). by exists e.
Qed.

Lemma prepare_turn_length_extra self snap cache h : extra_only h (prepare_turn_length self snap cache h).2.
Proof. unfold prepare_turn_length. case_if; [reflexivity|]. by eexists. Qed.

Lemma assemble_extra self view snap parent h h' :
  assemble_vote_attestation self view snap parent h = Done h' → extra_only h h'.
Proof.
  unfold assemble_vote_attestation. case_if; [intros [= <-]; reflexivity|]. intros Ha.
  apply bind_Done in Ha as ([jn jh] & _ & Ha). apply bind_Done in Ha as ([[votes th] [sn|]] & _ & Ha);
    [|injection Ha as <-; reflexivity].
  apply bind_Done in Ha as (_ & _ & Ha). revert Ha. case_if; [intros [= <-]; reflexivity|]. intros Ha.
  apply bind_Done in Ha as (sigs & _ & Ha). apply bind_Done in Ha as (agg & _ & Ha). revert Ha. case_if; [done|].
  intros [= <-]. by eexists.
Qed.

Lemma append_seal_extra signer self h h' : append_seal signer self h = Done h' → extra_only h h'.
Proof. unfold append_seal. intros Ha. apply bind_Done in Ha as (seal & _ & [= <-]). by eexists. Qed.

(** Finalizing sets difficulty, milliseconds and extra data, nothing else. *)
Lemma finalize_fields signer self view snap parent cache ms evs h0 cache' h :
  finalize_new_header signer self view snap parent cache ms evs h0 = (cache', Done h) →
  ∃ d, calculate_difficulty snap (beneficiary h0) = Done d ∧ extra_only (consensus_fields self d ms h0) h.
Proof.
  unfold finalize_new_header.
  destruct (calculate_difficulty snap (beneficiary h0)) as [d|[]|] eqn:Hd; cbn [or_panic mbind exec_bind]; [|done|done].
  fold (consensus_fields self d ms h0). set (hc := consensus_fields self d ms h0). intros Hfin.
  exists d. split; [done|].
  match type of Hfin with match ?p with _ => _ end = _ => destruct p as [h1| |] eqn:Hp; [|done|done] end.
  assert (Hh1 : extra_only hc h1).
  { etransitivity; [apply pad_vanity_extra|]. revert Hp. case_if; [|intros [= <-]; reflexivity].
    intros Hp. apply bind_Done in Hp as (vs & _ & Hp). destruct (prepare_validators _ _ _ _) as [h2|[]|] eqn:Hv; [|done|done].
    injection Hp as <-. by eapply prepare_validators_extra. }
  pose proof (prepare_turn_length_extra self snap cache h1) as Ht.
  destruct (prepare_turn_length self snap cache h1) as [c h2]. cbn [snd] in Ht.
  injection Hfin as <- Hfin. apply bind_Done in Hfin as (h3 & Ha & Hs).
  etransitivity; [exact Hh1|]. etransitivity; [exact Ht|].
  etransitivity; [|by eapply append_seal_extra].
  unfold try_attestation in Ha. destruct (assemble_vote_attestation _ _ _ _ _) as [h4| |] eqn:Has; [|injection Ha as <-; reflexivity|done].
  injection Ha as <-. by eapply assemble_extra.
Qed.
End Finalized.

(** ** The two environments *)

Section Environments.
Context `{F : ForkConditionApi} `{AC : AlloyConstants} `{BP : !BlobApi} `{AH : AlloyHeader}.
Context `{HashApi, R : AttestationRlp, B : BlsApi, RA : RlpApi, S : SecretKeyApi, PL : !BlobLaws BP} `{L : LruApi}.
Implicit Types (self : Parlia) (view : ChainView) (snap : Snapshot) (h : Header) (spec : ChainSpec).

Lemma lorentz_after_merge spec n t :
  is_lorentz_active_at_timestamp spec n t = true →
  from_merge (spec_id_from (revm_spec_by_timestamp_and_block_number spec t n)) = true.
Proof. intros Hl. unfold revm_spec_by_timestamp_and_block_number. rewrite Hl. by repeat case_if. Qed.

(** The environment of a header already follows the rules of its block. *)
Lemma header_env_normal spec h :
  is_u64 (number h) → is_u64 (timestamp h) → with_block_rules spec (evm_env_for_header spec h) = evm_env_for_header spec h.
Proof.
  intros Hn Ht. unfold with_block_rules. cbn [evm_env_for_header block_env cfg_env cfg_spec inner env_number env_timestamp bsc_block_env_new].
  by rewrite !saturating_u64, bool_decide_true by done.
Qed.

Lemma tagged_same {A} (f : Header → A) self bid h :
  (∀ r h, f (set_requests_hash r h) = f h) → f (tag_payload self bid h) = f h.
Proof. intros Hf. unfold tag_payload, set_block_mev_info. destruct bid; [case_if|]; by rewrite ?Hf. Qed.

(** From Lorentz on, a finalized payload is the assembled header with its
    builder's tag, difficulty, milliseconds and extra data. *)
Lemma finalized_header key self view snap parent ms evs payload caches payload' caches' t :
  finalize_payload key self view snap parent ms evs payload caches = (Done payload', caches') →
  timestamp (payload_header payload) = t →
  is_lorentz_active_at_timestamp (parlia_spec self) (number (payload_header payload)) t = true →
  ∃ d e, calculate_difficulty snap (beneficiary (payload_header payload)) = Done d ∧
    payload_header payload' = set_extra_data e (set_millisecond_part_of_timestamp ms
      (set_difficulty d (tag_payload self (bid_builder payload) (payload_header payload)))).
Proof.
  intros Hfin Ht Hlor. unfold finalize_payload in Hfin.
  destruct (finalize_new_header _ _ _ _ _ _ _ _ _) as [tl [h|er|]] eqn:Hnew; [|done|done].
  injection Hfin as <- _. cbn [payload_header]. apply finalize_fields in Hnew as (d & Hd & e & Hh).
  exists d, e. rewrite tagged_same in Hd by done. split; [done|]. rewrite Hh. unfold consensus_fields.
  cbn [number timestamp set_difficulty]. by rewrite !tagged_same, Ht, Hlor by done.
Qed.

(** C7: miner and importers execute a block in the same environment.  Let the
    miner plan a block from Lorentz and Cancun on, build it in the environment of
    [next_evm_env] and finalize it, with or without a builder's tag.  Then every
    importer derives from the header exactly the block environment in which the
    block was built (number, beneficiary, time, randomness, gas limit, base fee,
    blob price, milliseconds), the same fork, chain and gas cap, reconciling
    it with the rules of the block changes nothing, and its millisecond
    timestamp is the planned one. *)
Theorem miner_env_is_importer_env fuel now1 now2 now3 rr ctx self view parent signer key evs gas_limit' default_extra extra
    out attrs ctx' payload caches payload' caches' :
  let spec := parlia_spec self in
  let n := add64 (number (sealed parent)) 1 in
  let ours := next_evm_env spec (sealed parent) (build_attributes attrs gas_limit' (block_timestamp_ms ctx')) in
  let theirs := evm_env_for_header spec (payload_header payload') in
  prepare_new_attributes fuel now1 now2 now3 rr ctx self parent signer = Done (attrs, ctx') →
  is_u64 (block_timestamp_ms ctx') →
  is_lorentz_active_at_timestamp spec n (attr_timestamp attrs) = true →
  is_cancun_active_at_timestamp spec n (attr_timestamp attrs) = true →
  payload_header payload =
    assemble_block_body_only spec default_extra (inner (block_env ours)) (sealed_hash parent) extra parent out →
  finalize_payload key self view (parent_snapshot ctx) parent (block_timestamp_ms ctx') evs payload caches
    = (Done payload', caches') →
  block_env theirs = block_env ours
  ∧ cfg_spec (cfg_env theirs) = cfg_spec (cfg_env ours)
  ∧ cfg_chain_id (cfg_env theirs) = cfg_chain_id (cfg_env ours)
  ∧ tx_gas_limit_cap (cfg_env theirs) = tx_gas_limit_cap (cfg_env ours)
  ∧ with_block_rules spec theirs = theirs
  ∧ env_milli_timestamp (block_env theirs) = block_timestamp_ms ctx'.
Proof.
  intros spec n ours theirs Hprep Hms Hlor Hcan Hpay Hfin.
  apply prepared_attributes in Hprep as (_ & Hts & Hfee & Hdiff).
  assert (Hu : is_u64 (attr_timestamp attrs)).
  { rewrite Hts. unfold is_u64 in *. split; [apply Z.div_pos; lia|]. apply Z.div_lt_upper_bound; lia. }
  assert (Hun : is_u64 n) by apply wrap64_range.
  set (h0 := assemble_block_body_only _ _ _ _ _ _ _) in *.
  assert (Hn : number h0 = n) by by apply saturating_u64.
  assert (Ht : timestamp h0 = attr_timestamp attrs) by by apply saturating_u64.
  apply (finalized_header _ _ _ _ _ _ _ _ _ _ _ (attr_timestamp attrs)) in Hfin as (d & e & Hd & Hc); [|by rewrite Hpay|by rewrite Hpay, Hn].
  subst theirs. set (h := payload_header payload') in *. rewrite Hpay in Hc, Hd.
  set (ht := tag_payload self (bid_builder payload) h0) in *.
  change (beneficiary h0) with (suggested_fee_recipient attrs) in Hd. rewrite Hfee, Hdiff in Hd. injection Hd as <-.
  assert (Hnt : number ht = n) by (unfold ht; by rewrite tagged_same).
  assert (Htt : timestamp ht = attr_timestamp attrs) by (unfold ht; by rewrite tagged_same).
  assert (Hben : beneficiary ht = signer) by (unfold ht; by rewrite tagged_same).
  destruct (params_from_cancun spec n (attr_timestamp attrs) Hcan) as [p Hparams].
  assert (Hex : excess_blob_gas ht = next_block_excess_blob_gas_with_mendel spec n (attr_timestamp attrs) (sealed parent) (Some p)).
  { unfold ht. rewrite tagged_same by done. unfold h0, assemble_block_body_only. cbn [excess_blob_gas env_number env_timestamp inner
      block_env ours next_evm_env bsc_block_env_new next_timestamp build_attributes]. fold n.
    by rewrite !saturating_u64, Hcan, Hparams by done. }
  assert (Hfields : number h = n ∧ timestamp h = attr_timestamp attrs ∧ beneficiary h = signer ∧ difficulty h = prev_randao attrs
    ∧ gas_limit h = gas_limit' ∧ default 0 (base_fee_per_gas h) = 0 ∧ excess_blob_gas h = excess_blob_gas ht
    ∧ millisecond_remainder h = block_timestamp_ms ctx' mod 1000).
  { rewrite Hc. split_and!; try done.
    - unfold ht. by apply (tagged_same gas_limit).
    - change (default 0 (base_fee_per_gas ht) = 0). unfold ht. rewrite tagged_same by done.
      unfold h0, assemble_block_body_only. cbn [base_fee_per_gas]. by case_if.
    - apply set_ms_remainder. }
  destruct Hfields as (Fn & Ft & Fb & Fd & Fg & Ff & Fe & Fm).
  assert (Henv : block_env (evm_env_for_header spec h) = block_env ours).
  { unfold ours, evm_env_for_header, next_evm_env. cbn [block_env next_timestamp next_fee_recipient next_prev_randao
      next_gas_limit next_milli_remainder build_attributes]. fold n.
    by rewrite Fn, Ft, Fb, Fd, Fg, Ff, Fe, Fm, Hex, Hcan, Hparams, lorentz_after_merge, Hfee by done. }
  split_and!.
  - exact Henv.
  - cbn. by rewrite Fn, Ft.
  - done.
  - cbn. by rewrite Fn, Ft.
  - apply header_env_normal; by rewrite ?Fn, ?Ft.
  - rewrite Henv. unfold env_milli_timestamp. cbn. rewrite saturating_u64, Hts by done.
    unfold is_u64 in Hms. pose proof (Z.div_mod (block_timestamp_ms ctx') 1000). pose proof (Z.mod_pos_bound (block_timestamp_ms ctx') 1000).
    rewrite mul64_small, add64_small; lia.
Qed.
End Environments.

(** ** Witness: the block after Lorentz *)

Module EnvNet.
Import ListContainers ThresholdForks DemoApis DemoChain ExtraDemo TaggedRlp SealDemo AttestationNet SealingNet.

Definition parent2 : SealedHeader :=
  let h := set_timestamp 1760000000 h1 in {| sealed := h; sealed_hash := hash_slow h |}.
Definition ctx2 : MiningContext :=
  {| mc_header := None; parent_header := parent2; parent_snapshot := s1; block_timestamp_ms := 0; end_mining_timestamp_ms := 0 |}.
Definition now2 : Z := 1760000000 * 1000 + 1700.
Definition planned2 : EthPayloadAttributes * MiningContext :=
  get_done planned (prepare_new_attributes 100 now2 now2 now2 (λ _, 0) ctx2 parlia parent2 30).
Definition ours2 : EvmEnv :=
  next_evm_env mainnet (sealed parent2) (build_attributes planned2.1 30000000 (block_timestamp_ms planned2.2)).
Definition payload2 : BscBuiltPayload :=
  {| payload_header := assemble_block_body_only mainnet [] (inner (block_env ours2)) (sealed_hash parent2) [] parent2 out1;
     bid_builder := Some 99; pending_validators := None; pending_turn_length := None; lane_touched := false;
     sidecar_hashes := None |}.
Definition sealed2 : BscBuiltPayload :=
  get_done payload2
    (finalize_payload (Some {| secret_bytes := 30 |}) parlia view s1 parent2 (block_timestamp_ms planned2.2) None payload2 caches1).1.

Lemma miner_env_is_importer_env_witness :
  block_env (evm_env_for_header mainnet (payload_header sealed2)) = block_env ours2 ∧
  env_milli_timestamp (block_env ours2) = block_timestamp_ms planned2.2.
Proof.
  destruct (miner_env_is_importer_env 100 now2 now2 now2 (λ _, 0) ctx2 parlia view parent2 30 (Some {| secret_bytes := 30 |}) None
    30000000 [] [] out1 planned2.1 planned2.2 payload2 caches1 sealed2
    (finalize_payload (Some {| secret_bytes := 30 |}) parlia view s1 parent2 (block_timestamp_ms planned2.2) None payload2 caches1).2)
    as (Henv & _ & _ & _ & _ & Hms).
  - by vm_compute.
  - by split; vm_compute.
  - by vm_compute.
  - by vm_compute.
  - done.
  - by vm_compute.
  - split; [exact Henv|]. transitivity (env_milli_timestamp (block_env (evm_env_for_header mainnet (payload_header sealed2)))); [|exact Hms]. exact (f_equal env_milli_timestamp (eq_sym Henv)).
Defined.
End EnvNet.
