(* ===== verification/NodeConsensusProps.v ===== *)
(** * NodeConsensusProps: a mined header follows its parent

    The checks a node makes of a header against its parent, exactly; and the
    header a miner finalizes passes them: the gas limit stays within the bound,
    the time in milliseconds moves on, the excess blob gas is the expected one. *)

From stdpp Require Import base tactics numbers option list gmap strings.
From Stdlib Require Import ZArith Lia Bool.
From S2P Require Import Prelude.
From S2P Require Import Collections.
From S2P Require Import PaymentLane.
From S2P Require Import Hardforks.
From S2P Require Import Header.
From S2P Require Import Snapshot.
From S2P Require Import SnapshotProps.
From S2P Require Import SnapshotClaims.
From S2P Require Import Extra.
From S2P Require Import ExtraProps.
From S2P Require Import Backoff.
From S2P Require Import BackoffProps.
From S2P Require Import Validation.
From S2P Require Import Seal.
From S2P Require Import Attestation.
From S2P Require Import AttestationProps.
From S2P Require Import AttestationDemo.
From S2P Require Import EvmEnv.
From S2P Require Import Sealing.
From S2P Require Import SealingProps.
From S2P Require Import SealingDemo.
From S2P Require Import NodeConsensus.
From S2P Require Import EvmEnvProps.

(** What [reth] documents of its checks, and how its builder picks a gas limit. *)
Class RethConsensusLaws `{F : ForkConditionApi} `{BP : !BlobApi} (RC : RethConsensus) := {
  hash_number_ok header parent :
    parent_hash header = sealed_hash parent → number header = number (sealed parent) + 1 →
    validate_against_parent_hash_number header parent = Done tt;
  blob_4844_ok header parent p e :
    maybe_next_block_excess_blob_gas parent p = Some e → excess_blob_gas header = Some e → is_Some (blob_gas_used header) →
    validate_against_parent_4844 header parent p = Done tt;
  divisor_pos : 0 < GAS_LIMIT_BOUND_DIVISOR;
  builder_gas_limit : Z → Z → Z;
  builder_gas_limit_eq parent desired :
    let delta := sat_sub64 (parent / GAS_LIMIT_BOUND_DIVISOR) 1 in
    builder_gas_limit parent desired = Z.max (parent - delta) (Z.min desired (parent + delta));
}.

Section GasLimit.
Context `{F : ForkConditionApi} `{BP : !BlobApi} `{RC : !RethConsensus}.
Implicit Types (header parent : Header) (spec : ChainSpec).

Definition bound_divisor spec header : Z :=
  if is_lorentz_active_at_timestamp spec (number header) (timestamp header)
  then GAS_LIMIT_BOUND_DIVISOR else GAS_LIMIT_BOUND_DIVISOR_BEFORE_LORENTZ.

(** The gas limit moves by less than a fixed share of the parent's. *)
Lemma gas_limit_accepted_iff header parent spec :
  bound_divisor spec header ≠ 0 →
  validate_bsc_gas_limit_against_parent header parent spec = Done tt ↔
  gas_used header <= gas_limit header <= GAS_LIMIT_CAPACITY ∧ MINIMUM_GAS_LIMIT <= gas_limit header ∧
  Z.abs (gas_limit header - gas_limit parent) < gas_limit parent / bound_divisor spec header.
Proof.
  intros Hd. unfold validate_bsc_gas_limit_against_parent. fold (bound_divisor spec header).
  destruct (Z.ltb_spec GAS_LIMIT_CAPACITY (gas_limit header)); [split; [done|lia]|].
  destruct (Z.ltb_spec (gas_limit header) (gas_used header)); [split; [done|lia]|].
  rewrite (proj2 (Z.eqb_neq _ _) Hd). cbn [negb rassert mbind exec_bind].
  destruct (Z.leb_spec (gas_limit parent / bound_divisor spec header) (Z.abs (gas_limit parent - gas_limit header)));
    [split; [done|lia]|].
  destruct (Z.ltb_spec (gas_limit header) MINIMUM_GAS_LIMIT); cbn [orb]; [split; [done|lia]|]. split; [lia|done].
Qed.

Lemma builder_limit_bounds `{RL : !RethConsensusLaws RC} p0 desired :
  GAS_LIMIT_BOUND_DIVISOR <= p0 → MINIMUM_GAS_LIMIT <= desired → MINIMUM_GAS_LIMIT <= p0 →
  desired <= GAS_LIMIT_CAPACITY → p0 <= GAS_LIMIT_CAPACITY →
  let l := builder_gas_limit p0 desired in
  MINIMUM_GAS_LIMIT <= l <= GAS_LIMIT_CAPACITY ∧ Z.abs (l - p0) < p0 / GAS_LIMIT_BOUND_DIVISOR.
Proof.
  intros Hp Hd Hm Hdc Hpc. cbv zeta. rewrite builder_gas_limit_eq. unfold sat_sub64.
  pose proof divisor_pos. assert (1 <= p0 / GAS_LIMIT_BOUND_DIVISOR) by (apply Z.div_le_lower_bound; lia). lia.
Qed.
End GasLimit.

(** After execution a block is accepted exactly if the receipts account for the
    gas, root and bloom of the header; from Prague on the requests hash has to be
    there, whatever it is. *)
Lemma post_execution_iff `{F : ForkConditionApi} `{BP : !BlobApi} `{RC : !RethConsensus} `{Rc : Receipts} spec header receipts :
  validate_block_post_execution spec header receipts = Done tt ↔
  gas_used header = from_option cumulative_gas_used 0 (last receipts) ∧
  (is_byzantium_active_at_block spec (number header) = true →
   calculate_receipt_root receipts = receipts_root header ∧
   fold_left (λ bloom r, Z.lor bloom (receipt_bloom r)) receipts 0 = logs_bloom header) ∧
  (is_prague_active_at_block_and_timestamp spec (number header) (timestamp header) = true → is_Some (requests_hash header)).
Proof.
  unfold validate_block_post_execution, verify_receipts, compare_receipts_root_and_logs_bloom. cbv zeta.
  change (match last receipts with Some r => cumulative_gas_used r | None => 0 end)
    with (from_option cumulative_gas_used 0 (last receipts)).
  destruct (Z.eqb_spec (gas_used header) (from_option cumulative_gas_used 0 (last receipts))); cbn [negb]; [|naive_solver].
  assert (Hreq : (if is_prague_active_at_block_and_timestamp spec (number header) (timestamp header)
      && bool_decide (requests_hash header = None) then Fail NoRequestsHash else Done tt) = Done tt ↔
    (is_prague_active_at_block_and_timestamp spec (number header) (timestamp header) = true → is_Some (requests_hash header))).
  { destruct (is_prague_active_at_block_and_timestamp _ _ _); [|naive_solver]. cbn [andb].
    case_bool_decide as Hn; [rewrite Hn|rewrite <- not_eq_None_Some]; naive_solver. }
  destruct (is_byzantium_active_at_block _ _); cbn [mbind exec_bind]; [|rewrite Hreq; naive_solver].
  destruct (Z.eqb_spec (calculate_receipt_root receipts) (receipts_root header)); cbn [negb mbind exec_bind];
    [|split; [done|]; intros (_ & Hr & _); by destruct (Hr eq_refl)].
  match goal with |- context [negb (?a =? ?b)] => destruct (Z.eqb_spec a b) end; cbn [negb mbind exec_bind];
    [rewrite Hreq; tauto|split; [done|]; intros (_ & Hr & _); by destruct (Hr eq_refl)].
Qed.

Section Follows.
Context `{F : ForkConditionApi} `{AC : AlloyConstants} `{BP : !BlobApi} `{AH : AlloyHeader}.
Context `{HashApi, R : AttestationRlp, B : BlsApi, RA : RlpApi, S : SecretKeyApi, PL : !BlobLaws BP} `{L : LruApi}.
Context `{RC : !RethConsensus} `{RL : !RethConsensusLaws RC}.
Implicit Types (self : Parlia) (view : ChainView) (snap : Snapshot) (h : Header) (spec : ChainSpec).

(** The miner's excess blob gas is what the check against the parent expects. *)
Lemma assembled_excess_ok spec h parent p :
  blob_params_at_timestamp spec (timestamp h) = Some p → is_Some (blob_gas_used h) →
  excess_blob_gas h = next_block_excess_blob_gas_with_mendel spec (number h) (timestamp h) parent (Some p) →
  (should_recalculate_excess_blob_gas spec (number h) (timestamp h) = true → is_Some (maybe_next_block_excess_blob_gas parent p)) →
  validate_excess_against_parent spec h parent = Done tt.
Proof.
  intros Hp Hu He Hs. unfold validate_excess_against_parent. rewrite Hp, He. unfold next_block_excess_blob_gas_with_mendel. cbn.
  destruct (should_recalculate_excess_blob_gas _ _ _) eqn:Er; cbn [negb].
  - rewrite andb_false_r. destruct (Hs eq_refl) as [e Hm]. rewrite (blob_4844_ok h parent p e); [done|done| |done].
    rewrite He. unfold next_block_excess_blob_gas_with_mendel. cbn. by rewrite Er, Hm.
  - unfold should_recalculate_excess_blob_gas in Er. destruct (is_mendel_active_at_timestamp _ _ _); [|done].
    cbn. by rewrite Z.eqb_refl.
Qed.

Lemma finalized_same {A} (f : Header → A) self bid e ms d h :
  (∀ x h, f (set_extra_data x h) = f h) → (∀ x h, f (set_difficulty x h) = f h) →
  (∀ x h, f (set_mix_hash x h) = f h) → (∀ x h, f (set_requests_hash x h) = f h) →
  f (set_extra_data e (set_millisecond_part_of_timestamp ms (set_difficulty d (tag_payload self bid h)))) = f h.
Proof. intros H1 H2 H3 H4. rewrite H1. unfold set_millisecond_part_of_timestamp. by rewrite H3, H2, tagged_same. Qed.

Lemma finalized_ms self bid e ms d h :
  timestamp h = ms / 1000 → is_u64 ms →
  calculate_millisecond_timestamp
    (set_extra_data e (set_millisecond_part_of_timestamp ms (set_difficulty d (tag_payload self bid h)))) = ms.
Proof.
  intros Ht Hms. unfold calculate_millisecond_timestamp. rewrite (finalized_same timestamp), Ht by done.
  replace (millisecond_remainder _) with (ms mod 1000) by (symmetry; exact (set_ms_remainder ms _)).
  unfold is_u64 in Hms. pose proof (Z.div_mod ms 1000). pose proof (Z.mod_pos_bound ms 1000).
  rewrite mul64_small, add64_small; lia.
Qed.

(** C29: what the miner seals also follows its parent.  From Lorentz and Cancun
    on, let the miner plan a block, build it with the gas limit its
    configuration gives for the parent and finalize it.  Then every node accepts
    the header against the parent: number and hash link up, the time in
    milliseconds has moved on by at least the block interval, the gas limit is
    within the bounds and covers the gas used, and the excess blob gas is the
    expected one. *)
Theorem mined_header_follows_parent fuel now1 now2 now3 rr ctx self view parent signer key evs desired default_extra extra
    out attrs ctx' payload caches payload' caches' :
  let spec := parlia_spec self in
  let snap := parent_snapshot ctx in
  let n := number (sealed parent) + 1 in
  let limit := builder_gas_limit (gas_limit (sealed parent)) desired in
  let ours := next_evm_env spec (sealed parent) (build_attributes attrs limit (block_timestamp_ms ctx')) in
  let h := payload_header payload' in
  prepare_new_attributes fuel now1 now2 now3 rr ctx self parent signer = Done (attrs, ctx') →
  zlen (validators snap) < 2 ^ 31 → 0 < block_interval snap → 0 <= now2 < 2 ^ 63 →
  0 <= calculate_millisecond_timestamp (sealed parent) →
  calculate_millisecond_timestamp (sealed parent) + block_interval snap + 2000 + 1000 * zlen (validators snap) < 2 ^ 63 →
  is_u64 n →
  is_lorentz_active_at_timestamp spec n (attr_timestamp attrs) = true →
  is_cancun_active_at_timestamp spec n (attr_timestamp attrs) = true →
  GAS_LIMIT_BOUND_DIVISOR <= gas_limit (sealed parent) <= GAS_LIMIT_CAPACITY →
  MINIMUM_GAS_LIMIT <= gas_limit (sealed parent) → MINIMUM_GAS_LIMIT <= desired <= GAS_LIMIT_CAPACITY →
  ex_gas_used out <= limit →
  (∀ p, blob_params_at_timestamp spec (attr_timestamp attrs) = Some p →
        should_recalculate_excess_blob_gas spec n (attr_timestamp attrs) = true →
        is_Some (maybe_next_block_excess_blob_gas (sealed parent) p)) →
  payload_header payload =
    assemble_block_body_only spec default_extra (inner (block_env ours)) (sealed_hash parent) extra parent out →
  finalize_payload key self view snap parent (block_timestamp_ms ctx') evs payload caches = (Done payload', caches') →
  validate_header_against_parent spec h parent = Done tt
  ∧ calculate_millisecond_timestamp (sealed parent) + block_interval snap <= calculate_millisecond_timestamp h.
Proof.
  intros spec snap n limit ours h Hprep Hsize Hint Hnow Hpar Hsum Hun Hlor Hcan Hpg Hpm Hdes Hgas Hmay Hpay Hfin.
  assert (Hadd : add64 (number (sealed parent)) 1 = n) by (unfold add64; by apply wrap64_small).
  apply prepared_attributes in Hprep as (Hbt & Hts & Hfee & _). fold snap in Hbt.
  pose proof (zlen_nonneg (validators snap)).
  destruct (block_time_bounds _ _ _ _ _ _ _ Hsize ltac:(unfold is_u64; lia) Hnow Hpar Hsum Hbt)
    as (Hms & _ & b & _ & _ & Hb & Hge).
  set (ms := block_timestamp_ms ctx') in *.
  assert (Hu : is_u64 (attr_timestamp attrs)).
  { rewrite Hts. unfold is_u64 in *. split; [apply Z.div_pos; lia|]. apply Z.div_lt_upper_bound; lia. }
  set (h0 := assemble_block_body_only _ _ _ _ _ _ _) in *.
  assert (Hn : number h0 = n).
  { change (number h0) with (saturating_to_u64 (add64 (number (sealed parent)) 1)). rewrite Hadd. by apply saturating_u64. }
  assert (Ht : timestamp h0 = attr_timestamp attrs) by by apply saturating_u64.
  destruct (params_from_cancun spec n (attr_timestamp attrs) Hcan) as [p Hparams].
  assert (Hex : excess_blob_gas h0 = next_block_excess_blob_gas_with_mendel spec n (attr_timestamp attrs) (sealed parent) (Some p)
                ∧ is_Some (blob_gas_used h0)).
  { unfold h0, assemble_block_body_only. cbn [excess_blob_gas blob_gas_used env_number env_timestamp inner
      block_env ours next_evm_env bsc_block_env_new next_timestamp build_attributes]. rewrite Hadd.
    rewrite !saturating_u64, Hcan, Hparams by done. eauto. }
  destruct Hex as [Hex Hused].
  apply (finalized_header _ _ _ _ _ _ _ _ _ _ _ (attr_timestamp attrs)) in Hfin as (d & e & _ & Hc);
    [|by rewrite Hpay|by rewrite Hpay, Hn].
  fold h in Hc. rewrite Hpay in Hc.
  assert (Hall : ∀ {A} (f : Header → A), (∀ x h, f (set_extra_data x h) = f h) → (∀ x h, f (set_difficulty x h) = f h) →
            (∀ x h, f (set_mix_hash x h) = f h) → (∀ x h, f (set_requests_hash x h) = f h) → f h = f h0)
    by (intros; rewrite Hc; by apply finalized_same).
  assert (Htime : calculate_millisecond_timestamp h = ms) by (rewrite Hc; apply finalized_ms; [by rewrite Ht|done]).
  split; [|lia].
  unfold validate_header_against_parent.
  rewrite hash_number_ok by (rewrite ?(Hall _ parent_hash), ?(Hall _ number) by done; done).
  cbn [map_err mbind exec_bind]. rewrite Htime, (proj2 (Z.leb_gt _ _)) by lia.
  destruct (builder_limit_bounds (gas_limit (sealed parent)) desired) as [Hl1 Hl2]; [lia..|].
  assert (Hdiv : bound_divisor spec h ≠ 0) by (unfold bound_divisor; case_if; [pose proof divisor_pos; lia|done]).
  rewrite (proj2 (gas_limit_accepted_iff h (sealed parent) spec Hdiv)).
  2: { unfold bound_divisor. rewrite (Hall _ number), (Hall _ timestamp), Hn, Ht, Hlor by done.
       rewrite (Hall _ gas_limit), (Hall _ gas_used) by done.
       change (gas_limit h0) with limit. change (gas_used h0) with (ex_gas_used out). unfold limit. fold limit in Hgas. lia. }
  cbn [mbind exec_bind]. rewrite (Hall _ number), (Hall _ timestamp), Hn, Ht, Hcan by done.
  apply (assembled_excess_ok spec h (sealed parent) p);
    rewrite ?(Hall _ number), ?(Hall _ timestamp), ?(Hall _ excess_blob_gas), ?(Hall _ blob_gas_used), ?Hn, ?Ht by done; auto.
Qed.
End Follows.

(** ** Witness *)

Module NodeNet.
Import ListContainers ThresholdForks DemoApis DemoChain ExtraDemo TaggedRlp SealDemo AttestationNet SealingNet EnvNet.

#[export] Instance demo_reth : RethConsensus := {|
  RethError := unit;
  validate_against_parent_hash_number h p :=
    if (parent_hash h =? sealed_hash p) && (number h =? number (sealed p) + 1) then Done tt else Fail tt;
  validate_against_parent_4844 h p _ :=
    if bool_decide (excess_blob_gas h = excess_blob_gas p ∧ is_Some (blob_gas_used h)) then Done tt else Fail tt;
  is_byzantium_active_at_block _ _ := true;
  GAS_LIMIT_BOUND_DIVISOR := 1024;
  MINIMUM_GAS_LIMIT := 5000;
|}.

#[export, refine] Instance demo_reth_laws : RethConsensusLaws demo_reth := {|
  builder_gas_limit p d :=
    let delta := sat_sub64 (p / 1024) 1 in Z.max (p - delta) (Z.min d (p + delta));
|}.
Proof.
  - intros h p Hp Hn. cbn. by rewrite Hp, Hn, !Z.eqb_refl.
  - intros h p [] e Hm He Hu. cbn in *. by rewrite Hm, He, bool_decide_true.
  - done.
  - done.
Defined.

(** The block after Lorentz, on a parent that carries a gas limit. *)
Definition with_gas_limit (g : Z) (h : Header) : Header :=
  {| parent_hash := parent_hash h; ommers_hash := ommers_hash h; beneficiary := beneficiary h; state_root := state_root h;
     transactions_root := transactions_root h; receipts_root := receipts_root h; logs_bloom := logs_bloom h;
     difficulty := difficulty h; number := number h; gas_limit := g; gas_used := gas_used h; timestamp := timestamp h;
     extra_data := extra_data h; mix_hash := mix_hash h; nonce := nonce h; base_fee_per_gas := base_fee_per_gas h;
     withdrawals_root := withdrawals_root h; blob_gas_used := Some 0; excess_blob_gas := Some 0;
     parent_beacon_block_root := parent_beacon_block_root h; requests_hash := requests_hash h;
     block_access_list_hash := block_access_list_hash h; slot_number := slot_number h |}.

Definition parent3 : SealedHeader :=
  let h := with_gas_limit 100000000 (sealed parent2) in {| sealed := h; sealed_hash := hash_slow h |}.
Definition planned3 : EthPayloadAttributes * MiningContext :=
  get_done planned (prepare_new_attributes 100 now2 now2 now2 (λ _, 0) ctx2 parlia parent3 30).
Definition limit3 : Z := builder_gas_limit 100000000 140000000.
Definition ours3 : EvmEnv :=
  next_evm_env mainnet (sealed parent3) (build_attributes planned3.1 limit3 (block_timestamp_ms planned3.2)).
Definition payload3 : BscBuiltPayload :=
  {| payload_header := assemble_block_body_only mainnet [] (inner (block_env ours3)) (sealed_hash parent3) [] parent3 out1;
     bid_builder := Some 99; pending_validators := None; pending_turn_length := None; lane_touched := false;
     sidecar_hashes := None |}.
Definition finalized3 := finalize_payload (Some {| secret_bytes := 30 |}) parlia view s1 parent3
  (block_timestamp_ms planned3.2) None payload3 caches1.
Definition sealed3 : BscBuiltPayload := get_done payload3 finalized3.1.

Lemma mined_header_follows_parent_witness :
  validate_header_against_parent mainnet (payload_header sealed3) parent3 = Done tt.
Proof.
  apply (mined_header_follows_parent 100 now2 now2 now2 (λ _, 0) ctx2 parlia view parent3 30 (Some {| secret_bytes := 30 |}) None
    140000000 [] [] out1 planned3.1 planned3.2 payload3 caches1 sealed3 finalized3.2).
  1-2: by vm_compute.
  1: by vm_compute.
  1: split; by vm_compute.
  1-2: by vm_compute.
  1: split; by vm_compute.
  1-2: by vm_compute.
  1: split; by vm_compute.
  1: by vm_compute.
  1: split; by vm_compute.
  1: by vm_compute.
  1: intros [] _ _; by exists 0.
  1: reflexivity.
  by vm_compute.
Defined.
End NodeNet.
