(* ===== verification/BidBlockProps.v ===== *)
(** * BidBlockProps: what a validator signs for a builder

    The payload of a bid is accepted exactly if its tail has the shape the
    validator would produce itself, and only that tail is signed; the signature
    of the builder covers the transactions; and the block that results is
    accepted by every node. *)

From stdpp Require Import base tactics numbers option list gmap strings.
From Stdlib Require Import ZArith Lia Bool.
From S2P Require Import Prelude.
From S2P Require Import Hardforks.
From S2P Require Import Header.
From S2P Require Import Snapshot.
From S2P Require Import SnapshotProps.
From S2P Require Import Extra.
From S2P Require Import Backoff.
From S2P Require Import Validation.
From S2P Require Import Seal.
From S2P Require Import Attestation.
From S2P Require Import AttestationProps.
From S2P Require Import EvmEnv.
From S2P Require Import Sealing.
From S2P Require Import SealingProps.
From S2P Require Import NodeConsensus.
From S2P Require Import EvmEnvProps.
From S2P Require Import BidBlock.

(** ** The tail of system transactions *)

Lemma check_signable_iff i txs : check_signable i txs = Done tt ↔ Forall (λ tx, is_signable_system_tx tx = true) txs.
Proof.
  revert i. induction txs as [|tx txs IH]; intros i; cbn; [split; [constructor|done]|].
  rewrite Forall_cons. destruct (is_signable_system_tx tx); cbn [negb]; [rewrite IH; naive_solver|naive_solver].
Qed.

Lemma check_selectors_iff i shape txs :
  length txs = length shape →
  check_selectors i shape txs = Done tt ↔
  Forall2 (λ e tx, starts_with (tx_input (typed tx)) (selector e) = true) shape txs.
Proof.
  revert i txs. induction shape as [|e shape IH]; intros i [|tx txs] Hl; try done; cbn.
  rewrite Forall2_cons. destruct (starts_with _ _); cbn [negb]; [rewrite IH by (cbn in Hl; lia); naive_solver|naive_solver].
Qed.

Lemma verify_system_tx_shape_iff txs shape :
  verify_system_tx_shape txs shape = Done tt ↔
  Forall2 (λ e tx, starts_with (tx_input (typed tx)) (selector e) = true) shape txs.
Proof.
  unfold verify_system_tx_shape.
  destruct (Nat.ltb_spec (length txs) (length shape)) as [Hl|Hl].
  { split; [|intros Hf%Forall2_length; lia]. by case_match. }
  destruct (Nat.ltb_spec (length shape) (length txs)); [split; [done|intros Hf%Forall2_length; lia]|].
  apply check_selectors_iff. lia.
Qed.

(** A call of the validator contract that can be signed blindly. *)
Definition system_call (e : ExpectedSystemTxEntry) (tx : TransactionSigned) : Prop :=
  is_unsigned_system_tx_candidate tx = true ∧ tx_to (typed tx) = Some VALIDATOR_CONTRACT ∧
  starts_with (tx_input (typed tx)) (selector e) = true.

Lemma shape_signable bi header parent shape e :
  expected_system_tx_shape bi header parent = Done shape → e ∈ shape → selector e ∈ SIGNABLE_SELECTORS.
Proof.
  unfold expected_system_tx_shape. intros Hs Hin. apply bind_Done in Hs as (b & _ & [= <-]).
  destruct (is_multiple_of _ _), b; cbn in Hin; rewrite ?elem_of_cons, elem_of_nil in Hin;
    unfold SIGNABLE_SELECTORS; rewrite !elem_of_cons; naive_solver.
Qed.

Lemma starts_with_length data prefix : starts_with data prefix = true → (length prefix <= length data)%nat.
Proof.
  unfold starts_with. intros Ht%bool_decide_eq_true. apply (f_equal length) in Ht. rewrite length_take in Ht. lia.
Qed.

Lemma signable_selector s data : s ∈ SIGNABLE_SELECTORS → starts_with data s = true → has_signable_selector data = true.
Proof.
  intros Hs Hd. unfold has_signable_selector. apply andb_true_iff. split.
  - apply starts_with_length in Hd. unfold SIGNABLE_SELECTORS in Hs. rewrite !elem_of_cons, elem_of_nil in Hs.
    apply Z.leb_le. unfold zlen. destruct Hs as [->|[->|[->|[]]]]; cbn in Hd; lia.
  - apply existsb_exists. exists s. split; [by apply list_elem_of_In|done].
Qed.

Lemma system_txs_iff bi txs header parent start :
  (start <= length txs)%nat →
  verify_bid_block_system_txs bi txs header parent start = Done tt ↔
  ∃ shape, expected_system_tx_shape bi header parent = Done shape ∧ Forall2 system_call shape (drop start txs).
Proof.
  intros Hle. unfold verify_bid_block_system_txs. rewrite (proj2 (Nat.leb_le _ _) Hle). cbn [rassert mbind exec_bind].
  split.
  - intros Hv. apply bind_Done in Hv as ([] & Hs%check_signable_iff & Hv). apply bind_Done in Hv as (shape & Hsh & Hv).
    apply verify_system_tx_shape_iff in Hv. exists shape.
    split; [by destruct (expected_system_tx_shape _ _ _) as [x|[]|]; cbn in Hsh; congruence|].
    revert Hs Hv. generalize (drop start txs). clear. intros l Hs Hv. induction Hv as [|e tx es l He _ IH]; [constructor|].
    apply Forall_cons in Hs as [Ht Hs]. constructor; [|by apply IH].
    unfold is_signable_system_tx in Ht. rewrite !andb_true_iff, bool_decide_eq_true in Ht. by destruct Ht as [[? ?] _].
  - intros (shape & Hsh & Hf). rewrite Hsh. cbn [never mbind exec_bind].
    
    rewrite (proj2 (check_signable_iff _ _)).
    + cbn [mbind exec_bind]. apply verify_system_tx_shape_iff. eapply Forall2_impl; [exact Hf|]. by intros e tx (_ & _ & ?).
    + apply Forall_forall. intros tx Htx. apply list_elem_of_lookup_1 in Htx as [i Hi].
      destruct (Forall2_lookup_r _ _ _ _ _ Hf Hi) as (e & He & Hc & Hto & Hst).
      unfold is_signable_system_tx. rewrite Hc, Hto, bool_decide_true by done. cbn [andb].
      eapply signable_selector; [|exact Hst]. by eapply shape_signable, list_elem_of_lookup_2.
Qed.

(** ** Where the tail starts *)

Lemma trailing_split l :
  let k := trailing_candidates l in
  Forall (λ tx, is_unsigned_system_tx_candidate tx = true) (take k l) ∧
  (∀ tx, l !! k = Some tx → is_unsigned_system_tx_candidate tx = false) ∧ (k <= length l)%nat.
Proof.
  induction l as [|tx l IH]; cbn; [by split_and!|].
  destruct (is_unsigned_system_tx_candidate tx) eqn:Ec; cbn [negb].
  - destruct IH as (Hf & Hn & Hl). cbn. split_and!; [by constructor|done|lia].
  - cbn. split_and!; [constructor|by intros ? [= <-]|lia].
Qed.

Lemma trailing_app a b :
  Forall (λ tx, is_unsigned_system_tx_candidate tx = true) a →
  (∀ tx, head b = Some tx → is_unsigned_system_tx_candidate tx = false) →
  trailing_candidates (a ++ b) = length a.
Proof.
  intros Ha Hb. induction Ha as [|tx a Ht _ IH]; cbn; [|by rewrite Ht; cbn; rewrite IH].
  destruct b as [|tx b]; [done|]. cbn. by rewrite (Hb tx).
Qed.

(** User transactions, the last of which is none the validator would sign, then
    a deposit of [fee] and the rest of the tail. *)
Record bid_split (txs user : list TransactionSigned) (dep : TransactionSigned) (rest : list TransactionSigned) : Prop := {
  bs_txs : txs = user ++ dep :: rest;
  bs_user : ∃ tx, last user = Some tx ∧ is_unsigned_system_tx_candidate tx = false;
  bs_tail : Forall (λ tx, is_unsigned_system_tx_candidate tx = true) (dep :: rest);
}.

Lemma extract_le txs : ((extract_bid_block_deposit_value txs).1 <= length txs)%nat.
Proof. unfold extract_bid_block_deposit_value. case_match; [case_if|]; cbn; lia. Qed.

Lemma extract_iff txs start fee :
  fee ≠ 0 →
  extract_bid_block_deposit_value txs = (start, fee) ↔
  ∃ user dep rest, bid_split txs user dep rest ∧ start = length user ∧ tx_value (typed dep) = fee ∧
    starts_with (tx_input (typed dep)) DEPOSIT_SELECTOR = true.
Proof.
  intros Hfee. unfold extract_bid_block_deposit_value. destruct (trailing_split (reverse txs)) as (Hf & Hn & Hl).
  rewrite length_reverse in Hl. set (k := trailing_candidates (reverse txs)) in *.
  rewrite take_reverse, Forall_reverse in Hf. split.
  - destruct (txs !! (length txs - k)%nat) as [dep|] eqn:Hd; [|congruence].
    destruct (Nat.ltb_spec 0 (length txs - k)) as [Hpos|]; cbn [andb]; [|congruence].
    destruct (starts_with _ _) eqn:Hs; [|congruence]. intros [= <- <-].
    exists (take (length txs - k) txs), dep, (drop (S (length txs - k)) txs). split_and!; try done.
    + rewrite (drop_S _ _ _ Hd) in Hf. split; [by rewrite <- (drop_S _ _ _ Hd), take_drop| |done].
      destruct (lookup_lt_is_Some_2 txs (length txs - k - 1)) as [tx Htx]; [lia|]. exists tx. split.
      * rewrite last_lookup, length_take, lookup_take_lt by lia. rewrite <- Htx. f_equal. lia.
      * apply Hn. rewrite reverse_lookup by lia. rewrite <- Htx. f_equal. lia.
    + rewrite length_take. lia.
  - intros (user & dep & rest & [-> (tx & Hlast & Hc) Hall] & -> & Hval & Hs).
    assert (Hk : k = S (length rest)).
    { unfold k. rewrite reverse_app, trailing_app; [by rewrite length_reverse|by apply Forall_reverse|].
      intros t. rewrite head_reverse, Hlast. by intros [= <-]. }
    rewrite length_app. cbn [length]. rewrite Hk. replace (length user + S (length rest) - S (length rest))%nat with (length user) by lia.
    rewrite lookup_app_r, Nat.sub_diag by lia. cbn. rewrite Hs, Hval.
    destruct user; [done|]. done.
Qed.

(** The tail starts with the deposit. *)
Lemma shape_head bi header parent shape dep rest :
  expected_system_tx_shape bi header parent = Done shape → Forall2 system_call shape (dep :: rest) →
  starts_with (tx_input (typed dep)) DEPOSIT_SELECTOR = true ∧ is_unsigned_system_tx_candidate dep = true ∧
  Forall (λ tx, is_unsigned_system_tx_candidate tx = true) (dep :: rest).
Proof.
  intros Hs Hf. assert (Hall : Forall (λ tx, is_unsigned_system_tx_candidate tx = true) (dep :: rest)).
  { apply Forall_forall. intros tx Htx. apply list_elem_of_lookup_1 in Htx as [i Hi].
    destruct (Forall2_lookup_r _ _ _ _ _ Hf Hi) as (e & _ & Hc & _). done. }
  unfold expected_system_tx_shape in Hs. apply bind_Done in Hs as (b & _ & [= <-]).
  split; [|split; [by apply Forall_cons in Hall as [? _]|done]].
  destruct (is_multiple_of _ _), b; cbn in Hf; apply Forall2_cons in Hf as [(_ & _ & Hd) _]; exact Hd.
Qed.

(** ** Gas caps and sidecars *)

Section Payload.
Context `{F : ForkConditionApi} `{AC : AlloyConstants} `{BP : !BlobApi} `{RC : !RethConsensus} `{T : TxApi}.
Implicit Types (spec : ChainSpec) (decoded : DecodedBidBlock).

Lemma check_gas_caps_iff i txs : check_gas_caps i txs = Done tt ↔ Forall (λ tx, tx_gas (typed tx) <= MAX_TX_GAS) txs.
Proof.
  revert i. induction txs as [|tx txs IH]; intros i; cbn [check_gas_caps]; [split; [constructor|done]|].
  rewrite Forall_cons. destruct (Z.ltb_spec MAX_TX_GAS (tx_gas (typed tx))); [split; [done|lia]|]. rewrite IH. naive_solver.
Qed.

(** The blob transactions with their positions. *)
Fixpoint blob_txs (i : nat) (txs : list TransactionSigned) : list (nat * TransactionSigned) :=
  match txs with
  | [] => []
  | tx :: txs => if tx_is_eip4844 tx then (i, tx) :: blob_txs (S i) txs else blob_txs (S i) txs
  end.

Definition sidecar_of (p : nat * TransactionSigned) (s : Sidecar) : Prop :=
  sc_version s ≠ BLOB_SIDECAR_VERSION_CELL_PROOF ∧ sc_tx_hash s = tx_hash p.2 ∧ sc_tx_index s = Z.of_nat p.1.

Definition blobs_in (l : list Sidecar) : Z := Z.of_nat (sum_list_with (λ s, length (sc_blobs s)) l).

Lemma blobs_in_cons s l : blobs_in (s :: l) = zlen (sc_blobs s) + blobs_in l ∧ 0 <= zlen (sc_blobs s) ∧ 0 <= blobs_in l.
Proof. unfold blobs_in, zlen. cbn. lia. Qed.

Lemma sidecars_inv p ps s l used rest :
  s :: l = used ++ rest → Forall2 sidecar_of (p :: ps) used →
  ∃ used', used = s :: used' ∧ l = used' ++ rest ∧ sidecar_of p s ∧ Forall2 sidecar_of ps used'.
Proof. intros Hd Hf. inversion Hf as [|? s' ? used' Hs' Hf']; subst. injection Hd as <- Hd. by exists used'. Qed.

Lemma check_sidecars_iff n el mx sidecars i k c txs k' :
  0 <= c → c + blobs_in (drop k sidecars) < 2 ^ 64 →
  check_sidecars n el mx sidecars i k c txs = Done k' ↔
  ∃ used rest, drop k sidecars = used ++ rest ∧ k' = (k + length used)%nat ∧
    Forall2 sidecar_of (blob_txs i txs) used ∧ (used ≠ [] → el = true ∧ c + blobs_in used <= mx).
Proof.
  revert i k c. induction txs as [|tx txs IH]; intros i k c Hc Hs; cbn [check_sidecars blob_txs].
  { split.
    - intros [= <-]. exists [], (drop k sidecars). split_and!; [done|cbn; lia|constructor|done].
    - intros (used & rest & Hd & -> & Hf%Forall2_nil_inv_l & _). subst used. cbn. f_equal. lia. }
  destruct (tx_is_eip4844 tx) eqn:Et; cbn [negb]; [|by apply IH].
  destruct el; cbn [negb].
  2: { split; [done|]. intros (used & rest & _ & _ & Hf & Hu). inversion Hf; subst. by destruct Hu. }
  destruct (sidecars !! k) as [s|] eqn:Es.
  2: { split; [done|]. intros (used & rest & Hd & _ & Hf & _). inversion Hf; subst.
       apply lookup_ge_None_1 in Es. rewrite drop_ge in Hd by lia. done. }
  rewrite (drop_S _ _ _ Es) in *.
  destruct (blobs_in_cons s (drop (S k) sidecars)) as (Hbl & Hz & Hb). rewrite add64_small by lia.
  destruct (Z.eqb_spec (sc_version s) BLOB_SIDECAR_VERSION_CELL_PROOF) as [Ev|Ev].
  { split; [done|]. intros (used & rest & Hd & _ & Hf & _). destruct (sidecars_inv _ _ _ _ _ _ Hd Hf) as (? & _ & _ & [? _] & _). done. }
  destruct (Z.eqb_spec (sc_tx_hash s) (tx_hash tx)) as [Eh|Eh]; cbn [negb].
  2: { split; [done|]. intros (used & rest & Hd & _ & Hf & _). destruct (sidecars_inv _ _ _ _ _ _ Hd Hf) as (? & _ & _ & (_ & ? & _) & _). done. }
  destruct (Z.eqb_spec (sc_tx_index s) (Z.of_nat i)) as [Ei|Ei]; cbn [negb].
  2: { split; [done|]. intros (used & rest & Hd & _ & Hf & _). destruct (sidecars_inv _ _ _ _ _ _ Hd Hf) as (? & _ & _ & (_ & _ & ?) & _). done. }
  destruct (Z.ltb_spec mx (c + zlen (sc_blobs s))) as [Em|Em].
  { split; [done|]. intros (used & rest & Hd & _ & Hf & Hu). destruct (sidecars_inv _ _ _ _ _ _ Hd Hf) as (used' & -> & _).
    destruct Hu as [_ Hu]; [done|]. destruct (blobs_in_cons s used'). lia. }
  rewrite IH by lia. split.
  - intros (used & rest & Hd & -> & Hf & Hu). exists (s :: used), rest. rewrite Hd. split_and!; [done|cbn; lia|by constructor|].
    intros _. split; [done|]. destruct (blobs_in_cons s used) as (-> & _ & _).
    destruct used as [|s2 used]; [change (blobs_in []) with 0; lia|]. destruct Hu as [_ Hu]; [done|]. lia.
  - intros (used & rest & Hd & -> & Hf & Hu). destruct (sidecars_inv _ _ _ _ _ _ Hd Hf) as (used' & -> & Hd' & _ & Hf').
    exists used', rest. split_and!; [done|cbn; lia|done|]. intros _. destruct Hu as [_ Hu]; [done|]. split; [done|].
    destruct (blobs_in_cons s used'). lia.
Qed.
(** One sidecar per blob transaction, in order, in a block that may carry
    blobs and no more of them than the fork allows. *)
Definition sidecars_ok spec (header : Header) (user : list TransactionSigned) (sidecars : list Sidecar) : Prop :=
  Forall2 sidecar_of (blob_txs 0 user) sidecars ∧
  (sidecars ≠ [] → is_blob_eligible_block spec (number header) (timestamp header) = true ∧
     blobs_in sidecars <= from_option max_blob_count_of 0 (blob_params_at_timestamp spec (timestamp header))).

Lemma sidecars_iff header txs sidecars start spec :
  (start <= length txs)%nat → blobs_in sidecars < 2 ^ 64 →
  validate_bid_block_blob_sidecars header txs sidecars start spec = Done tt ↔ sidecars_ok spec header (take start txs) sidecars.
Proof.
  intros Hle Hs. unfold validate_bid_block_blob_sidecars. rewrite (proj2 (Nat.leb_le _ _) Hle). cbn [rassert mbind exec_bind].
  pose proof (λ k', check_sidecars_iff (number header) (is_blob_eligible_block spec (number header) (timestamp header))
    (from_option max_blob_count_of 0 (blob_params_at_timestamp spec (timestamp header))) sidecars 0 0 0 (take start txs) k'
    ltac:(lia) ltac:(by rewrite drop_0)) as Hc.
  rewrite drop_0 in Hc. unfold sidecars_ok. split.
  - intros Hv. apply bind_Done in Hv as (k' & (used & rest & -> & -> & Hf & Hu)%Hc & Hv).
    rewrite length_app in Hv. destruct (Nat.eqb_spec (0 + length used) (length used + length rest)); [|done].
    destruct rest; [|cbn in *; lia]. rewrite app_nil_r. split; [done|]. intros Hne. by apply Hu.
  - intros [Hf Hu]. rewrite (proj2 (Hc (length sidecars))).
    + cbn [mbind exec_bind]. by rewrite Nat.eqb_refl.
    + exists sidecars, []. rewrite app_nil_r. split_and!; [done|lia|done|done].
Qed.

(** ** The payload *)

(** What a builder may submit: the validator is paid, [fee], by a deposit that
    starts the tail, and the tail is what the block requires. *)
Record payload_ok (bi : option Z) spec decoded (parent : Header) (etherbase gas_limit' : Z) (start : nat) (fee : Z) : Prop := {
  po_root : state_root (bid_header decoded) ≠ 0;
  po_coinbase : beneficiary (bid_header decoded) = etherbase;
  po_gas : gas_limit (bid_header decoded) = gas_limit';
  po_txs : submitted_tx_root decoded = transactions_root (bid_header decoded);
  po_fee : fee ≠ 0;
  po_body : ∃ user dep rest shape,
    bid_txs decoded = user ++ dep :: rest ∧ start = length user ∧ tx_value (typed dep) = fee ∧
    (∃ tx, last user = Some tx ∧ is_unsigned_system_tx_candidate tx = false) ∧
    Forall (λ tx, tx_gas (typed tx) <= MAX_TX_GAS) user ∧
    sidecars_ok spec (bid_header decoded) user (bid_sidecars decoded) ∧
    expected_system_tx_shape bi (bid_header decoded) parent = Done shape ∧ Forall2 system_call shape (dep :: rest);
}.

Lemma payload_iff bi spec decoded parent etherbase gas_limit' start fee :
  blobs_in (bid_sidecars decoded) < 2 ^ 64 →
  verify_bid_block_payload bi spec decoded parent etherbase gas_limit' = Done (start, fee) ↔
  payload_ok bi spec decoded parent etherbase gas_limit' start fee.
Proof.
  intros Hb. unfold verify_bid_block_payload, verify_bid_block_state_root, verify_bid_block_coinbase_and_gas_limit.
  destruct (Z.eqb_spec (state_root (bid_header decoded)) 0); [split; [done|by intros []]|]. cbn [mbind exec_bind].
  destruct (Z.eqb_spec (beneficiary (bid_header decoded)) etherbase); [|split; [done|by intros []]]. cbn [negb].
  destruct (Z.eqb_spec (gas_limit (bid_header decoded)) gas_limit'); [|split; [done|by intros []]]. cbn [negb mbind exec_bind].
  destruct (Z.eqb_spec (submitted_tx_root decoded) (transactions_root (bid_header decoded))); [|split; [done|by intros []]]. cbn [negb].
  pose proof (extract_le (bid_txs decoded)) as Hle.
  destruct (extract_bid_block_deposit_value (bid_txs decoded)) as [st f] eqn:Ex. cbn in Hle.
  destruct (Z.eqb_spec f 0) as [->|Hf].
  { split; [done|]. intros [_ _ _ _ Hne (user & dep & rest & shape & Htx & Hst & Hv & Hu & _ & _ & Hsh & Hc)].
    enough (extract_bid_block_deposit_value (bid_txs decoded) = (start, fee)) by congruence.
    apply extract_iff; [done|]. exists user, dep, rest. destruct (shape_head _ _ _ _ _ _ Hsh Hc) as (? & ? & ?). by split_and!. }
  split.
  - intros Hv. apply bind_Done in Hv as ([] & Hv1%map_err_Done & Hv). apply bind_Done in Hv as ([] & Hv2%check_gas_caps_iff & Hv).
    apply bind_Done in Hv as ([] & Hv3%map_err_Done & [= <- <-]).
    apply sidecars_iff in Hv1; [|done..]. apply system_txs_iff in Hv3 as (shape & Hsh & Hc); [|done].
    apply extract_iff in Ex as (user & dep & rest & [Htx Hu Ht] & -> & Hval & Hsel); [|done].
    rewrite Htx, take_app_length in Hv1, Hv2. rewrite Htx, drop_app_length in Hc.
    split; try done. exists user, dep, rest, shape. by split_and!.
  - intros [_ _ _ _ Hne (user & dep & rest & shape & Htx & -> & Hv & Hu & Hg & Hs & Hsh & Hc)].
    destruct (shape_head _ _ _ _ _ _ Hsh Hc) as (Hsel & Hcand & Htail).
    assert (E : extract_bid_block_deposit_value (bid_txs decoded) = (length user, fee))
      by (apply extract_iff; [done|]; exists user, dep, rest; by split_and!).
    rewrite Ex in E. injection E as -> ->.
    rewrite (proj2 (sidecars_iff _ _ _ _ _ Hle Hb)) by (by rewrite Htx, take_app_length). cbn [map_err mbind exec_bind].
    rewrite (proj2 (check_gas_caps_iff _ _)) by (by rewrite Htx, take_app_length). cbn [mbind exec_bind].
    rewrite (proj2 (system_txs_iff _ _ _ _ _ Hle)); [done|]. exists shape. by rewrite Htx, drop_app_length.
Qed.
End Payload.

(** ** Blind signatures *)

Section Signing.
Context `{F : ForkConditionApi} `{AC : AlloyConstants} `{BP : !BlobApi} `{RC : !RethConsensus} `{T : TxApi} `{S : SecretKeyApi}.
Implicit Types (spec : ChainSpec) (decoded : DecodedBidBlock).

(** [tx'] is [tx] signed with [key]; a legacy transaction gets the chain id. *)
Definition blind_signed (key cid : Z) (tx tx' : TransactionSigned) : Prop :=
  typed tx' = (if bool_decide (tx_type (typed tx) = Legacy) then with_chain_id cid (typed tx) else typed tx) ∧
  sign_transaction {| secret_bytes := key |} (typed tx') = Done tx'.

Lemma bind_sign_total key cid i txs :
  secret_key_valid key = true →
  ∃ out, bind_sign (Some {| secret_bytes := key |}) cid i txs = Done out ∧ Forall2 (blind_signed key cid) txs out.
Proof.
  intros Hk. revert i. induction txs as [|tx txs IH]; intros i; cbn [bind_sign]; [exists []; by split|].
  destruct (IH (Datatypes.S i)) as (out & -> & Hf).
  set (u := if bool_decide _ then _ else _).
  assert (∃ tx', sign_transaction {| secret_bytes := key |} u = Done tx' ∧ typed tx' = u) as (tx' & Hs & Hu).
  { unfold sign_transaction. cbn [secret_bytes]. rewrite Hk. cbn [negb].
    destruct (sign_ecdsa_recoverable key (signature_hash u)). by eexists. }
  unfold sign_system_transaction. cbn [ok_or mbind exec_bind]. rewrite Hs. cbn [map_err mbind exec_bind].
  exists (tx' :: out). split; [done|]. constructor; [|done]. by split; rewrite Hu.
Qed.

(** C23: a validator signs for a builder exactly what it would have to produce
    itself.  The payload is accepted exactly if it is paid for, commits to its
    transactions, keeps to the gas caps, pairs every blob transaction with a
    sidecar, and ends in the system transactions this block requires, in order
    and nothing else; then signing succeeds, leaves the user transactions
    alone, and adds to those calls of the validator contract the signature of
    the validator's key and, to legacy ones, the chain id. *)
Theorem blind_signing_exact bi spec decoded parent etherbase gas_limit' start fee key cid :
  blobs_in (bid_sidecars decoded) < 2 ^ 64 → secret_key_valid key = true →
  (verify_bid_block_payload bi spec decoded parent etherbase gas_limit' = Done (start, fee) ↔
   payload_ok bi spec decoded parent etherbase gas_limit' start fee) ∧
  (payload_ok bi spec decoded parent etherbase gas_limit' start fee →
   ∃ user tail tail' shape,
     bid_txs decoded = user ++ tail ∧
     bind_sign_bid_block_system_txs (Some {| secret_bytes := key |}) (bid_txs decoded) start cid = Done (user ++ tail') ∧
     expected_system_tx_shape bi (bid_header decoded) parent = Done shape ∧ Forall2 system_call shape tail ∧
     Forall2 (blind_signed key cid) tail tail').
Proof.
  intros Hb Hk. split; [by apply payload_iff|].
  intros [_ _ _ _ _ (user & dep & rest & shape & Htx & -> & _ & _ & _ & _ & Hsh & Hc)].
  destruct (bind_sign_total key cid (length user) (dep :: rest) Hk) as (out & Ho & Hf).
  exists user, (dep :: rest), out, shape. split_and!; try done.
  unfold bind_sign_bid_block_system_txs. rewrite Htx, length_app, (proj2 (Nat.leb_le _ _)) by lia.
  cbn [rassert mbind exec_bind]. rewrite drop_app_length, take_app_length, Ho. done.
Qed.
End Signing.

(** ** The builder's signature *)

Section Binding.
Context `{F : ForkConditionApi} `{AC : AlloyConstants} `{BP : !BlobApi} `{RC : !RethConsensus} `{T : TxApi}.
Context `{R : RlpApi} `{RP : !RlpPrefixFree R}.
Implicit Types (args : BidBlockArgs).

Lemma fixed_fields_ok h : header_ok h → Forall item_ok (fixed_fields h).
Proof.
  intros [Hb Ha Hl Hu He]. repeat (apply Forall_cons in Hb as [? Hb]). repeat (apply Forall_cons in Hu as [? Hu]).
  cbv beta in *. repeat constructor; unfold item_ok; lia.
Qed.

(** What the digest of a bid is the hash of. *)
Definition gobsc_preimage (h : Header) : bytes := rlp_list_header (zlen (gobsc_payload h)) ++ gobsc_payload h.

Lemma gobsc_preimage_fixed h h' :
  header_ok h → header_ok h' → gobsc_preimage h = gobsc_preimage h' → fixed_fields h = fixed_fields h'.
Proof.
  intros Hh Hh' Heq%rlp_list_prefix_free. unfold gobsc_payload in Heq.
  apply items_inj in Heq as [? _]; [done|by apply fixed_fields_ok..|]. repeat constructor.
Qed.

(** An accepted payload is the one its header commits to. *)
Lemma accepted_root args b d bi spec parent e g r :
  to_decoded_bid_block args b = Done d → verify_bid_block_payload bi spec d parent e g = Done r →
  ordered_trie_root (sb_transactions (bid_block args)) = transactions_root (sb_header (bid_block args)).
Proof.
  intros Hd Hv. unfold to_decoded_bid_block in Hd. apply bind_Done in Hd as (txs & _ & [= <-]).
  unfold verify_bid_block_payload in Hv. cbn [bid_header submitted_tx_root] in Hv.
  apply bind_Done in Hv as (_ & _ & Hv). apply bind_Done in Hv as (_ & _ & Hv).
  by destruct (Z.eqb_spec (ordered_trie_root (sb_transactions (bid_block args))) (transactions_root (sb_header (bid_block args)))).
Qed.

(** Two different inputs with one image. *)
Definition collision {A} (f : A → Z) (x y : A) : Prop := x ≠ y ∧ f x = f y.

(** C27: a builder's signature cannot be moved to another bid.  Let two
    submissions have the same signed digest, and let the payloads of both be
    accepted, whoever sent them and on whatever parents.  Then the fifteen
    fields every header has agree, the raw transactions agree byte by byte, and
    so do the decoded ones; or the two submissions exhibit a collision, either
    of keccak on the encoded headers or of the transactions root on the two
    bodies.  Nothing is assumed of the two hashes. *)
Theorem signature_binds_body args args' b b' d d' bi bi' spec spec' parent parent' e e' g g' r r' :
  header_ok (sb_header (bid_block args)) → header_ok (sb_header (bid_block args')) →
  block_hash_of (bid_block args) = block_hash_of (bid_block args') →
  to_decoded_bid_block args b = Done d → to_decoded_bid_block args' b' = Done d' →
  verify_bid_block_payload bi spec d parent e g = Done r → verify_bid_block_payload bi' spec' d' parent' e' g' = Done r' →
  (fixed_fields (sb_header (bid_block args)) = fixed_fields (sb_header (bid_block args')) ∧
   sb_transactions (bid_block args) = sb_transactions (bid_block args') ∧ bid_txs d = bid_txs d')
  ∨ collision keccak256 (gobsc_preimage (sb_header (bid_block args))) (gobsc_preimage (sb_header (bid_block args')))
  ∨ collision ordered_trie_root (sb_transactions (bid_block args)) (sb_transactions (bid_block args')).
Proof.
  intros Hh Hh' Heq Hd Hd' Hv Hv'.
  destruct (decide (gobsc_preimage (sb_header (bid_block args)) = gobsc_preimage (sb_header (bid_block args')))) as [Hp|Hp];
    [|by right; left].
  pose proof (gobsc_preimage_fixed _ _ Hh Hh' Hp) as Hfix.
  destruct (decide (sb_transactions (bid_block args) = sb_transactions (bid_block args'))) as [Htxs|Hne].
  - left. split_and!; [done|done|]. unfold to_decoded_bid_block in Hd, Hd'. rewrite <- Htxs in Hd'.
    apply bind_Done in Hd as (txs & Ht1 & [= <-]). apply bind_Done in Hd' as (txs' & Ht2 & [= <-]). cbn. congruence.
  - right; right. split; [done|]. rewrite (accepted_root _ _ _ _ _ _ _ _ _ Hd Hv), (accepted_root _ _ _ _ _ _ _ _ _ Hd' Hv').
    unfold fixed_fields in Hfix. by injection Hfix.
Qed.
End Binding.

(** ** The sealed block *)

Section Sealed.
Context `{F : ForkConditionApi} `{AC : AlloyConstants} `{BP : !BlobApi} `{RC : !RethConsensus} `{T : TxApi}.
Context `{HashApi, R : AttestationRlp, B : BlsApi, E : EcdsaApi, RA : RlpApi, S : SecretKeyApi}.
Context `{RL : !AttestationRlpLaws R, BL : !BlsLaws B, SL : !SecretKeyLaws S E}.
Implicit Types (self : Parlia) (view : ChainView) (decoded : DecodedBidBlock) (snap : Snapshot) (parent : SealedHeader).

Lemma context_same {A} (f : Header → A) spec decoded vanity txs :
  (∀ r h, f (set_requests_hash r h) = f h) → (∀ x h, f (set_extra_data x h) = f h) → (∀ x h, f (set_transactions_root x h) = f h) →
  f (bid_block_context spec decoded vanity txs) = f (bid_header decoded).
Proof.
  intros H1 H2 H3. unfold bid_block_context, mev_tagged_header, set_bid_block_mev_info, set_block_mev_info.
  rewrite H3, H2. case_if; by rewrite ?H1.
Qed.

(** What a successful simulation went through. *)
Lemma simulate_inv fuel now bi cell self spec view decoded parent snap cache validator gl vanity ms evs cache' task :
  simulate_bid_block fuel now bi cell self spec view decoded parent snap cache validator gl vanity ms evs = (cache', Done task) →
  ∃ start fee txs,
    verify_bid_block_payload bi spec decoded (sealed parent) validator gl = Done (start, fee) ∧
    bind_sign_bid_block_system_txs cell (bid_txs decoded) start (chain_id spec) = Done txs ∧
    finalize_new_header cell self view snap parent cache ms evs (bid_block_context spec decoded vanity txs)
      = (cache', Done (task_header task)) ∧
    check_header_extra self (task_header task) = Done tt ∧
    verify_bid_block_header fuel now self (task_header task) (sealed parent) snap = Done tt ∧
    mapM recover_signer txs = Some (task_senders task) ∧ task_transactions task = txs ∧ task_gas_fee task = fee ∧
    task_builder task = builder decoded.
Proof.
  unfold simulate_bid_block.
  destruct (verify_bid_block_payload _ _ _ _ _ _) as [[start fee]|e|]; cbn [map_err mbind exec_bind]; [|done|done].
  destruct (bind_sign_bid_block_system_txs _ _ _ _) as [txs|e|] eqn:Hb; cbn [map_err mbind exec_bind]; [|done|done].
  destruct (finalize_new_header _ _ _ _ _ _ _ _ _) as [c [h|e|]] eqn:Hf; cbn [map_err mbind exec_bind]; [|done|done].
  intros [= -> Hs]. apply bind_Done in Hs as ([] & He%map_err_Done & Hs). apply bind_Done in Hs as ([] & Hv%map_err_Done & Hs).
  apply bind_Done in Hs as (senders & Hse%ok_or_Done & [= <-]). by exists start, fee, txs.
Qed.

Lemma bid_header_inv fuel now self h p snap :
  verify_bid_block_header fuel now self h p snap = Done tt →
  validate_unsealed_header_fields self h = Done tt ∧ calculate_difficulty snap (beneficiary h) = Done (difficulty h) ∧
  block_time_verify_for_ramanujan_fork fuel self snap h p = Done tt ∧
  validate_header_against_parent (parlia_spec self) h {| sealed := p; sealed_hash := hash_slow p |} = Done tt.
Proof.
  unfold verify_bid_block_header. intros Hv. apply bind_Done in Hv as ([] & Hu%map_err_Done & Hv).
  destruct (bool_decide _); [|done]. cbn [negb] in Hv. destruct (sign_recently _ _); [done|].
  apply bind_Done in Hv as (b & Hi & Hv). unfold calculate_difficulty.
  destruct (is_inturn snap (beneficiary h)) as [b'| |]; [|done|done]. injection Hi as ->. cbn [mbind exec_bind].
  destruct (Z.eqb_spec (difficulty h) (if b then DIFF_INTURN else DIFF_NOTURN)) as [->|]; [|done]. cbn [negb] in Hv.
  apply bind_Done in Hv as ([] & Ht%map_err_Done & Hv). apply bind_Done in Hv as ([] & Hp%map_err_Done & _). done.
Qed.

(** C24: what the validator makes of a builder's block, every node accepts.  If
    the simulation of a bid succeeds for an authorised validator, the sealed
    header passes on every node the stateless checks, once its clock has reached
    the timestamp, the checks of time, attestation and seal against the
    ancestors, and the checks against its parent; it names the builder, commits
    to the signed transactions, and every sender of them could be recovered. *)
Theorem sealed_bid_accepted fuel now bi self view decoded parent snap cache key gl vanity ms evs cache' task :
  let spec := parlia_spec self in
  simulate_bid_block fuel now bi (Some {| secret_bytes := key |}) self spec view decoded parent snap cache
    (key_address key) gl vanity ms evs = (cache', Done task) →
  may_seal view snap (sealed parent) key → zlen vanity <= 32 →
  is_luban_active_at_block spec (number (bid_header decoded)) = true → epoch_supplied snap evs (bid_header decoded) →
  let h := task_header task in
  (∀ clock, timestamp h <= clock → validate_header clock self h = Done tt)
  ∧ verify_cascading_fields fuel self view h (sealed parent) snap = Done tt
  ∧ validate_header_against_parent spec h {| sealed := sealed parent; sealed_hash := hash_slow (sealed parent) |} = Done tt
  ∧ transactions_root h = calculate_transaction_root (task_transactions task)
  ∧ mapM recover_signer (task_transactions task) = Some (task_senders task)
  ∧ (is_prague_active_at_block_and_timestamp spec (number h) (timestamp h) = true →
     requests_hash h = Some (encode_block_mev_info BidBlock (builder decoded))).
Proof.
  intros spec Hsim Hms Hvan Hlub Hevs h.
  destruct (simulate_inv _ _ _ _ _ _ _ _ _ _ _ _ _ _ _ _ _ _ Hsim)
    as (start & fee & txs & Hpay & _ & Hfin & Hext & Hhdr & Hsend & Htxs & _ & _).
  fold spec in Hfin. fold h in Hfin, Hext, Hhdr.
  assert (Hben : beneficiary (bid_header decoded) = key_address key).
  { unfold verify_bid_block_payload in Hpay. apply bind_Done in Hpay as ([] & _ & Hpay). apply bind_Done in Hpay as ([] & Hc & _).
    unfold verify_bid_block_coinbase_and_gas_limit in Hc. by destruct (Z.eqb_spec (beneficiary (bid_header decoded)) (key_address key)). }
  set (h0 := bid_block_context spec decoded vanity txs) in *.
  assert (Hn : number h0 = number (bid_header decoded)) by by apply (context_same number).
  destruct (finalize_accepted self view snap parent key cache ms evs h0) as (c & d & e & h' & Hf & Hh & Hatt & Hseal & _ & _).
  { done. }
  { exact Hvan. }
  { rewrite <- Hben. by apply (context_same beneficiary). }
  { by rewrite Hn. }
  { intros Hm. apply Hevs. by rewrite <- Hn. }
  rewrite Hfin in Hf. injection Hf as <- <-. destruct (bid_header_inv _ _ _ _ _ _ Hhdr) as (Hu & _ & Ht & Hp).
  assert (Hall : ∀ {A} (f : Header → A), (∀ x h, f (set_extra_data x h) = f h) → (∀ x h, f (set_difficulty x h) = f h) →
            (∀ x h, f (set_mix_hash x h) = f h) → f h = f h0).
  { intros A f H1 H2 H3. rewrite Hh, H1. unfold consensus_fields, set_millisecond_part_of_timestamp. case_if; by rewrite H3, H2. }
  split_and!.
  - intros clock Hc. unfold validate_header, validate_header_not_from_future.
    rewrite (proj2 (Z.ltb_ge _ _)) by done. cbn [mbind exec_bind]. rewrite Hext. cbn [map_err mbind exec_bind]. exact Hu.
  - unfold verify_cascading_fields. rewrite Ht. cbn [map_err mbind exec_bind]. by rewrite Hatt.
  - exact Hp.
  - rewrite Hall by done. by rewrite Htxs.
  - by rewrite Htxs.
  - assert (Htm : timestamp h0 = timestamp (bid_header decoded)) by by apply (context_same timestamp).
    rewrite !Hall, Htm, Hn by done. intros Hpr.
    unfold h0, bid_block_context, mev_tagged_header, set_bid_block_mev_info, set_block_mev_info. by rewrite Hpr.
Qed.
(** A header from Lorentz on keeps its milliseconds below a second. *)
Lemma mix_digest_remainder self h :
  is_lorentz_active_at_timestamp (parlia_spec self) (number h) (timestamp h) = true →
  0 <= timestamp h → timestamp h * 1000 < 2 ^ 64 → validate_unsealed_header_fields self h = Done tt →
  calculate_millisecond_timestamp h mod 1000 = millisecond_remainder h.
Proof.
  intros Hl H0 Hov Hv. unfold validate_unsealed_header_fields in Hv. rewrite Hl in Hv.
  apply bind_Done in Hv as ([] & Hm & _). unfold validate_mix_digest_for_parlia in Hm. cbn [negb] in Hm.
  destruct (Z.eqb_spec (calculate_millisecond_timestamp h / 1000) (timestamp h)) as [Heq|]; [|done].
  pose proof (millisecond_remainder_range h) as Hr. unfold calculate_millisecond_timestamp in *.
  assert (Hmul : mul64 (timestamp h) 1000 = timestamp h * 1000) by (apply mul64_small; lia).
  rewrite Hmul in *. unfold add64, wrap64, is_u64 in *.
  set (r := millisecond_remainder h) in *. set (t := timestamp h) in *. clearbody r t. clear -Heq Hr H0 Hov.
  assert (Hlt : t * 1000 + r < 2 ^ 64 ∨ 2 ^ 64 <= t * 1000 + r) by lia. destruct Hlt as [Hlt|Hge].
  - rewrite (Z.mod_small (t * 1000 + r)) in * by lia.
    pose proof (Z.div_mod (t * 1000 + r) 1000 ltac:(lia)). pose proof (Z.mod_pos_bound (t * 1000 + r) 1000). lia.
  - exfalso. rewrite <- (Z.mod_unique (t * 1000 + r) (2 ^ 64) 1 (t * 1000 + r - 2 ^ 64)) in Heq by lia.
    pose proof (Z.mul_div_le (t * 1000 + r - 2 ^ 64) 1000). lia.
Qed.

(** C25: the validator executes the block in the builder's environment.  Let a
    bid from Lorentz on pass the check at admission and be sealed, with the time
    its header has.  Then the environment every node derives from the sealed
    header is the one of the builder's header, to the difficulty and the
    millisecond, and the results of execution it commits to are the builder's. *)
Theorem builder_env_preserved fuel fuel' now now' bi self view decoded parent snap cache cell validator gl vanity evs
    cache' task r :
  let spec := parlia_spec self in
  let bid := bid_header decoded in
  pre_seal_verify_bid_block fuel now bi self spec decoded (sealed parent) snap validator gl = Done r →
  simulate_bid_block fuel' now' bi cell self spec view decoded parent snap cache validator gl vanity
    (calculate_millisecond_timestamp bid) evs = (cache', Done task) →
  is_lorentz_active_at_timestamp spec (number bid) (timestamp bid) = true →
  0 <= timestamp bid → timestamp bid * 1000 < 2 ^ 64 →
  let h := task_header task in
  evm_env_for_header spec h = evm_env_for_header spec bid
  ∧ parent_hash h = parent_hash bid ∧ state_root h = state_root bid ∧ receipts_root h = receipts_root bid
  ∧ logs_bloom h = logs_bloom bid ∧ gas_used h = gas_used bid.
Proof.
  intros spec bid Hpre Hsim Hlor H0 Hov h.
  destruct (simulate_inv _ _ _ _ _ _ _ _ _ _ _ _ _ _ _ _ _ _ Hsim) as (start & fee & txs & _ & _ & Hfin & _). fold h in Hfin.
  unfold pre_seal_verify_bid_block in Hpre. apply bind_Done in Hpre as (? & _ & Hpre). apply bind_Done in Hpre as (? & _ & Hpre).
  apply bind_Done in Hpre as ([] & Hhdr & _). apply bid_header_inv in Hhdr as (Hu & Hd & _ & _).
  assert (Htag : ∀ {A} (f : Header → A), (∀ r h, f (set_requests_hash r h) = f h) → f (mev_tagged_header spec decoded) = f bid).
  { intros A f Hf. unfold mev_tagged_header, set_bid_block_mev_info, set_block_mev_info. case_if; by rewrite ?Hf. }
  apply mix_digest_remainder in Hu; [|by rewrite !Htag..]. rewrite !Htag in Hu, Hd by done.
  apply finalize_fields in Hfin as (d & Hd' & e & Hh). rewrite (context_same beneficiary) in Hd' by done.
  fold bid in Hd'. rewrite Hd in Hd'. injection Hd' as <-.
  set (h0 := bid_block_context spec decoded vanity txs) in *.
  assert (H0s : ∀ {A} (f : Header → A), (∀ r h, f (set_requests_hash r h) = f h) → (∀ x h, f (set_extra_data x h) = f h) →
    (∀ x h, f (set_transactions_root x h) = f h) → f h0 = f bid) by (intros; by apply context_same).
  assert (Hc : h = set_extra_data e (set_millisecond_part_of_timestamp (calculate_millisecond_timestamp bid) (set_difficulty (difficulty bid) h0))).
  { rewrite Hh. unfold consensus_fields. cbn [number timestamp set_difficulty]. fold spec. by rewrite (H0s _ number), (H0s _ timestamp), Hlor by done. }
  assert (Hall : ∀ {A} (f : Header → A), (∀ r h, f (set_requests_hash r h) = f h) → (∀ x h, f (set_extra_data x h) = f h) →
    (∀ x h, f (set_transactions_root x h) = f h) → (∀ x h, f (set_difficulty x h) = f h) → (∀ x h, f (set_mix_hash x h) = f h) →
    f h = f bid).
  { intros A f H1 H2 H3 H4 H5. rewrite Hc, H2. unfold set_millisecond_part_of_timestamp. by rewrite H5, H4, H0s. }
  assert (Hms : millisecond_remainder h = millisecond_remainder bid).
  { rewrite <- Hu, Hc. exact (set_ms_remainder _ _). }
  assert (Hdf : difficulty h = difficulty bid) by by rewrite Hc.
  split; [|split_and!; by apply Hall].
  unfold evm_env_for_header. by rewrite Hdf, Hms, (Hall _ number), (Hall _ timestamp), (Hall _ beneficiary), (Hall _ gas_limit),
    (Hall _ base_fee_per_gas), (Hall _ excess_blob_gas) by done.
Qed.
End Sealed.

(** ** The best bid *)

Section Best.
Context `{F : ForkConditionApi} `{AC : AlloyConstants} `{BP : !BlobApi} `{RC : !RethConsensus} `{T : TxApi}.
Context `{HashApi, R : AttestationRlp, B : BlsApi, RA : RlpApi, S : SecretKeyApi}.
Context (bi : option Z) (cell : GlobalSigner) (self : Parlia) (validator : Z) (Env : SimulatorEnv → Prop).
Implicit Types (st : BidBlockStore) (decoded : DecodedBidBlock) (env : SimulatorEnv) (task : BidBlockTask).

(** A task sealed from a bid on the parent [p]. *)
Definition sealed_from (p : Z) task : Prop :=
  ∃ env decoded parent snap turns turns' gl vanity evs,
    Env env ∧ parent_hash (bid_header decoded) = p ∧ bid_parent env decoded = Some (parent, snap) ∧ zlen vanity = 32 ∧
    simulate_bid_block (sim_fuel env) (sim_now env) bi cell self (parlia_spec self) (sim_view env) decoded parent snap turns
      validator gl vanity (calculate_millisecond_timestamp (bid_header decoded)) evs = (turns', Done task).

(** The store over time, with the sealed blocks that were not cleared. *)
Inductive bids_reachable : BidBlockStore → list (Z * BidBlockTask) → Prop :=
| bids_new epochs turns : bids_reachable {| epoch_cache := epochs; turn_cache := turns; best_bid_block := ∅ |} []
| bids_commit env decoded st hist st1 o :
    Env env → bids_reachable st hist → bid_task bi cell self validator env decoded st = (st1, o) →
    bids_reachable (commit_bid_block bi cell self validator env decoded st)
      (hist ++ match o with Some t => [(parent_hash (bid_header decoded), t)] | None => [] end)
| bids_clear n st hist :
    bids_reachable st hist →
    bids_reachable (clear_bid_blocks n st) (filter (λ p, sat_sub64 n 5 <= number (task_header p.2)) hist).

Lemma resize_length n v : length (resize n v) = n.
Proof. unfold resize. rewrite length_app, length_take, length_replicate. lia. Qed.

Lemma bid_task_sealed env decoded st st1 t :
  Env env → bid_task bi cell self validator env decoded st = (st1, Some t) → sealed_from (parent_hash (bid_header decoded)) t.
Proof.
  intros He. unfold bid_task. destruct (bid_parent env decoded) as [[parent snap]|] eqn:Hp; [|done].
  destruct (epoch_validators_for_next_block _ _ _ _) as [[evs|] ec]; [|done].
  destruct (simulate_bid_block _ _ _ _ _ _ _ _ _ _ _ _ _ _ _ _) as [turns' [t'|e|]] eqn:Hs; [|done|done].
  intros [= <- <-]. exists env, decoded, parent, snap. do 5 eexists. split_and!; [done|done|done| |exact Hs].
  unfold zlen. by rewrite resize_length.
Qed.

Lemma bid_task_best env decoded st st1 o :
  bid_task bi cell self validator env decoded st = (st1, o) → best_bid_block st1 = best_bid_block st.
Proof.
  unfold bid_task. destruct (bid_parent env decoded) as [[parent snap]|]; [|by intros [= <- _]].
  destruct (epoch_validators_for_next_block _ _ _ _) as [[evs|] ec]; [|by intros [= <- _]].
  destruct (simulate_bid_block _ _ _ _ _ _ _ _ _ _ _ _ _ _ _ _) as [turns' r]. by intros [= <- _].
Qed.

(** The block sits right on top of the parent the client knows by that hash. *)
Lemma sealed_number p t (N : Z → Z) :
  (∀ env p h, Env env → client_header env p = Some h → number h = N p) → sealed_from p t →
  number (task_header t) = add64 (N p) 1.
Proof.
  intros HN (env & decoded & parent & snap & turns & turns' & gl & vanity & evs & He & <- & Hp & _ & Hs).
  apply simulate_inv in Hs as (start & fee & txs & _ & _ & Hfin & _). apply finalize_fields in Hfin as (d & _ & e & Hh).
  transitivity (number (bid_header decoded)).
  - rewrite Hh. transitivity (number (bid_block_context (parlia_spec self) decoded vanity txs)); [|by apply (context_same number)].
    unfold consensus_fields. by case_if.
  - unfold bid_parent in Hp. destruct (_ <=? _); [done|]. destruct (client_header env _) as [h|] eqn:Ec; [|done]. cbn in Hp.
    destruct (Z.eqb_spec (number (bid_header decoded)) (add64 (number h) 1)) as [->|]; [|done]. by rewrite (HN _ _ _ He Ec).
Qed.

Definition best_of (best : gmap Z BidBlockTask) (hist : list (Z * BidBlockTask)) : Prop :=
  ∀ p, match best !! p with
       | None => ∀ t, (p, t) ∉ hist
       | Some t => (p, t) ∈ hist ∧ ∀ t', (p, t') ∈ hist → task_gas_fee t' <= task_gas_fee t
       end.

Lemma store_best_of p t best hist : best_of best hist → best_of (store_best p t best) (hist ++ [(p, t)]).
Proof.
  intros Hb q. pose proof (Hb p) as Hp. pose proof (Hb q) as Hq. unfold store_best.
  destruct (decide (q = p)) as [->|Hne].
  - destruct (best !! p) as [t0|] eqn:Ep.
    + destruct Hp as [Hin Hmax]. destruct (Z.ltb_spec (task_gas_fee t0) (task_gas_fee t)) as [Hlt|Hge].
      * rewrite lookup_insert_eq. split; [set_solver|]. intros t' [Ht'|Ht']%elem_of_app; [apply Hmax in Ht'; lia|].
        apply list_elem_of_singleton in Ht' as [= ->]. lia.
      * rewrite Ep. split; [set_solver|]. intros t' [Ht'|Ht']%elem_of_app; [by apply Hmax|].
        apply list_elem_of_singleton in Ht' as [= ->]. lia.
    + rewrite lookup_insert_eq. split; [set_solver|]. intros t' [Ht'|Ht']%elem_of_app; [by apply Hp in Ht'|].
      apply list_elem_of_singleton in Ht' as [= ->]. lia.
  - assert (Hl : (if match best !! p with Some t0 => task_gas_fee t0 <? task_gas_fee t | None => true end
                  then <[p:=t]> best else best) !! q = best !! q).
    { case_if; [by rewrite lookup_insert_ne|done]. }
    rewrite Hl. destruct (best !! q) as [t0|].
    + destruct Hq as [Hin Hmax]. split; [set_solver|]. intros t' [Ht'|Ht']%elem_of_app; [by apply Hmax|].
      apply list_elem_of_singleton in Ht' as [= -> ->]. done.
    + intros t' [Ht'|Ht']%elem_of_app; [by apply Hq in Ht'|]. apply list_elem_of_singleton in Ht' as [= -> ->]. done.
Qed.

(** C26: the bid the miner finds is the best one.  Over every history of bids,
    views of the node and clean-ups, the store holds for each parent one of the
    sealed blocks on it, and none that was not cleared pays more; a parent
    without an entry has had none.  Each of them is the outcome of a successful
    simulation, with the time of the builder's header. *)
Theorem best_bid_highest (N : Z → Z) st hist :
  (∀ env p h, Env env → client_header env p = Some h → number h = N p) →
  bids_reachable st hist →
  best_of (best_bid_block st) hist ∧ ∀ p t, (p, t) ∈ hist → sealed_from p t.
Proof.
  intros HN Hr. induction Hr as [epochs turns|env decoded st hist st1 o He Hr [IHb IHs] Ht|n st hist Hr [IHb IHs]].
  - split; [|by intros p t ?%elem_of_nil]. intros p. cbn. rewrite lookup_empty. by intros t ?%elem_of_nil.
  - unfold commit_bid_block. rewrite Ht. pose proof (bid_task_best _ _ _ _ _ Ht) as Hb. destruct o as [t|].
    + cbn [best_bid_block]. rewrite Hb. split; [by apply store_best_of|].
      intros p t' [Ht'|Ht']%elem_of_app; [by apply IHs|]. apply list_elem_of_singleton in Ht' as [= -> ->]. by eapply bid_task_sealed.
    + rewrite app_nil_r, Hb. done.
  - split; [|intros p t [_ Ht]%list_elem_of_filter; by apply IHs]. intros p. cbn [clear_bid_blocks best_bid_block].
    unfold retain_recent_bid_blocks. specialize (IHb p). destruct (best_bid_block st !! p) as [t|] eqn:Ep.
    + destruct IHb as [Hin Hmax]. destruct (decide (sat_sub64 n 5 <= number (task_header t))) as [Hd|Hd].
      * rewrite (proj2 (map_lookup_filter_Some _ _ _ _) (conj Ep Hd)). split; [by apply list_elem_of_filter|].
        intros t' [_ Ht']%list_elem_of_filter. by apply Hmax.
      * rewrite (proj2 (map_lookup_filter_None _ _ _)) by (right; intros x Hx; rewrite Ep in Hx; by injection Hx as <-).
        intros t' [Hd' Ht']%list_elem_of_filter. apply Hd. cbn in Hd'.
        by rewrite (sealed_number p t N HN (IHs _ _ Hin)), <- (sealed_number p t' N HN (IHs _ _ Ht')).
    + rewrite (proj2 (map_lookup_filter_None _ _ _)) by by left. intros t [_ Ht]%list_elem_of_filter. by apply IHb in Ht.
Qed.
End Best.
