(* ===== verification/BidBlockDemo.v ===== *)
(** * BidBlockDemo: a builder's block on a concrete network

    The chain of [NodeConsensusProps]: a bid of one user transaction and a
    deposit is admitted, signed, sealed and kept. *)

From stdpp Require Import countable.
From stdpp Require Import base tactics numbers option list gmap strings.
From Stdlib Require Import ZArith Lia Bool.
From S2P Require Import Prelude.
From S2P Require Import Collections.
From S2P Require Import Hardforks.
From S2P Require Import Header.
From S2P Require Import Snapshot.
From S2P Require Import SnapshotProps.
From S2P Require Import SnapshotClaims.
From S2P Require Import Extra.
From S2P Require Import ExtraProps.
From S2P Require Import Backoff.
From S2P Require Import Validation.
From S2P Require Import Seal.
From S2P Require Import Attestation.
From S2P Require Import AttestationProps.
From S2P Require Import AttestationDemo.
From S2P Require Import EvmEnv.
From S2P Require Import Sealing.
From S2P Require Import SealingProps.
From S2P Require Import SealingDemo.
From S2P Require Import NodeConsensus.
From S2P Require Import EvmEnvProps.
From S2P Require Import NodeConsensusProps.
From S2P Require Import BidBlock.
From S2P Require Import BidBlockProps.

Module BidNet.
Import ListContainers ThresholdForks DemoApis DemoChain ExtraDemo TaggedRlp SealDemo AttestationNet SealingNet EnvNet NodeNet.

Definition user_tx : TransactionSigned :=
  {| typed := {| tx_type := Eip1559; tx_chain_id := Some 56; tx_nonce := 3; max_fee_per_gas := 7; tx_gas := 21000;
                 tx_to := Some 5; tx_value := 1; tx_input := []; blob_versioned_hashes := []; tx_rest := 0 |};
     tx_signature := {| sig_r := 1; sig_s := 2; sig_v := true |} |}.
Definition deposit_call : TypedTx :=
  {| tx_type := Legacy; tx_chain_id := None; tx_nonce := 9; max_fee_per_gas := 0; tx_gas := 2 ^ 63;
     tx_to := Some VALIDATOR_CONTRACT; tx_value := 1000; tx_input := DEPOSIT_SELECTOR ++ be_encode 32 30;
     blob_versioned_hashes := []; tx_rest := 0 |}.

(** Transactions travel as one byte each; roots are injective. *)
#[export] Instance demo_txs : TxApi := {|
  decode_2718 b := if bool_decide (b = [1]) then Some user_tx else None;
  decode_legacy_fields b := if bool_decide (b = [2]) then Some (deposit_call, 0, 0, 0) else None;
  tx_hash tx := tx_nonce (typed tx);
  signature_hash tx := tx_nonce tx;
  recover_signer tx := Some (sig_r (tx_signature tx));
  ordered_trie_root l := Zpos (encode l);
  calculate_transaction_root l := Z.of_nat (length l);
  kzg_validate _ _ := true;
|}.

Definition raw : list bytes := [[1]; [2]].
Definition bid : SubmittedBlock :=
  {| sb_header := set_transactions_root (ordered_trie_root raw) (payload_header sealed3); sb_transactions := raw; sb_sidecars := [] |}.
Definition args : BidBlockArgs := {| bid_block := bid; args_signature := replicate 65 1 |}.
Definition decoded0 : DecodedBidBlock :=
  {| builder := 0; bid_header := blank_header; bid_txs := []; submitted_tx_root := 0; bid_sidecars := []; gas_fee := 0; system_tx_start := 0; bid_hash := 0 |}.
Definition decoded : DecodedBidBlock := get_done decoded0 (to_decoded_bid_block args 99).

Example decoded_txs : bid_txs decoded = [user_tx; {| typed := deposit_call; tx_signature := {| sig_r := 0; sig_s := 0; sig_v := false |} |}].
Proof. vm_compute. reflexivity. Qed.

Definition is_done {Er A} (m : exec Er A) : bool := match m with Done _ => true | _ => false end.

Lemma get_done_eq {Er A} (d : A) (m : exec Er A) : is_done m = true → m = Done (get_done d m).
Proof. by destruct m. Qed.

Lemma snd_done_ex {Er A C} (p : C * exec Er A) : is_done p.2 = true → ∃ c a, p = (c, Done a).
Proof. destruct p as [c [a| |]]; [by exists c, a|done|done]. Qed.

(** ** Admission and signing *)

Definition admission :=
  pre_seal_verify_bid_block 100 now2 None parlia (parlia_spec parlia) decoded (sealed parent3) s1 (key_address 30) limit3.

Example admitted : get_done (0%nat, 0) admission = (1%nat, 1000).
Proof. by vm_compute. Qed.

Lemma accepted_payload : verify_bid_block_payload None mainnet decoded (sealed parent3) 30 limit3 = Done (1%nat, 1000).
Proof. rewrite (get_done_eq (0%nat, 0) (verify_bid_block_payload _ _ _ _ _ _)); [f_equal|]; by vm_compute. Qed.

Lemma blind_signing_exact_witness :
  ∃ user tail tail', bid_txs decoded = user ++ tail ∧
    bind_sign_bid_block_system_txs (Some {| secret_bytes := 30 |}) (bid_txs decoded) 1 56 = Done (user ++ tail') ∧
    Forall2 (blind_signed 30 56) tail tail'.
Proof.
  destruct (blind_signing_exact None mainnet decoded (sealed parent3) 30 limit3 1 1000 30 56) as [Hiff Hsign];
    [by vm_compute|done|].
  destruct (Hsign (proj1 Hiff accepted_payload)) as (user & tail & tail' & shape & ? & ? & _ & _ & ?). by exists user, tail, tail'.
Defined.

(** ** The sealed block *)

Lemma simulated : ∃ turns task,
  simulate_bid_block 100 now2 None (Some {| secret_bytes := 30 |}) parlia (parlia_spec parlia) view decoded parent3 s1 ∅
    (key_address 30) limit3 (replicate 32 0) (calculate_millisecond_timestamp (bid_header decoded)) None = (turns, Done task).
Proof. apply snd_done_ex. by vm_compute. Qed.

Lemma sealed_bid_accepted_witness :
  ∃ task, verify_cascading_fields 100 parlia view (task_header task) (sealed parent3) s1 = Done tt ∧
    ∀ clock, timestamp (task_header task) <= clock → validate_header clock parlia (task_header task) = Done tt.
Proof.
  destruct simulated as (turns & task & Hs). exists task.
  destruct (sealed_bid_accepted 100 now2 None parlia view decoded parent3 s1 ∅ 30 limit3 (replicate 32 0)
    (calculate_millisecond_timestamp (bid_header decoded)) None turns task Hs) as (Hv & Hc & _).
  - apply seal_30. intros p [Hx _]%view_headers. change (parent_hash (sealed parent3)) with (7000 + top) in Hx. cbn in Hx |- *. lia.
  - by vm_compute.
  - by vm_compute.
  - intros Hm. vm_compute in Hm. discriminate Hm.
  - split; [exact Hc|exact Hv].
Defined.

Lemma builder_env_preserved_witness :
  ∃ task, evm_env_for_header mainnet (task_header task) = evm_env_for_header mainnet (bid_header decoded).
Proof.
  destruct simulated as (turns & task & Hs). exists task.
  apply (builder_env_preserved 100 100 now2 now2 None parlia view decoded parent3 s1 ∅ (Some {| secret_bytes := 30 |}) (key_address 30) limit3
    (replicate 32 0) None turns task (get_done (0%nat, 0) admission)).
  - apply get_done_eq. by vm_compute.
  - exact Hs.
  - by vm_compute.
  - by vm_compute.
  - by vm_compute.
Defined.

(** ** The store *)

Lemma snd_some_ex {A C} (p : C * option A) : is_Some p.2 → ∃ c a, p = (c, Some a).
Proof. destruct p as [c [a|]]; [by exists c, a|by intros [? [=]]]. Qed.

Definition env : SimulatorEnv :=
  {| last_block_number := Some 45000001;
     client_header p := if p =? sealed_hash parent3 then Some (sealed parent3) else None;
     simulator_snapshot _ := Some s1; validators_at_parent _ := None; miner_gas_limit := Some 140000000; miner_extra := None;
     config_gas_limit ceil p := builder_gas_limit p ceil; sim_fuel := 100; sim_now := now2; sim_view := view |}.

Definition empty_store : BidBlockStore := {| epoch_cache := ∅; turn_cache := ∅; best_bid_block := ∅ |}.
Definition committed : BidBlockStore := commit_bid_block None (Some {| secret_bytes := 30 |}) parlia 30 env decoded empty_store.

Lemma task_sealed : ∃ st task, bid_task None (Some {| secret_bytes := 30 |}) parlia 30 env decoded empty_store = (st, Some task).
Proof. apply snd_some_ex. vm_compute. by eexists. Qed.

Lemma best_bid_highest_witness :
  (task_gas_fee <$> best_bid_block committed !! sealed_hash parent3) = Some 1000 ∧
  ∃ task, best_of (best_bid_block committed) [(parent_hash (bid_header decoded), task)].
Proof.
  split; [by vm_compute|]. destruct task_sealed as (st & task & Ht). exists task.
  apply (best_bid_highest None (Some {| secret_bytes := 30 |}) parlia 30 (eq env) (λ _, 45000001)).
  - intros ? p h <-. cbv [env client_header]. destruct (Z.eqb p _); [|done]. intros [= <-]. by vm_compute.
  - exact (bids_commit None (Some {| secret_bytes := 30 |}) parlia 30 (eq env) env decoded empty_store [] st (Some task) eq_refl
      (bids_new _ _ _ _ _ _ _) Ht).
Defined.

(** ** The signature *)

Definition args' : BidBlockArgs := {| bid_block := bid; args_signature := replicate 65 2 |}.

Lemma bid_header_ok : header_ok (sb_header bid).
Proof. split; [repeat constructor; by vm_compute|by vm_compute|by vm_compute|repeat constructor; by vm_compute|by vm_compute]. Qed.

(** Two signatures, one bid; no collision is in sight. *)
Lemma signature_binds_body_witness : bid_txs (get_done decoded0 (to_decoded_bid_block args 99)) = bid_txs (get_done decoded0 (to_decoded_bid_block args' 98)).
Proof.
  destruct (signature_binds_body args args' 99 98
    (get_done decoded0 (to_decoded_bid_block args 99)) (get_done decoded0 (to_decoded_bid_block args' 98))
    None None mainnet mainnet (sealed parent3) (sealed parent3) 30 30 limit3 limit3 (1%nat, 1000) (1%nat, 1000))
    as [(_ & _ & Ht)|[[Hne _]|[Hne _]]].
  - apply bid_header_ok.
  - apply bid_header_ok.
  - reflexivity.
  - apply get_done_eq. by vm_compute.
  - apply get_done_eq. by vm_compute.
  - rewrite (get_done_eq (0%nat, 0) (verify_bid_block_payload _ _ _ _ _ _)); [f_equal|]; by vm_compute.
  - rewrite (get_done_eq (0%nat, 0) (verify_bid_block_payload _ _ _ _ _ _)); [f_equal|]; by vm_compute.
  - exact Ht.
  - by destruct Hne.
  - by destruct Hne.
Defined.
End BidNet.
