(* ===== verification/Precompiles.v ===== *)
(** * Precompiles: the native contracts of the bridge

    [src/evm/precompiles/]: the results of a precompile, [error.rs], [dedup.rs],
    the signature checks [bls.rs] and [tm_secp256k1.rs], the light clients
    [tendermint.rs] and [iavl.rs] as far as they are not calls into another
    crate, and the clock of [milli_timestamp.rs].

    The curves and the old light client are parameters. *)

From stdpp Require Import base tactics numbers option list gmap strings.
From Stdlib Require Import ZArith Lia Bool.
From S2P Require Import Prelude.
From S2P Require Import EvmEnv.

(** ** Results ([error.rs]) *)

(** [PrecompileHalt] of [revm]; the message of a duplicate is kept in parts. *)
Inductive PrecompileHalt :=
| HaltOutOfGas
| HaltOther (msg : string)
| HaltDuplicate (field : string) (first_idx idx : Z) (value : bytes).

Inductive BscPrecompileError : Set :=
| InvalidInput
| CometBftApplyBlockFailed
| CometBftEncodeConsensusStateFailed
| DoubleSignInvalidEvidence.

Definition halt_of (error : BscPrecompileError) : PrecompileHalt :=
  match error with
  | InvalidInput => HaltOther "invalid input"
  | CometBftApplyBlockFailed => HaltOther "apply block failed"
  | CometBftEncodeConsensusStateFailed => HaltOther "encode consensus state failed"
  | DoubleSignInvalidEvidence => HaltOther "double sign invalid evidence"
  end.

(** [PrecompileOutput::new], [::revert] and [::halt]. *)
Inductive PrecompileOutput :=
| Returned (gas_used : Z) (output : bytes) (reservoir : Z)
| Reverted (gas_used : Z) (output : bytes) (reservoir : Z)
| Halted (reason : PrecompileHalt) (reservoir : Z).

(** [PrecompileError::Fatal] *)
Inductive PrecompileError := Fatal (msg : string).

Definition PrecompileResult : Type := exec PrecompileError PrecompileOutput.

Definition sat_mul64 (a b : Z) : Z := Z.min (a * b) u64_max.

(** ** Duplicates ([dedup.rs]) *)

Definition is_zero_bytes (value : bytes) : bool :=
  negb (bool_decide (value = [])) && forallb (λ b, b =? 0) value.

Record DuplicateTracker := {
  field : string;
  seen : gmap bytes Z;
  ignore_zero : bool;
}.

Definition tracker_new (field : string) (ignore_zero : bool) : DuplicateTracker :=
  {| field := field; seen := ∅; ignore_zero := ignore_zero |}.

Definition tracker_check (self : DuplicateTracker) (idx : Z) (value : bytes)
    : exec PrecompileHalt DuplicateTracker :=
  if ignore_zero self && (bool_decide (value = []) || is_zero_bytes value) then Done self
  else match seen self !! value with
       | Some first_idx => Fail (HaltDuplicate (field self) first_idx idx value)
       | None => Done {| field := field self; seen := <[value := idx]> (seen self); ignore_zero := ignore_zero self |}
       end.

(** ** BLS signatures ([bls.rs]) *)

(** [bls_on_arkworks] with the Ethereum domain. *)
Class BlsCurve := {
  signature_to_point : bytes → bool;                       (* the bytes are a point *)
  key_validate : bytes → bool;
  curve_verify : bytes → bytes → bytes → bool;             (* key, message, signature *)
  curve_aggregate_verify : list bytes → list bytes → bytes → bool;
}.

Definition BLS_MSG_HASH_LENGTH : Z := 32.
Definition BLS_SIGNATURE_LENGTH : Z := 96.
Definition BLS_SINGLE_PUBKEY_LENGTH : Z := 48.
Definition BLS_SIGNATURE_VALIDATION_BASE : Z := 1000.
Definition BLS_SIGNATURE_VALIDATION_PER_KER : Z := 3500.

Definition calc_gas_cost (input : bytes) : Z :=
  let msg_length := BLS_MSG_HASH_LENGTH + BLS_SIGNATURE_LENGTH in
  let input_length := zlen input in
  if (input_length <=? msg_length) || negb (is_multiple_of (input_length - msg_length) BLS_SINGLE_PUBKEY_LENGTH)
  then BLS_SIGNATURE_VALIDATION_BASE
  else BLS_SIGNATURE_VALIDATION_BASE
       + BLS_SIGNATURE_VALIDATION_PER_KER * ((input_length - msg_length) / BLS_SINGLE_PUBKEY_LENGTH).

Section Bls.
Context `{C : BlsCurve}.

(** The loop over the keys from the [i]-th on; [Fail] is the early revert. *)
Fixpoint read_pub_keys (n : nat) (i : Z) (pub_keys_data : bytes) : exec unit (list bytes) :=
  match n with
  | O => Done []
  | S n =>
      pub_key ← slice pub_keys_data (i * BLS_SINGLE_PUBKEY_LENGTH) ((i + 1) * BLS_SINGLE_PUBKEY_LENGTH);
      if negb (key_validate pub_key) then Fail tt
      else rest ← read_pub_keys n (i + 1) pub_keys_data; Done (pub_key :: rest)
  end.

Definition bls_signature_validation_run (input : bytes) (gas_limit reservoir : Z) : PrecompileResult :=
  let cost := calc_gas_cost input in
  if gas_limit <? cost then Done (Halted HaltOutOfGas reservoir)
  else
    let revert := Done (Reverted cost [] reservoir) in
    let msg_and_sig_length := BLS_MSG_HASH_LENGTH + BLS_SIGNATURE_LENGTH in
    let input_length := zlen input in
    if (input_length <=? msg_and_sig_length)
       || negb (is_multiple_of (input_length - msg_and_sig_length) BLS_SINGLE_PUBKEY_LENGTH)
    then revert
    else
      msg_hash ← slice input 0 BLS_MSG_HASH_LENGTH;
      signature ← slice input BLS_MSG_HASH_LENGTH msg_and_sig_length;
      pub_keys_data ← slice input msg_and_sig_length input_length;
      if negb (signature_to_point signature) then revert
      else
        let pub_key_count := (input_length - msg_and_sig_length) / BLS_SINGLE_PUBKEY_LENGTH in
        match read_pub_keys (Z.to_nat pub_key_count) 0 pub_keys_data with
        | Panics => Panics
        | Fail _ => revert
        | Done pub_keys =>
            if bool_decide (pub_keys = []) then revert
            else
              let msg_hashes := map (λ _, msg_hash) pub_keys in
              let first := default [] (head pub_keys) in
              let failed :=
                ((zlen pub_keys =? 1) && negb (curve_verify first msg_hash signature))
                || negb (curve_aggregate_verify pub_keys msg_hashes signature) in
              Done (Returned cost (if failed then [] else [1]) reservoir)
        end.
End Bls.

(** ** Tendermint signatures ([tm_secp256k1.rs]) *)

(** [secp256k1] and the account ids of [tendermint]. *)
Class TmSecp256k1 := {
  tm_key_ok : bytes → bool;                                (* [PublicKey::from_slice] *)
  tm_sig_ok : bytes → bool;                                (* [Signature::from_compact] *)
  tm_verify : bytes → bytes → bytes → bool;                (* key, digest, signature *)
  tm_raw_key_ok : bytes → bool;                            (* [from_raw_secp256k1] *)
  tm_account_id : bytes → bytes;
}.

Definition SECP256K1_PUBKEY_LENGTH : Z := 33.
Definition SECP256K1_SIGNATURE_LENGTH : Z := 64.
Definition SECP256K1_SIGNATURE_MSGHASH_LENGTH : Z := 32.
Definition TM_SECP256K1_SIGNATURE_RECOVER_BASE : Z := 3000.

Definition tm_secp256k1_signature_recover_run `{TmSecp256k1} (input : bytes) (gas_limit reservoir : Z)
    : PrecompileResult :=
  let halt msg : PrecompileResult := Done (Halted (HaltOther msg) reservoir) in
  if gas_limit <? TM_SECP256K1_SIGNATURE_RECOVER_BASE then Done (Halted HaltOutOfGas reservoir)
  else if negb (zlen input =? SECP256K1_PUBKEY_LENGTH + SECP256K1_SIGNATURE_LENGTH + SECP256K1_SIGNATURE_MSGHASH_LENGTH)
  then halt "invalid input"
  else
    key ← slice input 0 SECP256K1_PUBKEY_LENGTH;
    if negb (tm_key_ok key) then halt "invalid pubkey"
    else
      digest ← slice input (SECP256K1_PUBKEY_LENGTH + SECP256K1_SIGNATURE_LENGTH) (zlen input);
      sig ← slice input SECP256K1_PUBKEY_LENGTH (SECP256K1_PUBKEY_LENGTH + SECP256K1_SIGNATURE_LENGTH);
      if negb (tm_sig_ok sig) then halt "invalid signature"
      else if negb (tm_verify key digest sig) then halt "invalid signature"
      else if negb (tm_raw_key_ok key) then halt "invalid pubkey"
      else Done (Returned TM_SECP256K1_SIGNATURE_RECOVER_BASE (tm_account_id key) reservoir).

(** ** The first light client ([tendermint.rs], [iavl.rs]) *)

(** [TmHeaderVerifier::execute] and [iavl_proof::execute] of [tendermint]: an
    error message or the output buffer. *)
Class TmLightClient := {
  header_verifier : bytes → string + bytes;
  iavl_execute : bytes → bool → bool → bool → string + bytes;
}.

Definition TENDERMINT_HEADER_VALIDATION_BASE : Z := 3000.
Definition IAVL_PROOF_VALIDATION_BASE : Z := 3000.

Section LightClient.
Context `{T : TmLightClient}.

Definition tendermint_header_validation_run_nano (input : bytes) (gas_limit reservoir : Z) : PrecompileResult :=
  Done (Halted (HaltOther "suspended") reservoir).
Definition tendermint_header_validation_run_deprecated (input : bytes) (gas_limit reservoir : Z) : PrecompileResult :=
  Done (Halted (HaltOther "deprecated") reservoir).

Definition tendermint_header_validation_run (input : bytes) (gas_limit reservoir : Z) : PrecompileResult :=
  if gas_limit <? TENDERMINT_HEADER_VALIDATION_BASE then Done (Halted HaltOutOfGas reservoir)
  else match header_verifier input with
       | inr output => Done (Returned TENDERMINT_HEADER_VALIDATION_BASE output reservoir)
       | inl msg => Done (Halted (HaltOther msg) reservoir)
       end.

Definition iavl_proof_validation_run_inner (input : bytes) (gas_limit reservoir : Z)
    (is_moran is_planck is_plato : bool) : PrecompileResult :=
  if gas_limit <? IAVL_PROOF_VALIDATION_BASE then Done (Halted HaltOutOfGas reservoir)
  else match iavl_execute input is_moran is_planck is_plato with
       | inr output => Done (Returned IAVL_PROOF_VALIDATION_BASE output reservoir)
       | inl msg => Done (Halted (HaltOther msg) reservoir)
       end.

Definition iavl_proof_validation_run (input : bytes) (gas_limit reservoir : Z) : PrecompileResult :=
  iavl_proof_validation_run_inner input gas_limit reservoir false false false.
Definition iavl_proof_validation_run_nano (input : bytes) (gas_limit reservoir : Z) : PrecompileResult :=
  Done (Halted (HaltOther "suspended") reservoir).
Definition iavl_proof_validation_run_deprecated (input : bytes) (gas_limit reservoir : Z) : PrecompileResult :=
  Done (Halted (HaltOther "deprecated") reservoir).
Definition iavl_proof_validation_run_moran (input : bytes) (gas_limit reservoir : Z) : PrecompileResult :=
  iavl_proof_validation_run_inner input gas_limit reservoir true false false.
Definition iavl_proof_validation_run_planck (input : bytes) (gas_limit reservoir : Z) : PrecompileResult :=
  iavl_proof_validation_run_inner input gas_limit reservoir false true false.
Definition iavl_proof_validation_run_plato (input : bytes) (gas_limit reservoir : Z) : PrecompileResult :=
  iavl_proof_validation_run_inner input gas_limit reservoir false false true.
End LightClient.

(** ** The clock ([milli_timestamp.rs]) *)

Definition MILLI_TIMESTAMP_GAS : Z := 20.

Definition run_milli_timestamp (milli_timestamp timestamp_secs : Z) (input : bytes) (gas_limit reservoir : Z)
    : PrecompileResult :=
  if gas_limit <? MILLI_TIMESTAMP_GAS then Done (Halted HaltOutOfGas reservoir)
  else
    let ts := if milli_timestamp =? 0 then mul64 timestamp_secs 1000 else milli_timestamp in
    Done (Returned MILLI_TIMESTAMP_GAS (be_encode 32 ts) reservoir).

(** The closure captures the remainder; the seconds are read from the block
    environment at the time of the call. *)
Definition milli_timestamp_precompile (captured_remainder : Z) (block : BscBlockEnv) (input : bytes) (gas_limit reservoir : Z)
    : PrecompileResult :=
  let timestamp_secs := saturating_to_u64 (env_timestamp (inner block)) in
  let milli_timestamp := add64 (mul64 timestamp_secs 1000) captured_remainder in
  run_milli_timestamp milli_timestamp timestamp_secs input gas_limit reservoir.
