(* ===== verification/DoubleSign.v ===== *)
(** * DoubleSign: evidence that a validator sealed two blocks

    [src/evm/precompiles/double_sign.rs]: the RLP codec of evidence and headers
    with integers of any width, the seal hash, and the precompile that returns
    the validator and the height.

    The byte strings and lists of [alloy_rlp], keccak and the recovery of public
    keys are parameters. *)

From stdpp Require Import base tactics numbers option list gmap strings.
From Stdlib Require Import ZArith Lia Bool.
From S2P Require Import Prelude.
From S2P Require Import Hardforks.
From S2P Require Import Header.
From S2P Require Import Precompiles.

(** ** The decoders of [alloy_rlp] *)

(** A decoder reads a value off the front of a buffer; which error it reports
    instead is only logged. *)
Definition decoder (A : Type) : Type := bytes → option (A * bytes).

Definition dret {A} (a : A) : decoder A := λ buf, Some (a, buf).
Definition dbind {A B} (d : decoder A) (k : A → decoder B) : decoder B :=
  λ buf, match d buf with Some (a, rest) => k a rest | None => None end.
Notation "x <~ d ; k" := (dbind d (λ x, k)) (at level 100, d at next level, k at level 200, right associativity).

(** Arrays and slices are encoded alike, as [RlpSlice]. *)
Class RlpDecode := {
  decode_bytes : bool → decoder bytes;   (* [Header::decode_bytes(buf, is_list)] *)
  decode_array : nat → decoder bytes;    (* [<[u8; N]>::decode] *)
  decode_u64 : decoder Z;
  decode_vec : decoder bytes;            (* [Bytes::decode] *)
}.

Definition EMPTY_STRING_CODE : Z := 128.

(** ** Evidence and headers *)

(** [RlpBigInt]: the canonical big-endian bytes. *)
Definition RlpBigInt : Type := bytes.

Record DoubleSignEvidence := {
  ev_chain_id : RlpBigInt;
  header_bytes1 : bytes;
  header_bytes2 : bytes;
}.

Record DsHeader := {
  ds_parent_hash : bytes;
  ds_uncle_hash : bytes;
  ds_coinbase : bytes;
  ds_root : bytes;
  ds_tx_hash : bytes;
  ds_receipt_hash : bytes;
  ds_bloom : bytes;
  ds_difficulty : RlpBigInt;
  ds_number : RlpBigInt;
  ds_gas_limit : Z;
  ds_gas_used : Z;
  ds_time : Z;
  ds_extra : bytes;
  ds_mix_digest : bytes;
  ds_nonce : bytes;
  ds_base_fee : option RlpBigInt;
  ds_withdrawals_hash : option bytes;
  ds_blob_gas_used : option Z;
  ds_excess_blob_gas : option Z;
  ds_parent_beacon_root : option bytes;
  ds_requests_hash : option bytes;
  ds_block_access_list_hash : option bytes;
  ds_slot_number : option Z;
}.

Section Codec.
Context `{R : RlpApi} `{D : RlpDecode}.

Definition encode_slice (l : bytes) : bytes := rlp_encode (RlpSlice l).
Definition encode_u64 (z : Z) : bytes := rlp_encode (RlpU64 z).
(** [RlpHeader { list: true, .. }] and the payload. *)
Definition encode_list (payload : bytes) : bytes := rlp_list_header (zlen payload) ++ payload.

Definition decode_bigint : decoder RlpBigInt :=
  payload <~ decode_bytes false;
  λ buf, if bool_decide (head payload = Some 0) then None else Some (payload, buf).

(** A trailing field: absent when nothing is left. *)
Definition decode_optional {A} (d : decoder A) : decoder (option A) :=
  λ body, if bool_decide (body = []) then Some (None, [])
          else match d body with Some (a, rest) => Some (Some a, rest) | None => None end.

Definition decode_body : decoder DsHeader :=
  parent_hash <~ decode_array 32;
  uncle_hash <~ decode_array 32;
  coinbase <~ decode_array 20;
  root <~ decode_array 32;
  tx_hash <~ decode_array 32;
  receipt_hash <~ decode_array 32;
  bloom <~ decode_array 256;
  difficulty <~ decode_bigint;
  number <~ decode_bigint;
  gas_limit <~ decode_u64;
  gas_used <~ decode_u64;
  time <~ decode_u64;
  extra <~ decode_vec;
  mix_digest <~ decode_array 32;
  nonce <~ decode_array 8;
  base_fee <~ decode_optional decode_bigint;
  withdrawals_hash <~ decode_optional (decode_array 32);
  blob_gas_used <~ decode_optional decode_u64;
  excess_blob_gas <~ decode_optional decode_u64;
  parent_beacon_root <~ decode_optional (decode_array 32);
  requests_hash <~ decode_optional (decode_array 32);
  block_access_list_hash <~ decode_optional (decode_array 32);
  slot_number <~ decode_optional decode_u64;
  dret {| ds_parent_hash := parent_hash; ds_uncle_hash := uncle_hash; ds_coinbase := coinbase; ds_root := root;
          ds_tx_hash := tx_hash; ds_receipt_hash := receipt_hash; ds_bloom := bloom; ds_difficulty := difficulty;
          ds_number := number; ds_gas_limit := gas_limit; ds_gas_used := gas_used; ds_time := time; ds_extra := extra;
          ds_mix_digest := mix_digest; ds_nonce := nonce; ds_base_fee := base_fee;
          ds_withdrawals_hash := withdrawals_hash; ds_blob_gas_used := blob_gas_used;
          ds_excess_blob_gas := excess_blob_gas; ds_parent_beacon_root := parent_beacon_root;
          ds_requests_hash := requests_hash; ds_block_access_list_hash := block_access_list_hash;
          ds_slot_number := slot_number |}.

(** A list whose payload [d] reads to its end. *)
Definition decode_list {A} (d : decoder A) : decoder A :=
  payload <~ decode_bytes true;
  λ buf, match d payload with Some (a, []) => Some (a, buf) | _ => None end.

Definition decode_header : decoder DsHeader := decode_list decode_body.

(** [#[derive(RlpDecodable)]] *)
Definition decode_evidence : decoder DoubleSignEvidence :=
  decode_list
    (chain_id <~ decode_bigint;
     h1 <~ decode_vec;
     h2 <~ decode_vec;
     dret {| ev_chain_id := chain_id; header_bytes1 := h1; header_bytes2 := h2 |}).

(** [alloy_rlp::decode_exact]: no byte is left. *)
Definition decode_exact {A} (d : decoder A) (buf : bytes) : option A :=
  match d buf with Some (a, []) => Some a | _ => None end.

(** Fields are emitted up to the last one present. *)
Fixpoint encode_tail (tail : list (option bytes)) : bytes :=
  match tail with
  | [] => []
  | fld :: rest =>
      if existsb (λ o, bool_decide (is_Some o)) tail
      then default [EMPTY_STRING_CODE] fld ++ encode_tail rest
      else []
  end.

Definition header_tail (h : DsHeader) : list (option bytes) :=
  [ encode_slice <$> ds_base_fee h; encode_slice <$> ds_withdrawals_hash h; encode_u64 <$> ds_blob_gas_used h;
    encode_u64 <$> ds_excess_blob_gas h; encode_slice <$> ds_parent_beacon_root h; encode_slice <$> ds_requests_hash h;
    encode_slice <$> ds_block_access_list_hash h; encode_u64 <$> ds_slot_number h ].

(** The fields before the extra data, in order; the seal hash has them too. *)
Definition encode_leading (h : DsHeader) : bytes :=
  encode_slice (ds_parent_hash h) ++ encode_slice (ds_uncle_hash h) ++ encode_slice (ds_coinbase h) ++
  encode_slice (ds_root h) ++ encode_slice (ds_tx_hash h) ++ encode_slice (ds_receipt_hash h) ++
  encode_slice (ds_bloom h) ++ encode_slice (ds_difficulty h) ++ encode_slice (ds_number h) ++
  encode_u64 (ds_gas_limit h) ++ encode_u64 (ds_gas_used h) ++ encode_u64 (ds_time h).

Definition encode_header (h : DsHeader) : bytes :=
  encode_list
    (encode_leading h ++ encode_slice (ds_extra h) ++ encode_slice (ds_mix_digest h) ++ encode_slice (ds_nonce h)
     ++ encode_tail (header_tail h)).

Definition encode_evidence (ev : DoubleSignEvidence) : bytes :=
  encode_list (encode_slice (ev_chain_id ev) ++ encode_slice (header_bytes1 ev) ++ encode_slice (header_bytes2 ev)).

(** ** The seal hash *)

Definition EXTRA_SEAL_LENGTH : Z := 65.

Definition encode_optional (value : option bytes) : bytes := default [EMPTY_STRING_CODE] value.

(** Panics when the extra data is shorter than the seal. *)
Definition seal_hash (h : DsHeader) (chain_id : RlpBigInt) : exec PrecompileError Z :=
  sealed_extra ← slice (ds_extra h) 0 (zlen (ds_extra h) - EXTRA_SEAL_LENGTH);
  let payload :=
    encode_slice chain_id ++ encode_leading h ++ encode_slice sealed_extra ++
    encode_slice (ds_mix_digest h) ++ encode_slice (ds_nonce h) ++
    match ds_parent_beacon_root h with
    | Some root =>
        encode_optional (encode_slice <$> ds_base_fee h) ++ encode_optional (encode_slice <$> ds_withdrawals_hash h) ++
        encode_optional (encode_u64 <$> ds_blob_gas_used h) ++ encode_optional (encode_u64 <$> ds_excess_blob_gas h) ++
        encode_slice root ++
        match ds_requests_hash h with Some q => encode_slice q | None => [] end
    | None => []
    end in
  Done (keccak256 (encode_list payload)).
End Codec.

(** ** The precompile *)

(** [secp256k1::ecrecover] of [revm]: signature, recovery id, digest; 32 bytes. *)
Class EvmEcrecover := { evm_ecrecover : bytes → Z → Z → option bytes }.

Definition DOUBLE_SIGN_EVIDENCE_VALIDATION_BASE : Z := 10000.
Definition DOUBLE_SIGN_EVIDENCE_VALIDATE_PER_BYTE_GAS : Z := 16.
Definition MAX_BLOCK_NUMBER_BYTES : Z := 32.

Section Run.
Context `{R : RlpApi} `{D : RlpDecode} `{E : EvmEcrecover}.

Definition double_sign_cost (per_byte_gas : Z) (input : bytes) : Z :=
  sat_add64 DOUBLE_SIGN_EVIDENCE_VALIDATION_BASE (sat_mul64 (zlen input) per_byte_gas).

Definition double_sign_evidence_validation_run_inner (input : bytes) (gas_limit reservoir per_byte_gas : Z)
    : PrecompileResult :=
  let cost := double_sign_cost per_byte_gas input in
  let revert : PrecompileResult := Done (Reverted cost [] reservoir) in
  let invalid : PrecompileResult := Done (Halted (halt_of DoubleSignInvalidEvidence) reservoir) in
  if gas_limit <? cost then Done (Halted HaltOutOfGas reservoir)
  else match decode_exact decode_evidence input with None => revert | Some evidence =>
  match decode_exact decode_header (header_bytes1 evidence) with None => revert | Some header1 =>
  match decode_exact decode_header (header_bytes2 evidence) with None => revert | Some header2 =>
    if (MAX_BLOCK_NUMBER_BYTES <? zlen (ds_number header1)) || (MAX_BLOCK_NUMBER_BYTES <? zlen (ds_number header2))
    then invalid
    else if negb (bool_decide (ds_number header1 = ds_number header2)) then invalid
    else if negb (bool_decide (ds_parent_hash header1 = ds_parent_hash header2)) then invalid
    else if (zlen (ds_extra header1) <? EXTRA_SEAL_LENGTH) || (zlen (ds_extra header2) <? EXTRA_SEAL_LENGTH) then invalid
    else
      sig1 ← slice (ds_extra header1) (zlen (ds_extra header1) - EXTRA_SEAL_LENGTH) (zlen (ds_extra header1));
      sig2 ← slice (ds_extra header2) (zlen (ds_extra header2) - EXTRA_SEAL_LENGTH) (zlen (ds_extra header2));
      if bool_decide (sig1 = sig2) then invalid
      else
        msg_hash1 ← seal_hash header1 (ev_chain_id evidence);
        msg_hash2 ← seal_hash header2 (ev_chain_id evidence);
        if msg_hash1 =? msg_hash2 then invalid
        else
          recid1 ← index sig1 64;
          sig1 ← slice sig1 0 64;
          match evm_ecrecover sig1 recid1 msg_hash1 with None => revert | Some addr1 =>
          recid2 ← index sig2 64;
          sig2 ← slice sig2 0 64;
          match evm_ecrecover sig2 recid2 msg_hash2 with None => revert | Some addr2 =>
            if negb (bool_decide (addr1 = addr2)) then invalid
            else
              signer ← slice addr1 12 (zlen addr1);
              _ ← rassert (zlen signer =? 20);
              let number := ds_number header1 in
              Done (Returned cost (signer ++ replicate (Z.to_nat (32 - zlen number)) 0 ++ number) reservoir)
          end end
  end end end.

Definition double_sign_evidence_validation_run (input : bytes) (gas_limit reservoir : Z) : PrecompileResult :=
  double_sign_evidence_validation_run_inner input gas_limit reservoir 0.

Definition double_sign_evidence_validation_run_jenner (input : bytes) (gas_limit reservoir : Z) : PrecompileResult :=
  double_sign_evidence_validation_run_inner input gas_limit reservoir DOUBLE_SIGN_EVIDENCE_VALIDATE_PER_BYTE_GAS.
End Run.
