(* ===== verification/DoubleSignProps.v ===== *)
(** * DoubleSignProps: who is convicted, and of what

    The codec of evidence and headers is complete and sound: what it encodes it
    decodes, and what it decodes has one encoding only.  On it rest the exact
    condition under which the precompile convicts, and that two headers every
    node attributes to one validator do convict it. *)

From stdpp Require Import base tactics numbers option list gmap strings.
From Stdlib Require Import ZArith Lia Bool.
From S2P Require Import Prelude.
From S2P Require Import Hardforks.
From S2P Require Import Header.
From S2P Require Import Snapshot.
From S2P Require Import Extra.
From S2P Require Import Validation.
From S2P Require Import Seal.
From S2P Require Import Attestation.
From S2P Require Import Precompiles.
From S2P Require Import DoubleSign.

(** [ecrecover] returns a word. *)
Class EcrecoverLaws (E : EvmEcrecover) := {
  ecrecover_width sig rid m a : evm_ecrecover sig rid m = Some a → length a = 32%nat;
}.

(** ** Codecs *)

(** An encoder and a decoder of the values that satisfy [ok]. *)
Class Codec {A} (enc : A → bytes) (dec : decoder A) (ok : A → Prop) := {
  codec_complete a rest : ok a → dec (enc a ++ rest) = Some (a, rest);
  codec_sound buf a rest : dec buf = Some (a, rest) → ok a ∧ buf = enc a ++ rest;
  codec_nonempty : dec [] = None;
}.

(** Lengths fit 64 bits. *)
Definition len_ok (l : bytes) : Prop := zlen l < 2 ^ 64.
Definition has_length (n : nat) (l : bytes) : Prop := length l = n.

(** What [alloy_rlp] documents: strings and lists are self-delimiting and have
    one canonical encoding, arrays are strings of their length, integers have
    no leading zero. *)
Class RlpDecodeLaws (R : RlpApi) (D : RlpDecode) := {
  string_codec : Codec encode_slice (decode_bytes false) len_ok;
  list_codec : Codec encode_list (decode_bytes true) len_ok;
  u64_codec : Codec encode_u64 decode_u64 is_u64;
  vec_is_string buf : decode_vec buf = decode_bytes false buf;
  array_is_string n buf l rest :
    decode_array n buf = Some (l, rest) ↔ decode_bytes false buf = Some (l, rest) ∧ has_length n l;
}.
#[export] Existing Instances string_codec u64_codec.

Section Codecs.
Context `{DL : RlpDecodeLaws}.

Definition bigint_ok (b : RlpBigInt) : Prop := head b ≠ Some 0 ∧ len_ok b.

#[export] Instance vec_codec : Codec encode_slice decode_vec len_ok.
Proof.
  split.
  - intros. rewrite vec_is_string. by apply codec_complete.
  - intros buf a rest. rewrite vec_is_string. apply codec_sound.
  - rewrite vec_is_string. apply codec_nonempty.
Qed.

Lemma array_codec n : Z.of_nat n < 2 ^ 64 → Codec encode_slice (decode_array n) (has_length n).
Proof.
  intros Hn. split.
  - intros a rest Ha. apply array_is_string. split; [|done]. apply codec_complete. unfold len_ok, zlen. by rewrite Ha.
  - intros buf a rest [Hd Hl]%array_is_string. split; [done|]. by apply codec_sound in Hd as [_ ?].
  - destruct (decode_array n []) as [[l rest]|] eqn:Hd; [|done]. apply array_is_string in Hd as [Hd _].
    by rewrite codec_nonempty in Hd.
Qed.

#[export] Instance array8_codec : Codec encode_slice (decode_array 8) (has_length 8).
Proof. by apply array_codec. Qed.
#[export] Instance array20_codec : Codec encode_slice (decode_array 20) (has_length 20).
Proof. by apply array_codec. Qed.
#[export] Instance array32_codec : Codec encode_slice (decode_array 32) (has_length 32).
Proof. by apply array_codec. Qed.
#[export] Instance array256_codec : Codec encode_slice (decode_array 256) (has_length 256).
Proof. by apply array_codec. Qed.

#[export] Instance bigint_codec : Codec encode_slice decode_bigint bigint_ok.
Proof.
  unfold decode_bigint, dbind. split.
  - intros a rest [Hh Hl]. rewrite codec_complete by done. by rewrite bool_decide_false.
  - intros buf a rest Hd. destruct (decode_bytes false buf) as [[p r]|] eqn:E; [|done].
    case_bool_decide; [done|]. injection Hd as -> ->. apply codec_sound in E as [? ->]. by split.
  - by rewrite codec_nonempty.
Qed.

Lemma dbind_complete {A B enc dec ok} `{C : @Codec A enc dec ok} (k : A → decoder B) a rest :
  ok a → dbind dec k (enc a ++ rest) = k a rest.
Proof. intros Ha. unfold dbind. by rewrite codec_complete. Qed.

Lemma dbind_sound {A B enc dec ok} `{C : @Codec A enc dec ok} (k : A → decoder B) buf r :
  dbind dec k buf = Some r → ∃ a rest, ok a ∧ buf = enc a ++ rest ∧ k a rest = Some r.
Proof.
  unfold dbind. intros Hd. destruct (dec buf) as [[a rest]|] eqn:E; [|done].
  apply codec_sound in E as [Ha ->]. by exists a, rest.
Qed.

(** A trailing field, and what follows it. *)
Definition tail_bytes {A} (enc : A → bytes) (o : option A) : bytes := default [] (enc <$> o).

Lemma optional_complete {A B enc dec ok} `{C : @Codec A enc dec ok} (k : option A → decoder B) o rest :
  (∀ a, o = Some a → ok a) → (o = None → rest = []) →
  dbind (decode_optional dec) k (tail_bytes enc o ++ rest) = k o rest.
Proof.
  intros Ho Hr. unfold dbind, decode_optional. destruct o as [a|]; cbn.
  - rewrite bool_decide_false; [by rewrite codec_complete by auto|].
    intros [He _]%app_nil. pose proof (codec_complete a [] (Ho a eq_refl)) as Hc. by rewrite He, codec_nonempty in Hc.
  - by rewrite (Hr eq_refl).
Qed.

Lemma optional_sound {A B enc dec ok} `{C : @Codec A enc dec ok} (k : option A → decoder B) body r :
  dbind (decode_optional dec) k body = Some r →
  ∃ o rest, (∀ a, o = Some a → ok a) ∧ (o = None → rest = []) ∧ body = tail_bytes enc o ++ rest ∧ k o rest = Some r.
Proof.
  unfold dbind, decode_optional. case_bool_decide as Hb.
  - intros Hk. exists None, []. by split_and!.
  - intros Hk. destruct (dec body) as [[a rest]|] eqn:E; [|done]. apply codec_sound in E as [Ha ->].
    exists (Some a), rest. split_and!; try done. by intros ? [= <-].
Qed.

(** A list of a codec whose encoding ends where the payload ends. *)
Lemma list_complete {A} (d : decoder A) enc a rest :
  d (enc a) = Some (a, []) → len_ok (enc a) → decode_list d (encode_list (enc a) ++ rest) = Some (a, rest).
Proof.
  intros Hd Hl. unfold decode_list. pose proof list_codec as C. rewrite dbind_complete by done. by rewrite Hd.
Qed.

Lemma list_sound {A} (d : decoder A) buf a rest :
  decode_list d buf = Some (a, rest) →
  ∃ payload, len_ok payload ∧ buf = encode_list payload ++ rest ∧ d payload = Some (a, []).
Proof.
  unfold decode_list. intros Hd. pose proof list_codec as C. apply dbind_sound in Hd as (p & r & Hl & -> & Hk).
  destruct (d p) as [[a' [|]]|] eqn:E; [|done|done]. injection Hk as -> ->. by exists p.
Qed.

Lemma exact_sound {A} (d : decoder A) buf a : decode_exact d buf = Some a → d buf = Some (a, []).
Proof. unfold decode_exact. intros Hd. destruct (d buf) as [[a' [|]]|]; [by simplify_eq|done|done]. Qed.

Lemma exact_complete {A} (d : decoder A) buf a : d buf = Some (a, []) → decode_exact d buf = Some a.
Proof. unfold decode_exact. by intros ->. Qed.
End Codecs.

(** ** Headers *)

(** A header whose fields have their sizes and whose trailing fields are
    present up to some point. *)
Fixpoint positional {A} (tail : list (option A)) : Prop :=
  match tail with
  | [] => True
  | o :: rest => (o = None → Forall (λ x, x = None) rest) ∧ positional rest
  end.

Definition opt_ok {A} (ok : A → Prop) (o : option A) : Prop := ∀ a, o = Some a → ok a.

Record ds_ok `{R : RlpApi} (h : DsHeader) : Prop := {
  dk_words : Forall (has_length 32) [ds_parent_hash h; ds_uncle_hash h; ds_root h; ds_tx_hash h; ds_receipt_hash h; ds_mix_digest h];
  dk_coinbase : has_length 20 (ds_coinbase h);
  dk_bloom : has_length 256 (ds_bloom h);
  dk_difficulty : bigint_ok (ds_difficulty h);
  dk_number : bigint_ok (ds_number h);
  dk_u64 : Forall is_u64 [ds_gas_limit h; ds_gas_used h; ds_time h];
  dk_extra : len_ok (ds_extra h);
  dk_nonce : has_length 8 (ds_nonce h);
  dk_base_fee : opt_ok bigint_ok (ds_base_fee h);
  dk_tail_words : Forall (opt_ok (has_length 32))
    [ds_withdrawals_hash h; ds_parent_beacon_root h; ds_requests_hash h; ds_block_access_list_hash h];
  dk_tail_u64 : Forall (opt_ok is_u64) [ds_blob_gas_used h; ds_excess_blob_gas h; ds_slot_number h];
  dk_positional : positional (header_tail h);
}.

Section Headers.
Context `{DL : RlpDecodeLaws}.
Implicit Types (h : DsHeader).

Definition plain_tail (tail : list (option bytes)) : bytes := concat (default [] <$> tail).

Lemma all_none_tail tail : Forall (λ x, x = None) tail → plain_tail tail = [] ∧ encode_tail tail = [].
Proof.
  intros Hn. split; [induction Hn as [|o l -> _ IH]; [done|exact IH]|].
  destruct Hn as [|o l -> Hn]; [done|]. cbn [encode_tail].
  assert (existsb (λ o : option bytes, bool_decide (is_Some o)) (None :: l) = false) as ->; [|done].
  cbn. induction Hn as [|o l' -> _ IH]; [done|exact IH].
Qed.

(** Nothing is emitted for an absent field, since nothing present follows it. *)
Lemma encode_tail_plain tail : positional tail → encode_tail tail = plain_tail tail.
Proof.
  induction tail as [|[b|] tail IH]; [done|..]; intros [Hn Hp].
  - cbn. by rewrite IH.
  - destruct (all_none_tail (None :: tail)) as [-> ->]; [|done]. constructor; [done|by apply Hn].
Qed.

Lemma enc_nonempty {A enc dec ok} `{C : @Codec A enc dec ok} a : ok a → enc a ≠ [].
Proof. intros Ha He. pose proof (codec_complete a [] Ha) as Hc. by rewrite He, codec_nonempty in Hc. Qed.

Lemma tail_complete {A B enc dec ok} `{C : @Codec A enc dec ok} (k : option A → decoder B) o l :
  opt_ok ok o → positional ((enc <$> o) :: l) →
  dbind (decode_optional dec) k (plain_tail ((enc <$> o) :: l)) = k o (plain_tail l).
Proof.
  intros Ho [Hn _]. apply (optional_complete (C:=C)); [done|]. intros ->. by apply all_none_tail, Hn.
Qed.

Lemma opt_nonempty {A enc dec ok} `{C : @Codec A enc dec ok} o : opt_ok ok o → enc <$> o ≠ Some [].
Proof. intros Ho (a & -> & He)%fmap_Some. by apply (enc_nonempty a (Ho a eq_refl)). Qed.

Lemma positional_cons (o : option bytes) l :
  (o = None → plain_tail l = []) → Forall (λ x, x ≠ Some []) l → positional l → positional (o :: l).
Proof.
  intros Hn Hne Hp. split; [|done]. intros Ho. specialize (Hn Ho). clear Ho Hp.
  induction Hne as [|[b|] l Hx Hne IH]; [done|..].
  - cbn in Hn. apply app_nil in Hn as [-> _]. by destruct Hx.
  - constructor; [done|by apply IH].
Qed.

Definition body_bytes h : bytes :=
  encode_leading h ++ encode_slice (ds_extra h) ++ encode_slice (ds_mix_digest h) ++ encode_slice (ds_nonce h)
  ++ encode_tail (header_tail h).

Ltac forall_inv := repeat match goal with H : Forall _ (_ :: _) |- _ => apply Forall_cons in H as [? H] end.

Lemma body_complete h : ds_ok h → decode_body (body_bytes h) = Some (h, []).
Proof.
  intros [Hw Hc Hb Hd Hn Hu Hx Hno Hbf Htw Htu Hpos]. forall_inv.
  unfold body_bytes, encode_leading. rewrite encode_tail_plain by done. rewrite <- !app_assoc.
  unfold decode_body.
  repeat (rewrite dbind_complete by done).
  unfold header_tail in *. repeat (erewrite tail_complete by (done || apply Hpos)).
  by destruct h.
Qed.

Lemma body_sound body h : decode_body body = Some (h, []) → ds_ok h ∧ body = body_bytes h.
Proof.
  intros Hd. unfold decode_body in Hd.
  do 15 (apply dbind_sound in Hd as (? & ? & ? & -> & Hd)).
  do 8 (apply optional_sound in Hd as (? & ? & ? & ? & -> & Hd)).
  injection Hd as <- ->.
  match goal with |- ds_ok ?h ∧ _ => assert (Hpos : positional (header_tail h)) end.
  { unfold header_tail. cbn [ds_base_fee ds_withdrawals_hash ds_blob_gas_used ds_excess_blob_gas ds_parent_beacon_root
      ds_requests_hash ds_block_access_list_hash ds_slot_number].
    repeat (apply positional_cons;
      [intros Hnone%fmap_None; match goal with Hk : _ = None → _ |- _ => exact (Hk Hnone) end
      |repeat (apply Forall_cons_2; [first [by apply (opt_nonempty (C:=array32_codec))|by apply (opt_nonempty (C:=u64_codec))]|]); by apply Forall_nil_2|]). done. }
  split; [split; try done; repeat (apply Forall_cons_2; [done|]); by apply Forall_nil_2|].
  unfold body_bytes, encode_leading. rewrite encode_tail_plain by done. cbn. by rewrite <- !app_assoc.
Qed.
End Headers.

Section Exact.
Context `{DL : RlpDecodeLaws} `{EL : EcrecoverLaws}.
Implicit Types (h : DsHeader) (ev : DoubleSignEvidence).

Definition header_fits h : Prop := ds_ok h ∧ len_ok (body_bytes h).

Lemma header_complete h : header_fits h → decode_exact decode_header (encode_header h) = Some h.
Proof.
  intros [Hok Hl]. apply exact_complete. unfold decode_header.
  change (encode_header h) with (encode_list (body_bytes h)). rewrite <- (app_nil_r (encode_list _)).
  apply (list_complete decode_body body_bytes); [by apply body_complete|done].
Qed.

Lemma header_sound b h : decode_exact decode_header b = Some h → header_fits h ∧ b = encode_header h.
Proof.
  intros (p & Hl & -> & Hp)%exact_sound%list_sound. apply body_sound in Hp as [Hok ->].
  rewrite app_nil_r. split; [by split|done].
Qed.

Definition evidence_bytes ev : bytes :=
  encode_slice (ev_chain_id ev) ++ encode_slice (header_bytes1 ev) ++ encode_slice (header_bytes2 ev).
Definition evidence_fits ev : Prop :=
  bigint_ok (ev_chain_id ev) ∧ len_ok (header_bytes1 ev) ∧ len_ok (header_bytes2 ev) ∧ len_ok (evidence_bytes ev).

Lemma evidence_complete ev : evidence_fits ev → decode_exact decode_evidence (encode_evidence ev) = Some ev.
Proof.
  intros (Hc & H1 & H2 & Hl). apply exact_complete. unfold decode_evidence.
  change (encode_evidence ev) with (encode_list (evidence_bytes ev)). rewrite <- (app_nil_r (encode_list _)).
  apply (list_complete _ evidence_bytes); [|done]. unfold evidence_bytes.
  rewrite (dbind_complete (C:=bigint_codec)), (dbind_complete (C:=vec_codec)) by done.
  rewrite <- (app_nil_r (encode_slice (header_bytes2 ev))), (dbind_complete (C:=vec_codec)) by done. by destruct ev.
Qed.

Lemma evidence_sound input ev :
  decode_exact decode_evidence input = Some ev → evidence_fits ev ∧ input = encode_evidence ev.
Proof.
  intros (p & Hl & -> & Hp)%exact_sound%list_sound.
  apply (dbind_sound (C:=bigint_codec)) in Hp as (c & ? & Hc & -> & Hp).
  apply (dbind_sound (C:=vec_codec)) in Hp as (b1 & ? & H1 & -> & Hp).
  apply (dbind_sound (C:=vec_codec)) in Hp as (b2 & ? & H2 & -> & Hp). injection Hp as <- ->.
  rewrite !app_nil_r in *. split; [by split_and!|done].
Qed.

(** [addr] is what the seal of the header, [sig] and [rid], recovers to. *)
Definition sealed_by h (cid : RlpBigInt) (sig : bytes) (rid m : Z) (addr : bytes) : Prop :=
  ∃ v, ds_extra h = v ++ sig ++ [rid] ∧ length sig = 64%nat ∧ seal_hash h cid = Done m ∧ evm_ecrecover sig rid m = Some addr.

(** The evidence that convicts: two different sealed headers of one height on
    one parent, both sealed by the same key. *)
Definition convicting ev h1 h2 (addr : bytes) : Prop :=
  evidence_fits ev ∧ header_fits h1 ∧ header_fits h2 ∧
  header_bytes1 ev = encode_header h1 ∧ header_bytes2 ev = encode_header h2 ∧
  zlen (ds_number h1) <= MAX_BLOCK_NUMBER_BYTES ∧ ds_number h1 = ds_number h2 ∧ ds_parent_hash h1 = ds_parent_hash h2 ∧
  ∃ sig1 rid1 m1 sig2 rid2 m2,
    sealed_by h1 (ev_chain_id ev) sig1 rid1 m1 addr ∧ sealed_by h2 (ev_chain_id ev) sig2 rid2 m2 addr ∧
    sig1 ++ [rid1] ≠ sig2 ++ [rid2] ∧ m1 ≠ m2.

(** The signer and the height, in 20 and 32 bytes. *)
Definition verdict h (addr : bytes) : bytes :=
  drop 12 addr ++ replicate (Z.to_nat (32 - zlen (ds_number h))) 0 ++ ds_number h.

Lemma extra_split (e : bytes) :
  EXTRA_SEAL_LENGTH <= zlen e → ∃ v sig rid, e = v ++ sig ++ [rid] ∧ length sig = 64%nat.
Proof.
  unfold EXTRA_SEAL_LENGTH. intros Hl. destruct (last e) as [rid|] eqn:Hlast.
  2:{ apply last_None in Hlast. subst. unfold zlen in Hl. cbn in Hl. lia. }
  apply last_Some in Hlast as [l ->]. rewrite zlen_app in Hl. unfold zlen in Hl. cbn in Hl.
  exists (take (length l - 64) l), (drop (length l - 64) l), rid. rewrite app_assoc, take_drop.
  split; [done|]. rewrite length_drop. lia.
Qed.

Lemma seal_slices {X} (v sig : bytes) rid :
  length sig = 64%nat →
  let e := v ++ sig ++ [rid] in
  @slice X _ e (zlen e - EXTRA_SEAL_LENGTH) (zlen e) = Done (sig ++ [rid]) ∧
  @slice X _ e 0 (zlen e - EXTRA_SEAL_LENGTH) = Done v ∧
  @index X _ (sig ++ [rid]) 64 = Done rid ∧ @slice X _ (sig ++ [rid]) 0 64 = Done sig.
Proof.
  intros Hs e. unfold EXTRA_SEAL_LENGTH.
  assert (He : zlen e = zlen v + 65) by (unfold e, zlen; rewrite !length_app, Hs; cbn; lia).
  assert (Hz : zlen sig = 64) by (unfold zlen; by rewrite Hs).
  split_and!.
  - assert (Hsr : zlen (sig ++ [rid]) = 65) by (rewrite zlen_app, Hz; done).
    pose proof (@slice_app_at X _ v (sig ++ [rid]) [] (zlen e - 65) (zlen e)) as Hsl. rewrite app_nil_r in Hsl. apply Hsl; lia.
  - rewrite He. unfold e. apply (slice_app_at [] v); [done|rewrite ?zlen_nil; lia].
  - by apply index_app_mid.
  - apply (slice_app_at [] sig [rid]); [done|rewrite ?zlen_nil; lia].
Qed.

Lemma seal_hash_ok h cid v sig rid :
  ds_extra h = v ++ sig ++ [rid] → length sig = 64%nat → ∃ m, seal_hash h cid = Done m.
Proof.
  intros He Hs. destruct (seal_slices (X:=PrecompileError) v sig rid Hs) as (_ & Hv & _). unfold seal_hash.
  rewrite He, Hv. cbn [mbind exec_bind]. eauto.
Qed.

(** *** The outcome of a call, specified *)

(** The input is the one encoding of evidence about two well-formed headers. *)
Definition well_formed (input : bytes) ev h1 h2 : Prop :=
  input = encode_evidence ev ∧ evidence_fits ev ∧ header_fits h1 ∧ header_fits h2 ∧
  header_bytes1 ev = encode_header h1 ∧ header_bytes2 ev = encode_header h2.

(** The seal of the header, a signature and its recovery id, and what it signs. *)
Definition seal_of h (cid : RlpBigInt) (sig : bytes) (rid m : Z) : Prop :=
  ∃ v, ds_extra h = v ++ sig ++ [rid] ∧ length sig = 64%nat ∧ seal_hash h cid = Done m.

(** Two sealed headers of one height on one parent that differ in what is signed. *)
Definition conflicting (cid : RlpBigInt) h1 h2 sig1 rid1 m1 sig2 rid2 m2 : Prop :=
  zlen (ds_number h1) <= MAX_BLOCK_NUMBER_BYTES ∧ ds_number h1 = ds_number h2 ∧ ds_parent_hash h1 = ds_parent_hash h2 ∧
  seal_of h1 cid sig1 rid1 m1 ∧ seal_of h2 cid sig2 rid2 m2 ∧ sig1 ++ [rid1] ≠ sig2 ++ [rid2] ∧ m1 ≠ m2.

(** What the precompile owes its caller: out of gas before anything is read; a
    revert, paid for, when the bytes are not evidence or a seal recovers nothing;
    the halt for invalid evidence when the headers do not conflict or were sealed
    by two keys; the verdict otherwise. *)
Inductive evidence_outcome (pb : Z) (input : bytes) (gas_limit reservoir : Z) : PrecompileOutput → Prop :=
  | eo_out_of_gas :
      gas_limit < double_sign_cost pb input →
      evidence_outcome pb input gas_limit reservoir (Halted HaltOutOfGas reservoir)
  | eo_malformed :
      double_sign_cost pb input <= gas_limit → (∀ ev h1 h2, ¬ well_formed input ev h1 h2) →
      evidence_outcome pb input gas_limit reservoir (Reverted (double_sign_cost pb input) [] reservoir)
  | eo_no_conflict ev h1 h2 :
      double_sign_cost pb input <= gas_limit → well_formed input ev h1 h2 →
      (∀ sig1 rid1 m1 sig2 rid2 m2, ¬ conflicting (ev_chain_id ev) h1 h2 sig1 rid1 m1 sig2 rid2 m2) →
      evidence_outcome pb input gas_limit reservoir (Halted (halt_of DoubleSignInvalidEvidence) reservoir)
  | eo_unrecoverable ev h1 h2 sig1 rid1 m1 sig2 rid2 m2 :
      double_sign_cost pb input <= gas_limit → well_formed input ev h1 h2 →
      conflicting (ev_chain_id ev) h1 h2 sig1 rid1 m1 sig2 rid2 m2 →
      evm_ecrecover sig1 rid1 m1 = None ∨ evm_ecrecover sig2 rid2 m2 = None →
      evidence_outcome pb input gas_limit reservoir (Reverted (double_sign_cost pb input) [] reservoir)
  | eo_two_keys ev h1 h2 sig1 rid1 m1 sig2 rid2 m2 addr1 addr2 :
      double_sign_cost pb input <= gas_limit → well_formed input ev h1 h2 →
      conflicting (ev_chain_id ev) h1 h2 sig1 rid1 m1 sig2 rid2 m2 →
      evm_ecrecover sig1 rid1 m1 = Some addr1 → evm_ecrecover sig2 rid2 m2 = Some addr2 → addr1 ≠ addr2 →
      evidence_outcome pb input gas_limit reservoir (Halted (halt_of DoubleSignInvalidEvidence) reservoir)
  | eo_convicted ev h1 h2 addr :
      double_sign_cost pb input <= gas_limit → input = encode_evidence ev → convicting ev h1 h2 addr →
      evidence_outcome pb input gas_limit reservoir (Returned (double_sign_cost pb input) (verdict h1 addr) reservoir).

(** On conflicting headers the two recoveries decide. *)
Lemma run_conflicting input gas_limit reservoir pb ev h1 h2 sig1 rid1 m1 sig2 rid2 m2 :
  double_sign_cost pb input <= gas_limit → well_formed input ev h1 h2 →
  conflicting (ev_chain_id ev) h1 h2 sig1 rid1 m1 sig2 rid2 m2 →
  double_sign_evidence_validation_run_inner input gas_limit reservoir pb =
  Done (match evm_ecrecover sig1 rid1 m1, evm_ecrecover sig2 rid2 m2 with
        | Some addr1, Some addr2 =>
            if bool_decide (addr1 = addr2) then Returned (double_sign_cost pb input) (verdict h1 addr1) reservoir
            else Halted (halt_of DoubleSignInvalidEvidence) reservoir
        | _, _ => Reverted (double_sign_cost pb input) [] reservoir
        end).
Proof.
  intros Hgas (Hin & Hev & Hf1 & Hf2 & Hb1 & Hb2) (Hw & Hnum & Hpar & (v1 & He1 & Hl1 & Hm1) & (v2 & He2 & Hl2 & Hm2) & Hsig & Hm).
  destruct (seal_slices (X:=PrecompileError) v1 sig1 rid1 Hl1) as (Ha1 & _ & Hi1 & Hc1).
  destruct (seal_slices (X:=PrecompileError) v2 sig2 rid2 Hl2) as (Ha2 & _ & Hi2 & Hc2).
  assert (Hx : ∀ (v sig : bytes) (rid : Z), length sig = 64%nat → zlen (v ++ sig ++ [rid]) <? EXTRA_SEAL_LENGTH = false).
  { intros v sig rid Hl. apply Z.ltb_ge. unfold EXTRA_SEAL_LENGTH, zlen. rewrite !length_app, Hl. cbn. lia. }
  unfold double_sign_evidence_validation_run_inner. rewrite (proj2 (Z.ltb_ge _ _) Hgas).
  rewrite Hin at 1. rewrite evidence_complete, Hb1, Hb2, !header_complete by done.
  rewrite <- Hnum, <- Hpar, !bool_decide_true by done. cbn [negb].
  rewrite (proj2 (Z.ltb_ge _ _) Hw), He1, He2, !Hx by done. cbn [orb].
  rewrite Ha1, Ha2. cbn [mbind exec_bind]. rewrite (bool_decide_false (_ ++ _ = _)) by done.
  rewrite Hm1, Hm2. cbn [mbind exec_bind]. rewrite (proj2 (Z.eqb_neq _ _) Hm), Hi1, Hc1. cbn [mbind exec_bind].
  destruct (evm_ecrecover sig1 rid1 m1) as [addr|] eqn:Hr1; [|done]. rewrite Hi2, Hc2. cbn [mbind exec_bind].
  destruct (evm_ecrecover sig2 rid2 m2) as [addr2|]; [|done]. case_bool_decide; [|done]. cbn [negb].
  pose proof (ecrecover_width _ _ _ _ Hr1) as Hwid.
  rewrite slice_ok by (unfold zlen; rewrite Hwid; lia). cbn [mbind exec_bind].
  assert (Hd : take (Z.to_nat (zlen addr - 12)) (drop (Z.to_nat 12) addr) = drop 12 addr).
  { apply take_ge. rewrite length_drop. unfold zlen. lia. }
  rewrite Hd. assert (zlen (drop 12 addr) =? 20 = true) as -> by (unfold zlen; by rewrite length_drop, Hwid). done.
Qed.

(** The seal is what the extra data ends in. *)
Lemma seal_of_split h cid sig rid m v sig' rid' :
  seal_of h cid sig rid m → ds_extra h = v ++ sig' ++ [rid'] → length sig' = 64%nat → sig = sig' ∧ rid = rid'.
Proof.
  intros (v' & He & Hl & _) He' Hl'. rewrite He in He'.
  apply app_inj_2 in He' as [_ He']; [|rewrite !length_app; cbn; lia].
  apply app_inj_2 in He' as [-> He']; [|done]. by injection He'.
Qed.

(** Well-formed headers conflict, or the evidence is invalid. *)
Lemma run_well_formed input gas_limit reservoir pb ev h1 h2 :
  double_sign_cost pb input <= gas_limit → well_formed input ev h1 h2 →
  (∃ sig1 rid1 m1 sig2 rid2 m2, conflicting (ev_chain_id ev) h1 h2 sig1 rid1 m1 sig2 rid2 m2) ∨
  (∀ sig1 rid1 m1 sig2 rid2 m2, ¬ conflicting (ev_chain_id ev) h1 h2 sig1 rid1 m1 sig2 rid2 m2) ∧
  double_sign_evidence_validation_run_inner input gas_limit reservoir pb
    = Done (Halted (halt_of DoubleSignInvalidEvidence) reservoir).
Proof.
  intros Hgas (Hin & Hev & Hf1 & Hf2 & Hb1 & Hb2).
  unfold double_sign_evidence_validation_run_inner. rewrite (proj2 (Z.ltb_ge _ _) Hgas).
  rewrite Hin at 1. rewrite evidence_complete, Hb1, Hb2, !header_complete by done.
  destruct (decide (ds_number h1 = ds_number h2)) as [Hnum|Hnum].
  2:{ right. split; [by intros ? ? ? ? ? ? (_ & ? & _)|]. rewrite (bool_decide_false (ds_number _ = _)) by done. by case_if. }
  rewrite <- Hnum, orb_diag. destruct (_ <? _) eqn:Hw; apply Z.ltb_lt in Hw || apply Z.ltb_ge in Hw.
  { right. split; [|done]. intros ? ? ? ? ? ? (? & _). lia. }
  rewrite bool_decide_true by done. cbn [negb].
  case_bool_decide as Hpar; [|right; split; [by intros ? ? ? ? ? ? (_ & _ & ? & _)|done]]. cbn [negb].
  destruct (_ || _) eqn:Hx.
  { right. split; [|done]. intros ? ? ? ? ? ? (_ & _ & _ & (v1 & He1 & Hl1 & _) & (v2 & He2 & Hl2 & _) & _).
    rewrite He1, He2 in Hx. unfold EXTRA_SEAL_LENGTH, zlen in Hx. rewrite !length_app, Hl1, Hl2 in Hx.
    apply orb_true_iff in Hx as [Hx%Z.ltb_lt|Hx%Z.ltb_lt]; cbn in Hx; lia. }
  apply orb_false_iff in Hx as [Hx1 Hx2]. apply Z.ltb_ge in Hx1, Hx2.
  apply extra_split in Hx1 as (v1 & sig1 & rid1 & He1 & Hl1), Hx2 as (v2 & sig2 & rid2 & He2 & Hl2).
  destruct (seal_slices (X:=PrecompileError) v1 sig1 rid1 Hl1) as (Ha1 & _).
  destruct (seal_slices (X:=PrecompileError) v2 sig2 rid2 Hl2) as (Ha2 & _).
  assert (Hcf : ∀ s1 r1 n1 s2 r2 n2, conflicting (ev_chain_id ev) h1 h2 s1 r1 n1 s2 r2 n2 →
            sig1 ++ [rid1] ≠ sig2 ++ [rid2] ∧ seal_hash h1 (ev_chain_id ev) = Done n1 ∧
            seal_hash h2 (ev_chain_id ev) = Done n2 ∧ n1 ≠ n2).
  { intros s1 r1 n1 s2 r2 n2 (_ & _ & _ & Hs1 & Hs2 & Hsig & Hm).
    destruct (seal_of_split _ _ _ _ _ _ _ _ Hs1 He1 Hl1) as [-> ->], (seal_of_split _ _ _ _ _ _ _ _ Hs2 He2 Hl2) as [-> ->].
    by destruct Hs1 as (? & _ & _ & ?), Hs2 as (? & _ & _ & ?). }
  rewrite He1, He2, Ha1, Ha2. cbn [mbind exec_bind].
  case_bool_decide as Hsig; [right; split; [by intros ? ? ? ? ? ? [? _]%Hcf|done]|].
  destruct (seal_hash_ok h1 (ev_chain_id ev) v1 sig1 rid1 He1 Hl1) as [m1 Hm1].
  destruct (seal_hash_ok h2 (ev_chain_id ev) v2 sig2 rid2 He2 Hl2) as [m2 Hm2].
  rewrite Hm1, Hm2. cbn [mbind exec_bind]. destruct (Z.eqb_spec m1 m2) as [->|Hm].
  { right. split; [|done]. intros ? ? ? ? ? ? (_ & E1 & E2 & ?)%Hcf. congruence. }
  left. exists sig1, rid1, m1, sig2, rid2, m2. split_and!; try done; [by exists v1|by exists v2].
Qed.

Lemma run_malformed input gas_limit reservoir pb :
  double_sign_cost pb input <= gas_limit →
  (∃ ev h1 h2, well_formed input ev h1 h2) ∨
  (∀ ev h1 h2, ¬ well_formed input ev h1 h2) ∧
  double_sign_evidence_validation_run_inner input gas_limit reservoir pb
    = Done (Reverted (double_sign_cost pb input) [] reservoir).
Proof.
  intros Hgas. unfold double_sign_evidence_validation_run_inner. rewrite (proj2 (Z.ltb_ge _ _) Hgas).
  assert (Hdec : ∀ ev h1 h2, well_formed input ev h1 h2 → decode_exact decode_evidence input = Some ev ∧
    decode_exact decode_header (header_bytes1 ev) = Some h1 ∧ decode_exact decode_header (header_bytes2 ev) = Some h2).
  { intros ev h1 h2 (-> & Hev & Hf1 & Hf2 & -> & ->). by rewrite evidence_complete, !header_complete. }
  destruct (decode_exact decode_evidence input) as [ev|] eqn:Hev; [|by right; split; [by intros ? ? ? (? & _)%Hdec|]].
  destruct (decode_exact decode_header (header_bytes1 ev)) as [h1|] eqn:Hh1.
  2:{ right. split; [|done]. intros ? ? ? ([= <-] & ? & _)%Hdec. congruence. }
  destruct (decode_exact decode_header (header_bytes2 ev)) as [h2|] eqn:Hh2.
  2:{ right. split; [|done]. intros ? ? ? ([= <-] & _ & ?)%Hdec. congruence. }
  apply evidence_sound in Hev as [Hev Hin]. apply header_sound in Hh1 as [Hf1 Hb1], Hh2 as [Hf2 Hb2].
  left. by exists ev, h1, h2.
Qed.

(** Convicting evidence is conflicting headers sealed by one key. *)
Lemma convicting_conflict input ev h1 h2 addr :
  input = encode_evidence ev →
  convicting ev h1 h2 addr ↔
  well_formed input ev h1 h2 ∧ ∃ sig1 rid1 m1 sig2 rid2 m2,
    conflicting (ev_chain_id ev) h1 h2 sig1 rid1 m1 sig2 rid2 m2 ∧
    evm_ecrecover sig1 rid1 m1 = Some addr ∧ evm_ecrecover sig2 rid2 m2 = Some addr.
Proof.
  intros Hin. unfold convicting, well_formed, conflicting, sealed_by, seal_of. split.
  - intros (? & ? & ? & ? & ? & ? & ? & ? & sig1 & rid1 & m1 & sig2 & rid2 & m2 & (v1 & ? & ? & ? & ?) & (v2 & ? & ? & ? & ?) & ? & ?).
    split; [done|]. exists sig1, rid1, m1, sig2, rid2, m2. split_and!; try done; [by exists v1|by exists v2].
  - intros ((_ & ? & ? & ? & ? & ?) & sig1 & rid1 & m1 & sig2 & rid2 & m2 & (? & ? & ? & (v1 & ? & ? & ?) & (v2 & ? & ? & ?) & ? & ?) & ? & ?).
    split_and!; try done. exists sig1, rid1, m1, sig2, rid2, m2. split_and!; try done; [by exists v1|by exists v2].
Qed.

(** The call does what is specified. *)
Lemma outcome_run input gas_limit reservoir pb o :
  evidence_outcome pb input gas_limit reservoir o →
  double_sign_evidence_validation_run_inner input gas_limit reservoir pb = Done o.
Proof.
  intros [Hg|Hg Hno|ev h1 h2 Hg Hwf Hno|ev h1 h2 s1 r1 m1 s2 r2 m2 Hg Hwf Hc Hr
         |ev h1 h2 s1 r1 m1 s2 r2 m2 a1 a2 Hg Hwf Hc Hr1 Hr2 Hne|ev h1 h2 addr Hg Hin Hc].
  - unfold double_sign_evidence_validation_run_inner. by rewrite (proj2 (Z.ltb_lt _ _) Hg).
  - destruct (run_malformed input gas_limit reservoir pb Hg) as [(ev & h1 & h2 & Hwf)|[_ Hr]]; [by destruct (Hno ev h1 h2)|done].
  - destruct (run_well_formed input gas_limit reservoir pb ev h1 h2 Hg Hwf) as [(? & ? & ? & ? & ? & ? & Hc)|[_ Hr]];
      [by apply Hno in Hc|done].
  - rewrite (run_conflicting _ _ _ _ _ _ _ _ _ _ _ _ _ Hg Hwf Hc). destruct Hr as [-> | ->]; [done|]. by destruct (evm_ecrecover s1 r1 m1).
  - rewrite (run_conflicting _ _ _ _ _ _ _ _ _ _ _ _ _ Hg Hwf Hc), Hr1, Hr2. by rewrite bool_decide_false.
  - apply (convicting_conflict input) in Hc as (Hwf & s1 & r1 & m1 & s2 & r2 & m2 & Hc & Hr1 & Hr2); [|done].
    rewrite (run_conflicting _ _ _ _ _ _ _ _ _ _ _ _ _ Hg Hwf Hc), Hr1, Hr2. by rewrite bool_decide_true.
Qed.

(** Some outcome is specified for every call. *)
Lemma outcome_total input gas_limit reservoir pb : ∃ o, evidence_outcome pb input gas_limit reservoir o.
Proof.
  destruct (Z.lt_ge_cases gas_limit (double_sign_cost pb input)) as [Hg|Hg]; [eexists; by apply eo_out_of_gas|].
  destruct (run_malformed input gas_limit reservoir pb Hg) as [(ev & h1 & h2 & Hwf)|[Hno _]]; [|eexists; by apply eo_malformed].
  destruct (run_well_formed input gas_limit reservoir pb ev h1 h2 Hg Hwf) as [(s1 & r1 & m1 & s2 & r2 & m2 & Hc)|[Hno _]];
    [|eexists; by eapply eo_no_conflict].
  destruct (evm_ecrecover s1 r1 m1) as [a1|] eqn:Hr1; [|eexists; eapply eo_unrecoverable; by eauto].
  destruct (evm_ecrecover s2 r2 m2) as [a2|] eqn:Hr2; [|eexists; eapply eo_unrecoverable; by eauto].
  destruct (decide (a1 = a2)) as [->|Hne]; [|eexists; eapply eo_two_keys; by eauto].
  eexists. pose proof Hwf as [Hin _]. eapply eo_convicted; [done|done|].
  apply (convicting_conflict input); [done|]. split; [done|]. by exists s1, r1, m1, s2, r2, m2.
Qed.

(** C16: the evidence precompile does on every input exactly what is specified.
    It always returns, and with the one outcome [evidence_outcome] gives: out of
    gas below the price of the input; a revert at that price if the input is not
    the one encoding of evidence about two well-formed headers, or if the
    headers conflict and a seal recovers to no address; the halt for invalid
    evidence if the headers do not conflict (one height of at most 32 bytes, one
    parent, seals present and different, different seal hashes) or recover to two
    addresses; and otherwise the verdict, which is the address both recover to
    and the height.  So a verdict is returned exactly on convicting evidence. *)
Theorem double_sign_exact input gas_limit reservoir pb :
  (∃ o, double_sign_evidence_validation_run_inner input gas_limit reservoir pb = Done o) ∧
  (∀ o, double_sign_evidence_validation_run_inner input gas_limit reservoir pb = Done o ↔
        evidence_outcome pb input gas_limit reservoir o) ∧
  ∀ g out r,
    double_sign_evidence_validation_run_inner input gas_limit reservoir pb = Done (Returned g out r) ↔
    double_sign_cost pb input <= gas_limit ∧ g = double_sign_cost pb input ∧ r = reservoir ∧
    ∃ ev h1 h2 addr, input = encode_evidence ev ∧ convicting ev h1 h2 addr ∧ out = verdict h1 addr.
Proof.
  destruct (outcome_total input gas_limit reservoir pb) as [o Ho]. pose proof (outcome_run _ _ _ _ _ Ho) as Hrun.
  assert (Hiff : ∀ o, double_sign_evidence_validation_run_inner input gas_limit reservoir pb = Done o ↔
                      evidence_outcome pb input gas_limit reservoir o).
  { intros o'. split; [|apply outcome_run]. rewrite Hrun. by intros [= <-]. }
  split; [by exists o|]. split; [done|]. intros g out r. rewrite Hiff. split.
  - intros Hout. inversion Hout as [| | | | |ev h1 h2 addr Hg Hin Hc]; subst. split_and!; try done. by exists ev, h1, h2, addr.
  - intros (Hg & -> & -> & ev & h1 & h2 & addr & Hin & Hc & ->). by eapply eo_convicted.
Qed.
End Exact.

(** ** Headers of the chain as evidence *)

(** The minimal big-endian bytes of a number of at most 32 bytes. *)
Fixpoint trim_zeros (l : bytes) : bytes :=
  match l with
  | 0 :: l => trim_zeros l
  | _ => l
  end.
Definition be_trim (z : Z) : bytes := trim_zeros (be_encode 32 z).

(** How the header of the chain is written: integers minimal, hashes in full. *)
Definition wire (h : Header) : DsHeader :=
  {| ds_parent_hash := be_encode 32 (parent_hash h); ds_uncle_hash := be_encode 32 (ommers_hash h);
     ds_coinbase := be_encode 20 (beneficiary h); ds_root := be_encode 32 (state_root h);
     ds_tx_hash := be_encode 32 (transactions_root h); ds_receipt_hash := be_encode 32 (receipts_root h);
     ds_bloom := be_encode 256 (logs_bloom h); ds_difficulty := be_trim (difficulty h); ds_number := be_trim (number h);
     ds_gas_limit := gas_limit h; ds_gas_used := gas_used h; ds_time := timestamp h; ds_extra := extra_data h;
     ds_mix_digest := be_encode 32 (mix_hash h); ds_nonce := be_encode 8 (nonce h);
     ds_base_fee := be_trim <$> base_fee_per_gas h; ds_withdrawals_hash := be_encode 32 <$> withdrawals_root h;
     ds_blob_gas_used := blob_gas_used h; ds_excess_blob_gas := excess_blob_gas h;
     ds_parent_beacon_root := be_encode 32 <$> parent_beacon_block_root h;
     ds_requests_hash := be_encode 32 <$> requests_hash h;
     ds_block_access_list_hash := be_encode 32 <$> block_access_list_hash h; ds_slot_number := slot_number h |}.

(** [alloy_rlp]: integers are the strings of their minimal bytes, hashes and
    addresses those of all their bytes. *)
Class RlpItemLaws (R : RlpApi) := {
  u256_item z : 0 <= z < 256 ^ 32 → rlp_encode (RlpU256 z) = rlp_encode (RlpSlice (be_trim z));
  b256_item z : rlp_encode (RlpB256 z) = rlp_encode (RlpSlice (be_encode 32 z));
  address_item z : rlp_encode (RlpAddress z) = rlp_encode (RlpSlice (be_encode 20 z));
  bloom_item z : rlp_encode (RlpBloom z) = rlp_encode (RlpSlice (be_encode 256 z));
  b64_item z : rlp_encode (RlpB64 z) = rlp_encode (RlpSlice (be_encode 8 z));
}.

(** The consensus code and the precompile recover the same address. *)
Class EcrecoverAgrees (S : EcdsaApi) (E : EvmEcrecover) := {
  recover_agrees m sig rid a :
    recover_address m sig rid = Some a → evm_ecrecover sig rid m = Some (replicate 12 0 ++ be_encode 20 a);
}.

Lemma trim_head l : head (trim_zeros l) ≠ Some 0.
Proof. induction l as [|[] l IH]; cbn; done. Qed.

Lemma trim_pad l : replicate (length l - length (trim_zeros l)) 0 ++ trim_zeros l = l ∧ (length (trim_zeros l) <= length l)%nat.
Proof.
  induction l as [|b l [IH IHl]]; [done|]. destruct b as [|p|p]; cbn [trim_zeros length]; [|by rewrite Nat.sub_diag|by rewrite Nat.sub_diag].
  split; [|lia]. rewrite Nat.sub_succ_l by done. cbn [replicate app]. by rewrite IH.
Qed.

Lemma be_trim_ok z : bigint_ok (be_trim z) ∧ zlen (be_trim z) <= 32
  ∧ replicate (Z.to_nat (32 - zlen (be_trim z))) 0 ++ be_trim z = be_encode 32 z.
Proof.
  unfold be_trim. destruct (trim_pad (be_encode 32 z)) as [Hp Hl]. rewrite be_encode_length in Hp, Hl.
  assert (Hz : zlen (trim_zeros (be_encode 32 z)) <= 32) by (unfold zlen; lia).
  split_and!; [|done|].
  - split; [apply trim_head|unfold len_ok; lia].
  - rewrite <- Hp at 3. do 2 f_equal. unfold zlen. lia.
Qed.

Section Chain.
Context `{F : ForkConditionApi} `{RL : !RlpLaws R} `{RI : !RlpItemLaws R} `{DL : !RlpDecodeLaws R D}.
Context `{EL : !EcrecoverLaws E} `{S : EcdsaApi} `{EA : !EcrecoverAgrees S E}.
Implicit Types (h : Header) (self : Parlia).

(** A header of the chain that fits the wire: trailing fields present in order,
    and, as every valid header has it, a beacon root of zero if any. *)
Record wire_ok h : Prop := {
  wo_header : header_ok h;
  wo_slot : is_u64 (default 0 (slot_number h));
  wo_beacon : parent_beacon_block_root h = None ∨ parent_beacon_block_root h = Some 0;
  wo_positional : positional (header_tail (wire h));
  wo_length : len_ok (body_bytes (wire h));
}.

Lemma rlp_header_length h cid :
  rlp_header h cid = zlen (concat (rlp_encode <$> fixed_items h cid ++ optional_items h)).
Proof.
  unfold rlp_header, optional_items. rewrite fmap_app, concat_app, zlen_app.
  destruct (parent_beacon_block_root h) as [[| |]|]; cbn [Z.eqb]; [destruct (requests_hash h)|..];
    cbn [fixed_items fmap list_fmap concat app]; rewrite !rlp_length_ok; autorewrite with bsc_simp; lia.
Qed.

Lemma wire_fits h : wire_ok h → header_fits (wire h).
Proof.
  intros [[Hb Ha Hl Hu He] Hs Hbe Hpos Hlen]. split; [|done].
  assert (Hw : ∀ z, has_length 32 (be_encode 32 z)) by (intros; apply be_encode_length).
  assert (Ho : ∀ o, opt_ok (has_length 32) (be_encode 32 <$> o)) by (intros o a (z & _ & ->)%fmap_Some; done).
  repeat (apply Forall_cons in Hu as [? Hu]).
  assert (Hou : ∀ o, 0 <= default 0 o < 256 ^ 8 → opt_ok is_u64 o) by (intros o Hr a ->; exact Hr).
  split; cbn; try (by apply be_encode_length); try (apply be_trim_ok); try done.
  - repeat (apply Forall_cons_2; [apply Hw|]). by apply Forall_nil_2.
  - repeat (apply Forall_cons_2; [done|]). by apply Forall_nil_2.
  - intros a (z & _ & ->)%fmap_Some. apply be_trim_ok.
  - repeat (apply Forall_cons_2; [apply Ho|]). by apply Forall_nil_2.
  - repeat (apply Forall_cons_2; [by apply Hou|]). by apply Forall_nil_2.
Qed.

(** Reduces the fields of a header on the wire, not the bytes in them. *)
Ltac cbn_wire :=
  cbn [wire ds_parent_hash ds_uncle_hash ds_coinbase ds_root ds_tx_hash ds_receipt_hash ds_bloom ds_difficulty ds_number
       ds_gas_limit ds_gas_used ds_time ds_extra ds_mix_digest ds_nonce ds_base_fee ds_withdrawals_hash ds_blob_gas_used
       ds_excess_blob_gas ds_parent_beacon_root ds_requests_hash ds_block_access_list_hash ds_slot_number
       fmap list_fmap option_fmap option_map concat app encode_optional default from_option id].

Lemma positional_before {A} (l : list (option A)) i j a :
  positional l → (i < j)%nat → l !! j = Some (Some a) → l !! i ≠ Some None.
Proof.
  revert i j. induction l as [|o l IH]; intros i j Hp Hij Hj Hi; [done|]. destruct Hp as [Hn Hp].
  destruct j as [|j]; [lia|]. destruct i as [|i]; [|by apply (IH i j); [|lia|..]].
  injection Hi as ->. specialize (Hn eq_refl). apply (Forall_lookup_1 _ _ j (Some a)) in Hn; [done|exact Hj].
Qed.

(** With a beacon root, everything before it is present. *)
Lemma beacon_tail h :
  positional (header_tail (wire h)) → parent_beacon_block_root h = Some 0 →
  ∃ bf wr bg eb, base_fee_per_gas h = Some bf ∧ withdrawals_root h = Some wr ∧ blob_gas_used h = Some bg ∧ excess_blob_gas h = Some eb.
Proof.
  intros Hpos Hb.
  assert (Hp : ∀ i o, (i < 4)%nat → header_tail (wire h) !! i = Some o → o ≠ None).
  { intros i o Hi Ho ->. apply (positional_before _ i 4 (encode_slice (be_encode 32 0)) Hpos Hi); [|done].
    unfold header_tail. cbn [lookup list_lookup]. cbn_wire. by rewrite Hb. }
  assert (Hs : ∀ i {A} (f : A → bytes) (o : option A), (i < 4)%nat → header_tail (wire h) !! i = Some (f <$> o) → ∃ a, o = Some a).
  { intros i A f [a|] Hi Ho; [by exists a|]. by apply Hp in Ho. }
  destruct (Hs 0%nat _ (λ z, encode_slice (be_trim z)) (base_fee_per_gas h)) as [bf Ebf]; [lia|by unfold header_tail; cbn [lookup list_lookup]; cbn_wire; destruct (base_fee_per_gas h)|].
  destruct (Hs 1%nat _ (λ z, encode_slice (be_encode 32 z)) (withdrawals_root h)) as [wr Ewr]; [lia|by unfold header_tail; cbn [lookup list_lookup]; cbn_wire; destruct (withdrawals_root h)|].
  destruct (Hs 2%nat _ encode_u64 (blob_gas_used h)) as [bg Ebg]; [lia|done|].
  destruct (Hs 3%nat _ encode_u64 (excess_blob_gas h)) as [eb Eeb]; [lia|done|].
  by exists bf, wr, bg, eb.
Qed.

(** The two implementations of the seal hash agree on headers of the chain. *)
Lemma seal_hash_agrees h cid v sig rid :
  wire_ok h → 0 <= cid < 256 ^ 8 → extra_data h = v ++ sig ++ [rid] → length sig = 64%nat →
  seal_hash (wire h) (be_trim cid) = Done (hash_with_chain_id h cid).
Proof.
  intros [Hok _ Hbe Hpos _] Hc He Hl. destruct (seal_slices (X:=PrecompileError) v sig rid Hl) as (_ & Hv & _).
  unfold seal_hash. change (ds_extra (wire h)) with (extra_data h). rewrite He, Hv. cbn [mbind exec_bind]. f_equal.
  unfold hash_with_chain_id. rewrite preimage_items, rlp_header_length. unfold encode_list.
  assert (Hsx : signed_extra_data h = v).
  { unfold signed_extra_data, EXTRA_SEAL_LEN, sat_sub64. rewrite He. rewrite !zlen_app.
    assert (zlen sig = 64) as -> by (unfold zlen; by rewrite Hl). rewrite (zlen_cons rid []), zlen_nil.
    pose proof (zlen_nonneg v). replace (Z.to_nat _) with (length v) by (unfold zlen; lia). apply take_app_length. }
  destruct Hok as [Hb256 _ _ Hu64 _]. repeat (apply Forall_cons in Hb256 as [? Hb256]). repeat (apply Forall_cons in Hu64 as [? Hu64]).
  assert (256 ^ 8 < 256 ^ 32) by done.
  match goal with |- keccak256 (rlp_list_header (zlen ?p) ++ _) = keccak256 (rlp_list_header (zlen ?q) ++ _) => enough (p = q) as -> by done end.
  unfold fixed_items, optional_items, encode_leading, encode_slice, encode_u64. rewrite Hsx.
  destruct Hbe as [Hbe|Hbe].
  - rewrite Hbe. cbn_wire. rewrite Hbe. cbn_wire.
    rewrite !u256_item, !b256_item, address_item, bloom_item, b64_item by lia.
    by rewrite <- !app_assoc, !app_nil_r.
  - destruct (beacon_tail h Hpos Hbe) as (bf & wr & bg & eb & E1 & E2 & E3 & E4).
    rewrite E1 in *. rewrite Hbe, ?E1, E2, E3, E4. cbn_wire. rewrite Hbe, E1, E2, E3, E4. cbn_wire.
    destruct (requests_hash h) as [q|]; cbn_wire;
      rewrite !u256_item, !b256_item, address_item, bloom_item, b64_item by (cbn [default from_option id] in *; lia);
      by rewrite <- !app_assoc, ?app_nil_r.
Qed.

Definition evidence_of (cid : Z) h1 h2 : DoubleSignEvidence :=
  {| ev_chain_id := be_trim cid; header_bytes1 := encode_header (wire h1); header_bytes2 := encode_header (wire h2) |}.

(** The last 65 bytes of the extra data. *)
Definition seal_part h : bytes := drop (Z.to_nat (zlen (extra_data h) - EXTRA_SEAL_LENGTH)) (extra_data h).

(** A header the consensus code attributes to [a] is sealed by [a] on the wire. *)
Lemma proposer_seals self h a :
  wire_ok h → 0 <= chain_id (parlia_spec self) < 256 ^ 8 → recover_proposer self h = Done a →
  ∃ sig rid, seal_part h = sig ++ [rid] ∧
    sealed_by (wire h) (be_trim (chain_id (parlia_spec self))) sig rid (hash_with_chain_id h (chain_id (parlia_spec self)))
      (replicate 12 0 ++ be_encode 20 a).
Proof.
  intros Hw Hc. unfold recover_proposer, EXTRA_VANITY_LEN, EXTRA_SEAL_LEN. case_if; [done|]. split_tests.
  destruct (extra_split (extra_data h)) as (v & sig & rid & He & Hl); [unfold EXTRA_SEAL_LENGTH; lia|].
  destruct (seal_slices (X:=ParliaConsensusError) v sig rid Hl) as (Ha & _ & _ & _).
  assert (Hz : zlen (extra_data h) = zlen v + 65) by (rewrite He; unfold zlen; rewrite !length_app, Hl; cbn; lia).
  assert (Hsig : zlen sig = 64) by (unfold zlen; by rewrite Hl).
  intros Hr. apply bind_Done in Hr as (b & Hb & Hr). apply bind_Done in Hr as (sg & Hs & Hr).
  rewrite Hz, He in Hb, Hs. rewrite app_assoc, index_app_mid in Hb by (rewrite zlen_app; lia). injection Hb as <-.
  rewrite (slice_app_at v sig [rid]) in Hs by lia. injection Hs as <-. apply ok_or_Done in Hr.
  exists sig, rid. split.
  - unfold seal_part, EXTRA_SEAL_LENGTH. rewrite Hz, He. replace (Z.to_nat _) with (length v) by (unfold zlen; lia).
    apply drop_app_length.
  - exists v. split_and!; [done|done| |by apply recover_agrees]. by eapply seal_hash_agrees.
Qed.

(** C15: a validator that seals two blocks at one height is convicted.  Take any
    two headers of the chain that every node attributes to the same validator,
    with the same number and parent but different seals and seal hashes.  The
    evidence made of them is accepted by the precompile, with and without the
    price per byte, and the verdict is the validator's address and the height. *)
Theorem double_signer_convicted self h1 h2 a gas_limit reservoir pb :
  let cid := chain_id (parlia_spec self) in
  let ev := evidence_of cid h1 h2 in
  wire_ok h1 → wire_ok h2 → 0 <= cid < 256 ^ 8 → evidence_fits ev →
  recover_proposer self h1 = Done a → recover_proposer self h2 = Done a →
  number h1 = number h2 → parent_hash h1 = parent_hash h2 →
  seal_part h1 ≠ seal_part h2 → hash_with_chain_id h1 cid ≠ hash_with_chain_id h2 cid →
  double_sign_cost pb (encode_evidence ev) <= gas_limit →
  double_sign_evidence_validation_run_inner (encode_evidence ev) gas_limit reservoir pb
    = Done (Returned (double_sign_cost pb (encode_evidence ev)) (be_encode 20 a ++ be_encode 32 (number h1)) reservoir).
Proof.
  intros cid ev Hw1 Hw2 Hc Hfit Hp1 Hp2 Hn Hpar Hseal Hm Hgas.
  destruct (proposer_seals self h1 a Hw1 Hc Hp1) as (sig1 & rid1 & Hs1 & Hb1).
  destruct (proposer_seals self h2 a Hw2 Hc Hp2) as (sig2 & rid2 & Hs2 & Hb2).
  destruct (be_trim_ok (number h1)) as (_ & Hlen & Hpad).
  rewrite (outcome_run _ gas_limit reservoir pb
    (Returned (double_sign_cost pb (encode_evidence ev)) (verdict (wire h1) (replicate 12 0 ++ be_encode 20 a)) reservoir)).
  - do 2 f_equal. unfold verdict. rewrite (drop_app_length' (replicate 12 0)) by done. f_equal. exact Hpad.
  - apply (eo_convicted _ _ _ _ ev (wire h1) (wire h2)); [done|done|].
    unfold convicting. split_and!; try done; try (by apply wire_fits).
    + cbn [wire ds_number]. by rewrite Hn.
    + cbn [wire ds_parent_hash]. by rewrite Hpar.
    + exists sig1, rid1, (hash_with_chain_id h1 cid), sig2, rid2, (hash_with_chain_id h2 cid).
      split_and!; [done|done|congruence|done].
Qed.
End Chain.
