(* ===== verification/DoubleSignDemo.v ===== *)
(** * DoubleSignDemo: validator 30 seals twice

    A concrete codec that satisfies the laws of [DoubleSignProps] and two headers
    of one height, with the optional fields up to the requests hash. *)

From stdpp Require Import base tactics numbers option list gmap strings.
From Stdlib Require Import ZArith Lia Bool.
From S2P Require Import Prelude.
From S2P Require Import Hardforks.
From S2P Require Import Header.
From S2P Require Import Snapshot.
From S2P Require Import SnapshotProps.
From S2P Require Import SnapshotClaims.
From S2P Require Import Extra.
From S2P Require Import ExtraProps.
From S2P Require Import Seal.
From S2P Require Import Attestation.
From S2P Require Import AttestationProps.
From S2P Require Import AttestationDemo.
From S2P Require Import Precompiles.
From S2P Require Import DoubleSign.
From S2P Require Import DoubleSignProps.

(** Strings and lists behind a tag and eight bytes of length. *)
Module FlatRlp.
Definition frame (tag : Z) (l : bytes) : bytes := (tag :: be_encode 8 (zlen l)) ++ l.
Definition bytes_ok (l : bytes) : bool := forallb (λ b, (0 <=? b) && (b <? 256)) l.

Definition unframe (tag : Z) (buf : bytes) : option (bytes * bytes) :=
  match buf with
  | t :: rest =>
      let len := take 8 rest in
      let body := drop 8 rest in
      let n := Z.to_nat (be_decode len) in
      if (t =? tag) && bytes_ok len && (length len =? 8)%nat && (n <=? length body)%nat
      then Some (take n body, drop n body) else None
  | [] => None
  end.

Definition payload (x : RlpItem) : bytes :=
  match x with
  | RlpU256 z => be_trim z
  | RlpB256 z => be_encode 32 z
  | RlpAddress z => be_encode 20 z
  | RlpBloom z => be_encode 256 z
  | RlpU64 z => be_encode 8 z
  | RlpB64 z => be_encode 8 z
  | RlpSlice l => l
  end.

#[export] Instance flat_rlp : RlpApi := {|
  rlp_encode x := frame 1 (payload x);
  rlp_length x := zlen (frame 1 (payload x));
  rlp_list_header n := 2 :: be_encode 8 n;
  keccak256 l := be_decode l mod (2 ^ 256 - 189);
|}.
#[export] Instance flat_rlp_laws : RlpLaws flat_rlp.
Proof. by split. Qed.
#[export] Instance flat_items : RlpItemLaws flat_rlp.
Proof. by split. Qed.

#[export] Instance flat_decode : RlpDecode := {|
  decode_bytes (is_list : bool) := unframe (if is_list then 2 else 1);
  decode_array n buf := match unframe 1 buf with
                        | Some (l, rest) => if (length l =? n)%nat then Some (l, rest) else None
                        | None => None
                        end;
  decode_u64 buf := match unframe 1 buf with
                    | Some (l, rest) => if (length l =? 8)%nat && bytes_ok l then Some (be_decode l, rest) else None
                    | None => None
                    end;
  decode_vec := unframe 1;
|}.

Lemma bytes_ok_Forall l : bytes_ok l = true ↔ Forall byte_ok l.
Proof.
  unfold bytes_ok. rewrite <- Is_true_true, forallb_True. apply Forall_proper; [|done]. intros b.
  rewrite Is_true_true. unfold byte_ok. lia.
Qed.

Lemma frame_codec tag : Codec (frame tag) (unframe tag) len_ok.
Proof.
  split.
  - intros l rest Hl. unfold len_ok in Hl. unfold frame, unframe. cbn [app].
    rewrite <- app_assoc, take_app_length', drop_app_length' by by rewrite be_encode_length.
    assert (Hok : bytes_ok (be_encode 8 (zlen l)) = true) by apply bytes_ok_Forall, be_encode_ok.
    rewrite Z.eqb_refl, Hok, be_encode_length. cbn [andb Nat.eqb].
    rewrite be_decode_encode by (split; [apply zlen_nonneg|exact Hl]). unfold zlen. rewrite Nat2Z.id.
    rewrite length_app, (proj2 (Nat.leb_le _ _)) by lia. by rewrite take_app_length, drop_app_length.
  - intros [|t rest] l r; [done|]. unfold unframe. case_if; [|done]. intros [= <- <-]. split_tests.
    rename select (bytes_ok _ = true) into Hok. apply bytes_ok_Forall in Hok as Hb.
    rename select (_ =? _ = true)%nat into H8. apply Nat.eqb_eq in H8.
    rename select (_ <=? _ = true)%nat into Hn. apply Nat.leb_le in Hn.
    pose proof (be_decode_bound _ Hb) as Hbound. unfold zlen in Hbound. rewrite H8 in Hbound.
    assert (Hz : zlen (take (Z.to_nat (be_decode (take 8 rest))) (drop 8 rest)) = be_decode (take 8 rest))
      by (unfold zlen; rewrite length_take; lia).
    split; [unfold len_ok; rewrite Hz; exact (proj2 Hbound)|].
    unfold frame. rewrite Hz. cbn [app]. f_equal; [lia|].
    replace (be_encode 8 (be_decode (take 8 rest))) with (take 8 rest) by (rewrite <- H8 at 2; symmetry; by apply be_encode_decode).
    by rewrite <- app_assoc, take_drop, take_drop.
  - done.
Qed.

#[export] Instance flat_decode_laws : RlpDecodeLaws flat_rlp flat_decode.
Proof.
  split.
  - apply frame_codec.
  - apply (frame_codec 2).
  - split.
    + intros z rest Hz. cbn [decode_u64 flat_decode]. change (encode_u64 z) with (frame 1 (be_encode 8 z)).
      rewrite (codec_complete (Codec:=frame_codec 1)) by (unfold len_ok, zlen; by rewrite be_encode_length).
      rewrite be_encode_length. assert (bytes_ok (be_encode 8 z) = true) as -> by apply bytes_ok_Forall, be_encode_ok.
      by rewrite be_decode_encode.
    + intros buf z rest. cbn [decode_u64 flat_decode]. destruct (unframe 1 buf) as [[l r]|] eqn:Eu; [|done]. case_if; [|done]. intros [= <- <-]. split_tests.
      rename select (bytes_ok _ = true) into Hok. apply bytes_ok_Forall in Hok as Hb.
      rename select (_ =? _ = true)%nat into H8. apply Nat.eqb_eq in H8.
      apply (codec_sound (Codec:=frame_codec 1)) in Eu as [_ ->]. pose proof (be_decode_bound _ Hb) as Hd. unfold zlen in Hd. rewrite H8 in Hd.
      split; [exact Hd|]. change (encode_u64 (be_decode l)) with (frame 1 (be_encode 8 (be_decode l))).
      do 2 f_equal. rewrite <- H8. symmetry. by apply be_encode_decode.
    + done.
  - done.
  - intros n buf l rest. cbn [decode_array decode_bytes flat_decode]. destruct (unframe 1 buf) as [[l' r]|]; [|naive_solver]. case_if; split_tests; unfold has_length.
    + rename select (_ =? _ = true)%nat into H8. apply Nat.eqb_eq in H8. naive_solver.
    + rename select (_ =? _ = false)%nat into H8. apply Nat.eqb_neq in H8. naive_solver.
Qed.
End FlatRlp.

Module DoubleSignNet.
Import ThresholdForks DemoApis DemoChain ExtraDemo SealDemo AttestationNet FlatRlp.

#[export] Instance demo_ecrecover : EvmEcrecover := {|
  evm_ecrecover sig rid m := (λ a, replicate 12 0 ++ be_encode 20 a) <$> recover_address m sig rid;
|}.
#[export] Instance demo_ecrecover_laws : EcrecoverLaws demo_ecrecover.
Proof. split. intros sig rid m a (z & _ & ->)%fmap_Some. by rewrite length_app, be_encode_length. Qed.
#[export] Instance demo_ecrecover_agrees : EcrecoverAgrees demo_ecdsa demo_ecrecover.
Proof. split. intros m sig rid a Hr. cbn [evm_ecrecover demo_ecrecover]. by rewrite Hr. Qed.

(** A header of height 77 with the given vanity byte and signature byte. *)
Definition twin (v s : Z) : Header :=
  {| parent_hash := 4660; ommers_hash := 1; beneficiary := 30; state_root := 5; transactions_root := 6; receipts_root := 7;
     logs_bloom := 0; difficulty := 2; number := 77; gas_limit := 30000000; gas_used := 21000; timestamp := 1760000000;
     extra_data := replicate 32 v ++ (30 :: replicate 63 s) ++ [0];
     mix_hash := 750; nonce := 0; base_fee_per_gas := Some 0; withdrawals_root := Some 8; blob_gas_used := Some 131072;
     excess_blob_gas := Some 0; parent_beacon_block_root := Some 0; requests_hash := Some 9;
     block_access_list_hash := None; slot_number := None |}.

Lemma twin_header_ok v s : header_ok (twin v s).
Proof.
  split.
  - repeat (apply Forall_cons_2; [by split|]). by apply Forall_nil_2.
  - by split.
  - by split.
  - repeat (apply Forall_cons_2; [by split|]). by apply Forall_nil_2.
  - done.
Qed.

Lemma twin_ok v s : wire_ok (twin v s).
Proof.
  split; [apply twin_header_ok|by split|by right| |].
  - unfold header_tail. repeat (split; [try done; intros _; repeat constructor|]). done.
  - unfold len_ok. rewrite <- (Z.ltb_lt _ _). by vm_compute.
Qed.

Definition twins : DoubleSignEvidence := evidence_of (chain_id (parlia_spec parlia)) (twin 1 3) (twin 2 4).

Lemma twin_evidence_fits : evidence_fits twins.
Proof.
  unfold evidence_fits, bigint_ok, len_ok. rewrite <- !(Z.ltb_lt _ _). split_and!; by vm_compute.
Qed.

Lemma double_signer_convicted_witness :
  double_sign_evidence_validation_run_inner (encode_evidence twins) 100000 5 16
    = Done (Returned (double_sign_cost 16 (encode_evidence twins)) (be_encode 20 30 ++ be_encode 32 (number (twin 1 3))) 5).
Proof.
  apply (double_signer_convicted parlia (twin 1 3) (twin 2 4) 30 100000 5 16).
  - apply twin_ok.
  - apply twin_ok.
  - by split; vm_compute.
  - apply twin_evidence_fits.
  - by vm_compute.
  - by vm_compute.
  - done.
  - done.
  - by vm_compute.
  - by vm_compute.
  - by vm_compute.
Defined.

(** The same header twice is paid for with the halt, not with a verdict. *)
Lemma double_sign_exact_witness :
  ∃ o, evidence_outcome 0 (encode_evidence (evidence_of 56 (twin 1 3) (twin 1 3))) 100000 5 o
    ∧ ∀ g out r, o ≠ Returned g out r.
Proof.
  destruct (double_sign_exact (encode_evidence (evidence_of 56 (twin 1 3) (twin 1 3))) 100000 5 0) as [[o Ho] [Hiff _]].
  exists o. split; [by apply Hiff|]. intros g out r ->.
  assert (match double_sign_evidence_validation_run_inner (encode_evidence (evidence_of 56 (twin 1 3) (twin 1 3))) 100000 5 0 with
          | Done (Halted _ _) => True | _ => False end) as Hh by by vm_compute.
  by rewrite Ho in Hh.
Defined.
End DoubleSignNet.
