(* ===== verification/CometBft.v ===== *)
(** * CometBft: the light client of the second bridge

    [src/evm/precompiles/cometbft.rs]: the consensus state a contract keeps for
    the other chain and its bytes, its update by a light block, the check for
    duplicate validators, and the precompile in its three versions.

    The types and the verification of [cometbft], and the protobuf decoder, are
    parameters; [String::from_utf8_lossy] is written out. *)

From stdpp Require Import base tactics numbers option list gmap strings.
From Stdlib Require Import ZArith Lia Bool.
From S2P Require Import Prelude.
From S2P Require Import Precompiles.

(** ** Strings *)

(** [core::str::Utf8Chunks]: an invalid sequence, up to the byte that makes it
    invalid, becomes one replacement character. *)
Definition REPLACEMENT_CHARACTER : bytes := [239; 191; 189].

Definition byte_in (lo b hi : Z) : bool := (lo <=? b) && (b <=? hi).
Definition is_continuation (b : Z) : bool := byte_in 128 b 191.

(** Which second bytes are allowed after a first byte of a longer sequence. *)
Definition second_of_three (first b : Z) : bool :=
  if first =? 224 then byte_in 160 b 191
  else if first =? 237 then byte_in 128 b 159
  else byte_in 128 b 191.
Definition second_of_four (first b : Z) : bool :=
  if first =? 240 then byte_in 144 b 191
  else if first =? 244 then byte_in 128 b 143
  else byte_in 128 b 191.

Fixpoint from_utf8_lossy (l : bytes) : bytes :=
  match l with
  | [] => []
  | b :: l1 =>
      if b <? 128 then b :: from_utf8_lossy l1
      else if byte_in 194 b 223 then
        match l1 with
        | c :: l2 => if is_continuation c then b :: c :: from_utf8_lossy l2
                     else REPLACEMENT_CHARACTER ++ from_utf8_lossy l1
        | [] => REPLACEMENT_CHARACTER
        end
      else if byte_in 224 b 239 then
        match l1 with
        | c :: l2 =>
            if second_of_three b c then
              match l2 with
              | d :: l3 => if is_continuation d then b :: c :: d :: from_utf8_lossy l3
                           else REPLACEMENT_CHARACTER ++ from_utf8_lossy l2
              | [] => REPLACEMENT_CHARACTER
              end
            else REPLACEMENT_CHARACTER ++ from_utf8_lossy l1
        | [] => REPLACEMENT_CHARACTER
        end
      else if byte_in 240 b 244 then
        match l1 with
        | c :: l2 =>
            if second_of_four b c then
              match l2 with
              | d :: l3 =>
                  if is_continuation d then
                    match l3 with
                    | e :: l4 => if is_continuation e then b :: c :: d :: e :: from_utf8_lossy l4
                                 else REPLACEMENT_CHARACTER ++ from_utf8_lossy l3
                    | [] => REPLACEMENT_CHARACTER
                    end
                  else REPLACEMENT_CHARACTER ++ from_utf8_lossy l2
              | [] => REPLACEMENT_CHARACTER
              end
            else REPLACEMENT_CHARACTER ++ from_utf8_lossy l1
        | [] => REPLACEMENT_CHARACTER
        end
      else REPLACEMENT_CHARACTER ++ from_utf8_lossy l1
  end.

(** [trim_end_matches('\0')] *)
Fixpoint trim_end_zeros (l : bytes) : bytes :=
  match l with
  | [] => []
  | b :: l => match trim_end_zeros l with
              | [] => if b =? 0 then [] else [b]
              | l => b :: l
              end
  end.

(** ** The other chain *)

(** [validator::Info]: the power has 64 bits. *)
Record TmValidator := {
  vi_address : bytes;
  vi_pub_key : bytes;       (* [pub_key.to_bytes()] *)
  vi_power : Z;
  vi_bls_key : bytes;
  vi_relayer : bytes;
}.

(** A validator set is the list [validators()] returns. *)
Class CometApi := {
  from_raw_ed25519 : bytes → bool;                         (* the bytes are a key *)
  address_of_key : bytes → bytes;                          (* [account::Id::from] *)
  without_proposer : list TmValidator → list TmValidator;
  validators_hash_of : list TmValidator → bytes;
  SignedHeader : Type;
  sh_height : SignedHeader → Z;
  sh_chain_id : SignedHeader → bytes;
  sh_validators_hash : SignedHeader → bytes;
  sh_next_validators_hash : SignedHeader → bytes;
  (* [has_sufficient_validators_overlap] with a threshold of [num / den] *)
  sufficient_overlap : SignedHeader → list TmValidator → Z * Z → bool;
  ProtoHeader : Type;
  ProtoSet : Type;
  proto_merge : bytes → option (option ProtoHeader * option ProtoSet);
  signed_header_try_from : ProtoHeader → option SignedHeader;
  set_try_from : ProtoSet → option (list TmValidator);
}.

Definition TWO_THIRDS : Z * Z := (2, 3).
Definition ONE_THIRD : Z * Z := (1, 3).

(** ** Constants *)

Definition UINT64_TYPE_LENGTH : Z := 8.
Definition CONSENSUS_STATE_LENGTH_BYTES_LENGTH : Z := 32.
Definition VALIDATE_RESULT_METADATA_LENGTH : Z := 32.
Definition CHAIN_ID_LENGTH : Z := 32.
Definition HEIGHT_LENGTH : Z := 8.
Definition VALIDATOR_SET_HASH_LENGTH : Z := 32.
Definition VALIDATOR_PUBKEY_LENGTH : Z := 32.
Definition VALIDATOR_VOTING_POWER_LENGTH : Z := 8.
Definition RELAYER_ADDRESS_LENGTH : Z := 20.
Definition RELAYER_BLS_KEY_LENGTH : Z := 48.
Definition SINGLE_VALIDATOR_BYTES_LENGTH : Z :=
  VALIDATOR_PUBKEY_LENGTH + VALIDATOR_VOTING_POWER_LENGTH + RELAYER_ADDRESS_LENGTH + RELAYER_BLS_KEY_LENGTH.
Definition MAX_CONSENSUS_STATE_LENGTH : Z :=
  CHAIN_ID_LENGTH + HEIGHT_LENGTH + VALIDATOR_SET_HASH_LENGTH + 99 * SINGLE_VALIDATOR_BYTES_LENGTH.
Definition COMETBFT_LIGHT_BLOCK_VALIDATION_BASE : Z := 3000.
Definition COMETBFT_LIGHT_BLOCK_VALIDATE_PER_BYTE_GAS : Z := 16.

(** ** The consensus state *)

Record ConsensusState := {
  cs_chain_id : bytes;
  cs_height : Z;
  cs_next_validator_set_hash : bytes;
  cs_validators : list TmValidator;
}.

(** [LightBlock]: the next validator set is a copy nobody reads. *)
Record LightBlock `{C : CometApi} := {
  lb_signed_header : SignedHeader;
  lb_validators : list TmValidator;
}.

(** [output[pos..pos + n].copy_from_slice(src)] *)
Definition copy_from_slice {X} (n : Z) (src : bytes) : exec X bytes :=
  _ ← rassert (zlen src =? n); Done src.

(** The four trackers of [validate_unique_validator_set]. *)
Record Trackers := {
  addresses : DuplicateTracker;
  pubkeys : DuplicateTracker;
  bls_keys : DuplicateTracker;
  relayer_addresses : DuplicateTracker;
}.

Section Comet.
Context `{C : CometApi}.

Fixpoint check_unique (idx : Z) (vals : list TmValidator) (t : Trackers) : exec PrecompileHalt unit :=
  match vals with
  | [] => Done tt
  | v :: vals =>
      a ← tracker_check (addresses t) idx (vi_address v);
      k ← tracker_check (pubkeys t) idx (vi_pub_key v);
      b ← tracker_check (bls_keys t) idx (vi_bls_key v);
      r ← tracker_check (relayer_addresses t) idx (vi_relayer v);
      check_unique (idx + 1) vals {| addresses := a; pubkeys := k; bls_keys := b; relayer_addresses := r |}
  end.

Definition validate_unique_validator_set (vals : list TmValidator) : exec PrecompileHalt unit :=
  check_unique 0 vals
    {| addresses := tracker_new "validator address" false;
       pubkeys := tracker_new "validator pubkey" false;
       bls_keys := tracker_new "validator bls key" true;
       relayer_addresses := tracker_new "validator relayer address" true |}.

(** [u64::from_be_bytes(input[a..b].try_into().unwrap())] *)
Definition read_be_u64 {X} (input : bytes) (a b : Z) : exec X Z :=
  bs ← slice input a b; _ ← rassert (zlen bs =? 8); Done (be_decode bs).

Definition decode_validator (validator : bytes) : exec PrecompileHalt TmValidator :=
  voting_power ← read_be_u64 validator VALIDATOR_PUBKEY_LENGTH (VALIDATOR_PUBKEY_LENGTH + VALIDATOR_VOTING_POWER_LENGTH);
  relayer ← slice validator (VALIDATOR_PUBKEY_LENGTH + VALIDATOR_VOTING_POWER_LENGTH)
              (VALIDATOR_PUBKEY_LENGTH + VALIDATOR_VOTING_POWER_LENGTH + RELAYER_ADDRESS_LENGTH);
  bls ← slice validator (VALIDATOR_PUBKEY_LENGTH + VALIDATOR_VOTING_POWER_LENGTH + RELAYER_ADDRESS_LENGTH) (zlen validator);
  pk ← slice validator 0 VALIDATOR_PUBKEY_LENGTH;
  if negb (from_raw_ed25519 pk) then Fail (halt_of InvalidInput)
  else Done {| vi_address := address_of_key pk; vi_pub_key := pk; vi_power := wrap32 voting_power;
               vi_bls_key := bls; vi_relayer := relayer |}.

Fixpoint decode_validators (n : nat) (i : Z) (validator_set_bytes : bytes) : exec PrecompileHalt (list TmValidator) :=
  match n with
  | O => Done []
  | S n =>
      validator ← slice validator_set_bytes (i * SINGLE_VALIDATOR_BYTES_LENGTH) ((i + 1) * SINGLE_VALIDATOR_BYTES_LENGTH);
      info ← decode_validator validator;
      rest ← decode_validators n (i + 1) validator_set_bytes;
      Done (info :: rest)
  end.

Definition decode_consensus_state (input : bytes) (require_unique_validators : bool) : exec PrecompileHalt ConsensusState :=
  let minimum_length := CHAIN_ID_LENGTH + HEIGHT_LENGTH + VALIDATOR_SET_HASH_LENGTH in
  let input_length := zlen input in
  if (input_length <=? minimum_length) || negb (is_multiple_of (input_length - minimum_length) SINGLE_VALIDATOR_BYTES_LENGTH)
  then Fail (halt_of InvalidInput)
  else if MAX_CONSENSUS_STATE_LENGTH <? input_length then Fail (halt_of InvalidInput)
  else
    chain_id ← slice input 0 CHAIN_ID_LENGTH;
    let chain_id := trim_end_zeros (from_utf8_lossy chain_id) in
    height ← read_be_u64 input CHAIN_ID_LENGTH (CHAIN_ID_LENGTH + HEIGHT_LENGTH);
    next_hash ← slice input (CHAIN_ID_LENGTH + HEIGHT_LENGTH) minimum_length;
    let validator_set_length := (input_length - minimum_length) / SINGLE_VALIDATOR_BYTES_LENGTH in
    validator_set_bytes ← slice input minimum_length input_length;
    validator_set ← decode_validators (Z.to_nat validator_set_length) 0 validator_set_bytes;
    let consensus_state :=
      {| cs_chain_id := chain_id; cs_height := height; cs_next_validator_set_hash := next_hash;
         cs_validators := without_proposer validator_set |} in
    if require_unique_validators
    then _ ← validate_unique_validator_set (cs_validators consensus_state); Done consensus_state
    else Done consensus_state.

Definition encode_validator (v : TmValidator) : exec PrecompileHalt bytes :=
  key ← copy_from_slice VALIDATOR_PUBKEY_LENGTH (vi_pub_key v);
  relayer ← copy_from_slice RELAYER_ADDRESS_LENGTH (vi_relayer v);
  bls ← copy_from_slice RELAYER_BLS_KEY_LENGTH (vi_bls_key v);
  Done (key ++ be_encode 8 (vi_power v) ++ relayer ++ bls).

Fixpoint encode_validators (vals : list TmValidator) : exec PrecompileHalt bytes :=
  match vals with
  | [] => Done []
  | v :: vals => bs ← encode_validator v; rest ← encode_validators vals; Done (bs ++ rest)
  end.

Definition encode_consensus_state (self : ConsensusState) : exec PrecompileHalt bytes :=
  let validator_set_length := zlen (cs_validators self) in
  let serialize_length :=
    CHAIN_ID_LENGTH + HEIGHT_LENGTH + VALIDATOR_SET_HASH_LENGTH + validator_set_length * SINGLE_VALIDATOR_BYTES_LENGTH in
  if MAX_CONSENSUS_STATE_LENGTH <? serialize_length then Fail (halt_of CometBftEncodeConsensusStateFailed)
  else if CHAIN_ID_LENGTH <? zlen (cs_chain_id self) then Fail (halt_of CometBftEncodeConsensusStateFailed)
  else
    let filled_chain_id := cs_chain_id self ++ replicate (Z.to_nat (32 - zlen (cs_chain_id self))) 0 in
    hash ← copy_from_slice VALIDATOR_SET_HASH_LENGTH (cs_next_validator_set_hash self);
    vals ← encode_validators (cs_validators self);
    Done (filled_chain_id ++ be_encode 8 (cs_height self) ++ hash ++ vals).

(** [true]: the set differs from the one that was trusted. *)
Definition apply_light_block (self : ConsensusState) (light_block : LightBlock)
    : exec PrecompileHalt (bool * ConsensusState) :=
  let header := lb_signed_header light_block in
  if sh_height header <=? cs_height self then Fail (halt_of InvalidInput)
  else if negb (bool_decide (sh_chain_id header = cs_chain_id self)) then Fail (halt_of InvalidInput)
  else
    _ ← (if add64 (cs_height self) 1 =? sh_height header then
           if negb (bool_decide (cs_next_validator_set_hash self = sh_validators_hash header))
           then Fail (halt_of CometBftApplyBlockFailed)
           else if negb (sufficient_overlap header (lb_validators light_block) TWO_THIRDS)
           then Fail (halt_of CometBftApplyBlockFailed)
           else Done tt
         else
           if negb (sufficient_overlap header (cs_validators self) ONE_THIRD)
           then Fail (halt_of CometBftApplyBlockFailed)
           else if negb (sufficient_overlap header (lb_validators light_block) TWO_THIRDS)
           then Fail (halt_of CometBftApplyBlockFailed)
           else Done tt);
    let validator_set_changed :=
      negb (bool_decide (validators_hash_of (cs_validators self) = sh_validators_hash header)) in
    Done (validator_set_changed,
          {| cs_chain_id := cs_chain_id self; cs_height := sh_height header;
             cs_next_validator_set_hash := sh_next_validators_hash header;
             cs_validators := lb_validators light_block |}).

(** ** The precompile *)

Definition convert_light_block_from_proto (light_block_proto : option ProtoHeader * option ProtoSet)
    : exec PrecompileHalt LightBlock :=
  signed_header_proto ← ok_or light_block_proto.1 (halt_of InvalidInput);
  signed_header ← ok_or (signed_header_try_from signed_header_proto) (halt_of InvalidInput);
  validator_set_proto ← ok_or light_block_proto.2 (halt_of InvalidInput);
  validator_set ← ok_or (set_try_from validator_set_proto) (halt_of InvalidInput);
  Done {| lb_signed_header := signed_header; lb_validators := validator_set |}.

Definition decode_light_block_validation_input (input : bytes) (require_unique_validators : bool)
    : exec PrecompileHalt (ConsensusState * (option ProtoHeader * option ProtoSet)) :=
  let input_length := zlen input in
  if input_length <? CONSENSUS_STATE_LENGTH_BYTES_LENGTH then Fail (halt_of InvalidInput)
  else
    cs_length ← read_be_u64 input (CONSENSUS_STATE_LENGTH_BYTES_LENGTH - UINT64_TYPE_LENGTH) CONSENSUS_STATE_LENGTH_BYTES_LENGTH;
    if u64_max <? CONSENSUS_STATE_LENGTH_BYTES_LENGTH + cs_length then Fail (halt_of InvalidInput)
    else if input_length <? CONSENSUS_STATE_LENGTH_BYTES_LENGTH + cs_length then Fail (halt_of InvalidInput)
    else
      decode_input ← slice input CONSENSUS_STATE_LENGTH_BYTES_LENGTH (CONSENSUS_STATE_LENGTH_BYTES_LENGTH + cs_length);
      consensus_state ← decode_consensus_state decode_input require_unique_validators;
      proto ← slice input (CONSENSUS_STATE_LENGTH_BYTES_LENGTH + cs_length) input_length;
      light_block_pb ← ok_or (proto_merge proto) (halt_of InvalidInput);
      Done (consensus_state, light_block_pb).

(** The byte, 23 empty bytes, the length and the state. *)
Definition encode_light_block_validation_result (validator_set_changed : bool) (consensus_state_bytes : bytes) : bytes :=
  (if validator_set_changed then 1 else 0) :: replicate 23 0 ++ be_encode 8 (zlen consensus_state_bytes)
  ++ consensus_state_bytes.

Definition light_block_cost (per_byte_gas : Z) (input : bytes) : Z :=
  sat_add64 COMETBFT_LIGHT_BLOCK_VALIDATION_BASE (sat_mul64 (zlen input) per_byte_gas).

(** Everything between the gas check and the output; [Fail] halts. *)
Definition validate_light_block (input : bytes) (is_hertz require_unique_validators : bool) : exec PrecompileHalt bytes :=
  '(consensus_state, tm_light_block) ← decode_light_block_validation_input input require_unique_validators;
  light_block ← convert_light_block_from_proto tm_light_block;
  _ ← (if require_unique_validators then validate_unique_validator_set (lb_validators light_block) else Done tt);
  '(validator_set_changed, consensus_state) ← apply_light_block consensus_state light_block;
  let validator_set_changed := if negb is_hertz then false else validator_set_changed in
  consensus_state_bytes ← encode_consensus_state consensus_state;
  Done (encode_light_block_validation_result validator_set_changed consensus_state_bytes).

Definition cometbft_light_block_validation_run_inner (input : bytes) (gas_limit reservoir : Z)
    (is_hertz require_unique_validators : bool) (per_byte_gas : Z) : PrecompileResult :=
  let cost := light_block_cost per_byte_gas input in
  if gas_limit <? cost then Done (Halted HaltOutOfGas reservoir)
  else match validate_light_block input is_hertz require_unique_validators with
       | Done output => Done (Returned cost output reservoir)
       | Fail h => Done (Halted h reservoir)
       | Panics => Panics
       end.

Definition cometbft_light_block_validation_run (input : bytes) (gas_limit reservoir : Z) : PrecompileResult :=
  cometbft_light_block_validation_run_inner input gas_limit reservoir true false 0.
Definition cometbft_light_block_validation_run_before_hertz (input : bytes) (gas_limit reservoir : Z) : PrecompileResult :=
  cometbft_light_block_validation_run_inner input gas_limit reservoir false false 0.
Definition cometbft_light_block_validation_run_pasteur (input : bytes) (gas_limit reservoir : Z) : PrecompileResult :=
  cometbft_light_block_validation_run_inner input gas_limit reservoir true true COMETBFT_LIGHT_BLOCK_VALIDATE_PER_BYTE_GAS.
End Comet.
