(* ===== verification/CometBftProps.v ===== *)
(** * CometBftProps: what the light client trusts

    Chain identifiers survive their encoding, a stored state reads back as the
    state that was computed, duplicates are found exactly, and over every
    sequence of calls the contract's state is linked to its first one by blocks
    that two thirds of their own validators signed. *)

From stdpp Require Import base tactics numbers option list gmap strings.
From Stdlib Require Import ZArith Lia Bool.
From S2P Require Import Prelude.
From S2P Require Import Hardforks.
From S2P Require Import Header.
From S2P Require Import Precompiles.
From S2P Require Import CometBft.

(** ** Strings *)

(** Well-formed UTF-8, character by character. *)
Inductive utf8 : bytes → Prop :=
| utf8_nil : utf8 []
| utf8_one b l : b < 128 → utf8 l → utf8 (b :: l)
| utf8_two b c l : byte_in 194 b 223 = true → is_continuation c = true → utf8 l → utf8 (b :: c :: l)
| utf8_three b c d l :
    byte_in 224 b 239 = true → second_of_three b c = true → is_continuation d = true → utf8 l → utf8 (b :: c :: d :: l)
| utf8_four b c d e l :
    byte_in 240 b 244 = true → second_of_four b c = true → is_continuation d = true → is_continuation e = true → utf8 l →
    utf8 (b :: c :: d :: e :: l).

Lemma byte_in_true lo b hi : byte_in lo b hi = true ↔ lo <= b <= hi.
Proof. unfold byte_in. lia. Qed.

(** No byte of a longer character is zero. *)
Lemma second_nonzero b c : second_of_three b c = true ∨ second_of_four b c = true → 128 <= c.
Proof. unfold second_of_three, second_of_four. intros [Hc|Hc]; revert Hc; repeat case_if; rewrite byte_in_true; lia. Qed.

Lemma replacement_utf8 l : utf8 l → utf8 (REPLACEMENT_CHARACTER ++ l).
Proof. intros. by apply (utf8_three 239 191 189). Qed.

Ltac ranges := repeat match goal with H : byte_in _ _ _ = _ |- _ => unfold byte_in in H end.

Lemma lossy_utf8 l : utf8 (from_utf8_lossy l).
Proof.
  remember (length l) as n eqn:Hn. revert l Hn. induction (lt_wf n) as [n _ IH]. intros l Hn.
  assert (IHl : ∀ l', (length l' < length l)%nat → utf8 (from_utf8_lossy l')) by (intros; eapply IH; [|done]; lia).
  destruct l as [|b l1]; [constructor|]. cbn [from_utf8_lossy]. cbn [length] in IHl.
  repeat first [case_if|match goal with |- context [match ?l with [] => _ | _ :: _ => _ end] => is_var l; destruct l; cbn [length] in IHl end];
    try (apply replacement_utf8; first [apply IHl; cbn [length]; lia|constructor]); split_tests.
  - apply utf8_one; [done|apply IHl; lia].
  - apply utf8_two; [done|done|apply IHl; lia].
  - apply utf8_three; [done|done|done|apply IHl; lia].
  - apply utf8_four; [done|done|done|done|apply IHl; lia].
Qed.

Lemma utf8_lossy_id l : utf8 l → from_utf8_lossy l = l.
Proof.
  induction 1 as [|b l Hb _ IH|b c l Hb Hc _ IH|b c d l Hb Hc Hd _ IH|b c d e l Hb Hc Hd He _ IH]; [done|..];
    cbn [from_utf8_lossy].
  - by rewrite (proj2 (Z.ltb_lt _ _) Hb), IH.
  - pose proof (proj1 (byte_in_true _ _ _) Hb). rewrite (proj2 (Z.ltb_ge b 128)) by lia. by rewrite Hb, Hc, IH.
  - pose proof (proj1 (byte_in_true _ _ _) Hb). rewrite (proj2 (Z.ltb_ge b 128)) by lia.
    assert (byte_in 194 b 223 = false) as -> by (unfold byte_in; lia). by rewrite Hb, Hc, Hd, IH.
  - pose proof (proj1 (byte_in_true _ _ _) Hb). rewrite (proj2 (Z.ltb_ge b 128)) by lia.
    assert (byte_in 194 b 223 = false) as -> by (unfold byte_in; lia).
    assert (byte_in 224 b 239 = false) as -> by (unfold byte_in; lia). by rewrite Hb, Hc, Hd, He, IH.
Qed.

Lemma utf8_pad l n : utf8 l → utf8 (l ++ replicate n 0).
Proof.
  induction 1; cbn [app]; [|constructor; done..]. induction n; cbn [replicate]; [constructor|]. by apply utf8_one.
Qed.

Lemma trim_cons b l : b ≠ 0 → trim_end_zeros (b :: l) = b :: trim_end_zeros l.
Proof. intros Hb. cbn. destruct (trim_end_zeros l); [|done]. by rewrite (proj2 (Z.eqb_neq _ _) Hb). Qed.

Lemma utf8_trim l : utf8 l → utf8 (trim_end_zeros l).
Proof.
  induction 1 as [|b l Hb _ IH|b c l Hb Hc _ IH|b c d l Hb Hc Hd _ IH|b c d e l Hb Hc Hd He _ IH]; [constructor|..];
    unfold is_continuation in *; rewrite ?byte_in_true in *.
  - cbn. destruct (trim_end_zeros l) eqn:E; [case_if; [constructor|by apply utf8_one]|by apply utf8_one].
  - rewrite !trim_cons by lia. by apply utf8_two; unfold is_continuation; rewrite ?byte_in_true.
  - pose proof (second_nonzero b c (or_introl Hc)). rewrite !trim_cons by lia.
    by apply utf8_three; unfold is_continuation; rewrite ?byte_in_true.
  - pose proof (second_nonzero b c (or_intror Hc)). rewrite !trim_cons by lia.
    by apply utf8_four; unfold is_continuation; rewrite ?byte_in_true.
Qed.

Lemma trim_pad_zeros l n : trim_end_zeros (l ++ replicate n 0) = trim_end_zeros l.
Proof.
  induction l as [|b l IH]; cbn; [|by rewrite IH]. induction n as [|n IH]; cbn; [done|]. by rewrite IH.
Qed.

Lemma trim_idem l : trim_end_zeros (trim_end_zeros l) = trim_end_zeros l.
Proof.
  induction l as [|b l IH]; [done|]. cbn. destruct (trim_end_zeros l) as [|c l'] eqn:E.
  - destruct (b =? 0) eqn:Eb; [done|]. cbn. by rewrite Eb.
  - cbn in *. by rewrite IH.
Qed.

(** What [decode_consensus_state] makes of 32 bytes. *)
Definition chain_id_ok (cid : bytes) : Prop := utf8 cid ∧ trim_end_zeros cid = cid.

Lemma decoded_chain_id l : chain_id_ok (trim_end_zeros (from_utf8_lossy l)).
Proof. split; [apply utf8_trim, lossy_utf8|apply trim_idem]. Qed.

Lemma chain_id_stable cid n : chain_id_ok cid → trim_end_zeros (from_utf8_lossy (cid ++ replicate n 0)) = cid.
Proof. intros [Hu Ht]. rewrite utf8_lossy_id by by apply utf8_pad. by rewrite trim_pad_zeros. Qed.

(** ** Duplicates *)

Definition counted (t : DuplicateTracker) (v : bytes) : bool :=
  negb (ignore_zero t && (bool_decide (v = []) || is_zero_bytes v)).

(** The values of [l] that count are new to the tracker and pairwise different. *)
Definition fresh (t : DuplicateTracker) (l : list bytes) : Prop :=
  NoDup (filter (λ v, counted t v = true) l) ∧ ∀ v, v ∈ l → counted t v = true → seen t !! v = None.

Lemma tracker_check_spec t idx v l :
  match tracker_check t idx v with
  | Done t' => fresh t' l ↔ fresh t (v :: l)
  | Fail _ => ¬ fresh t (v :: l)
  | Panics => False
  end.
Proof.
  unfold tracker_check. assert (Hc : counted t v = negb (ignore_zero t && (bool_decide (v = []) || is_zero_bytes v))) by done.
  destruct (ignore_zero t && _) eqn:Ei; cbn [negb] in Hc.
  - unfold fresh. rewrite filter_cons_False by by rewrite Hc. split; intros [Hn Hs]; (split; [done|]).
    + intros x [->|Hx]%elem_of_cons Hcx; [congruence|by apply Hs].
    + intros x Hx. apply Hs. by right.
  - destruct (seen t !! v) as [i|] eqn:Es.
    + intros [_ Hs]. specialize (Hs v (list_elem_of_here _ _) Hc). congruence.
    + unfold fresh. cbn [seen]. rewrite filter_cons_True, NoDup_cons by done.
      change (counted {| field := field t; seen := <[v:=idx]> (seen t); ignore_zero := ignore_zero t |}) with (counted t).
      split; [intros [Hn Hs]; split; [split|]|intros [[Hv Hn] Hs]; split]; [|done| |done|].
      * intros [Hcv Hin]%list_elem_of_filter. specialize (Hs v Hin Hcv). by rewrite lookup_insert_eq in Hs.
      * intros x [->|Hx]%elem_of_cons Hcx; [done|]. specialize (Hs x Hx Hcx). by apply lookup_insert_None in Hs as [? _].
      * intros x Hx Hcx. apply lookup_insert_None. split; [apply Hs; [by right|done]|].
        intros <-. apply Hv. by apply list_elem_of_filter.
Qed.

Lemma fresh_nil t : fresh t [].
Proof. split; [constructor|]. by intros v Hv%elem_of_nil. Qed.

Section Unique.
Context `{C : CometApi}.

Lemma check_unique_iff idx vals t :
  check_unique idx vals t = Done tt ↔
  fresh (addresses t) (vi_address <$> vals) ∧ fresh (pubkeys t) (vi_pub_key <$> vals)
  ∧ fresh (bls_keys t) (vi_bls_key <$> vals) ∧ fresh (relayer_addresses t) (vi_relayer <$> vals).
Proof.
  revert idx t. induction vals as [|v vals IH]; intros idx t; cbn [check_unique fmap list_fmap].
  { split; [|done]. intros _. split_and!; apply fresh_nil. }
  pose proof (tracker_check_spec (addresses t) idx (vi_address v) (vi_address <$> vals)) as Ha.
  pose proof (tracker_check_spec (pubkeys t) idx (vi_pub_key v) (vi_pub_key <$> vals)) as Hk.
  pose proof (tracker_check_spec (bls_keys t) idx (vi_bls_key v) (vi_bls_key <$> vals)) as Hb.
  pose proof (tracker_check_spec (relayer_addresses t) idx (vi_relayer v) (vi_relayer <$> vals)) as Hr.
  destruct (tracker_check (addresses t) _ _); [|naive_solver|done]. cbn [mbind exec_bind].
  destruct (tracker_check (pubkeys t) _ _); [|naive_solver|done]. cbn [mbind exec_bind].
  destruct (tracker_check (bls_keys t) _ _); [|naive_solver|done]. cbn [mbind exec_bind].
  destruct (tracker_check (relayer_addresses t) _ _); [|naive_solver|done]. cbn [mbind exec_bind].
  rewrite IH. cbn [addresses pubkeys bls_keys relayer_addresses]. by rewrite Ha, Hk, Hb, Hr.
Qed.

(** Set, as opposed to empty or all zero. *)
Definition is_set (v : bytes) : Prop := v ≠ [] ∧ is_zero_bytes v = false.
#[export] Instance is_set_dec v : Decision (is_set v).
Proof. unfold is_set. apply _. Defined.

Lemma fresh_new_strict f l : fresh (tracker_new f false) l ↔ NoDup l.
Proof.
  unfold fresh, counted. cbn [ignore_zero tracker_new andb negb seen]. rewrite filter_all by done.
  split; [by intros [? _]|]. intros Hn. split; [done|]. intros. apply lookup_empty.
Qed.

Lemma fresh_new_lax f l : fresh (tracker_new f true) l ↔ NoDup (filter is_set l).
Proof.
  unfold fresh, counted. cbn [ignore_zero tracker_new andb seen].
  rewrite (filter_ext_in _ is_set).
  - split; [by intros [? _]|]. intros Hn. split; [done|]. intros. apply lookup_empty.
  - intros v _. unfold is_set. case_bool_decide; destruct (is_zero_bytes v); cbn; naive_solver.
Qed.

(** Accepted sets are those without duplicates among addresses, keys, and the
    BLS keys and relayers that are set. *)
Lemma validate_unique_iff vals :
  validate_unique_validator_set vals = Done tt ↔
  NoDup (vi_address <$> vals) ∧ NoDup (vi_pub_key <$> vals)
  ∧ NoDup (filter is_set (vi_bls_key <$> vals)) ∧ NoDup (filter is_set (vi_relayer <$> vals)).
Proof.
  unfold validate_unique_validator_set. rewrite check_unique_iff. cbn [addresses pubkeys bls_keys relayer_addresses].
  by rewrite !fresh_new_strict, !fresh_new_lax.
Qed.
End Unique.

(** ** The stored state *)

Ltac comet_consts :=
  unfold MAX_CONSENSUS_STATE_LENGTH, CHAIN_ID_LENGTH, HEIGHT_LENGTH, VALIDATOR_SET_HASH_LENGTH, SINGLE_VALIDATOR_BYTES_LENGTH,
    VALIDATOR_PUBKEY_LENGTH, VALIDATOR_VOTING_POWER_LENGTH, RELAYER_ADDRESS_LENGTH, RELAYER_BLS_KEY_LENGTH,
    CONSENSUS_STATE_LENGTH_BYTES_LENGTH, UINT64_TYPE_LENGTH in *.

Lemma zlen_be n z : zlen (be_encode n z) = Z.of_nat n.
Proof. unfold zlen. by rewrite be_encode_length. Qed.

Lemma copy_Done {X} n (src : bytes) bs : @copy_from_slice X n src = Done bs ↔ zlen src = n ∧ bs = src.
Proof.
  unfold copy_from_slice, rassert. destruct (zlen src =? n) eqn:E; cbn [mbind exec_bind].
  - apply Z.eqb_eq in E. naive_solver.
  - apply Z.eqb_neq in E. naive_solver.
Qed.

(** A slice of the middle of three, with the bounds computed. *)
Lemma slice_mid {X A} (a m b l : list A) i j :
  l = a ++ m ++ b → zlen a = i → j = i + zlen m → @slice X A l i j = Done m.
Proof. intros -> <- ->. by apply slice_app_at. Qed.

(** The widths [encode] copies into; others make it panic. *)
Definition widths_ok (v : TmValidator) : Prop := zlen (vi_pub_key v) = 32 ∧ zlen (vi_relayer v) = 20 ∧ zlen (vi_bls_key v) = 48.
Definition validator_bytes (v : TmValidator) : bytes := vi_pub_key v ++ be_encode 8 (vi_power v) ++ vi_relayer v ++ vi_bls_key v.

Ltac mid := first [unfold validator_bytes; rewrite ?app_nil_r, <- ?app_assoc; reflexivity
                  |rewrite ?zlen_app, ?zlen_be; change (zlen (@nil Z)) with 0; lia].

Section Stored.
Context `{C : CometApi}.
Implicit Types (v : TmValidator) (vals : list TmValidator) (cs : ConsensusState).

(** What remains of a validator once it was stored: the address is computed from
    the key and the power keeps its low 32 bits. *)
Definition reload_validator v : TmValidator :=
  {| vi_address := address_of_key (vi_pub_key v); vi_pub_key := vi_pub_key v; vi_power := wrap32 (vi_power v);
     vi_bls_key := vi_bls_key v; vi_relayer := vi_relayer v |}.

Definition reload cs : ConsensusState :=
  {| cs_chain_id := cs_chain_id cs; cs_height := wrap64 (cs_height cs);
     cs_next_validator_set_hash := cs_next_validator_set_hash cs;
     cs_validators := without_proposer (reload_validator <$> cs_validators cs) |}.


Lemma encode_validator_Done v bs : encode_validator v = Done bs ↔ widths_ok v ∧ bs = validator_bytes v.
Proof.
  unfold encode_validator, widths_ok. comet_consts. split.
  - intros He. apply bind_Done in He as (k & [Hk ->]%copy_Done & He). apply bind_Done in He as (r & [Hr ->]%copy_Done & He).
    apply bind_Done in He as (b & [Hb ->]%copy_Done & He). by injection He as <-.
  - intros [(Hk & Hr & Hb) ->]. rewrite (proj2 (copy_Done _ _ _) (conj Hk eq_refl)). cbn [mbind exec_bind].
    rewrite (proj2 (copy_Done _ _ _) (conj Hr eq_refl)). cbn [mbind exec_bind].
    by rewrite (proj2 (copy_Done _ _ _) (conj Hb eq_refl)).
Qed.

Lemma encode_validators_Done vals bs :
  encode_validators vals = Done bs ↔ Forall widths_ok vals ∧ bs = concat (validator_bytes <$> vals).
Proof.
  revert bs. induction vals as [|v vals IH]; intros bs; cbn [encode_validators fmap list_fmap concat].
  { split; [intros [= <-]; by split|by intros [_ ->]]. }
  split.
  - intros He. apply bind_Done in He as (b & [Hv ->]%encode_validator_Done & He).
    apply bind_Done in He as (r & [Hvs ->]%IH & He). injection He as <-. split; [by constructor|done].
  - intros [[Hv Hvs]%Forall_cons ->]. rewrite (proj2 (encode_validator_Done v _) (conj Hv eq_refl)). cbn [mbind exec_bind].
    by rewrite (proj2 (IH _) (conj Hvs eq_refl)).
Qed.

Lemma validator_bytes_length v : widths_ok v → zlen (validator_bytes v) = 108.
Proof. intros (Hk & Hr & Hb). unfold validator_bytes. rewrite !zlen_app, Hk, Hr, Hb, zlen_be. done. Qed.

Lemma validators_bytes_length vals : Forall widths_ok vals → zlen (concat (validator_bytes <$> vals)) = 108 * zlen vals.
Proof.
  induction 1 as [|v vals Hv _ IH]; [done|]. cbn [fmap list_fmap concat].
  rewrite zlen_app, zlen_cons, validator_bytes_length by done. rewrite IH. lia.
Qed.

Lemma decode_validator_bytes v : widths_ok v →
  decode_validator (validator_bytes v) =
    if from_raw_ed25519 (vi_pub_key v) then Done (reload_validator v) else Fail (halt_of InvalidInput).
Proof.
  intros Hw. pose proof (validator_bytes_length v Hw) as Hlen. destruct Hw as (Hk & Hr & Hb). unfold decode_validator, read_be_u64. comet_consts.
  rewrite (slice_mid (vi_pub_key v) (be_encode 8 (vi_power v)) (vi_relayer v ++ vi_bls_key v) _ 32) by mid.
  cbn [mbind exec_bind]. rewrite zlen_be.
  rewrite (slice_mid (vi_pub_key v ++ be_encode 8 (vi_power v)) (vi_relayer v) (vi_bls_key v) _ (32 + 8)) by mid. cbn [mbind exec_bind].
  rewrite (slice_mid (vi_pub_key v ++ be_encode 8 (vi_power v) ++ vi_relayer v) (vi_bls_key v) [] _ (32 + 8 + 20)) by mid. cbn [mbind exec_bind].
  rewrite (slice_mid [] (vi_pub_key v) (be_encode 8 (vi_power v) ++ vi_relayer v ++ vi_bls_key v) _ 0) by mid.
  cbn [mbind exec_bind]. destruct (from_raw_ed25519 (vi_pub_key v)); cbn [negb]; [|done].
  change (Z.of_nat 8 =? 8) with true. cbn [rassert mbind exec_bind]. rewrite be_decode_encode_mod.
  unfold reload_validator. do 2 f_equal. unfold wrap32.
  symmetry. apply (Znumtheory.Zmod_div_mod (2 ^ 32) (2 ^ 64)); [lia|lia|by exists (2 ^ 32)].
Qed.

Lemma decode_validators_bytes vals pre i :
  Forall widths_ok vals → zlen pre = i * 108 →
  decode_validators (length vals) i (pre ++ concat (validator_bytes <$> vals)) =
    if forallb (λ v, from_raw_ed25519 (vi_pub_key v)) vals then Done (reload_validator <$> vals) else Fail (halt_of InvalidInput).
Proof.
  intros Hw. revert pre i. induction Hw as [|v vals Hv Hw IH]; intros pre i Hi; [done|].
  cbn [length decode_validators fmap list_fmap concat forallb]. comet_consts.
  pose proof (validator_bytes_length v Hv) as Hlen.
  rewrite (slice_mid pre (validator_bytes v) (concat (validator_bytes <$> vals))) by (try done; lia).
  cbn [mbind exec_bind]. rewrite decode_validator_bytes by done.
  destruct (from_raw_ed25519 (vi_pub_key v)); cbn [andb mbind exec_bind]; [|done].
  rewrite app_assoc, IH by (rewrite zlen_app; lia).
  by destruct (forallb _ vals).
Qed.
End Stored.

Section State.
Context `{C : CometApi}.
Implicit Types (v : TmValidator) (vals : list TmValidator) (cs : ConsensusState).

(** The states that have bytes. *)
Definition storable cs : Prop :=
  zlen (cs_validators cs) <= 99 ∧ zlen (cs_chain_id cs) <= 32
  ∧ zlen (cs_next_validator_set_hash cs) = 32 ∧ Forall widths_ok (cs_validators cs).

Definition padded (cid : bytes) : bytes := cid ++ replicate (Z.to_nat (32 - zlen cid)) 0.
Definition state_bytes cs : bytes :=
  padded (cs_chain_id cs) ++ be_encode 8 (cs_height cs) ++ cs_next_validator_set_hash cs
  ++ concat (validator_bytes <$> cs_validators cs).

Lemma encode_state_Done cs b : encode_consensus_state cs = Done b ↔ storable cs ∧ b = state_bytes cs.
Proof.
  unfold encode_consensus_state, storable. comet_consts.
  destruct (_ <? 32 + 8 + 32 + _) eqn:E1; [split; [done|intros [(?&?&_) _]; exfalso; lia]|].
  destruct (32 <? _) eqn:E2; [split; [done|intros [(?&?&_) _]; exfalso; lia]|]. split.
  - intros He. apply bind_Done in He as (h & [Hh ->]%copy_Done & He).
    apply bind_Done in He as (vs & [Hv ->]%encode_validators_Done & He). injection He as <-. split; [|done]. split_and!; [lia|lia|done|done].
  - intros [(_ & _ & Hh & Hv) ->]. rewrite (proj2 (copy_Done _ _ _) (conj Hh eq_refl)). cbn [mbind exec_bind].
    by rewrite (proj2 (encode_validators_Done _ _) (conj Hv eq_refl)).
Qed.

Lemma zlen_padded cid : zlen cid <= 32 → zlen (padded cid) = 32.
Proof. intros. unfold padded. rewrite zlen_app. unfold zlen in *. rewrite length_replicate. lia. Qed.

Lemma state_bytes_length cs : storable cs → zlen (state_bytes cs) = 72 + 108 * zlen (cs_validators cs).
Proof.
  intros (_ & Hc & Hh & Hv). unfold state_bytes. rewrite !zlen_app, zlen_padded, zlen_be, Hh, validators_bytes_length by done. lia.
Qed.

Definition keys_ok vals : bool := forallb (λ v, from_raw_ed25519 (vi_pub_key v)) vals.

Lemma decode_state_bytes cs u :
  storable cs → chain_id_ok (cs_chain_id cs) → cs_validators cs ≠ [] → keys_ok (cs_validators cs) = true →
  decode_consensus_state (state_bytes cs) u =
    if u then _ ← validate_unique_validator_set (cs_validators (reload cs)); Done (reload cs) else Done (reload cs).
Proof.
  intros Hs Hid Hne Hk. pose proof (state_bytes_length cs Hs) as Hl. destruct Hs as (Hn & Hc & Hh & Hv).
  assert (0 < zlen (cs_validators cs)). { destruct (cs_validators cs); [done|]. rewrite zlen_cons. pose proof (zlen_nonneg l). lia. }
  pose proof (zlen_padded _ Hc) as Hp. pose proof (validators_bytes_length _ Hv) as Hvl.
  unfold decode_consensus_state. rewrite Hl. comet_consts. unfold is_multiple_of.
  rewrite (proj2 (Z.leb_gt _ _)) by lia. replace (72 + 108 * zlen (cs_validators cs) - (32 + 8 + 32)) with (zlen (cs_validators cs) * (32 + 8 + 20 + 48)) by lia.
  rewrite Z.mod_mul, Z.div_mul by lia. cbn [Z.eqb negb orb]. rewrite (proj2 (Z.ltb_ge _ _)) by lia.
  unfold state_bytes. unfold read_be_u64.
  pose proof (chain_id_stable _ (Z.to_nat (32 - zlen (cs_chain_id cs))) Hid) as Hcid.
  pose proof (decode_validators_bytes _ [] 0 Hv eq_refl) as Hd. cbn [app] in Hd. unfold keys_ok in Hk. rewrite Hk in Hd.
  fold (padded (cs_chain_id cs)) in Hcid. set (id := padded (cs_chain_id cs)) in *. set (hb := be_encode 8 (cs_height cs)).
  set (nh := cs_next_validator_set_hash cs) in *. set (vb := concat (validator_bytes <$> cs_validators cs)) in *.
  assert (Hhb : zlen hb = 8) by apply zlen_be.
  rewrite (slice_mid [] id (hb ++ nh ++ vb) _ 0) by mid. cbn [mbind exec_bind]. rewrite Hcid.
  rewrite (slice_mid id hb (nh ++ vb) _ 32) by mid. cbn [mbind exec_bind]. rewrite Hhb. cbn [rassert Z.eqb Pos.eqb mbind exec_bind].
  rewrite (slice_mid (id ++ hb) nh vb _ (32 + 8)) by mid. cbn [mbind exec_bind].
  rewrite (slice_mid (id ++ hb ++ nh) vb [] _ (32 + 8 + 32)) by mid. cbn [mbind exec_bind].
  replace (Z.to_nat (zlen (cs_validators cs))) with (length (cs_validators cs)) by (unfold zlen; lia).
  rewrite Hd. cbn [mbind exec_bind cs_validators]. unfold hb. rewrite be_decode_encode_mod. by destruct u.
Qed.

(** The states that storing does not change: powers of 32 bits, addresses of the
    keys, and the order the set's constructor gives. *)
Definition canonical cs : Prop :=
  0 <= cs_height cs < 2 ^ 64
  ∧ Forall (λ v, 0 <= vi_power v < 2 ^ 32 ∧ vi_address v = address_of_key (vi_pub_key v)) (cs_validators cs)
  ∧ without_proposer (cs_validators cs) = cs_validators cs.

Lemma reload_canonical cs : canonical cs → reload cs = cs.
Proof.
  destruct cs as [cid h nh vals]. intros (Hh & Hv & Ho). cbn in *. unfold reload. cbn. unfold wrap64. rewrite Z.mod_small by done. f_equal.
  rewrite <- Ho at 2. f_equal. clear Ho. induction Hv as [|[a k p b r] vals [Hp Ha] _ IH]; [done|].
  cbn in *. f_equal; [|done]. unfold reload_validator, wrap32. cbn. by rewrite Z.mod_small, <- Ha by done.
Qed.

(** C37: A consensus state and its bytes.  A state with a chain identifier that is
    text without trailing zeros and at least one validator, all with valid keys,
    encodes to 72 bytes and 108 for each validator, at most 99 of them; the bytes
    decode to the state with every address computed from the key, every voting
    power reduced to its low 32 bits and the validators in the set's order, and,
    with the check for duplicates, exactly if that set has none.  A canonical state,
    one whose powers fit 32 bits, comes back as it was. *)
Theorem consensus_state_roundtrip cs b :
  chain_id_ok (cs_chain_id cs) → cs_validators cs ≠ [] → keys_ok (cs_validators cs) = true →
  encode_consensus_state cs = Done b →
  zlen b = 72 + 108 * zlen (cs_validators cs) ∧ zlen b <= MAX_CONSENSUS_STATE_LENGTH
  ∧ decode_consensus_state b false = Done (reload cs)
  ∧ (decode_consensus_state b true = Done (reload cs) ↔
     let vals := cs_validators (reload cs) in
     NoDup (vi_address <$> vals) ∧ NoDup (vi_pub_key <$> vals)
     ∧ NoDup (filter is_set (vi_bls_key <$> vals)) ∧ NoDup (filter is_set (vi_relayer <$> vals)))
  ∧ (canonical cs → reload cs = cs).
Proof.
  intros Hid Hne Hk [Hs ->]%encode_state_Done. cbv zeta. rewrite <- validate_unique_iff.
  split_and!; [by apply state_bytes_length| | | |by apply reload_canonical].
  - rewrite state_bytes_length by done. destruct Hs as (Hn & _). comet_consts. lia.
  - by rewrite decode_state_bytes.
  - rewrite decode_state_bytes by done. destruct (validate_unique_validator_set _) as [[]| |]; [by split|done|done].
Qed.
End State.

(** ** Light blocks *)

(** What the types and the verifier of [cometbft] promise: heights have 64 bits, a
    decoded set has valid keys, and nobody signed for an empty set (the threshold
    has to be exceeded). *)
Class CometLaws `{C : CometApi} : Prop := {
  sh_height_range h : 0 <= sh_height h < 2 ^ 64;
  set_keys p vals : set_try_from p = Some vals → keys_ok vals = true;
  nobody_signs h t : sufficient_overlap h [] t = false;
}.

Section Trust.
Context `{C : CometApi} {L : CometLaws}.
Implicit Types (cs : ConsensusState) (lb : LightBlock) (vals : list TmValidator).

Definition accepted_state cs lb : ConsensusState :=
  {| cs_chain_id := cs_chain_id cs; cs_height := sh_height (lb_signed_header lb);
     cs_next_validator_set_hash := sh_next_validators_hash (lb_signed_header lb); cs_validators := lb_validators lb |}.

(** The light block may be trusted by who trusts [cs]: it is a later block of the
    same chain that two thirds of its own validators signed; these are the ones
    [cs] announced, or the block is not the next one and a third of the trusted
    validators signed it. *)
Record trusted_step cs lb : Prop := {
  ts_chain : sh_chain_id (lb_signed_header lb) = cs_chain_id cs;
  ts_later : cs_height cs < sh_height (lb_signed_header lb);
  ts_signed : sufficient_overlap (lb_signed_header lb) (lb_validators lb) TWO_THIRDS = true;
  ts_linked :
    cs_height cs + 1 = sh_height (lb_signed_header lb) ∧ cs_next_validator_set_hash cs = sh_validators_hash (lb_signed_header lb)
    ∨ cs_height cs + 1 < sh_height (lb_signed_header lb)
      ∧ sufficient_overlap (lb_signed_header lb) (cs_validators cs) ONE_THIRD = true;
}.

Definition set_changed cs lb : bool :=
  negb (bool_decide (validators_hash_of (cs_validators cs) = sh_validators_hash (lb_signed_header lb))).

Lemma apply_iff cs lb changed cs' :
  0 <= cs_height cs < 2 ^ 64 →
  apply_light_block cs lb = Done (changed, cs') ↔
  trusted_step cs lb ∧ changed = set_changed cs lb ∧ cs' = accepted_state cs lb.
Proof.
  intros Hr. pose proof (sh_height_range (lb_signed_header lb)) as Hh. unfold apply_light_block.
  destruct (_ <=? _) eqn:E1. { split; [done|]. intros [[_ Hl _ _] _]. exfalso. lia. }
  case_bool_decide as Hc; cbn [negb]; [|split; [done|by intros [[? _ _ _] _]]].
  unfold add64, wrap64. rewrite Z.mod_small by lia. fold (set_changed cs lb). fold (accepted_state cs lb).
  destruct (_ + 1 =? _) eqn:E2.
  - case_bool_decide as Hn; cbn [negb]; [|split; [done|intros [[_ _ _ [[_ ?]|[? _]]] _]; [done|exfalso; lia]]].
    destruct (sufficient_overlap _ (lb_validators lb) _) eqn:Es; cbn [negb mbind exec_bind];
      [|split; [done|intros [[_ _ ? _] _]; congruence]].
    split; [intros [= <- <-]; split; [|done]; split; [done|lia|done|left; split; [lia|done]]|by intros [_ [-> ->]]].
  - destruct (sufficient_overlap _ (cs_validators cs) _) eqn:Eo; cbn [negb mbind exec_bind];
      [|split; [done|intros [[_ _ _ [[? _]|[_ ?]]] _]; [exfalso; lia|congruence]]].
    destruct (sufficient_overlap _ (lb_validators lb) _) eqn:Es; cbn [negb mbind exec_bind];
      [|split; [done|intros [[_ _ ? _] _]; congruence]].
    split; [intros [= <- <-]; split; [|done]; split; [done|lia|done|right; split; [lia|done]]|by intros [_ [-> ->]]].
Qed.

(** ** Calls *)

(** The state in its frame, as the contract passes it: 24 bytes nobody reads, the
    length, the state and the light block. *)
Definition call_input (pad state proto : bytes) : bytes := pad ++ be_encode 8 (zlen state) ++ state ++ proto.

(** The light block in the rest of the input. *)
Definition block_of (proto : bytes) lb : Prop :=
  ∃ pb, proto_merge proto = Some pb ∧ convert_light_block_from_proto pb = Done lb.

Lemma decode_input_iff pad state proto u cs pb :
  zlen pad = 24 → zlen state + 32 <= u64_max →
  decode_light_block_validation_input (call_input pad state proto) u = Done (cs, pb) ↔
  decode_consensus_state state u = Done cs ∧ proto_merge proto = Some pb.
Proof.
  intros Hp Hs. unfold decode_light_block_validation_input, read_be_u64. comet_consts.
  pose proof (zlen_nonneg state). pose proof (zlen_nonneg proto).
  assert (Hl : zlen (call_input pad state proto) = 32 + zlen state + zlen proto)
    by (unfold call_input; rewrite !zlen_app, zlen_be; lia).
  rewrite Hl, (proj2 (Z.ltb_ge _ _)) by lia. unfold call_input.
  rewrite (slice_mid pad (be_encode 8 (zlen state)) (state ++ proto) _ (32 - 8)) by mid. cbn [mbind exec_bind].
  rewrite zlen_be. change (Z.of_nat 8 =? 8) with true. cbn [rassert mbind exec_bind].
  rewrite be_decode_encode_mod, Z.mod_small by (unfold u64_max in Hs; lia).
  rewrite !(proj2 (Z.ltb_ge _ _)) by lia.
  rewrite (slice_mid (pad ++ be_encode 8 (zlen state)) state proto _ 32) by mid. cbn [mbind exec_bind].
  rewrite (slice_mid (pad ++ be_encode 8 (zlen state) ++ state) proto [] _ (32 + zlen state)) by mid.
  destruct (decode_consensus_state state u) as [cs'| |]; cbn [mbind exec_bind]; [|naive_solver..].
  destruct (proto_merge proto) as [pb'|]; cbn; naive_solver.
Qed.

(** When a call gets past the checks, and its output. *)
Lemma validate_iff pad state proto hertz u out :
  zlen pad = 24 → zlen state + 32 <= u64_max →
  (∀ cs, decode_consensus_state state u = Done cs → 0 <= cs_height cs < 2 ^ 64) →
  validate_light_block (call_input pad state proto) hertz u = Done out ↔
  ∃ cs lb, decode_consensus_state state u = Done cs ∧ block_of proto lb
    ∧ (u = true → validate_unique_validator_set (lb_validators lb) = Done tt)
    ∧ trusted_step cs lb ∧ storable (accepted_state cs lb)
    ∧ out = encode_light_block_validation_result (hertz && set_changed cs lb) (state_bytes (accepted_state cs lb)).
Proof.
  intros Hp Hs Hh. unfold validate_light_block. split.
  - intros He. apply bind_Done in He as ([cs pb] & [Hd Hm]%decode_input_iff & He); [|done..].
    apply bind_Done in He as (lb & Hlb & He). apply bind_Done in He as (x & Hu & He).
    apply bind_Done in He as ([ch cs'] & (Ht & -> & ->)%apply_iff & He); [|by apply Hh].
    apply bind_Done in He as (b & [Hst ->]%encode_state_Done & He). injection He as <-. exists cs, lb.
    split_and!; [done|by exists pb| |done|done|by destruct hertz]. intros ->. by destruct x.
  - intros (cs & lb & Hd & (pb & Hm & Hlb) & Hu & Ht & Hst & ->).
    rewrite (proj2 (decode_input_iff pad state proto u cs pb Hp Hs)) by done. cbn [mbind exec_bind]. rewrite Hlb. cbn [mbind exec_bind].
    assert ((if u then validate_unique_validator_set (lb_validators lb) else Done tt) = Done tt) as -> by (destruct u; auto).
    cbn [mbind exec_bind].
    rewrite (proj2 (apply_iff cs lb _ _ (Hh cs Hd)) (conj Ht (conj eq_refl eq_refl))). cbn [mbind exec_bind].
    rewrite (proj2 (encode_state_Done _ _) (conj Hst eq_refl)). by destruct hertz.
Qed.

Lemma run_inner_Returned input gas r hertz u per_byte cost out r' :
  cometbft_light_block_validation_run_inner input gas r hertz u per_byte = Done (Returned cost out r') ↔
  cost = light_block_cost per_byte input ∧ cost <= gas ∧ r' = r ∧ validate_light_block input hertz u = Done out.
Proof.
  unfold cometbft_light_block_validation_run_inner. destruct (_ <? _) eqn:E.
  { split; [done|]. intros (-> & Hc & _). exfalso. lia. }
  destruct (validate_light_block _ _ _); split; [intros [= <- <- <-]; split_and!; [done|lia|done|done]|..]; naive_solver.
Qed.

Lemma bind_iff {E A B} (m : exec E A) (f g : A → exec E B) b (P : Prop) :
  (∀ a, f a = Done b ↔ g a = Done b ∧ P) → m ≫= f = Done b ↔ m ≫= g = Done b ∧ P.
Proof. intros Hfg. destruct m; cbn [mbind exec_bind]; [apply Hfg|by split; [|intros []]..]. Qed.

(** With the check for duplicates a state decodes to the same, if its set passes. *)
Lemma decode_unique_iff state cs :
  decode_consensus_state state true = Done cs ↔
  decode_consensus_state state false = Done cs ∧ validate_unique_validator_set (cs_validators cs) = Done tt.
Proof.
  unfold decode_consensus_state.
  do 2 (case_if; [split; [done|by intros [? _]]|]).
  apply bind_iff; intros c. apply bind_iff; intros h. apply bind_iff; intros nh. apply bind_iff; intros vb.
  apply bind_iff; intros vals. cbn [cs_validators].
  destruct (validate_unique_validator_set (without_proposer vals)) as [[]| |] eqn:E; cbn [mbind exec_bind]; split;
    [intros [= <-]; done|by intros [[= <-] _]|done|intros [[= <-] Hu]; cbn [cs_validators] in Hu; congruence|done|intros [[= <-] Hu]; cbn [cs_validators] in Hu; congruence].
Qed.

(** What decoding says about the bytes. *)
Lemma decode_state_facts state u cs :
  decode_consensus_state state u = Done cs → chain_id_ok (cs_chain_id cs) ∧ zlen state + 32 <= u64_max.
Proof.
  intros Hd. assert (decode_consensus_state state false = Done cs) as Hf by (destruct u; [by apply decode_unique_iff in Hd as []|done]).
  clear Hd. revert Hf. unfold decode_consensus_state. case_if; [done|]. destruct (MAX_CONSENSUS_STATE_LENGTH <? _) eqn:Hm; [done|]. intros He.
  apply bind_Done in He as (c & _ & He). apply bind_Done in He as (h & _ & He). apply bind_Done in He as (nh & _ & He).
  apply bind_Done in He as (vb & _ & He). apply bind_Done in He as (vs & _ & He). injection He as <-.
  split; [apply decoded_chain_id|]. apply Z.ltb_ge in Hm. comet_consts. unfold u64_max. lia.
Qed.

Lemma light_block_cost_free input : light_block_cost 0 input = 3000.
Proof. unfold light_block_cost, sat_mul64. by rewrite Z.mul_0_r. Qed.

(** The strict version, from a hard fork on, differs by its price and by
    rejecting sets with duplicates. *)
Definition duplicate_free vals : Prop :=
  NoDup (vi_address <$> vals) ∧ NoDup (vi_pub_key <$> vals)
  ∧ NoDup (filter is_set (vi_bls_key <$> vals)) ∧ NoDup (filter is_set (vi_relayer <$> vals)).

(** What the light client accepts, and its answer.  For a stored state that
    decodes to [cs] and an input that carries the light block [lb], a call returns
    exactly if the gas covers the price, [lb] may be trusted after [cs] and the
    state after it can be stored; the answer is that state and whether the set of
    validators changed.  The strict version charges for each byte and also requires
    that neither set has duplicate addresses, keys, BLS keys or relayers. *)
Theorem light_block_accepted_iff pad state proto cs lb gas r cost out r' :
  zlen pad = 24 → decode_consensus_state state false = Done cs → 0 <= cs_height cs < 2 ^ 64 → block_of proto lb →
  let input := call_input pad state proto in
  let accepted := trusted_step cs lb ∧ storable (accepted_state cs lb)
    ∧ out = encode_light_block_validation_result (set_changed cs lb) (state_bytes (accepted_state cs lb)) in
  (cometbft_light_block_validation_run input gas r = Done (Returned cost out r') ↔
     cost = 3000 ∧ 3000 <= gas ∧ r' = r ∧ accepted)
  ∧ (cometbft_light_block_validation_run_pasteur input gas r = Done (Returned cost out r') ↔
     cost = Z.min (3000 + Z.min (zlen input * 16) u64_max) u64_max ∧ cost <= gas ∧ r' = r
     ∧ duplicate_free (cs_validators cs) ∧ duplicate_free (lb_validators lb) ∧ accepted).
Proof.
  intros Hp Hd Hh Hb. cbv zeta. destruct (decode_state_facts _ _ _ Hd) as [_ Hs].
  assert (Hfun : ∀ lb', block_of proto lb' → lb' = lb).
  { intros lb' (pb' & Hm' & Hc'). destruct Hb as (pb & Hm & Hc). congruence. }
  unfold cometbft_light_block_validation_run, cometbft_light_block_validation_run_pasteur. rewrite !run_inner_Returned, light_block_cost_free.
  rewrite !validate_iff by (try done; intros c Hc; try apply decode_unique_iff in Hc as [Hc _]; congruence).
  unfold duplicate_free. rewrite <- !validate_unique_iff. split.
  - split.
    + intros (-> & Hg & -> & cs' & lb' & Hd' & ->%Hfun & _ & Ht & Hst & ->). by replace cs' with cs in * by congruence.
    + intros (-> & Hg & -> & Ht & Hst & ->). split_and!; [done..|]. by exists cs, lb.
  - split.
    + intros (-> & Hg & -> & cs' & lb' & [Hd' Hu']%decode_unique_iff & ->%Hfun & Hu & Ht & Hst & ->).
      replace cs' with cs in * by congruence. split_and!; [done|done|done|done|by apply Hu|done|done|done].
    + intros (-> & Hg & -> & Hu' & Hu & Ht & Hst & ->). split_and!; [done..|]. exists cs, lb. by rewrite decode_unique_iff.
Qed.

(** ** Panics *)

Lemma copy_Panics {X} n (src : bytes) : zlen src ≠ n → @copy_from_slice X n src = Panics.
Proof. intros Hn. unfold copy_from_slice. by rewrite (proj2 (Z.eqb_neq _ _) Hn). Qed.

Lemma copy_cases {X} n (src : bytes) : @copy_from_slice X n src = if decide (zlen src = n) then Done src else Panics.
Proof. destruct (decide _) as [Hn|Hn]; [by apply copy_Done|by apply copy_Panics]. Qed.

#[local] Instance widths_ok_dec v : Decision (widths_ok v).
Proof. unfold widths_ok. apply _. Defined.

Lemma encode_validators_cases vals :
  encode_validators vals = if decide (Forall widths_ok vals) then Done (concat (validator_bytes <$> vals)) else Panics.
Proof.
  destruct (decide _) as [Hw|Hw]; [by apply encode_validators_Done|]. induction vals as [|v vals IH]; [by destruct Hw|].
  cbn [encode_validators]. assert (Hv : encode_validator v = if decide (widths_ok v) then Done (validator_bytes v) else Panics).
  { destruct (decide (widths_ok v)) as [|Hv]; [by apply encode_validator_Done|]. unfold encode_validator, widths_ok in *. comet_consts.
    rewrite !copy_cases. repeat case_decide; cbn [mbind exec_bind]; try done. by destruct Hv. }
  rewrite Hv. case_decide; [|done]. cbn [mbind exec_bind]. rewrite IH; [done|]. intros Hvs. apply Hw. by constructor.
Qed.

Lemma encode_state_Panics cs :
  encode_consensus_state cs = Panics ↔
  zlen (cs_validators cs) <= 99 ∧ zlen (cs_chain_id cs) <= 32
  ∧ ¬ (zlen (cs_next_validator_set_hash cs) = 32 ∧ Forall widths_ok (cs_validators cs)).
Proof.
  unfold encode_consensus_state. comet_consts.
  destruct (_ <? 32 + 8 + 32 + _) eqn:E1; [split; [done|intros (? & ? & _); exfalso; lia]|].
  destruct (32 <? _) eqn:E2; [split; [done|intros (? & ? & _); exfalso; lia]|].
  rewrite copy_cases, encode_validators_cases. repeat case_decide; cbn [mbind exec_bind]; (split; [intros Hp|intros (_ & _ & Hn)]);
    first [done|by destruct Hn|split_and!; [lia|lia|by intros [? ?]]].
Qed.

Lemma apply_no_panic cs lb : apply_light_block cs lb ≠ Panics.
Proof. unfold apply_light_block. by repeat case_match. Qed.

Lemma slice_inside {X} (l : bytes) i j :
  0 <= i <= j → j <= zlen l →
  ∃ x, @slice X _ l i j = Done x ∧ zlen x = j - i ∧ (Forall byte_ok l → Forall byte_ok x)
       ∧ x = take (Z.to_nat (j - i)) (drop (Z.to_nat i) l).
Proof.
  intros Hij Hj. eexists. split; [apply slice_ok; lia|]. split_and!; [|intros; by apply Forall_take, Forall_drop|done].
  unfold zlen in *. rewrite length_take, length_drop. lia.
Qed.

Lemma read_be_inside {X} (l : bytes) i j :
  0 <= i → j = i + 8 → j <= zlen l →
  ∃ z, @read_be_u64 X l i j = Done z ∧ (Forall byte_ok l → 0 <= z < 2 ^ 64).
Proof.
  intros Hi -> Hj. destruct (slice_inside (X := X) l i (i + 8)) as (x & Hx & Hl & Hb & _); [lia|done|].
  unfold read_be_u64. rewrite Hx. cbn [mbind exec_bind]. replace (zlen x) with 8 by lia. cbn. eexists. split; [done|].
  intros Hok%Hb%be_decode_bound. replace (zlen x) with 8 in Hok by lia. lia.
Qed.

Lemma convert_no_panic pb : convert_light_block_from_proto pb ≠ Panics.
Proof.
  unfold convert_light_block_from_proto. destruct pb as [[hd|] vs]; cbn; [|done].
  destruct (signed_header_try_from hd); cbn; [|done]. destruct vs as [vs|]; cbn; [|done]. by destruct (set_try_from vs).
Qed.

Lemma check_unique_no_panic idx vals t : check_unique idx vals t ≠ Panics.
Proof.
  revert idx t. induction vals as [|v vals IH]; intros idx t; cbn [check_unique]; [done|].
  assert (Ht : ∀ tr i x, tracker_check tr i x ≠ Panics) by (intros; unfold tracker_check; by repeat case_match).
  repeat (match goal with |- (tracker_check ?tr ?i ?x ≫= _) ≠ _ => pose proof (Ht tr i x); destruct (tracker_check tr i x) end;
          [cbn [mbind exec_bind]|done|done]).
  apply IH.
Qed.

Lemma decode_validator_no_panic v : zlen v = 108 → decode_validator v ≠ Panics.
Proof.
  intros Hl. unfold decode_validator. comet_consts.
  destruct (read_be_inside (X := PrecompileHalt) v 32 (32 + 8)) as (p & -> & _); [lia..|]. cbn [mbind exec_bind].
  destruct (slice_inside (X := PrecompileHalt) v (32 + 8) (32 + 8 + 20)) as (x & -> & _); [lia..|]. cbn [mbind exec_bind].
  destruct (slice_inside (X := PrecompileHalt) v (32 + 8 + 20) (zlen v)) as (y & -> & _); [lia..|]. cbn [mbind exec_bind].
  destruct (slice_inside (X := PrecompileHalt) v 0 32) as (k & -> & _); [lia..|]. cbn [mbind exec_bind]. by case_if.
Qed.

Lemma decode_validators_no_panic n i l :
  0 <= i → (i + Z.of_nat n) * 108 <= zlen l → decode_validators n i l ≠ Panics.
Proof.
  revert i. induction n as [|n IH]; intros i Hi Hl; cbn [decode_validators]; [done|]. comet_consts.
  destruct (slice_inside (X := PrecompileHalt) l (i * (32 + 8 + 20 + 48)) ((i + 1) * (32 + 8 + 20 + 48))) as (v & -> & Hv & _); [lia..|].
  cbn [mbind exec_bind]. pose proof (decode_validator_no_panic v ltac:(lia)). destruct (decode_validator v); [|done|done].
  cbn [mbind exec_bind]. specialize (IH (i + 1) ltac:(lia) ltac:(lia)). by destruct (decode_validators n (i + 1) l).
Qed.

Lemma decode_state_no_panic state u : decode_consensus_state state u ≠ Panics.
Proof.
  unfold decode_consensus_state. destruct (_ || _) eqn:Hshape; [done|]. apply orb_false_iff in Hshape as [Hmin Hdiv]. case_if; [done|].
  comet_consts. apply Z.leb_gt in Hmin.
  destruct (slice_inside (X := PrecompileHalt) state 0 32) as (c & -> & _); [lia..|]. cbn [mbind exec_bind].
  destruct (read_be_inside (X := PrecompileHalt) state 32 (32 + 8)) as (h & -> & _); [lia..|]. cbn [mbind exec_bind].
  destruct (slice_inside (X := PrecompileHalt) state (32 + 8) (32 + 8 + 32)) as (nh & -> & _); [lia..|]. cbn [mbind exec_bind].
  destruct (slice_inside (X := PrecompileHalt) state (32 + 8 + 32) (zlen state)) as (vb & -> & Hvb & _); [lia..|]. cbn [mbind exec_bind].
  pose proof (decode_validators_no_panic (Z.to_nat ((zlen state - (32 + 8 + 32)) / (32 + 8 + 20 + 48))) 0 vb ltac:(lia)) as Hn.
  destruct (decode_validators _ 0 vb) as [vs|e|]; cbn [mbind exec_bind]; [|done|].
  - destruct u; [|done]. pose proof (check_unique_no_panic 0 (without_proposer vs)) as Hu.
    unfold validate_unique_validator_set. cbn [cs_validators].
    match goal with |- (check_unique 0 _ ?t ≫= _) ≠ _ => specialize (Hu t); by destruct (check_unique 0 (without_proposer vs) t) end.
  - exfalso. apply Hn; [|done]. rewrite Hvb. pose proof (Z.mul_div_le (zlen state - (32 + 8 + 32)) (32 + 8 + 20 + 48) ltac:(lia)). lia.
Qed.

(** A state has a height of 64 bits. *)
Lemma decode_state_height state u cs :
  Forall byte_ok state → decode_consensus_state state u = Done cs → 0 <= cs_height cs < 2 ^ 64.
Proof.
  intros Hb Hd. assert (decode_consensus_state state false = Done cs) as Hf by (destruct u; [by apply decode_unique_iff in Hd as []|done]).
  clear Hd. unfold decode_consensus_state in Hf. destruct (_ || _) eqn:Hshape; [done|]. apply orb_false_iff in Hshape as [Hmin _].
  case_if; [done|]. comet_consts. apply Z.leb_gt in Hmin.
  apply bind_Done in Hf as (c & _ & Hf). apply bind_Done in Hf as (h & Hh & Hf). apply bind_Done in Hf as (nh & _ & Hf).
  apply bind_Done in Hf as (vb & _ & Hf). apply bind_Done in Hf as (vs & _ & Hf). injection Hf as <-. cbn.
  destruct (read_be_inside (X := PrecompileHalt) state 32 (32 + 8)) as (h' & Hh' & Hr); [lia..|].
  rewrite Hh in Hh'. injection Hh' as <-. by apply Hr.
Qed.

(** The input is a frame with a state that decodes to [cs] and the block [lb]. *)
Definition carries (input : bytes) cs lb : Prop :=
  ∃ pad state proto, zlen pad = 24 ∧ input = call_input pad state proto ∧
    decode_consensus_state state false = Done cs ∧ block_of proto lb.

(** Decoding the frame never panics, and what it finds is the frame. *)
Lemma frame_decodes input u :
  Forall byte_ok input →
  (∃ e, decode_light_block_validation_input input u = Fail e) ∨
  ∃ pad state proto cs pb, zlen pad = 24 ∧ input = call_input pad state proto ∧ zlen state + 32 <= u64_max ∧
    decode_consensus_state state u = Done cs ∧ proto_merge proto = Some pb ∧
    decode_light_block_validation_input input u = Done (cs, pb).
Proof.
  intros Hb. unfold decode_light_block_validation_input. comet_consts. destruct (_ <? 32) eqn:Hlen; [left; eauto|]. apply Z.ltb_ge in Hlen.
  destruct (slice_inside (X := PrecompileHalt) input (32 - 8) 32) as (len & Hs & Hl & Hlb & Elen); [lia..|].
  unfold read_be_u64. rewrite Hs. cbn [mbind exec_bind]. replace (zlen len) with 8 by lia. cbn [Z.eqb Pos.eqb rassert mbind exec_bind].
  pose proof (be_decode_bound len (Hlb Hb)) as Hr. set (n := be_decode len) in *.
  destruct (u64_max <? _) eqn:Hmax; [left; eauto|]. apply Z.ltb_ge in Hmax. destruct (zlen input <? 32 + n) eqn:Hin; [left; eauto|]. apply Z.ltb_ge in Hin.
  destruct (slice_inside (X := PrecompileHalt) input 32 (32 + n)) as (state & -> & Hsl & Hsb & Est); [lia..|]. cbn [mbind exec_bind].
  pose proof (decode_state_no_panic state u) as Hnp.
  destruct (decode_consensus_state state u) as [cs|e|] eqn:Hcs; cbn [mbind exec_bind]; [|left; eauto|done].
  destruct (slice_inside (X := PrecompileHalt) input (32 + n) (zlen input)) as (proto & -> & Hpl & _ & Epr); [lia..|]. cbn [mbind exec_bind].
  destruct (proto_merge proto) as [pb|] eqn:Hpb; cbn [ok_or mbind exec_bind]; [|left; eauto]. right.
  exists (take 24 input), state, proto, cs, pb. split_and!; try done.
  - unfold zlen in *. rewrite length_take. lia.
  - unfold call_input. replace (zlen state) with n by lia. unfold n.
    assert (be_encode 8 (be_decode len) = len) as ->.
    { replace 8%nat with (length len) by (unfold zlen in Hl; lia). by apply be_encode_decode, Hlb. }
    rewrite Elen, Est, Epr. replace (Z.to_nat (32 - 8)) with 24%nat by lia. replace (Z.to_nat (32 - (32 - 8))) with 8%nat by lia.
    replace (Z.to_nat (zlen input - (32 + n))) with (length input - (32 + Z.to_nat n))%nat by (unfold zlen in *; lia).
    replace (Z.to_nat (32 + n - 32)) with (Z.to_nat n) by lia. replace (Z.to_nat (32 + n)) with (32 + Z.to_nat n)%nat by lia.
    rewrite <- (take_drop 24 input) at 1. f_equal. rewrite <- (take_drop 8 (drop 24 input)) at 1. f_equal. rewrite drop_drop. cbn [Nat.add].
    rewrite <- (take_drop (Z.to_nat n) (drop 32 input)) at 1. f_equal. rewrite drop_drop. symmetry. apply take_ge. rewrite length_drop. lia.
  - lia.
Qed.

(** A step that may be taken but whose state does not fit the fields it is copied
    into: the announced hash has not 32 bytes, or a key of a validator has not
    32, a relayer not 20 or a BLS key not 48. *)
Definition misfit cs lb : Prop :=
  trusted_step cs lb ∧ zlen (lb_validators lb) <= 99 ∧ zlen (cs_chain_id cs) <= 32
  ∧ ¬ (zlen (sh_next_validators_hash (lb_signed_header lb)) = 32 ∧ Forall widths_ok (lb_validators lb)).

Lemma validate_panics input hertz u :
  Forall byte_ok input →
  validate_light_block input hertz u = Panics ↔
  ∃ cs lb, carries input cs lb ∧ misfit cs lb ∧
    (u = true → duplicate_free (cs_validators cs) ∧ duplicate_free (lb_validators lb)).
Proof.
  intros Hb.
  assert (Huniq : ∀ state cs, decode_consensus_state state u = Done cs ↔
    decode_consensus_state state false = Done cs ∧ (u = true → duplicate_free (cs_validators cs))).
  { intros state cs. unfold duplicate_free. rewrite <- validate_unique_iff. destruct u; [rewrite decode_unique_iff|]; naive_solver. }
  assert (Hdec : ∀ cs lb, carries input cs lb → (u = true → duplicate_free (cs_validators cs)) →
    ∃ pb, decode_light_block_validation_input input u = Done (cs, pb) ∧ convert_light_block_from_proto pb = Done lb ∧ 0 <= cs_height cs < 2 ^ 64).
  { intros cs lb (pad & state & proto & Hp & Hin & Hcs & pb & Hm & Hc) Hu. destruct (decode_state_facts _ _ _ Hcs) as [_ Hs].
    exists pb. split; [|split; [done|]]; [rewrite Hin; apply decode_input_iff; [done|done|]; split; [by apply Huniq|done]|].
    apply (decode_state_height state false cs); [|done]. rewrite Hin in Hb. unfold call_input in Hb.
    by apply Forall_app in Hb as [_ [_ [Hb _]%Forall_app]%Forall_app]. }
  assert (Hset : ∀ vals, (if u then validate_unique_validator_set vals else Done tt) = Done tt ↔ (u = true → duplicate_free vals)).
  { intros vals. unfold duplicate_free. rewrite <- validate_unique_iff. destruct u; naive_solver. }
  unfold validate_light_block. split.
  - intros Hpan. destruct (frame_decodes input u Hb) as [[e He]|(pad & state & proto & cs & pb & Hp & Hin & Hs & Hcs & Hm & He)];
      rewrite He in Hpan; [done|]. cbn [mbind exec_bind] in Hpan.
    destruct (convert_light_block_from_proto pb) as [lb|e|] eqn:Hc; cbn [mbind exec_bind] in Hpan; [|done|by destruct (convert_no_panic pb)].
    destruct (if u then _ else _) as [[]|e|] eqn:Hu; cbn [mbind exec_bind] in Hpan; [|done|].
    2:{ exfalso. destruct u; [|done]. by destruct (check_unique_no_panic _ _ _ Hu). }
    apply Huniq in Hcs as [Hcs Hu']. pose proof (proj1 (Hset _) Hu) as Hul. exists cs, lb.
    assert (Hca : carries input cs lb) by (exists pad, state, proto; split_and!; try done; by exists pb).
    split; [done|]. split; [|by intros E; split; [apply Hu'|apply Hul]].
    destruct (Hdec cs lb Hca Hu') as (_ & _ & _ & Hh).
    destruct (apply_light_block cs lb) as [[changed cs']|e|] eqn:Ea; cbn [mbind exec_bind] in Hpan; [|done|by destruct (apply_no_panic cs lb)].
    apply apply_iff in Ea as (Ht & -> & ->); [|done].
    destruct (encode_consensus_state (accepted_state cs lb)) eqn:Ee; cbn [mbind exec_bind] in Hpan; [done|done|].
    split; [done|]. by apply encode_state_Panics in Ee.
  - intros (cs & lb & Hca & (Ht & Hfit) & Hu). destruct (Hdec cs lb Hca) as (pb & He & Hc & Hh); [intros; by apply Hu|].
    rewrite He. cbn [mbind exec_bind]. rewrite Hc. cbn [mbind exec_bind].
    rewrite (proj2 (Hset (lb_validators lb))) by (intros; by apply Hu). cbn [mbind exec_bind].
    rewrite (proj2 (apply_iff cs lb _ _ Hh) (conj Ht (conj eq_refl eq_refl))). cbn [mbind exec_bind].
    by rewrite (proj2 (encode_state_Panics (accepted_state cs lb)) Hfit).
Qed.

Lemma run_panics input gas r hertz u per_byte :
  cometbft_light_block_validation_run_inner input gas r hertz u per_byte = Panics ↔
  light_block_cost per_byte input <= gas ∧ validate_light_block input hertz u = Panics.
Proof.
  unfold cometbft_light_block_validation_run_inner. destruct (Z.ltb_spec gas (light_block_cost per_byte input)).
  - split; [done|lia].
  - destruct (validate_light_block _ _ _); naive_solver.
Qed.

(** C38: when the light client panics, in each of its three versions and on every
    input.  A call panics exactly if it can pay, the input carries a stored state
    and a light block that may be trusted after it, with at most 99 validators
    and a chain identifier of at most 32 bytes, and the state after it does not
    fit: the announced hash has not 32 bytes, or a key of a validator has not 32,
    a relayer not 20 or a BLS key not 48.  The strict version also requires that
    neither set has duplicates. *)
Theorem light_client_panics_iff input gas r :
  Forall byte_ok input →
  (cometbft_light_block_validation_run_before_hertz input gas r = Panics ↔
     3000 <= gas ∧ ∃ cs lb, carries input cs lb ∧ misfit cs lb)
  ∧ (cometbft_light_block_validation_run input gas r = Panics ↔
     3000 <= gas ∧ ∃ cs lb, carries input cs lb ∧ misfit cs lb)
  ∧ (cometbft_light_block_validation_run_pasteur input gas r = Panics ↔
     Z.min (3000 + Z.min (zlen input * 16) u64_max) u64_max <= gas ∧
     ∃ cs lb, carries input cs lb ∧ misfit cs lb ∧ duplicate_free (cs_validators cs) ∧ duplicate_free (lb_validators lb)).
Proof.
  intros Hb. unfold cometbft_light_block_validation_run_before_hertz, cometbft_light_block_validation_run,
    cometbft_light_block_validation_run_pasteur. rewrite !run_panics, !validate_panics, !light_block_cost_free by done.
  split_and!; [naive_solver|naive_solver|]. apply and_iff_compat_l. naive_solver.
Qed.

(** One call of the contract, in any version of the precompile: the state it
    stores next is the answer without its 32 leading bytes. *)
Inductive call (state state' : bytes) : Prop :=
| call_returned run pad proto gas r cost out r' :
    run ∈ [cometbft_light_block_validation_run_before_hertz; cometbft_light_block_validation_run;
           cometbft_light_block_validation_run_pasteur] →
    zlen pad = 24 →
    run (call_input pad state proto) gas r = Done (Returned cost out r') →
    state' = drop 32 out →
    call state state'.

(** The same with the states themselves. *)
Definition trusts cs cs' : Prop := ∃ lb, trusted_step cs lb ∧ cs' = reload (accepted_state cs lb).

Lemma drop_result changed bs : drop 32 (encode_light_block_validation_result changed bs) = bs.
Proof. by destruct changed. Qed.

Lemma run_versions run input gas r cost out r' :
  run ∈ [cometbft_light_block_validation_run_before_hertz; cometbft_light_block_validation_run;
         cometbft_light_block_validation_run_pasteur] →
  run input gas r = Done (Returned cost out r') → ∃ hertz u, validate_light_block input hertz u = Done out.
Proof.
  rewrite !elem_of_cons, elem_of_nil. intros [->|[->|[->|[]]]] (_ & _ & _ & Hv)%run_inner_Returned; eauto.
Qed.

Lemma block_keys proto lb : block_of proto lb → keys_ok (lb_validators lb) = true.
Proof.
  intros ([hd vs] & _ & Hc). unfold convert_light_block_from_proto in Hc. cbn in Hc.
  apply bind_Done in Hc as (x & _ & Hc). apply bind_Done in Hc as (y & _ & Hc). apply bind_Done in Hc as (z & _ & Hc).
  apply bind_Done in Hc as (w & Hw%ok_or_Done & Hc). injection Hc as <-. by eapply set_keys.
Qed.

Lemma call_trusts state state' cs :
  decode_consensus_state state false = Done cs → 0 <= cs_height cs < 2 ^ 64 → call state state' →
  ∃ cs', decode_consensus_state state' false = Done cs' ∧ trusts cs cs' ∧ 0 <= cs_height cs' < 2 ^ 64
    ∧ cs_chain_id cs' = cs_chain_id cs ∧ cs_height cs < cs_height cs'.
Proof.
  intros Hd Hh [run pad proto gas r cost out r' Hrun Hp He ->]. destruct (decode_state_facts _ _ _ Hd) as [Hid Hs].
  assert (Hfun : ∀ u c, decode_consensus_state state u = Done c → c = cs).
  { intros [] c Hc; [apply decode_unique_iff in Hc as [Hc _]|]; congruence. }
  apply run_versions in He as (hertz & u & He); [|done].
  apply validate_iff in He as (cs' & lb & ->%Hfun & Hb & _ & Ht & Hst & ->); [|done|done|by intros c ->%Hfun].
  exists (reload (accepted_state cs lb)). rewrite drop_result, decode_state_bytes;
    [|done|done|intros Hn; cbn in Hn; pose proof (ts_signed _ _ Ht) as Hg; rewrite Hn, nobody_signs in Hg; done|by eapply block_keys].
  pose proof (sh_height_range (lb_signed_header lb)). pose proof (ts_later _ _ Ht).
  split_and!; [done|by exists lb|..]; cbn; unfold wrap64; rewrite ?Z.mod_small by done; lia || done.
Qed.

(** C14: What a contract that keeps the light client's answers comes to trust.
    Starting from a state that decodes, after any number of successful calls in
    any versions of the precompile, with inputs that are otherwise arbitrary, the
    stored bytes still decode; the state they hold is linked to the first by that
    many trusted light blocks, each later than the one before and signed by two
    thirds of its own validators and, unless it follows directly with the
    validators announced, by a third of the trusted ones; the chain stays the same
    and the height has grown by at least the number of calls. *)
Theorem light_client_chain n state0 state cs0 :
  decode_consensus_state state0 false = Done cs0 → 0 <= cs_height cs0 < 2 ^ 64 →
  nsteps call n state0 state →
  ∃ cs, decode_consensus_state state false = Done cs ∧ nsteps trusts n cs0 cs
    ∧ cs_chain_id cs = cs_chain_id cs0 ∧ cs_height cs0 + Z.of_nat n <= cs_height cs < 2 ^ 64.
Proof.
  intros Hd Hh Hn. revert cs0 Hd Hh. induction Hn as [s|n s1 s2 s3 Hc Hn IH]; intros cs0 Hd Hh.
  { exists cs0. split_and!; [done|constructor|done|lia|lia]. }
  destruct (call_trusts _ _ _ Hd Hh Hc) as (cs1 & Hd1 & Ht & Hh1 & Hid & Hlt).
  destruct (IH cs1 Hd1 Hh1) as (cs & Hcs & Hts & Hid' & Hb). exists cs.
  split_and!; [done|by econstructor|congruence|lia|lia].
Qed.
End Trust.
