(* ===== verification/CometBftDemo.v ===== *)
(** * CometBftDemo: a small chain for the light client

    Headers that list who signed them, two validator sets, a stored state and two
    light blocks; the claims of [CometBftProps] on them, and what storing a large
    voting power does. *)

From stdpp Require Import base tactics numbers option list gmap strings.
From Stdlib Require Import ZArith Lia Bool.
From S2P Require Import Prelude.
From S2P Require Import Precompiles.
From S2P Require Import CometBft.
From S2P Require Import CometBftProps.

Module CometNet.

Record DemoHeader := {
  dh_height : Z;
  dh_chain_id : bytes;
  dh_validators_hash : bytes;
  dh_next_validators_hash : bytes;
  dh_signers : list bytes;
}.

Definition key (n : Z) : bytes := be_encode 32 n.
Definition validator (n power : Z) : TmValidator :=
  {| vi_address := drop 12 (key n); vi_pub_key := key n; vi_power := power; vi_bls_key := be_encode 48 n;
     vi_relayer := be_encode 20 n |}.
Definition set_hash (vals : list TmValidator) : bytes :=
  be_encode 32 (foldr (λ v acc, 31 * acc + be_decode (vi_pub_key v) + vi_power v) 7 vals).

Definition power_of (vals : list TmValidator) : Z := foldr (λ v acc, vi_power v + acc) 0 vals.
Definition overlap (h : DemoHeader) (vals : list TmValidator) (t : Z * Z) : bool :=
  power_of vals * t.1 <? power_of (filter (λ v, vi_pub_key v ∈ dh_signers h) vals) * t.2.

Definition chain : bytes := [98; 110; 98].
Definition old_set : list TmValidator := [validator 1 10; validator 2 8].
Definition new_set : list TmValidator := [validator 2 8; validator 3 9].

Definition header11 : DemoHeader :=
  {| dh_height := 11; dh_chain_id := chain; dh_validators_hash := set_hash old_set;
     dh_next_validators_hash := set_hash new_set; dh_signers := [key 1; key 2] |}.
Definition header15 : DemoHeader :=
  {| dh_height := 15; dh_chain_id := chain; dh_validators_hash := set_hash new_set;
     dh_next_validators_hash := set_hash new_set; dh_signers := [key 2; key 3] |}.

(** The same block, from a source that does not name the relayer of validator 3. *)
Definition bare_set : list TmValidator :=
  [validator 2 8;
   {| vi_address := drop 12 (key 3); vi_pub_key := key 3; vi_power := 9; vi_bls_key := be_encode 48 3; vi_relayer := [] |}].

#[local] Instance api : CometApi := {
  from_raw_ed25519 k := zlen k =? 32;
  address_of_key k := drop 12 k;
  without_proposer vals := vals;
  validators_hash_of := set_hash;
  SignedHeader := DemoHeader;
  sh_height h := wrap64 (dh_height h);
  sh_chain_id := dh_chain_id;
  sh_validators_hash := dh_validators_hash;
  sh_next_validators_hash := dh_next_validators_hash;
  sufficient_overlap := overlap;
  ProtoHeader := DemoHeader;
  ProtoSet := list TmValidator;
  proto_merge bs := if bool_decide (bs = [11]) then Some (Some header11, Some old_set)
                    else if bool_decide (bs = [15]) then Some (Some header15, Some new_set)
                    else if bool_decide (bs = [16]) then Some (Some header15, Some bare_set) else None;
  signed_header_try_from h := Some h;
  set_try_from vals := if forallb (λ v, zlen (vi_pub_key v) =? 32) vals then Some vals else None;
}.

#[local] Instance laws : CometLaws.
Proof.
  split; cbn.
  - intros h. unfold wrap64. apply Z.mod_pos_bound. lia.
  - intros p vals Hv. unfold keys_ok. cbn. destruct (forallb _ p) eqn:E; [|done]. by injection Hv as <-.
  - done.
Qed.

Definition state10 : ConsensusState :=
  {| cs_chain_id := chain; cs_height := 10; cs_next_validator_set_hash := set_hash old_set; cs_validators := old_set |}.
Definition light11 : LightBlock := {| lb_signed_header := header11; lb_validators := old_set |}.
Definition light15 : LightBlock := {| lb_signed_header := header15; lb_validators := new_set |}.

Definition bytes10 : bytes := Eval vm_compute in state_bytes state10.
Definition bytes11 : bytes := Eval vm_compute in state_bytes (accepted_state state10 light11).
Definition bytes15 : bytes := Eval vm_compute in state_bytes (accepted_state (accepted_state state10 light11) light15).
Definition pad : bytes := replicate 24 0.

Lemma chain_ok : chain_id_ok chain.
Proof. split; [|done]. by repeat constructor. Qed.

Lemma consensus_state_roundtrip_witness :
  zlen bytes10 = 288 ∧ decode_consensus_state bytes10 false = Done state10.
Proof.
  assert (Hc : canonical state10) by (split_and!; [done|done|repeat constructor; done|done]).
  destruct (consensus_state_roundtrip state10 bytes10) as (Hl & _ & Hd & _ & Hr); [apply chain_ok|done|by vm_compute..|].
  rewrite (Hr Hc) in Hd. split; [exact Hl|exact Hd].
Defined.

(** A voting power of more than 32 bits loses its upper half. *)
Lemma stored_power_lost :
  let cs := {| cs_chain_id := chain; cs_height := 10; cs_next_validator_set_hash := set_hash old_set;
               cs_validators := [validator 1 (2 ^ 32)] |} in
  (b ← encode_consensus_state cs; cs' ← decode_consensus_state b false; Done (vi_power <$> cs_validators cs')) = Done [0].
Proof. by vm_compute. Qed.

Lemma light_block_accepted_iff_witness :
  cometbft_light_block_validation_run (call_input pad bytes10 [15]) 3000 0
    = Done (Returned 3000 (encode_light_block_validation_result true (state_bytes (accepted_state state10 light15))) 0)
  ↔ 3000 = 3000 ∧ 3000 <= 3000 ∧ 0 = 0 ∧ trusted_step state10 light15 ∧ storable (accepted_state state10 light15)
    ∧ encode_light_block_validation_result true (state_bytes (accepted_state state10 light15))
      = encode_light_block_validation_result (set_changed state10 light15) (state_bytes (accepted_state state10 light15)).
Proof.
  apply (light_block_accepted_iff pad bytes10 [15] state10 light15); [done|by vm_compute|done|].
  by exists (Some header15, Some new_set).
Defined.

(** Block 11 follows directly, block 15 after a gap, by the strict version. *)
Lemma calls : nsteps call 2 bytes10 bytes15.
Proof.
  econstructor; [|econstructor; [|constructor]].
  - apply (call_returned bytes10 bytes11 cometbft_light_block_validation_run pad [11] 3000 0 3000
      (encode_light_block_validation_result false bytes11) 0); [set_solver|by vm_compute..].
  - apply (call_returned bytes11 bytes15 cometbft_light_block_validation_run_pasteur pad [15] 20000 0 8136
      (encode_light_block_validation_result true bytes15) 0); [set_solver|by vm_compute..].
Qed.

Lemma light_client_chain_witness :
  ∃ cs, decode_consensus_state bytes15 false = Done cs ∧ nsteps trusts 2 state10 cs
    ∧ cs_chain_id cs = chain ∧ 10 + Z.of_nat 2 <= cs_height cs < 2 ^ 64.
Proof. apply (light_client_chain 2 bytes10 bytes15 state10); [by vm_compute|done|apply calls]. Defined.

Definition bare_light15 : LightBlock := {| lb_signed_header := header15; lb_validators := bare_set |}.

Lemma bare_misfit : misfit state10 bare_light15.
Proof.
  split; [|split_and!; [done|done|by intros [_ [_ [[_ [? _]] _]%Forall_cons]%Forall_cons]]].
  split; [done|done|by vm_compute|right; split; [done|by vm_compute]].
Qed.

Lemma bare_carried : carries (call_input pad bytes10 [16]) state10 bare_light15.
Proof.
  exists pad, bytes10, [16]. split; [done|]. split; [done|]. split; [by vm_compute|]. by exists (Some header15, Some bare_set).
Qed.

Lemma light_client_panics_iff_witness :
  cometbft_light_block_validation_run (call_input pad bytes10 [16]) 3000 0 = Panics
  ∧ cometbft_light_block_validation_run_before_hertz (call_input pad bytes10 [16]) 3000 0 = Panics.
Proof.
  destruct (light_client_panics_iff (call_input pad bytes10 [16]) 3000 0) as (Hb & Hr & _).
  - apply (bool_decide_unpack _). by vm_compute.
  - split; [apply Hr|apply Hb]; (split; [done|]); exists state10, bare_light15; (split; [apply bare_carried|apply bare_misfit]).
Defined.
End CometNet.
