(* ===== verification/PrecompileTables.v ===== *)
(** * PrecompileTables: which native contract answers a call

    [src/evm/precompiles/mod.rs]: the tables of the forks, the wrappers that look
    a function up in the context of the running transaction, the stack of these
    contexts with the places that push and pop ([evm/handler.rs],
    [node/evm/executor.rs], [node/evm/post_execution.rs]), and the map of one EVM
    with the clock at 0x70 ([evm/api/mod.rs], [evm/api/exec.rs]).

    The contracts of Ethereum are a parameter, as the tables of [revm] are; the
    lines logged for the first two blocks are left out, and the map's lookup of
    CAS20 tokens is in [Cas20Factory]. *)

From stdpp Require Import base tactics numbers option list gmap strings.
From Stdlib Require Import ZArith Lia Bool.
From S2P Require Import Prelude.
From S2P Require Import Hardforks.
From S2P Require Import Header.
From S2P Require Import EvmEnv.
From S2P Require Import Precompiles.
From S2P Require Import DoubleSign.
From S2P Require Import CometBft.

(** ** Precompiles and tables *)

(** A function pointer: a contract, or the wrapper for an address. *)
Inductive PrecompileFn :=
| Native (run : bytes → Z → Z → PrecompileResult)
| TracedWrapper (address : Z).

Record Precompile := {
  precompile_id : string;
  precompile_address : Z;
  precompile_fn : PrecompileFn;
}.

(** [Precompiles]: at most one contract for each address; [extend] replaces. *)
Definition Precompiles : Type := gmap Z Precompile.
Definition extend (self : Precompiles) (other : list Precompile) : Precompiles :=
  foldl (λ m p, <[precompile_address p := p]> m) self other.

Record PrecompileTraceEntry := {
  entry_id : string;
  original : Precompile;
}.
Definition PrecompileTraceMap : Type := gmap Z PrecompileTraceEntry.

Record TracedPrecompiles := {
  precompiles : Precompiles;
  trace_map : PrecompileTraceMap;
}.

(** What [revm] provides. *)
Class RevmPrecompiles := {
  revm_istanbul : Precompiles;
  MODEXP_BERLIN : Precompile;
  MODEXP_OSAKA : Precompile;
  POINT_EVALUATION : Precompile;
  P256VERIFY : Precompile;
  P256VERIFY_OSAKA : Precompile;
  bls12_381_precompiles : list Precompile;
}.

(** ** Contexts *)

Record PrecompileTraceContext := {
  ctx_block_number : Z;
  ctx_spec : BscHardfork;
  ctx_trace_map : PrecompileTraceMap;
  ctx_is_system_tx : bool;
  ctx_tx_hash : option bytes;
  ctx_tx_to : option bytes;
  ctx_tx_selector : option bytes;
  ctx_tx_input_len : Z;
}.

Definition or_parent {A} (own parent : option A) : option A := match own with Some a => Some a | None => parent end.

Definition merge_with_parent (self : PrecompileTraceContext) (parent : option PrecompileTraceContext) : PrecompileTraceContext :=
  match parent with
  | None => self
  | Some parent =>
      {| ctx_block_number := ctx_block_number self;
         ctx_spec := ctx_spec self;
         ctx_trace_map := ctx_trace_map self;
         ctx_is_system_tx := if negb (ctx_is_system_tx self) then ctx_is_system_tx parent else ctx_is_system_tx self;
         ctx_tx_hash := or_parent (ctx_tx_hash self) (ctx_tx_hash parent);
         ctx_tx_to := or_parent (ctx_tx_to self) (ctx_tx_to parent);
         ctx_tx_selector := or_parent (ctx_tx_selector self) (ctx_tx_selector parent);
         ctx_tx_input_len := if ctx_tx_input_len self =? 0 then ctx_tx_input_len parent else ctx_tx_input_len self |}
  end.

(** [PRECOMPILE_TRACE_STACK] of the thread, the last element first. *)
Definition TraceStack : Type := list PrecompileTraceContext.

Definition push_precompile_trace_context (ctx : PrecompileTraceContext) (stack : TraceStack) : TraceStack :=
  merge_with_parent ctx (head stack) :: stack.
Definition pop_precompile_trace_context (stack : TraceStack) : TraceStack := tail stack.
Definition current_precompile_trace_context (stack : TraceStack) : option PrecompileTraceContext := head stack.

(** ** Wrappers *)

Definition WRAPPED_ADDRESSES : list Z := [1; 2; 3; 4; 5; 6; 7; 8; 9; 10; 100; 101; 102; 103; 104; 105].

Definition traced_wrapper_for_address (address : Z) : option PrecompileFn :=
  if bool_decide (address ∈ WRAPPED_ADDRESSES) then Some (TracedWrapper address) else None.

(** One round of the loop of [install_precompile_tracing]. *)
Definition install_one (st : Precompiles * PrecompileTraceMap) (address : Z) : Precompiles * PrecompileTraceMap :=
  let '(precompiles, trace_map) := st in
  match precompiles !! address with
  | None => (precompiles, trace_map)
  | Some precompile =>
      let id := precompile_id precompile in
      let address := precompile_address precompile in
      let trace_map := <[address := {| entry_id := id; original := precompile |}]> trace_map in
      match traced_wrapper_for_address address with
      | Some wrapper =>
          (extend precompiles [{| precompile_id := id; precompile_address := address; precompile_fn := wrapper |}], trace_map)
      | None => (precompiles, trace_map)
      end
  end.

(** The order of [addresses_set] is not specified; any gives the same result, as
    every address occurs once. *)
Definition install_precompile_tracing (precompiles : Precompiles) : Precompiles * PrecompileTraceMap :=
  foldl install_one (precompiles, ∅) (elements (dom precompiles)).

Definition build_traced_precompiles (precompiles : Precompiles) : TracedPrecompiles :=
  let '(precompiles, trace_map) := install_precompile_tracing precompiles in
  {| precompiles := precompiles; trace_map := trace_map |}.

(** ** The tables of the forks *)

Definition custom (id : string) (address : Z) (run : bytes → Z → Z → PrecompileResult) : Precompile :=
  {| precompile_id := id; precompile_address := address; precompile_fn := Native run |}.

Section Tables.
Context `{V : RevmPrecompiles} `{T : TmLightClient} `{B : BlsCurve} `{Sk : TmSecp256k1} `{C : CometApi}
  `{R : RlpApi} `{D : RlpDecode} `{E : EvmEcrecover}.

Definition TENDERMINT_HEADER_VALIDATION : Precompile :=
  custom "HEADER_VALIDATE" 100 tendermint_header_validation_run.
Definition TENDERMINT_HEADER_VALIDATION_NANO : Precompile :=
  custom "HEADER_VALIDATE_NANO" 100 tendermint_header_validation_run_nano.
Definition TENDERMINT_HEADER_VALIDATION_DEPRECATED : Precompile :=
  custom "HEADER_VALIDATE_DEPRECATED" 100 tendermint_header_validation_run_deprecated.
Definition IAVL_PROOF_VALIDATION : Precompile :=
  custom "IAVL_MERKLE_PROOF_VALIDATE" 101 iavl_proof_validation_run.
Definition IAVL_PROOF_VALIDATION_NANO : Precompile :=
  custom "IAVL_MERKLE_PROOF_VALIDATE_NANO" 101 iavl_proof_validation_run_nano.
Definition IAVL_PROOF_VALIDATION_MORAN : Precompile :=
  custom "IAVL_MERKLE_PROOF_VALIDATE_MORAN" 101 iavl_proof_validation_run_moran.
Definition IAVL_PROOF_VALIDATION_PLANCK : Precompile :=
  custom "IAVL_MERKLE_PROOF_VALIDATE_PLANCK" 101 iavl_proof_validation_run_planck.
Definition IAVL_PROOF_VALIDATION_PLATO : Precompile :=
  custom "IAVL_MERKLE_PROOF_VALIDATE_PLATO" 101 iavl_proof_validation_run_plato.
Definition IAVL_PROOF_VALIDATION_DEPRECATED : Precompile :=
  custom "IAVL_MERKLE_PROOF_VALIDATE_DEPRECATED" 101 iavl_proof_validation_run_deprecated.
Definition BLS_SIGNATURE_VALIDATION : Precompile :=
  custom "BLS_SIGNATURE_VERIFY" 102 bls_signature_validation_run.
Definition COMETBFT_LIGHT_BLOCK_VALIDATION : Precompile :=
  custom "COMET_BFT_LIGHT_BLOCK_VALIDATE_HERTZ" 103 cometbft_light_block_validation_run.
Definition COMETBFT_LIGHT_BLOCK_VALIDATION_BEFORE_HERTZ : Precompile :=
  custom "COMET_BFT_LIGHT_BLOCK_VALIDATE" 103 cometbft_light_block_validation_run_before_hertz.
Definition COMETBFT_LIGHT_BLOCK_VALIDATION_PASTEUR : Precompile :=
  custom "COMET_BFT_LIGHT_BLOCK_VALIDATE_PASTEUR" 103 cometbft_light_block_validation_run_pasteur.
Definition DOUBLE_SIGN_EVIDENCE_VALIDATION : Precompile :=
  custom "VERIFY_DOUBLE_SIGN_EVIDENCE" 104 double_sign_evidence_validation_run.
Definition DOUBLE_SIGN_EVIDENCE_VALIDATION_JENNER : Precompile :=
  custom "VERIFY_DOUBLE_SIGN_EVIDENCE" 104 double_sign_evidence_validation_run_jenner.
Definition TM_SECP256K1_SIGNATURE_RECOVER : Precompile :=
  custom "SECP256K1_SIGNATURE_RECOVER" 105 tm_secp256k1_signature_recover_run.

Definition build_istanbul_precompiles : Precompiles :=
  extend revm_istanbul [TENDERMINT_HEADER_VALIDATION; IAVL_PROOF_VALIDATION].
Definition build_nano_precompiles : Precompiles :=
  extend build_istanbul_precompiles [TENDERMINT_HEADER_VALIDATION_NANO; IAVL_PROOF_VALIDATION_NANO].
Definition build_moran_precompiles : Precompiles :=
  extend build_istanbul_precompiles [TENDERMINT_HEADER_VALIDATION; IAVL_PROOF_VALIDATION_MORAN].
Definition build_planck_precompiles : Precompiles :=
  extend build_istanbul_precompiles [TENDERMINT_HEADER_VALIDATION; IAVL_PROOF_VALIDATION_PLANCK].
Definition build_luban_precompiles : Precompiles :=
  extend build_planck_precompiles [BLS_SIGNATURE_VALIDATION; COMETBFT_LIGHT_BLOCK_VALIDATION_BEFORE_HERTZ].
Definition build_plato_precompiles : Precompiles := extend build_luban_precompiles [IAVL_PROOF_VALIDATION_PLATO].
Definition build_hertz_precompiles : Precompiles :=
  extend build_plato_precompiles [COMETBFT_LIGHT_BLOCK_VALIDATION; MODEXP_BERLIN].
Definition build_feynman_precompiles : Precompiles :=
  extend build_hertz_precompiles [DOUBLE_SIGN_EVIDENCE_VALIDATION; TM_SECP256K1_SIGNATURE_RECOVER].
Definition build_cancun_precompiles : Precompiles := extend build_feynman_precompiles [POINT_EVALUATION].
Definition build_haber_precompiles : Precompiles := extend build_cancun_precompiles [P256VERIFY].
Definition build_pascal_precompiles : Precompiles := extend build_haber_precompiles bls12_381_precompiles.
Definition build_mendel_precompiles : Precompiles :=
  extend (extend build_pascal_precompiles [MODEXP_OSAKA]) [P256VERIFY_OSAKA].
Definition build_pasteur_precompiles : Precompiles :=
  extend build_mendel_precompiles
    [TENDERMINT_HEADER_VALIDATION_DEPRECATED; IAVL_PROOF_VALIDATION_DEPRECATED; COMETBFT_LIGHT_BLOCK_VALIDATION_PASTEUR].
Definition build_jenner_precompiles : Precompiles :=
  extend build_pasteur_precompiles [DOUBLE_SIGN_EVIDENCE_VALIDATION_JENNER].

Definition istanbul_traced := build_traced_precompiles build_istanbul_precompiles.
Definition nano_traced := build_traced_precompiles build_nano_precompiles.
Definition moran_traced := build_traced_precompiles build_moran_precompiles.
Definition planck_traced := build_traced_precompiles build_planck_precompiles.
Definition luban_traced := build_traced_precompiles build_luban_precompiles.
Definition plato_traced := build_traced_precompiles build_plato_precompiles.
Definition hertz_traced := build_traced_precompiles build_hertz_precompiles.
Definition feynman_traced := build_traced_precompiles build_feynman_precompiles.
Definition cancun_traced := build_traced_precompiles build_cancun_precompiles.
Definition haber_traced := build_traced_precompiles build_haber_precompiles.
Definition pascal_traced := build_traced_precompiles build_pascal_precompiles.
Definition mendel_traced := build_traced_precompiles build_mendel_precompiles.
Definition pasteur_traced := build_traced_precompiles build_pasteur_precompiles.
Definition jenner_traced := build_traced_precompiles build_jenner_precompiles.

Definition traced_precompiles_for_spec (spec : BscHardfork) : TracedPrecompiles :=
  let ge f := fork_rank f <=? fork_rank spec in
  if ge Jenner then jenner_traced
  else if ge Pasteur then pasteur_traced
  else if ge Mendel then mendel_traced
  else if ge Pascal then pascal_traced
  else if ge Haber then haber_traced
  else if ge Cancun then cancun_traced
  else if ge Feynman then feynman_traced
  else if ge Hertz then hertz_traced
  else if ge Plato then plato_traced
  else if ge Luban then luban_traced
  else if ge Planck then planck_traced
  else if ge Moran then moran_traced
  else if ge Nano then nano_traced
  else istanbul_traced.

Definition trace_map_for_spec (spec : BscHardfork) : PrecompileTraceMap := trace_map (traced_precompiles_for_spec spec).

(** [BscHardfork::default()] *)
Definition default_hardfork : BscHardfork := Fermi.

(** [PrecompileTraceContext::from_parts] *)
Definition from_parts (block_number : Z) (spec : BscHardfork) (is_system_tx : bool) (tx_hash tx_to tx_selector : option bytes)
    (tx_input_len : Z) : PrecompileTraceContext :=
  {| ctx_block_number := block_number; ctx_spec := spec; ctx_trace_map := trace_map_for_spec spec;
     ctx_is_system_tx := is_system_tx; ctx_tx_hash := tx_hash; ctx_tx_to := tx_to; ctx_tx_selector := tx_selector;
     ctx_tx_input_len := tx_input_len |}.

(** ** Calls *)

(** [execute_original] stands for [entry.original.execute]. *)
Definition traced_precompile_call (execute_original : Precompile → bytes → Z → Z → PrecompileResult) (stack : TraceStack)
    (address : Z) (input : bytes) (gas_limit reservoir : Z) : PrecompileResult :=
  let entry := match current_precompile_trace_context stack with
               | Some ctx => ctx_trace_map ctx !! address
               | None => trace_map_for_spec default_hardfork !! address
               end in
  match entry with
  | None => Fail (Fatal "missing original precompile function")
  | Some entry => execute_original (original entry) input gas_limit reservoir
  end.

(** [Precompile::execute] in a thread with this stack.  A wrapper could lead to
    another one; [depth] bounds the nesting, and running out is the overflow of
    the machine's stack. *)
Fixpoint execute_precompile (depth : nat) (stack : TraceStack) (self : Precompile) (input : bytes) (gas_limit reservoir : Z)
    : PrecompileResult :=
  match precompile_fn self with
  | Native run => run input gas_limit reservoir
  | TracedWrapper address =>
      match depth with
      | O => Panics
      | S depth => traced_precompile_call (execute_precompile depth stack) stack address input gas_limit reservoir
      end
  end.

(** ** One EVM *)

(** The entries of the [PrecompilesMap]: of the static table, or the clock with
    the remainder it captured. *)
Inductive DynEntry :=
| StaticEntry (p : Precompile)
| ClockEntry (captured_remainder : Z).

Record BscEvm := {
  evm_spec : BscHardfork;
  evm_block : BscBlockEnv;
  evm_precompiles : gmap Z DynEntry;
}.

Definition CLOCK_ADDRESS : Z := 112.

Definition bsc_precompiles_new (spec : BscHardfork) : Precompiles := precompiles (traced_precompiles_for_spec spec).

Definition register_clock (spec : BscHardfork) (remainder : Z) (m : gmap Z DynEntry) : gmap Z DynEntry :=
  if fork_rank Jenner <=? fork_rank spec then <[CLOCK_ADDRESS := ClockEntry remainder]> m else m.

Definition bsc_evm_new (spec : BscHardfork) (block : BscBlockEnv) : BscEvm :=
  {| evm_spec := spec; evm_block := block;
     evm_precompiles := register_clock spec (milli_remainder block) (StaticEntry <$> bsc_precompiles_new spec) |}.

Definition set_block (block : BscBlockEnv) (evm : BscEvm) : BscEvm :=
  {| evm_spec := evm_spec evm; evm_block := block;
     evm_precompiles := register_clock (evm_spec evm) (milli_remainder block) (evm_precompiles evm) |}.

(** A call to a listed address; [None] for an address without an entry. *)
Definition evm_call (evm : BscEvm) (stack : TraceStack) (address : Z) (input : bytes) (gas_limit reservoir : Z)
    : option PrecompileResult :=
  match evm_precompiles evm !! address with
  | None => None
  | Some (StaticEntry p) => Some (execute_precompile 1 stack p input gas_limit reservoir)
  | Some (ClockEntry remainder) => Some (milli_timestamp_precompile remainder (evm_block evm) input gas_limit reservoir)
  end.

(** ** Transactions *)

Record BscTxParts := {
  is_system_transaction : bool;
  tx_to : option bytes;
  tx_selector : option bytes;
  tx_input_len : Z;
}.

(** The steps of [revm] around and inside the methods of [BscHandler]: each
    passes or ends the run with an error. *)
Record RevmSteps := {
  env_ok : bool;             (* [validate_env] of the mainnet handler *)
  initial_gas_ok : bool;     (* its [validate_initial_tx_gas] *)
  pre_execution_ok : bool;   (* nonce and balance against the state, accounts loaded *)
  execution_ok : bool;       (* a database that fails while the frames run *)
  post_execution_ok : bool;  (* refunds and [reward_beneficiary], which load accounts *)
}.

(** [validate_env]: of a system transaction only the block is checked. *)
Definition validate_env (evm : BscEvm) (tx : BscTxParts) (mainnet_ok : bool) : bool :=
  if is_system_transaction tx
  then
    let spec := spec_id_from (evm_spec evm) in
    let block := inner (evm_block evm) in
    if from_merge spec && bool_decide (env_prevrandao block = None) then false
    else negb (from_cancun spec && negb (bool_decide (is_Some (blob_excess_gas_and_price block))))
  else mainnet_ok.

(** [validate_initial_tx_gas]; [mainnet_ok]: the check of [revm] passes. *)
Definition validate_initial_tx_gas (evm : BscEvm) (tx : BscTxParts) (mainnet_ok : bool) (stack : TraceStack)
    : exec unit (bool * TraceStack) :=
  _ ← rassert (env_number (inner (evm_block evm)) <=? u64_max);
  let stack :=
    push_precompile_trace_context
      (from_parts (env_number (inner (evm_block evm))) (evm_spec evm) (is_system_transaction tx) None
         (tx_to tx) (tx_selector tx) (tx_input_len tx)) stack in
  let res := if is_system_transaction tx then true else mainnet_ok in
  Done (res, if res then stack else pop_precompile_trace_context stack).

(** [Handler::run] of [revm] with the methods of [BscHandler]: [validate_env], the
    initial gas, the checks against the state and the other work before execution,
    the execution, the work after it and [execution_result], whose guard pops.  An
    error of any step returns at once; [catch_error] is the default.  The answer
    has the stack afterwards and, if the transaction was executed, even in part,
    the one its calls saw. *)
Definition handler_run (evm : BscEvm) (tx : BscTxParts) (steps : RevmSteps) (stack : TraceStack)
    : exec unit (TraceStack * option TraceStack) :=
  if negb (validate_env evm tx (env_ok steps)) then Done (stack, None)
  else
    '(res, stack) ← validate_initial_tx_gas evm tx (initial_gas_ok steps) stack;
    if negb res then Done (stack, None)
    else if negb (pre_execution_ok steps) then Done (stack, None)
    else if negb (execution_ok steps) then Done (stack, Some stack)
    else if negb (post_execution_ok steps) then Done (stack, Some stack)
    else Done (pop_precompile_trace_context stack, Some stack).

(** [execute_transaction_without_commit] and [transact_system_tx] of the block
    executor: a context of their own around the run, which a guard pops. *)
Definition executor_run (evm : BscEvm) (spec : BscHardfork) (block_number : Z) (is_system_tx : bool) (tx_hash : option bytes) (tx : BscTxParts)
    (steps : RevmSteps) (stack : TraceStack) : exec unit (TraceStack * option TraceStack) :=
  let stack :=
    push_precompile_trace_context
      (from_parts block_number spec is_system_tx tx_hash (tx_to tx) (tx_selector tx) (tx_input_len tx)) stack in
  '(stack, seen) ← handler_run evm tx steps stack;
  Done (pop_precompile_trace_context stack, seen).

(** A thread runs transactions one after the other, alone or in blocks. *)
Inductive Attempt :=
| Alone (evm : BscEvm) (tx : BscTxParts) (steps : RevmSteps)
| InBlock (evm : BscEvm) (spec : BscHardfork) (block_number : Z) (is_system_tx : bool) (tx_hash : option bytes)
    (tx : BscTxParts) (steps : RevmSteps).

Definition attempt_run (a : Attempt) (stack : TraceStack) : exec unit (TraceStack * option TraceStack) :=
  match a with
  | Alone evm tx steps => handler_run evm tx steps stack
  | InBlock evm spec n sys h tx steps => executor_run evm spec n sys h tx steps stack
  end.

Fixpoint attempts_run (l : list Attempt) (stack : TraceStack) : exec unit TraceStack :=
  match l with
  | [] => Done stack
  | a :: l => '(stack, _) ← attempt_run a stack; attempts_run l stack
  end.
End Tables.
