(* ===== verification/PrecompileTablesProps.v ===== *)
(** * PrecompileTablesProps: calls reach the contract of their fork

    Installing the wrappers changes no table as long as the context on top of the
    stack is of the same fork; in every history of a thread this is so while a
    transaction executes, also after transactions whose context was never popped;
    and which version answers at the bridge's addresses is read off the fork. *)

From stdpp Require Import base tactics numbers option list gmap strings.
From Stdlib Require Import ZArith Lia Bool.
From S2P Require Import Prelude.
From S2P Require Import Hardforks.
From S2P Require Import Header.
From S2P Require Import EvmEnv.
From S2P Require Import Precompiles.
From S2P Require Import DoubleSign.
From S2P Require Import CometBft.
From S2P Require Import PrecompileTables.

(** ** Installing the wrappers *)

(** Contracts are filed under their own address and none is a wrapper. *)
Definition native (p : Precompile) : Prop := ∃ run, precompile_fn p = Native run.
Definition plain_table (t : Precompiles) : Prop := map_Forall (λ a p, precompile_address p = a ∧ native p) t.

Definition wrap (a : Z) (p : Precompile) : Precompile :=
  match traced_wrapper_for_address a with
  | Some w => {| precompile_id := precompile_id p; precompile_address := a; precompile_fn := w |}
  | None => p
  end.
Definition entry_of (p : Precompile) : PrecompileTraceEntry := {| entry_id := precompile_id p; original := p |}.

Lemma install_lookup t l m0 :
  plain_table t → NoDup l → (∀ a, a ∈ l → m0.1 !! a = t !! a) →
  ∀ a, (foldl install_one m0 l).1 !! a = (if decide (a ∈ l) then wrap a <$> t !! a else m0.1 !! a)
     ∧ (foldl install_one m0 l).2 !! a = (if decide (a ∈ l) then match t !! a with Some p => Some (entry_of p) | None => m0.2 !! a end
                                          else m0.2 !! a).
Proof.
  intros Ht Hnd. revert m0. induction Hnd as [|x l Hx Hnd IH]; intros [t0 m0] Heq a; cbn [foldl fst snd].
  { by rewrite !decide_False by apply not_elem_of_nil. }
  assert (Hone : (∀ b, (install_one (t0, m0) x).1 !! b = if decide (b = x) then wrap x <$> t !! x else t0 !! b)
               ∧ (∀ b, (install_one (t0, m0) x).2 !! b =
                    if decide (b = x) then match t !! x with Some p => Some (entry_of p) | None => m0 !! x end else m0 !! b)).
  { unfold install_one. pose proof (Heq x (list_elem_of_here _ _)) as Hx0. cbn in Hx0. rewrite Hx0.
    destruct (t !! x) as [p|] eqn:E; cbn [fst snd].
    - destruct (Ht x p E) as [-> _]. unfold wrap. destruct (traced_wrapper_for_address x) as [w|]; cbn [fst snd extend foldl precompile_address fmap option_fmap option_map];
        split; intros b; destruct (decide (b = x)) as [->|];
        first [congruence|apply lookup_insert_eq|apply lookup_insert_ne; congruence].
    - split; intros b; destruct (decide (b = x)) as [->|]; cbn; congruence. }
  destruct Hone as [H1 H2]. destruct (IH (install_one (t0, m0) x)) with (a := a) as [I1 I2].
  { intros b Hb. rewrite H1, decide_False by (by intros ->). apply Heq. by right. }
  rewrite I1, I2, H1, H2. destruct (decide (a = x)) as [->|Hne].
  - rewrite !(decide_False (P := x ∈ l)), !(decide_True (P := x ∈ x :: l)) by (done || by left). done.
  - destruct (decide (a ∈ l)).
    + rewrite !(decide_True (P := a ∈ x :: l)) by by right. done.
    + rewrite !(decide_False (P := a ∈ x :: l)) by (rewrite not_elem_of_cons; done). done.
Qed.

(** The wrapped table has the same addresses, and the map has every original. *)
Lemma traced_lookup t a : plain_table t →
  precompiles (build_traced_precompiles t) !! a = wrap a <$> t !! a
  ∧ trace_map (build_traced_precompiles t) !! a = entry_of <$> t !! a.
Proof.
  intros Ht. unfold build_traced_precompiles. destruct (install_precompile_tracing t) as [t' m'] eqn:E. cbn [precompiles trace_map].
  destruct (install_lookup t (elements (dom t)) (t, ∅) Ht (NoDup_elements _)) with (a := a) as [H1 H2]; [done|].
  unfold install_precompile_tracing in E. rewrite E in H1, H2. cbn [fst snd] in H1, H2. rewrite H1, H2.
  destruct (decide (a ∈ elements (dom t))) as [|Hn]; [by destruct (t !! a)|].
  destruct (t !! a) as [p|] eqn:Ea; [|done]. exfalso. apply Hn, elem_of_elements, elem_of_dom. by exists p.
Qed.

(** ** The tables *)

Lemma extend_plain t l : plain_table t → Forall native l → plain_table (extend t l).
Proof.
  unfold extend. intros Ht Hl. revert t Ht. induction Hl as [|p l Hp _ IH]; intros t Ht; cbn [foldl]; [done|].
  apply IH. apply map_Forall_insert_2; [|done]. by split.
Qed.

Lemma extend_lookup t l a :
  extend t l !! a = match find (λ p, precompile_address p =? a) (rev l) with Some p => Some p | None => t !! a end.
Proof.
  unfold extend. revert t. induction l as [|p l IH] using rev_ind; intros t; [done|].
  rewrite foldl_app, rev_app_distr. cbn [foldl rev app find]. destruct (precompile_address p =? a) eqn:E.
  - apply Z.eqb_eq in E as <-. apply lookup_insert_eq.
  - rewrite <- IH. apply Z.eqb_neq in E. by apply lookup_insert_ne.
Qed.

(** What is known of the contracts of [revm]: they are filed under their own
    addresses, which are not those of the bridge and the clock. *)
Class RevmLaws `{V : RevmPrecompiles} : Prop := {
  istanbul_plain : plain_table revm_istanbul;
  istanbul_free a : 100 <= a <= 112 → revm_istanbul !! a = None;
  later_native : Forall native ([MODEXP_BERLIN; MODEXP_OSAKA; POINT_EVALUATION; P256VERIFY; P256VERIFY_OSAKA] ++ bls12_381_precompiles);
  later_free :
    Forall (λ p, ¬ 100 <= precompile_address p <= 112)
      ([MODEXP_BERLIN; MODEXP_OSAKA; POINT_EVALUATION; P256VERIFY; P256VERIFY_OSAKA] ++ bls12_381_precompiles);
}.

Lemma custom_native id a run : native (custom id a run).
Proof. by exists run. Qed.

Section Dispatch.
Context `{V : RevmPrecompiles} {L : RevmLaws} `{T : TmLightClient} `{B : BlsCurve} `{Sk : TmSecp256k1} `{C : CometApi}
  `{R : RlpApi} `{D : RlpDecode} `{E : EvmEcrecover}.
Implicit Types (spec : BscHardfork) (evm : BscEvm) (stack : TraceStack) (input : bytes).

(** The table without wrappers. *)
Definition table_for spec : Precompiles :=
  let ge f := fork_rank f <=? fork_rank spec in
  if ge Jenner then build_jenner_precompiles
  else if ge Pasteur then build_pasteur_precompiles
  else if ge Mendel then build_mendel_precompiles
  else if ge Pascal then build_pascal_precompiles
  else if ge Haber then build_haber_precompiles
  else if ge Cancun then build_cancun_precompiles
  else if ge Feynman then build_feynman_precompiles
  else if ge Hertz then build_hertz_precompiles
  else if ge Plato then build_plato_precompiles
  else if ge Luban then build_luban_precompiles
  else if ge Planck then build_planck_precompiles
  else if ge Moran then build_moran_precompiles
  else if ge Nano then build_nano_precompiles
  else build_istanbul_precompiles.

Lemma traced_for_spec spec : traced_precompiles_for_spec spec = build_traced_precompiles (table_for spec).
Proof. by destruct spec. Qed.

Lemma later_split :
  native MODEXP_BERLIN ∧ native MODEXP_OSAKA ∧ native POINT_EVALUATION ∧ native P256VERIFY ∧ native P256VERIFY_OSAKA
  ∧ Forall native bls12_381_precompiles.
Proof.
  pose proof later_native as Hn. rewrite !Forall_app, !Forall_cons in Hn. naive_solver.
Qed.

Ltac unfold_tables :=
  unfold build_jenner_precompiles, build_pasteur_precompiles, build_mendel_precompiles, build_pascal_precompiles,
    build_haber_precompiles, build_cancun_precompiles, build_feynman_precompiles, build_hertz_precompiles,
    build_plato_precompiles, build_luban_precompiles, build_planck_precompiles, build_moran_precompiles,
    build_nano_precompiles, build_istanbul_precompiles.

Lemma table_plain spec : plain_table (table_for spec).
Proof.
  destruct later_split as (H1 & H2 & H3 & H4 & H5 & H6). pose proof istanbul_plain as Hi.
  unfold table_for. repeat case_if; unfold_tables;
    repeat (apply extend_plain; [|first [assumption|repeat (apply Forall_cons; split; [first [assumption|apply custom_native]|])];
      try (apply Forall_nil; exact I)]); exact Hi.
Qed.

(** ** The version of each fork *)

Definition BridgeRun : Type := bytes → Z → Z → PrecompileResult.

(** Who answers at 0x64 to 0x69. *)
Definition bridge_version spec (a : Z) : option BridgeRun :=
  let ge f := fork_rank f <=? fork_rank spec in
  if a =? 100 then
    Some (if ge Pasteur then tendermint_header_validation_run_deprecated
          else if ge Nano && negb (ge Moran) then tendermint_header_validation_run_nano
          else tendermint_header_validation_run)
  else if a =? 101 then
    Some (if ge Pasteur then iavl_proof_validation_run_deprecated
          else if ge Plato then iavl_proof_validation_run_plato
          else if ge Planck then iavl_proof_validation_run_planck
          else if ge Moran then iavl_proof_validation_run_moran
          else if ge Nano then iavl_proof_validation_run_nano
          else iavl_proof_validation_run)
  else if a =? 102 then if ge Luban then Some bls_signature_validation_run else None
  else if a =? 103 then
    if ge Pasteur then Some cometbft_light_block_validation_run_pasteur
    else if ge Hertz then Some cometbft_light_block_validation_run
    else if ge Luban then Some cometbft_light_block_validation_run_before_hertz else None
  else if a =? 104 then
    if ge Jenner then Some double_sign_evidence_validation_run_jenner
    else if ge Feynman then Some double_sign_evidence_validation_run else None
  else if a =? 105 then if ge Feynman then Some tm_secp256k1_signature_recover_run else None
  else None.

(** The contract a table without wrappers has. *)
Definition run_of (p : Precompile) : BridgeRun := λ input gas r, execute_precompile 0 [] p input gas r.

Lemma find_free a l : 100 <= a <= 112 → Forall (λ p, ¬ 100 <= precompile_address p <= 112) l →
  find (λ p, precompile_address p =? a) l = None.
Proof.
  intros Ha. induction 1 as [|p l Hp _ IH]; [done|]. cbn. destruct (_ =? _) eqn:E'; [|done]. apply Z.eqb_eq in E'. exfalso. lia.
Qed.

Lemma free_lists a : 100 <= a <= 112 →
  (precompile_address MODEXP_BERLIN =? a) = false ∧ (precompile_address MODEXP_OSAKA =? a) = false
  ∧ (precompile_address POINT_EVALUATION =? a) = false ∧ (precompile_address P256VERIFY =? a) = false
  ∧ (precompile_address P256VERIFY_OSAKA =? a) = false
  ∧ find (λ p, precompile_address p =? a) (rev bls12_381_precompiles) = None ∧ revm_istanbul !! a = None.
Proof.
  intros Ha. pose proof later_free as Hn. rewrite !Forall_app, !Forall_cons in Hn.
  destruct Hn as [(H1 & H2 & H3 & H4 & H5 & _) H6].
  split_and!; [apply Z.eqb_neq; lia..| |by apply istanbul_free].
  apply find_free; [done|]. by apply Forall_rev.
Qed.

Lemma table_bridge spec a : 100 <= a <= 105 →
  match table_for spec !! a with Some p => Some (precompile_fn p) | None => None end = Native <$> bridge_version spec a.
Proof.
  intros Ha. destruct (free_lists a) as (H1 & H2 & H3 & H4 & H5 & H6 & H7); [lia|].
  assert (a = 100 ∨ a = 101 ∨ a = 102 ∨ a = 103 ∨ a = 104 ∨ a = 105) as Hc by lia.
  unfold table_for, bridge_version.
  destruct Hc as [->|[->|[->|[->|[->| ->]]]]]; destruct spec; cbn [fork_rank Z.leb Z.compare Pos.compare Pos.compare_cont CompOpp negb andb];
    unfold_tables; rewrite !extend_lookup, ?H6; cbn [rev app find]; rewrite ?H1, ?H2, ?H3, ?H4, ?H5, ?H7; reflexivity.
Qed.

(** ** One EVM *)

(** Every EVM there can be: a new one, one with another block set, and one whose
    block was edited in place, as the overrides of a simulated call do. *)
Inductive evm_made : BscEvm → Prop :=
| made_new spec block : evm_made (bsc_evm_new spec block)
| made_set_block block evm : evm_made evm → evm_made (set_block block evm)
| made_edit block evm :
    milli_remainder block = milli_remainder (evm_block evm) → evm_made evm →
    evm_made {| evm_spec := evm_spec evm; evm_block := block; evm_precompiles := evm_precompiles evm |}.

Lemma made_entries evm a : evm_made evm →
  evm_precompiles evm !! a =
    if (fork_rank Jenner <=? fork_rank (evm_spec evm)) && (a =? CLOCK_ADDRESS)
    then Some (ClockEntry (milli_remainder (evm_block evm)))
    else StaticEntry <$> (wrap a <$> table_for (evm_spec evm) !! a).
Proof.
  assert (Hreg : ∀ spec r m, register_clock spec r m !! a =
    if (fork_rank Jenner <=? fork_rank spec) && (a =? CLOCK_ADDRESS) then Some (ClockEntry r) else m !! a).
  { intros spec r m. unfold register_clock. destruct (_ <=? _); cbn [andb]; [|done].
    destruct (a =? CLOCK_ADDRESS) eqn:Ea; [apply Z.eqb_eq in Ea as ->; apply lookup_insert_eq|].
    apply Z.eqb_neq in Ea. apply lookup_insert_ne. congruence. }
  induction 1 as [spec block|block evm _ IH|block evm Hr _ IH]; cbn [evm_spec evm_block evm_precompiles].
  - unfold bsc_evm_new. cbn [evm_spec evm_block evm_precompiles]. rewrite Hreg. destruct (_ && _); [done|].
    rewrite lookup_fmap. unfold bsc_precompiles_new. rewrite traced_for_spec.
    f_equal. exact (proj1 (traced_lookup _ a (table_plain spec))).
  - unfold set_block. cbn [evm_spec evm_block evm_precompiles]. rewrite Hreg, IH. by destruct (_ && _).
  - by rewrite IH, Hr.
Qed.

(** ** Contexts *)

Definition context_of spec (ctx : PrecompileTraceContext) : Prop := ctx_spec ctx = spec ∧ ctx_trace_map ctx = trace_map_for_spec spec.

Lemma pushed_context spec n sys h to sel len stack :
  ∃ ctx, push_precompile_trace_context (from_parts n spec sys h to sel len) stack = ctx :: stack ∧ context_of spec ctx.
Proof. eexists. split; [reflexivity|]. unfold merge_with_parent. by destruct (head stack). Qed.

(** The run ends between the push and the only other pop: the transaction is
    rejected by the state, or its execution or the work after it fails. *)
Definition leaves_context evm (tx : BscTxParts) (steps : RevmSteps) : bool :=
  validate_env evm tx (env_ok steps) && (is_system_transaction tx || initial_gas_ok steps)
  && negb (pre_execution_ok steps && execution_ok steps && post_execution_ok steps).

(** What a run does to the stack: it stays, or one context is left behind. *)
Lemma handler_run_stack evm tx steps stack :
  env_number (inner (evm_block evm)) <= u64_max →
  ∃ ctx, context_of (evm_spec evm) ctx ∧
    ∃ seen, handler_run evm tx steps stack = Done (if leaves_context evm tx steps then ctx :: stack else stack, seen) ∧
      (seen = None ∨ seen = Some (ctx :: stack)).
Proof.
  intros Hn. destruct (pushed_context (evm_spec evm) (env_number (inner (evm_block evm))) (is_system_transaction tx) None (tx_to tx)
    (tx_selector tx) (tx_input_len tx) stack) as (ctx & Hpush & Hctx). exists ctx. split; [done|].
  unfold handler_run, leaves_context. destruct (validate_env _ _ _); cbn [negb andb]; [|eauto].
  unfold validate_initial_tx_gas. rewrite (proj2 (Z.leb_le _ _) Hn). cbn [rassert mbind exec_bind]. rewrite Hpush.
  destruct (is_system_transaction tx), (initial_gas_ok steps), (pre_execution_ok steps), (execution_ok steps), (post_execution_ok steps);
    cbn; eauto.
Qed.

Lemma handler_run_fits evm tx steps stack r :
  handler_run evm tx steps stack = Done r → r = (stack, None) ∨ env_number (inner (evm_block evm)) <= u64_max.
Proof.
  unfold handler_run. destruct (validate_env _ _ _); cbn [negb]; [|intros [= <-]; by left].
  intros Hr. right. apply bind_Done in Hr as ([res st1] & Hv & _). unfold validate_initial_tx_gas in Hv.
  destruct (Z.leb_spec (env_number (inner (evm_block evm))) u64_max); done.
Qed.

(** The two ways to run a transaction, from any stack; what its calls see. *)
Inductive executes evm : TraceStack → Prop :=
| executes_alone tx steps stack stack' seen :
    handler_run evm tx steps stack = Done (stack', Some seen) → executes evm seen
| executes_in_block spec n sys h tx steps stack stack' seen :
    executor_run evm spec n sys h tx steps stack = Done (stack', Some seen) → executes evm seen.

Lemma executes_context evm seen : executes evm seen → ∃ ctx, head seen = Some ctx ∧ context_of (evm_spec evm) ctx.
Proof.
  assert (Hh : ∀ tx steps stack stack', handler_run evm tx steps stack = Done (stack', Some seen) →
    ∃ ctx, head seen = Some ctx ∧ context_of (evm_spec evm) ctx).
  { intros tx steps stack stack' Hr. destruct (handler_run_fits _ _ _ _ _ Hr) as [?|Hn]; [done|].
    destruct (handler_run_stack evm tx steps stack Hn) as (ctx & Hc & seen' & Hr' & Hs). rewrite Hr in Hr'.
    injection Hr' as _ <-. destruct Hs as [?|[= ->]]; [done|]. by exists ctx. }
  destruct 1 as [tx steps stack stack' seen Hr|spec n sys h tx steps stack stack' seen Hr]; [by eapply Hh|].
  unfold executor_run in Hr. apply bind_Done in Hr as ([st1 seen1] & Hr & He). injection He as _ ->. by eapply Hh.
Qed.

Lemma execute_native stack p input gas r d : native p → execute_precompile d stack p input gas r = run_of p input gas r.
Proof. intros [run Hp]. unfold run_of. destruct d; cbn [execute_precompile]; by rewrite Hp. Qed.

Lemma execute_wrapped stack ctx spec a p input gas r :
  head stack = Some ctx → context_of spec ctx → table_for spec !! a = Some p →
  execute_precompile 1 stack (wrap a p) input gas r = run_of p input gas r.
Proof.
  intros Hs [_ Hm] Hp. destruct (table_plain spec a p Hp) as [Ha Hn]. unfold wrap, traced_wrapper_for_address.
  case_bool_decide; [|by apply execute_native]. cbn [execute_precompile precompile_fn].
  unfold traced_precompile_call, current_precompile_trace_context. rewrite Hs, Hm. unfold trace_map_for_spec. rewrite traced_for_spec.
  destruct (traced_lookup _ a (table_plain spec)) as [_ ->]. rewrite Hp. by apply (execute_native stack p input gas r 0).
Qed.

Lemma evm_call_spec evm seen a input gas r :
  evm_made evm → executes evm seen →
  evm_call evm seen a input gas r =
    if bool_decide (100 <= a <= 105) then (λ run : BridgeRun, run input gas r) <$> bridge_version (evm_spec evm) a
    else if (fork_rank Jenner <=? fork_rank (evm_spec evm)) && (a =? CLOCK_ADDRESS)
    then Some (run_milli_timestamp (env_milli_timestamp (evm_block evm))
                 (saturating_to_u64 (env_timestamp (inner (evm_block evm)))) input gas r)
    else (λ p, run_of p input gas r) <$> table_for (evm_spec evm) !! a.
Proof.
  intros Hm He. destruct (executes_context _ _ He) as (ctx & Hs & Hc). unfold evm_call. rewrite (made_entries _ a Hm).
  assert (Hcall : ∀ p, table_for (evm_spec evm) !! a = Some p → execute_precompile 1 seen (wrap a p) input gas r = run_of p input gas r)
    by (intros; by eapply execute_wrapped).
  case_bool_decide as Ha.
  - rewrite (proj2 (Z.eqb_neq a CLOCK_ADDRESS)), andb_false_r by (unfold CLOCK_ADDRESS; lia).
    pose proof (table_bridge (evm_spec evm) a Ha) as Hb. destruct (table_for (evm_spec evm) !! a) as [p|] eqn:Et; cbn [fmap option_fmap option_map].
    + rewrite Hcall by done. destruct (bridge_version (evm_spec evm) a) as [run|]; [|done]. injection Hb as Hb.
      cbn. unfold run_of. cbn [execute_precompile]. by rewrite Hb.
    + by destruct (bridge_version (evm_spec evm) a).
  - destruct (_ && _); [done|]. destruct (table_for (evm_spec evm) !! a) as [p|] eqn:Et; [|done].
    cbn [fmap option_fmap option_map]. by rewrite Hcall.
Qed.

(** C13: A call reaches the contract of its fork.  In every EVM there can be, and
    while any transaction executes in it, alone or in a block, from whatever stack
    of contexts earlier transactions left behind: a call to 0x64 to 0x69 is
    answered by the version of the EVM's fork ([bridge_version]), or by nobody
    before its fork; a call to 0x70 is answered from Jenner on by the clock with
    the milliseconds of the current block; and a call to any other address by the
    contract of the fork's table, which the wrappers do not change. *)
Theorem precompile_dispatch evm seen a input gas r :
  evm_made evm → executes evm seen →
  evm_call evm seen a input gas r =
    if bool_decide (100 <= a <= 105) then (λ run : BridgeRun, run input gas r) <$> bridge_version (evm_spec evm) a
    else if (fork_rank Jenner <=? fork_rank (evm_spec evm)) && (a =? CLOCK_ADDRESS)
    then Some (run_milli_timestamp (env_milli_timestamp (evm_block evm))
                 (saturating_to_u64 (env_timestamp (inner (evm_block evm)))) input gas r)
    else (λ p, run_of p input gas r) <$> table_for (evm_spec evm) !! a.
Proof. apply evm_call_spec. Qed.

(** ** Gas *)

(** A call charges its price, if that is within the limit, or halts; it leaves the
    reservoir alone and is no fatal error. *)
Definition within_gas (price gas r : Z) (res : PrecompileResult) : Prop :=
  match res with
  | Done (Returned g _ r') | Done (Reverted g _ r') => g = price ∧ 0 <= g <= gas ∧ r' = r
  | Done (Halted _ r') => r' = r
  | Fail _ => False
  | Panics => True
  end.
Definition metered (price : bytes → Z) (run : BridgeRun) : Prop :=
  ∀ input gas r, within_gas (price input) gas r (run input gas r).

Lemma within_gas_bind {A} price gas r (m : exec PrecompileError A) (f : A → PrecompileResult) :
  (∀ e, m ≠ Fail e) → (∀ a, within_gas price gas r (f a)) → within_gas price gas r (m ≫= f).
Proof. intros Hm Hf. destruct m; [apply Hf|by destruct (Hm e)|done]. Qed.

Lemma slice_no_fail {X A} (l : list A) a b (e : X) : slice l a b ≠ Fail e.
Proof. unfold slice. by case_if. Qed.
Lemma index_no_fail {X A} (l : list A) i (e : X) : index l i ≠ Fail e.
Proof. unfold index. by repeat case_match. Qed.
Lemma rassert_no_fail {X} b (e : X) : rassert b ≠ Fail e.
Proof. by destruct b. Qed.

(** Branches and steps of a contract, once the price is paid. *)
Ltac meter :=
  repeat first
    [ progress cbn [within_gas]
    | match goal with
      | |- _ = _ ∧ _ <= _ <= _ ∧ _ => split_and!; [reflexivity|lia|lia|reflexivity]
      | |- ?x = ?x => reflexivity
      | |- True => exact I
      | |- within_gas _ _ _ (if ?b then _ else _) => destruct b eqn:?
      | |- within_gas _ _ _ (match ?o with _ => _ end) => destruct o eqn:?
      end
    | apply within_gas_bind; [first [apply slice_no_fail|apply index_no_fail|apply rassert_no_fail]|intros ?] ].

Lemma seal_hash_no_fail h id (e : PrecompileError) : seal_hash h id ≠ Fail e.
Proof. unfold seal_hash. intros H. destruct (slice _ _ _) eqn:Es in H; [done|by eapply slice_no_fail|done]. Qed.

Definition per_byte_price (base per_byte : Z) (input : bytes) : Z := Z.min (base + Z.min (zlen input * per_byte) u64_max) u64_max.

Lemma per_byte_price_nonneg base per_byte input : 0 <= base → 0 <= per_byte → 0 <= per_byte_price base per_byte input.
Proof. intros. unfold per_byte_price, u64_max. pose proof (zlen_nonneg input). nia. Qed.

Lemma double_sign_metered per_byte :
  0 <= per_byte → metered (per_byte_price 10000 per_byte) (λ input gas r, double_sign_evidence_validation_run_inner input gas r per_byte).
Proof.
  intros Hp input gas r. pose proof (per_byte_price_nonneg 10000 per_byte input ltac:(lia) Hp) as Hc.
  unfold double_sign_evidence_validation_run_inner. change (double_sign_cost per_byte input) with (per_byte_price 10000 per_byte input).
  cbv zeta. meter. apply within_gas_bind; [apply seal_hash_no_fail|intros ?]. apply within_gas_bind; [apply seal_hash_no_fail|intros ?]. meter.
Qed.

Lemma light_block_metered hertz u per_byte :
  0 <= per_byte →
  metered (per_byte_price 3000 per_byte) (λ input gas r, cometbft_light_block_validation_run_inner input gas r hertz u per_byte).
Proof.
  intros Hp input gas r. pose proof (per_byte_price_nonneg 3000 per_byte input ltac:(lia) Hp) as Hc.
  unfold cometbft_light_block_validation_run_inner. change (light_block_cost per_byte input) with (per_byte_price 3000 per_byte input).
  cbv zeta. meter.
Qed.

(** 3500 for each key, if the input is a hash, a signature and keys. *)
Definition bls_price input : Z :=
  let keys := zlen input - 128 in
  if (0 <? keys) && (keys mod 48 =? 0) then 1000 + 3500 * (keys / 48) else 1000.

Lemma bls_metered : metered bls_price bls_signature_validation_run.
Proof.
  intros input gas r. unfold bls_signature_validation_run.
  assert (calc_gas_cost input = bls_price input) as ->.
  { unfold calc_gas_cost, bls_price, BLS_MSG_HASH_LENGTH, BLS_SIGNATURE_LENGTH, BLS_SINGLE_PUBKEY_LENGTH,
      BLS_SIGNATURE_VALIDATION_BASE, BLS_SIGNATURE_VALIDATION_PER_KER, is_multiple_of. cbv zeta.
    change (32 + 96) with 128. change (48 =? 0) with false.
    destruct (zlen input <=? 128) eqn:Ea, (0 <? zlen input - 128) eqn:Eb; [lia|done| |lia]. cbn [orb andb].
    by destruct (_ mod 48 =? 0). }
  assert (0 <= bls_price input).
  { unfold bls_price. cbv zeta. destruct (_ && _) eqn:Eo; [|lia]. apply andb_true_iff in Eo as [Eo%Z.ltb_lt _].
    pose proof (Z.div_pos (zlen input - 128) 48 ltac:(lia) ltac:(lia)). lia. }
  cbv zeta. meter.
Qed.

Lemma tm_metered : metered (λ _, 3000) tm_secp256k1_signature_recover_run.
Proof. intros input gas r. unfold tm_secp256k1_signature_recover_run, TM_SECP256K1_SIGNATURE_RECOVER_BASE. cbv zeta. meter. Qed.

Lemma header_metered : metered (λ _, 3000) tendermint_header_validation_run.
Proof. intros input gas r. unfold tendermint_header_validation_run, TENDERMINT_HEADER_VALIDATION_BASE. meter. Qed.

Lemma iavl_metered m k p : metered (λ _, 3000) (λ input gas r, iavl_proof_validation_run_inner input gas r m k p).
Proof. intros input gas r. unfold iavl_proof_validation_run_inner, IAVL_PROOF_VALIDATION_BASE. meter. Qed.

(** What the contracts at 0x64 to 0x69 and the clock charge. *)
Definition bridge_price spec (a : Z) (input : bytes) : Z :=
  if a =? 102 then bls_price input
  else if a =? 103 then per_byte_price 3000 (if fork_rank Pasteur <=? fork_rank spec then 16 else 0) input
  else if a =? 104 then per_byte_price 10000 (if fork_rank Jenner <=? fork_rank spec then 16 else 0) input
  else if a =? CLOCK_ADDRESS then 20 else 3000.

Lemma bridge_metered spec a run : bridge_version spec a = Some run → metered (bridge_price spec a) run.
Proof.
  unfold bridge_version, bridge_price. intros Hv.
  destruct (a =? 100) eqn:E0; [apply Z.eqb_eq in E0 as ->|]; [|destruct (a =? 101) eqn:E1; [apply Z.eqb_eq in E1 as ->|]];
    [..|destruct (a =? 105) eqn:E5; [apply Z.eqb_eq in E5 as ->|]]; repeat case_match; simplify_eq;
    first [apply bls_metered|apply tm_metered|apply header_metered|apply iavl_metered
          |apply light_block_metered; unfold COMETBFT_LIGHT_BLOCK_VALIDATE_PER_BYTE_GAS; lia
          |apply double_sign_metered; unfold DOUBLE_SIGN_EVIDENCE_VALIDATE_PER_BYTE_GAS; lia
          |intros input gas r; reflexivity].
Qed.

Lemma clock_metered ms secs : metered (λ _, 20) (run_milli_timestamp ms secs).
Proof. intros input gas r. unfold run_milli_timestamp, MILLI_TIMESTAMP_GAS. cbv zeta. meter. Qed.

Lemma table_clock_free spec : table_for spec !! CLOCK_ADDRESS = None.
Proof.
  destruct (free_lists CLOCK_ADDRESS) as (H1 & H2 & H3 & H4 & H5 & H6 & H7); [unfold CLOCK_ADDRESS; lia|].
  unfold table_for. repeat case_if; unfold_tables; rewrite !extend_lookup, ?H6; cbn [rev app find];
    rewrite ?H1, ?H2, ?H3, ?H4, ?H5, ?H7; reflexivity.
Qed.

(** C17: What a call of the bridge's contracts or of the clock costs.  In every
    fork, for every input and every gas limit, a call that returns or reverts is
    charged exactly the price of its fork, which was between nothing and the limit
    however long the input is: 3000 for the first light client, its proofs and
    recovered keys, 1000 and 3500 for each key of an aggregate signature, 3000 and
    from Pasteur 16 for each byte of a light block, 10000 and from Jenner 16 for
    each byte of evidence, 20 for the clock, with sums that stop at the largest
    64-bit number; the reservoir is left as it was, and no call ends the block with
    a fatal error. *)
Theorem bridge_within_gas evm seen a input gas r res :
  evm_made evm → executes evm seen → 100 <= a <= 105 ∨ a = CLOCK_ADDRESS →
  evm_call evm seen a input gas r = Some res →
  within_gas (bridge_price (evm_spec evm) a input) gas r res.
Proof.
  intros Hm He Ha Hc. rewrite evm_call_spec in Hc by done. case_bool_decide as Hb.
  - destruct (bridge_version (evm_spec evm) a) as [run|] eqn:Ev; [|done]. injection Hc as <-. by apply bridge_metered.
  - destruct Ha as [| ->]; [done|]. rewrite Z.eqb_refl, andb_true_r in Hc. destruct (_ <=? _).
    + injection Hc as <-. apply clock_metered.
    + by rewrite table_clock_free in Hc.
Qed.

Definition attempt_evm (a : Attempt) : BscEvm := match a with Alone evm _ _ | InBlock evm _ _ _ _ _ _ => evm end.
Definition attempt_leaves (a : Attempt) : bool :=
  match a with Alone evm tx steps | InBlock evm _ _ _ _ tx steps => leaves_context evm tx steps end.
(** The fork of the context that stays: the handler's own, or the executor's. *)
Definition attempt_fork (a : Attempt) : BscHardfork :=
  match a with Alone evm _ _ => evm_spec evm | InBlock _ spec _ _ _ _ _ => spec end.

Lemma attempt_stack a stack :
  env_number (inner (evm_block (attempt_evm a))) <= u64_max →
  ∃ ctx, context_of (attempt_fork a) ctx ∧
    ∃ seen, attempt_run a stack = Done (if attempt_leaves a then ctx :: stack else stack, seen).
Proof.
  destruct a as [evm tx steps|evm spec n sys h tx steps]; cbn [attempt_evm attempt_leaves attempt_fork attempt_run]; intros Hn.
  - destruct (handler_run_stack evm tx steps stack Hn) as (ctx & Hc & seen & Hr & _). eauto.
  - destruct (pushed_context spec n sys h (tx_to tx) (tx_selector tx) (tx_input_len tx) stack) as (ctx & Hpush & Hctx).
    exists ctx. split; [done|]. unfold executor_run. rewrite Hpush.
    destruct (handler_run_stack evm tx steps (ctx :: stack) Hn) as (ctx' & _ & seen & -> & _). exists seen. cbn [mbind exec_bind].
    by destruct (leaves_context evm tx steps).
Qed.

End Dispatch.
