(* ===== verification/PrecompileTablesDemo.v ===== *)
(** * PrecompileTablesDemo: calls in a node that went through two forks

    Small contracts of Ethereum, an EVM at Pasteur on a thread where a transaction
    of an earlier fork left its context behind, and the claims of
    [PrecompileTablesProps] on them. *)

From stdpp Require Import base tactics numbers option list gmap strings.
From Stdlib Require Import ZArith Lia Bool.
From S2P Require Import Prelude.
From S2P Require Import Hardforks.
From S2P Require Import Header.
From S2P Require Import AttestationDemo.
From S2P Require Import EvmEnv.
From S2P Require Import Precompiles.
From S2P Require Import DoubleSign.
From S2P Require Import DoubleSignDemo.
From S2P Require Import CometBft.
From S2P Require Import CometBftProps.
From S2P Require Import CometBftDemo.
From S2P Require Import PrecompileTables.
From S2P Require Import PrecompileTablesProps.

Module TableNet.
Import FlatRlp DoubleSignNet.
#[local] Existing Instance CometNet.api.

Definition echo (id : string) (a price : Z) : Precompile :=
  custom id a (λ input gas r, if gas <? price then Done (Halted HaltOutOfGas r) else Done (Returned price input r)).

#[local] Instance revm : RevmPrecompiles := {|
  revm_istanbul := extend ∅ ((λ a, echo "ETH" a 15) <$> [1; 2; 3; 4; 5; 6; 7; 8; 9]);
  MODEXP_BERLIN := echo "MODEXP" 5 200;
  MODEXP_OSAKA := echo "MODEXP" 5 500;
  POINT_EVALUATION := echo "KZG" 10 50000;
  P256VERIFY := echo "P256VERIFY" 256 3450;
  P256VERIFY_OSAKA := echo "P256VERIFY" 256 6900;
  bls12_381_precompiles := (λ a, echo "BLS12" a 375) <$> [11; 12; 13; 14; 15; 16; 17];
|}.

#[local] Instance revm_laws : RevmLaws.
Proof.
  split.
  - apply extend_plain; [apply map_Forall_empty|]. repeat (apply Forall_cons; split; [apply custom_native|]). by apply Forall_nil.
  - intros a Ha. cbn [revm_istanbul revm]. rewrite extend_lookup. cbn [fmap list_fmap rev app find echo custom precompile_address].
    repeat (destruct (_ =? a) eqn:Ea; [apply Z.eqb_eq in Ea; exfalso; lia|clear Ea]). apply lookup_empty.
  - cbn. repeat (apply Forall_cons; split; [apply custom_native|]). by apply Forall_nil.
  - cbn. repeat (apply Forall_cons; split; [cbn; lia|]). by apply Forall_nil.
Qed.

#[local] Instance tm : TmLightClient := {| header_verifier _ := inl "rejected"; iavl_execute _ _ _ _ := inr [1] |}.
#[local] Instance bls : BlsCurve :=
  {| signature_to_point _ := true; key_validate _ := true; curve_verify _ _ _ := true; curve_aggregate_verify _ _ _ := true |}.
#[local] Instance secp : TmSecp256k1 :=
  {| tm_key_ok _ := true; tm_sig_ok _ := true; tm_verify _ _ _ := true; tm_raw_key_ok _ := true; tm_account_id := take 20 |}.

Definition block (n secs ms : Z) : BscBlockEnv :=
  bsc_block_env_new
    {| env_number := n; env_beneficiary := 30; env_timestamp := secs; env_difficulty := 2; env_prevrandao := Some 0;
       env_gas_limit := 30000000; basefee := 0; blob_excess_gas_and_price := None; slot_num := 0 |} ms.

Definition evm : BscEvm := set_block (block 78 1760000001 250) (bsc_evm_new Pasteur (block 77 1760000000 500)).
Definition tx : BscTxParts := {| is_system_transaction := false; tx_to := Some (be_encode 20 103); tx_selector := None; tx_input_len := 321 |}.

Definition all_ok : RevmSteps :=
  {| env_ok := true; initial_gas_ok := true; pre_execution_ok := true; execution_ok := true; post_execution_ok := true |}.
Definition bad_nonce : RevmSteps :=
  {| env_ok := true; initial_gas_ok := true; pre_execution_ok := false; execution_ok := true; post_execution_ok := true |}.
Definition lost_database : RevmSteps :=
  {| env_ok := true; initial_gas_ok := true; pre_execution_ok := true; execution_ok := false; post_execution_ok := true |}.

(** Left by a transaction of a fork that charges less. *)
Definition leftover : TraceStack := [from_parts 12 Hertz false None None None 0].
Definition seen : TraceStack :=
  push_precompile_trace_context (from_parts 78 Pasteur false None (tx_to tx) None 321)
    (push_precompile_trace_context (from_parts 78 Pasteur false (Some [7]) (tx_to tx) None 321) leftover).

Lemma evm_is_made : evm_made evm.
Proof. apply made_set_block, made_new. Qed.
Lemma evm_executes : executes evm seen.
Proof. by apply (executes_in_block evm Pasteur 78 false (Some [7]) tx all_ok leftover leftover seen). Qed.

Definition update : bytes := call_input CometNet.pad CometNet.bytes10 [15].

Lemma precompile_dispatch_witness :
  evm_call evm seen 103 update 10000 0 = Some (cometbft_light_block_validation_run_pasteur update 10000 0)
  ∧ evm_call evm seen 5 [9] 600 0 = Some (Done (Returned 500 [9] 0))
  ∧ evm_call evm leftover 103 update 10000 0 = Some (cometbft_light_block_validation_run update 10000 0).
Proof.
  split; [exact (precompile_dispatch evm seen 103 update 10000 0 evm_is_made evm_executes)|].
  split; [exact (precompile_dispatch evm seen 5 [9] 600 0 evm_is_made evm_executes)|by vm_compute].
Defined.

Lemma bridge_within_gas_witness :
  within_gas 8136 8136 0 (cometbft_light_block_validation_run_pasteur update 8136 0)
  ∧ evm_call evm seen 103 update 8135 0 = Some (Done (Halted HaltOutOfGas 0)).
Proof.
  split; [|by vm_compute].
  apply (bridge_within_gas evm seen 103 update 8136 0 _ evm_is_made evm_executes); [by left|by vm_compute].
Defined.

End TableNet.
