(* ===== verification/Cas20Sigs.v ===== *)
(** * Cas20Sigs: selectors, topics and derived words of the CAS20 precompiles

    The literals of [src/evm/precompiles/cas20/sigs.rs], as big-endian numbers:
    a selector or error has 4 bytes, every other word 32.  The table of metric
    labels is left out. *)

From stdpp Require Import base numbers.
From Stdlib Require Import ZArith.
From S2P Require Import Prelude.

Definition SEL_BURN_ROLE : Z := 0xb930908f.
Definition SEL_DEFAULT_ADMIN_ROLE : Z := 0xa217fddf.
Definition SEL_DOMAIN_SEPARATOR : Z := 0x3644e515.
Definition SEL_MAX_COMPOSITE_CHILDREN : Z := 0x54309870.
Definition SEL_MAX_UI_MULTIPLIER : Z := 0x785c0cf0.
Definition SEL_METADATA_ROLE : Z := 0x38841782.
Definition SEL_MINT_RECEIVER_SCOPE : Z := 0x6e5b013d.
Definition SEL_MINT_ROLE : Z := 0xe9a9c850.
Definition SEL_MIN_COMPOSITE_CHILDREN : Z := 0xb3ae29f7.
Definition SEL_OPERATOR_ROLE : Z := 0xf5b541a6.
Definition SEL_PAUSE_ROLE : Z := 0x389ed267.
Definition SEL_SEIZE_EXEMPT_SCOPE : Z := 0xfeb346ec.
Definition SEL_SEIZE_RECEIVER_SCOPE : Z := 0xb31da27f.
Definition SEL_SEIZE_ROLE : Z := 0x3c7e9ba5.
Definition SEL_TRANSFER_EXECUTOR_SCOPE : Z := 0x724e9c53.
Definition SEL_TRANSFER_RECEIVER_SCOPE : Z := 0x210f521b.
Definition SEL_TRANSFER_SENDER_SCOPE : Z := 0xd116fc21.
Definition SEL_UNPAUSE_ROLE : Z := 0x309756fb.
Definition SEL_WAD_PRECISION : Z := 0x664808a8.
Definition SEL_ACTIVATE : Z := 0x59db6e85.
Definition SEL_ACTIVATION_ADMIN : Z := 0xf851a440.
Definition SEL_ALLOWANCE : Z := 0xdd62ed3e.
Definition SEL_ANNOUNCE : Z := 0x595135dd.
Definition SEL_APPROVE : Z := 0x095ea7b3.
Definition SEL_BALANCE_OF : Z := 0x70a08231.
Definition SEL_BALANCE_OF_UI : Z := 0x437a9958.
Definition SEL_BATCH_MINT : Z := 0x68573107.
Definition SEL_BURN : Z := 0x42966c68.
Definition SEL_BURN_WITH_MEMO : Z := 0x38f23b0b.
Definition SEL_CANCEL_UI_MULTIPLIER : Z := 0x2c97a0f0.
Definition SEL_CHECK_ACTIVATED : Z := 0xde5bfd9b.
Definition SEL_COMPOSITE_CHILD_IDS : Z := 0x7c40df74.
Definition SEL_CONTRACT_URI : Z := 0xe8a3d485.
Definition SEL_CREATE_CAS20 : Z := 0xa6e2e6f3.
Definition SEL_CREATE_COMPOSITE : Z := 0x6fdd1491.
Definition SEL_CREATE_POLICY : Z := 0xca5d55f6.
Definition SEL_CREATE_POLICY_WITH_ACCOUNTS : Z := 0xa2d3044f.
Definition SEL_CURRENCY : Z := 0xe5a6b10f.
Definition SEL_DEACTIVATE : Z := 0x22eee84c.
Definition SEL_DECIMALS : Z := 0x313ce567.
Definition SEL_EFFECTIVE_AT : Z := 0x97a4064f.
Definition SEL_EIP712_DOMAIN : Z := 0x84b0196e.
Definition SEL_EXTRA_METADATA : Z := 0x4ddf9da0.
Definition SEL_FINALIZE_UPDATE_ADMIN : Z := 0x33031a9c.
Definition SEL_FROM_UI_AMOUNT : Z := 0x65cd9b3c.
Definition SEL_GET_CAS20_ADDRESS : Z := 0x8d34473b.
Definition SEL_GET_ROLE_ADMIN : Z := 0x248a9ca3.
Definition SEL_GRANT_ROLE : Z := 0x2f2ff15d.
Definition SEL_HAS_ROLE : Z := 0x91d14854.
Definition SEL_IS_ACTIVATED : Z := 0xba87af80.
Definition SEL_IS_ANNOUNCEMENT_ID_USED : Z := 0xc0da474e.
Definition SEL_IS_AUTHORIZED : Z := 0x55a1179e.
Definition SEL_IS_CAS20 : Z := 0x95bc0b5a.
Definition SEL_IS_CAS20_INITIALIZED : Z := 0xdd90c132.
Definition SEL_IS_PAUSED : Z := 0xbc61e733.
Definition SEL_MINT : Z := 0x40c10f19.
Definition SEL_MINT_WITH_MEMO : Z := 0xe44f0b12.
Definition SEL_MULTIPLIER : Z := 0x1b3ed722.
Definition SEL_NAME : Z := 0x06fdde03.
Definition SEL_NEW_UI_MULTIPLIER : Z := 0xdc767007.
Definition SEL_NONCES : Z := 0x7ecebe00.
Definition SEL_PAUSE : Z := 0xa290249c.
Definition SEL_PAUSED_FEATURES : Z := 0xde9997e3.
Definition SEL_PENDING_POLICY_ADMIN : Z := 0x017548b7.
Definition SEL_PERMIT : Z := 0xd505accf.
Definition SEL_POLICY_ADMIN : Z := 0x09dd0a47.
Definition SEL_POLICY_EXISTS : Z := 0x330f5637.
Definition SEL_POLICY_ID : Z := 0xdb3de624.
Definition SEL_RENOUNCE_ADMIN : Z := 0xefdb7fa3.
Definition SEL_RENOUNCE_LAST_ADMIN : Z := 0x6f79e3d7.
Definition SEL_RENOUNCE_ROLE : Z := 0x36568abe.
Definition SEL_REVOKE_ROLE : Z := 0xd547741f.
Definition SEL_SCALED_BALANCE_OF : Z := 0x1da24f3e.
Definition SEL_SEIZE_WITH_MEMO : Z := 0xf916d81b.
Definition SEL_SET_ROLE_ADMIN : Z := 0x1e4e0091.
Definition SEL_STAGE_UPDATE_ADMIN : Z := 0x1d7ae695.
Definition SEL_SUPPLY_CAP : Z := 0x8f770ad0.
Definition SEL_SUPPORTS_INTERFACE : Z := 0x01ffc9a7.
Definition SEL_SYMBOL : Z := 0x95d89b41.
Definition SEL_TO_RAW_BALANCE : Z := 0x0ca06c44.
Definition SEL_TO_SCALED_BALANCE : Z := 0x04f04c99.
Definition SEL_TO_UI_AMOUNT : Z := 0x3248d4ff.
Definition SEL_TOTAL_SUPPLY : Z := 0x18160ddd.
Definition SEL_TOTAL_SUPPLY_UI : Z := 0x9bea6429.
Definition SEL_TRANSFER : Z := 0xa9059cbb.
Definition SEL_TRANSFER_FROM : Z := 0x23b872dd.
Definition SEL_TRANSFER_FROM_WITH_MEMO : Z := 0x929c2539.
Definition SEL_TRANSFER_FROM_WITH_MEMO_FORMAT : Z := 0xa3cbabd7.
Definition SEL_TRANSFER_WITH_MEMO : Z := 0x95777d59.
Definition SEL_TRANSFER_WITH_MEMO_FORMAT : Z := 0xaaa7dcce.
Definition SEL_UI_MULTIPLIER : Z := 0xa60bf13d.
Definition SEL_UNPAUSE : Z := 0x8b93dd63.
Definition SEL_UPDATE_ALLOWLIST : Z := 0x3388fb5b.
Definition SEL_UPDATE_BLOCKLIST : Z := 0x5c4e51b8.
Definition SEL_UPDATE_COMPOSITE : Z := 0xbfe142c0.
Definition SEL_UPDATE_CONTRACT_URI : Z := 0x7e5b1e24.
Definition SEL_UPDATE_EXTRA_METADATA : Z := 0xb2851ef5.
Definition SEL_UPDATE_MULTIPLIER : Z := 0x5ffe6146.
Definition SEL_UPDATE_NAME : Z := 0x84da92a7.
Definition SEL_UPDATE_PARAM : Z := 0xac431751.
Definition SEL_UPDATE_POLICY : Z := 0xadf9c4ea.
Definition SEL_UPDATE_SUPPLY_CAP : Z := 0xe5a97f07.
Definition SEL_UPDATE_SYMBOL : Z := 0x537f5312.
Definition SEL_UPDATE_UI_MULTIPLIER : Z := 0x628e600f.
Definition SEL_VARIANT_OF : Z := 0x82cfdd52.
Definition ERR_AC_BAD_CONFIRMATION : Z := 0x6697b232.
Definition ERR_AC_UNAUTHORIZED : Z := 0xe2517d3f.
Definition ERR_ACCOUNT_NOT_SEIZABLE : Z := 0x91dbbc8d.
Definition ERR_ALREADY_ACTIVATED : Z := 0x866b0041.
Definition ERR_ANNOUNCEMENT_ID_ALREADY_USED : Z := 0xd10b3c9e.
Definition ERR_ANNOUNCEMENT_IN_PROGRESS : Z := 0x5c5f0829.
Definition ERR_BATCH_SIZE_TOO_LARGE : Z := 0x083e2f67.
Definition ERR_CHILD_POLICIES_OUTSIDE_OF_RANGE : Z := 0x697ec868.
Definition ERR_CONTRACT_PAUSED : Z := 0xfd8c4245.
Definition ERR_DELEGATE_CALL_NOT_ALLOWED : Z := 0x0d89438e.
Definition ERR_EFFECTIVE_AT_IN_PAST : Z := 0x14119cf6.
Definition ERR_EFFECTIVE_AT_TOO_FAR : Z := 0x1ce214fa.
Definition ERR_EMPTY_BATCH : Z := 0xc2e5347d.
Definition ERR_EMPTY_FEATURE_SET : Z := 0x4861ff45.
Definition ERR_EXPIRED_SIGNATURE : Z := 0xbd2a913c.
Definition ERR_FEATURE_NOT_ACTIVATED : Z := 0xb9b2a425.
Definition ERR_INCOMPATIBLE_POLICY_TYPE : Z := 0xf1011ef5.
Definition ERR_INIT_CALL_FAILED : Z := 0x4eae0860.
Definition ERR_INSUFFICIENT_ALLOWANCE : Z := 0x192b9e4e.
Definition ERR_INSUFFICIENT_BALANCE : Z := 0xdb42144d.
Definition ERR_INTERNAL_CALL_FAILED : Z := 0xb288a127.
Definition ERR_INTERNAL_CALL_MALFORMED : Z := 0x4e2f143e.
Definition ERR_INVALID_APPROVER : Z := 0x8bc146c4.
Definition ERR_INVALID_CHILD_POLICY : Z := 0x46508ef6.
Definition ERR_INVALID_CURRENCY : Z := 0x997c1de8.
Definition ERR_INVALID_DECIMALS : Z := 0xca950391.
Definition ERR_INVALID_FORMAT_ID : Z := 0xab95b961.
Definition ERR_INVALID_METADATA_KEY : Z := 0x86ea3abb.
Definition ERR_INVALID_MULTIPLIER : Z := 0x6f12f3dc.
Definition ERR_INVALID_RECEIVER : Z := 0x9cfea583.
Definition ERR_INVALID_SENDER : Z := 0x4c14f64c.
Definition ERR_INVALID_SIGNER : Z := 0x7ba5ffb5.
Definition ERR_INVALID_SPENDER : Z := 0x4e15efda.
Definition ERR_INVALID_SUPPLY_CAP : Z := 0x0a3780ce.
Definition ERR_INVALID_VALUE : Z := 0x0a5a6041.
Definition ERR_INVALID_VARIANT : Z := 0xf10e8e43.
Definition ERR_LAST_ADMIN_CANNOT_RENOUNCE : Z := 0x361513e7.
Definition ERR_LENGTH_MISMATCH : Z := 0xab8b67c6.
Definition ERR_MISSING_REQUIRED_FIELD : Z := 0x4a43ae87.
Definition ERR_NO_PENDING_ADMIN : Z := 0xb4539afa.
Definition ERR_NON_PAYABLE : Z := 0x6fb1b0e9.
Definition ERR_NOT_SOLE_ADMIN : Z := 0x2a98e73b.
Definition ERR_PANIC : Z := 0x4e487b71.
Definition ERR_POLICY_FORBIDS : Z := 0xa43fec12.
Definition ERR_POLICY_NOT_FOUND : Z := 0x720caa4f.
Definition ERR_POLICY_NOT_FOUND_ID : Z := 0xcccad523.
Definition ERR_STATIC_CALL_NOT_ALLOWED : Z := 0xbeaba5b7.
Definition ERR_SUPPLY_CAP_EXCEEDED : Z := 0x4b344b11.
Definition ERR_TOKEN_ALREADY_EXISTS : Z := 0x15ef3a57.
Definition ERR_UI_MUL_MISSING : Z := 0xa7d6a5ca.
Definition ERR_UI_MUL_EXISTS : Z := 0x4481a68e.
Definition ERR_UNAUTHORIZED : Z := 0x82b42900.
Definition ERR_UNAUTHORIZED_ADDR : Z := 0x8e4a23d6.
Definition ERR_UNKNOWN_PARAM : Z := 0x97b88354.
Definition ERR_UNSUPPORTED_SCOPE : Z := 0xcdd98a4a.
Definition ERR_UNSUPPORTED_VERSION : Z := 0xc0d8b4e0.
Definition ERR_ZERO_ADDRESS : Z := 0xd92e233d.
Definition TOPIC_TRANSFER : Z := 0xddf252ad1be2c89b69c2b068fc378daa952ba7f163c4a11628f55a4df523b3ef.
Definition TOPIC_APPROVAL : Z := 0x8c5be1e5ebec7d5bd14f71427d1e84f3dd0314c0f7b2291e5b200ac8c7c3b925.
Definition TOPIC_ROLE_GRANTED : Z := 0x2f8788117e7eff1d82e926ec794901d17c78024a50270940304540a733656f0d.
Definition TOPIC_ROLE_REVOKED : Z := 0xf6391f5c32d9c69d2a47ea670b442974b53935d1edc7fd64eb21e047a839171b.
Definition TOPIC_ROLE_ADMIN_CHANGED : Z := 0xbd79b86ffe0ab8e8776151514217cd7cacd52c909f66475c3af44e129f0b00ff.
Definition TOPIC_SEIZED : Z := 0xa9aec5d8b86e2fa2fd6ac3af62f2622e3dfdab1967d4cbbb56a5df7d74cb887c.
Definition TOPIC_LAST_ADMIN_RENOUNCED : Z := 0xe8d3a9872e7ca325571ff1e4c51ddd69090a0345240cc605ccde365ec867cc67.
Definition TOPIC_POLICY_UPDATED : Z := 0x8b4790f7ff717fc8f60f07ae099e47ef318dc04b37ae98056b50a22b79056626.
Definition TOPIC_PAUSED : Z := 0x3e849708b13f20dd0b87a503523c305e7604cd7e8f855e7a5ebe21397dfd7146.
Definition TOPIC_UNPAUSED : Z := 0x086a815e5123cf1af5cb7a82f8b052bf96c622204c98b2f4f9782bf77f753c57.
Definition TOPIC_SUPPLY_CAP_UPDATED : Z := 0x6d14f44808ce024f263432bc38d019a9951fbe674e9898b54844dbc8dc09c23a.
Definition TOPIC_NAME_UPDATED : Z := 0x74321da206c1b9fa34367f7ece59ca49371dcd13820b9a5c3767ae1ecceed51a.
Definition TOPIC_SYMBOL_UPDATED : Z := 0x64e8b5c6dcea43dd79766bb3b8af7c45968d12b68c960cf2da23856f34d598d4.
Definition TOPIC_CONTRACT_URI_UPDATED : Z := 0xa5d4097edda6d87cb9329af83fb3712ef77eeb13738ffe43cc35a4ce305ad962.
Definition TOPIC_EIP712_DOMAIN_CHANGED : Z := 0x0a6387c9ea3628b88a633bb4f3b151770f70085117a15f9bf3787cda53f13d31.
Definition TOPIC_MEMO : Z := 0x6989f5818dcfd11f8cd53b27c94cec33dae1589735f03e639cba54553a1825e8.
Definition TOPIC_MEMO_FORMAT_DECLARED : Z := 0x18d9dee6045d4b076f44c903257054dec63c9c2ba01b56b909fad8a35e6d17be.
Definition TOPIC_MULTIPLIER_UPDATED : Z := 0x4dbe4840d7465bd162f67814cea0b519567a2e0e578bcde61e7f4ced361e5a3d.
Definition TOPIC_ANNOUNCEMENT : Z := 0xccebf8218a62875909564adef86a6f4df81503cb617221e793357d62f8e813f7.
Definition TOPIC_END_ANNOUNCEMENT : Z := 0x96d64dafe2c790596430196b982ad1da3221cb3b0f4e6e2df77f2e4f71a90037.
Definition TOPIC_EXTRA_METADATA_UPDATED : Z := 0xd7bb345be29e78d635203d40fe0567e7ef19d5cd5cc5fcd25f768b8063e82aa1.
Definition TOPIC_UI_MULTIPLIER_UPDATED : Z := 0x2205df4534432b2f60654a3fdb48737ffdaf3e9edb1a498bd985bc026b15b055.
Definition TOPIC_UI_MULTIPLIER_UPDATE_CANCELLED : Z := 0x883856335ba5f60c18b9817c4505d3c7d3f6223dcf39516b30c508c46a5e1cad.
Definition TOPIC_POLICY_CREATED : Z := 0x718d87917f0c4cfd1263707ef0e77c656ed8d8bfaca06152bdb0b8094142ec27.
Definition TOPIC_POLICY_ADMIN_STAGED : Z := 0xdbf3b34a4c956c56ca05cd4b8f9293a4347ad61994445a4b89817d4a19561136.
Definition TOPIC_POLICY_ADMIN_UPDATED : Z := 0x98925cfb1bc09c5b43dd0dd56d3d95aa04fb3300927580cc588c3f5dd58c15e1.
Definition TOPIC_COMPOSITE_POLICY_UPDATED : Z := 0x4ff6adaab31b0df87aa7b8b7320c52b8b3b5eede3bf28a6baaaa8b8b7e1d6363.
Definition TOPIC_ALLOWLIST_UPDATED : Z := 0x18c46532f90187ba11e436e21da087b684801d7f0787f2043f26f079c91e9ef0.
Definition TOPIC_BLOCKLIST_UPDATED : Z := 0x2ff63c102b1b9fd7f5d39f83039c5d6aaf50a414a4f2def2704e41be2628f1e3.
Definition TOPIC_CAS20_CREATED : Z := 0xc0c726edbec4bf665160de37131bd2309460ebd49941b2e3b6704a74c7900365.
Definition TOPIC_FEATURE_ACTIVATED : Z := 0x8c7a0ecdbb8d96e867e43ec1aef80027976ee493c18bef399fa799ed19752451.
Definition TOPIC_FEATURE_DEACTIVATED : Z := 0x15bf65a782c3258c63268ba9d7aed710cf9f9315d3687d9a4632ccdad7926c84.
Definition TOPIC_ADMIN_CHANGED : Z := 0x4eb572e99196bed0270fbd5b17a948e19c3f50a97838cb0d2a75a823ff8e6c50.
Definition TOPIC_PARAM_CHANGE : Z := 0xf1ce9b2cbf50eeb05769a29e2543fd350cab46894a7dd9978a12d534bb20e633.
Definition ROLE_DEFAULT_ADMIN : Z := 0.
Definition ROLE_MINT : Z := 0x154c00819833dac601ee5ddded6fda79d9d8b506b911b3dbd54cdb95fe6c3686.
Definition ROLE_BURN : Z := 0xe97b137254058bd94f28d2f3eb79e2d34074ffb488d042e3bc958e0a57d2fa22.
Definition ROLE_SEIZE : Z := 0x3469b8b0d89e9604f8510ed143f74a8336d22955d4f83e23bf53d9414e27f432.
Definition ROLE_PAUSE : Z := 0x139c2898040ef16910dc9f44dc697df79363da767d8bc92f2e310312b816e46d.
Definition ROLE_UNPAUSE : Z := 0x265b220c5a8891efdd9e1b1b7fa72f257bd5169f8d87e319cf3dad6ff52b94ae.
Definition ROLE_METADATA : Z := 0x6bd6b5318a46e5fff572d5e4258a20774aab40cc35ac7680654b9081fcc82f80.
Definition ROLE_OPERATOR : Z := 0x97667070c54ef182b0f5858b034beac1b6f3089aa2d3188bb1e8929f4fa9b929.
Definition SCOPE_TRANSFER_SENDER : Z := 0xb81736c875ab819dd97f59f2a6542cfb731ad52b4ae15a6f24df2fb02b0327f5.
Definition SCOPE_TRANSFER_RECEIVER : Z := 0x8a4b3fa2d8b921852bc0089c6ef0958aa6961897be36fd731330fe2cd23f8363.
Definition SCOPE_TRANSFER_EXECUTOR : Z := 0x10be5173aff2a44e748bd9acd8b19fe34689581398a9db7ba2fb671e786ff7d8.
Definition SCOPE_MINT_RECEIVER : Z := 0xa0d5ae037e66a09119acf080a1d807abb9b6d03b6b9130eb19f7c1e6bdb8ffc8.
Definition SCOPE_SEIZE_EXEMPT : Z := 0xedb5da348cfb67af08746d3afd1be81034b50d5c8576f31aff688f39dfd540ed.
Definition SCOPE_SEIZE_RECEIVER : Z := 0xbf15b19caf5c77422c038bc25f26b8b815c3a14f6d04c6616076b81bcfe07b3d.
Definition FEATURE_ASSET : Z := 0xaad5cc684994ec8b24b61a18b11c81e15b4e634dc316384aecaa401ee0744e83.
Definition FEATURE_STABLECOIN : Z := 0x397796e401b7a4d873181dea7977d9e27050faf36d281f9dc858416a405d2b75.
Definition FEATURE_POLICY_REGISTRY : Z := 0xcc84b168b7eedbce699f3234b0a635f610f4aa826d72cc6a19f5b9a264557edf.
Definition DOMAIN_TYPEHASH : Z := 0x8b73c3c69bb8fe3d512ecc4cf759cc79239f7b179b0ffacaa9a75d522b39400f.
Definition PERMIT_TYPEHASH : Z := 0x6e71edae12b1b97f4d1f60370fef10105fa2faae0126114a169c64845d6126c9.
Definition ROOT_CORE : Z := 0x562aafeb82006b6968827b59606253289ba8bc22c7d434d71765d5b3a068af00.
Definition ROOT_ASSET : Z := 0xff1f981cfcfd1795c7002397f3fa439537651c7544b1d579931b62466060ae00.
Definition ROOT_STABLECOIN : Z := 0xd88f59ff5f54ab199d582c5de9fd2a11ddf31b4380c891c97fe80c42868a1600.
Definition ROOT_POLICY : Z := 0x2e7731329603a38e578303ba37c039549397ad42853922c474dfc3cb33d7b000.
Definition ROOT_ACTIVATION : Z := 0xa8970030726ea4c1e5fe64bf3ba11683da0b59f818265a7369e5570e9fc0bd00.

(** The hash of the code a token account carries. *)
Definition MARKER_CODE_HASH : Z := 0x309b8896ee4c1ff7ec1966155373dee42663b6b40c3fedc70ba501684848d2a3.
