(* ===== verification/Cas20Frame.v ===== *)
(** * Cas20Frame: the frame a CAS20 call runs in

    Models [src/evm/precompiles/cas20/ctx.rs], the accessors of [storage.rs]
    that meter, and the exit of [errors.rs].

    A CAS20 handler is a program [prog] over the operations of its context: it
    charges gas, reads and writes slots, emits logs.  [handle] is what the
    context does with each of them, gas accounting and error flags included,
    and [exec_prog] runs a program in a frame.  [ideal] runs the same program
    on the state alone, with no meter.  What the code promises about gas, that
    it decides whether a call completes and nothing else, is then a theorem
    about every program ([exec_refines]).

    The journal of the EVM and its gas table are other crates' code
    ([Cas20Host], [StorageGas]); call statistics are left out. *)

From stdpp Require Import base tactics numbers option list gmap strings.
From Stdlib Require Import ZArith Lia Bool.
From S2P Require Import Prelude.
From S2P Require Import Cas20Sigs.

Definition U256_MAX : Z := 2 ^ 256 - 1.
Definition wrap256 (z : Z) : Z := z mod 2 ^ 256.

(** ** Gas constants *)

Definition WARM_STORAGE_READ_COST : Z := 100.
Definition COLD_ACCOUNT_ACCESS_COST : Z := 2600.
Definition COPY_GAS : Z := 3.
Definition MEMORY_GAS : Z := 3.
Definition KECCAK256_GAS : Z := 30.
Definition KECCAK256_WORD_GAS : Z := 6.
Definition LOG_GAS : Z := 375.
Definition LOG_TOPIC_GAS : Z := 375.
Definition LOG_DATA_GAS : Z := 8.
Definition CREATE_DATA_GAS : Z := 200.
Definition CREATE_GAS : Z := 32000.
Definition ECRECOVER_GAS : Z := 3000.
Definition CALLDATA_WORD_GAS : Z := COPY_GAS + MEMORY_GAS.

(** ** What other crates provide *)

Class Keccak := { keccak256 : bytes → Z; KECCAK256_EMPTY : Z }.

Record SStoreResult := { original_value : Z; present_value : Z; new_value : Z }.

(** The gas table of the Jenner fork. *)
Class StorageGas := {
  cold_storage_cost : Z;
  warm_storage_read_cost : Z;
  call_stipend : Z;
  sstore_static_gas : Z;
  sstore_dynamic_gas : SStoreResult → bool → Z;
  sstore_refund : SStoreResult → Z;
}.

Record Log := { log_address : Z; log_topics : list Z; log_data : bytes }.

(** The state a call sees: storage slots, code hashes, logs, block fields. *)
Record World := {
  w_storage : gmap (Z * Z) Z;
  w_code : gmap Z Z;
  w_logs : list Log;
  w_time : Z;
  w_chain : Z;
}.

Definition w_get (w : World) (at_ slot : Z) : Z := default 0 (w_storage w !! (at_, slot)).
Definition w_set (at_ slot v : Z) (w : World) : World :=
  {| w_storage := <[(at_, slot) := v]> (w_storage w); w_code := w_code w; w_logs := w_logs w;
     w_time := w_time w; w_chain := w_chain w |}.
Definition w_log (l : Log) (w : World) : World :=
  {| w_storage := w_storage w; w_code := w_code w; w_logs := w_logs w ++ [l];
     w_time := w_time w; w_chain := w_chain w |}.
Definition w_set_code (a hash : Z) (w : World) : World :=
  {| w_storage := w_storage w; w_code := <[a := hash]> (w_code w); w_logs := w_logs w;
     w_time := w_time w; w_chain := w_chain w |}.
(** A missing account answers the empty-code hash. *)
Definition w_code_hash `{Keccak} (w : World) (a : Z) : Z := default KECCAK256_EMPTY (w_code w !! a).

(** The journal ([Cas20State]): a load answers whether the slot was cold, and
    every operation may fail with a database error. *)
Class Cas20Host := {
  Host : Type;
  host_sload : Host → Z → Z → (string + Z * bool) * Host;
  host_sstore : Host → Z → Z → Z → (string + SStoreResult * bool) * Host;
  host_code_hash : Host → Z → (string + Z * bool) * Host;
  host_set_code : Host → Z → bytes → (string + unit) * Host;
  host_log : Host → Log → Host;
  host_timestamp : Host → Z;
  host_chain_id : Host → Z;
}.

(** [view] is the state a journal represents; an operation that does not fail
    reads and writes it. *)
Class Cas20HostLaws (K : Keccak) (H : Cas20Host) := {
  view : Host → World;
  sload_view h a k v cold h' :
    host_sload h a k = (inr (v, cold), h') → v = w_get (view h) a k ∧ view h' = view h;
  sload_fails h a k e h' : host_sload h a k = (inl e, h') → view h' = view h;
  sstore_view h a k v res cold h' :
    host_sstore h a k v = (inr (res, cold), h') → view h' = w_set a k v (view h);
  sstore_fails h a k v e h' : host_sstore h a k v = (inl e, h') → view h' = view h;
  code_hash_view h a v cold h' :
    host_code_hash h a = (inr (v, cold), h') → v = w_code_hash (view h) a ∧ view h' = view h;
  code_hash_fails h a e h' : host_code_hash h a = (inl e, h') → view h' = view h;
  set_code_view h a code u h' :
    host_set_code h a code = (inr u, h') → view h' = w_set_code a (keccak256 code) (view h);
  set_code_fails h a code e h' : host_set_code h a code = (inl e, h') → view h' = view h;
  log_view h l : view (host_log h l) = w_log l (view h);
  timestamp_view h : host_timestamp h = w_time (view h);
  chain_id_view h : host_chain_id h = w_chain (view h);
}.

(** ** Errors and the exit *)

Inductive Cas20Err :=
| Revert (data : bytes)
| OutOfGas
| WriteProtection
| DelegateCall.

Inductive Outcome :=
| OReturn (data : bytes)
| ORevert (data : bytes)
| OOutOfGas
| OFatal (msg : string).

(** ** The frame *)

Record Meter := { limit : Z; used : Z; refund : Z }.

Definition meter_left (m : Meter) : Z := sub64 (limit m) (used m).
Definition exhaust (m : Meter) : Meter := {| limit := limit m; used := limit m; refund := refund m |}.
(** [None]: the charge cannot be covered. *)
Definition meter_charge (m : Meter) (cost : Z) : option Meter :=
  if meter_left m <? cost then None
  else Some {| limit := limit m; used := add64 (used m) cost; refund := refund m |}.

Section Frame.
Context `{K : Keccak} `{G : StorageGas} `{H : Cas20Host}.

Record Frame := {
  state : Host;
  gas : Meter;
  out_of_gas : bool;
  write_protected : bool;
  fatal : option string;
}.

(** A context is a frame and a flag of its own; its other fields never change
    and are arguments of the handlers. *)
Record Ctx := { frame : Frame; admin_renounced : bool }.

Definition with_frame (f : Frame → Frame) (c : Ctx) : Ctx :=
  {| frame := f (frame c); admin_renounced := admin_renounced c |}.
Definition set_state (h : Host) (f : Frame) : Frame :=
  {| state := h; gas := gas f; out_of_gas := out_of_gas f; write_protected := write_protected f; fatal := fatal f |}.
Definition set_gas (m : Meter) (f : Frame) : Frame :=
  {| state := state f; gas := m; out_of_gas := out_of_gas f; write_protected := write_protected f; fatal := fatal f |}.

(** [Frame::fail]: the first error is kept. *)
Definition frame_fail (e : string) (f : Frame) : Frame :=
  {| state := state f; gas := gas f; out_of_gas := true; write_protected := write_protected f;
     fatal := match fatal f with Some m => Some m | None => Some e end |}.

Definition mark_out_of_gas : Ctx → Ctx := with_frame (λ f,
  {| state := state f; gas := exhaust (gas f); out_of_gas := true; write_protected := write_protected f; fatal := fatal f |}).
Definition mark_write_protected : Ctx → Ctx := with_frame (λ f,
  {| state := state f; gas := gas f; out_of_gas := out_of_gas f; write_protected := true; fatal := fatal f |}).

Definition gas_left (c : Ctx) : Z := meter_left (gas (frame c)).
Definition sstore_sentry (c : Ctx) : bool := call_stipend <? gas_left c.

Definition charge_gas (cost : Z) (c : Ctx) : bool * Ctx :=
  if out_of_gas (frame c) then (false, c)
  else match meter_charge (gas (frame c)) cost with
       | None => (false, mark_out_of_gas c)
       | Some m => (true, with_frame (set_gas m) c)
       end.

(** The cost of hashing [size] bytes, and of a log. *)
Definition keccak_cost (size : Z) : Z := add64 KECCAK256_GAS (mul64 KECCAK256_WORD_GAS (div_ceil size 32)).
Definition log_cost (topics data_len : Z) : Z :=
  add64 (add64 LOG_GAS (mul64 LOG_TOPIC_GAS topics)) (mul64 LOG_DATA_GAS data_len).

(** [Store::read] *)
Definition read_slot (at_ slot : Z) (c : Ctx) : option Z * Ctx :=
  if out_of_gas (frame c) then (None, c)
  else match host_sload (state (frame c)) at_ slot with
       | (inl e, h) => (None, with_frame (λ f, frame_fail e (set_state h f)) c)
       | (inr (v, is_cold), h) =>
           let '(paid, c) := charge_gas (wrap64 (if (is_cold : bool) then cold_storage_cost else warm_storage_read_cost))
                               (with_frame (set_state h) c) in
           (if paid then Some v else None, c)
       end.

(** [Store::set_word] *)
Definition write_slot (read_only : bool) (at_ slot v : Z) (c : Ctx) : bool * Ctx :=
  if read_only then (false, mark_write_protected c)
  else if negb (sstore_sentry c) then (false, mark_out_of_gas c)
  else if out_of_gas (frame c) then (false, c)
  else match host_sstore (state (frame c)) at_ slot v with
       | (inl e, h) => (false, with_frame (λ f, frame_fail e (set_state h f)) c)
       | (inr (load, is_cold), h) =>
           let cost := wrap64 (sstore_static_gas + sstore_dynamic_gas load is_cold) in
           let g := gas (frame c) in
           charge_gas cost (with_frame (λ f, set_gas {| limit := limit g; used := used g;
                                                        refund := to_signed 64 (refund g + sstore_refund load) |}
                                               (set_state h f)) c)
       end.

(** [Ctx::add_log] *)
Definition add_log (read_only : bool) (from : Z) (topics : list Z) (data : bytes) (c : Ctx) : bool * Ctx :=
  if read_only then (false, mark_write_protected c)
  else match charge_gas (log_cost (zlen topics) (zlen data)) c with
       | (false, c) => (false, c)
       | (true, c) =>
           (true, with_frame (λ f, set_state (host_log (state f)
                    {| log_address := from; log_topics := topics; log_data := data |}) f) c)
       end.

Definition had_no_code (code_hash : Z) : bool := (code_hash =? 0) || (code_hash =? KECCAK256_EMPTY).

(** [Ctx::charge_account_access] *)
Definition charge_account_access (addr : Z) (c : Ctx) : option Z * Ctx :=
  if out_of_gas (frame c) then (None, c)
  else match host_code_hash (state (frame c)) addr with
       | (inl e, h) => (None, with_frame (λ f, frame_fail e (set_state h f)) c)
       | (inr (hash, is_cold), h) =>
           let '(paid, c) := charge_gas (if (is_cold : bool) then COLD_ACCOUNT_ACCESS_COST else WARM_STORAGE_READ_COST)
                               (with_frame (set_state h) c) in
           (if paid then Some hash else None, c)
       end.

(** [Ctx::charge_code_write] *)
Definition charge_code_write (read_only : bool) (addr : Z) (code : bytes) (c : Ctx) : bool * Ctx :=
  if read_only then (false, mark_write_protected c)
  else match host_code_hash (state (frame c)) addr with
       | (inl e, h) => (false, with_frame (λ f, frame_fail e (set_state h f)) c)
       | (inr (hash, _), h) =>
           let cost := mul64 CREATE_DATA_GAS (zlen code) in
           let cost := if had_no_code hash then add64 cost CREATE_GAS else cost in
           match charge_gas cost (with_frame (set_state h) c) with
           | (false, c) => (false, c)
           | (true, c) => charge_gas (keccak_cost (zlen code)) c
           end
       end.

(** [charge_code_write] and, once it is paid, [Frame::set_code]. *)
Definition write_code (read_only : bool) (addr : Z) (code : bytes) (c : Ctx) : bool * Ctx :=
  match charge_code_write read_only addr code c with
  | (false, c) => (false, c)
  | (true, c) =>
      (true, with_frame (λ f, match host_set_code (state f) addr code with
                              | (inl e, h) => frame_fail e (set_state h f)
                              | (inr _, h) => set_state h f
                              end) c)
  end.

(** ** Programs *)

Inductive op :=
| ChargeGas (cost : Z)
| ReadSlot (at_ slot : Z)
| WriteSlot (at_ slot v : Z)
| AddLog (from : Z) (topics : list Z) (data : bytes)
| IsOutOfGas
| AccountAccess (addr : Z)
| WriteCode (addr : Z) (code : bytes)
| BlockTime
| ChainId
| AdminRenounced
| SetAdminRenounced (b : bool).

Definition resp (o : op) : Type :=
  match o with
  | ChargeGas _ | WriteSlot _ _ _ | AddLog _ _ _ | IsOutOfGas | WriteCode _ _ | AdminRenounced => bool
  | ReadSlot _ _ | AccountAccess _ => option Z
  | BlockTime | ChainId => Z
  | SetAdminRenounced _ => unit
  end.

(** What the context does. *)
Definition handle (read_only : bool) (o : op) (c : Ctx) : resp o * Ctx :=
  match o return resp o * Ctx with
  | ChargeGas cost => charge_gas (wrap64 cost) c
  | ReadSlot a k => read_slot a k c
  | WriteSlot a k v => write_slot read_only a k v c
  | AddLog a ts d => add_log read_only a ts d c
  | IsOutOfGas => (out_of_gas (frame c), c)
  | AccountAccess a => charge_account_access a c
  | WriteCode a code => write_code read_only a code c
  | BlockTime => (host_timestamp (state (frame c)), c)
  | ChainId => (host_chain_id (state (frame c)), c)
  | AdminRenounced => (admin_renounced c, c)
  | SetAdminRenounced b => (tt, {| frame := frame c; admin_renounced := b |})
  end.
End Frame.

Inductive prog (A : Type) : Type :=
| Ret (a : A)
| Throw (e : Cas20Err)                 (* an early [return Err(e)] *)
| Crash                                (* a panic *)
| Do (o : op) (k : resp o → prog A).
Arguments Ret {_} _.
Arguments Throw {_} _.
Arguments Crash {_}.
Arguments Do {_} _ _.

Fixpoint prog_bind {A B} (f : A → prog B) (p : prog A) : prog B :=
  match p with
  | Ret a => f a
  | Throw e => Throw e
  | Crash => Crash
  | Do o k => Do o (λ r, prog_bind f (k r))
  end.
#[export] Instance prog_mbind : MBind prog := @prog_bind.
#[export] Instance prog_mret : MRet prog := @Ret.

Definition do_ (o : op) : prog (resp o) := Do o Ret.

(** The result of a call as a value, for the callers that look at it. *)
Fixpoint attempt {A} (p : prog A) : prog (Cas20Err + A) :=
  match p with
  | Ret a => Ret (inr a)
  | Throw e => Ret (inl e)
  | Crash => Crash
  | Do o k => Do o (λ r, attempt (k r))
  end.

(** [if !b { return Err(e) }] *)
Definition require (b : bool) (e : Cas20Err) : prog unit := if b then Ret tt else Throw e.

(** A computation of the prelude as a program. *)
Definition lift {A} (m : exec Cas20Err A) : prog A :=
  match m with Done a => Ret a | Fail e => Throw e | Panics => Crash end.

(** [for a in l { f(a)? }] *)
Fixpoint for_each {A} (f : A → prog unit) (l : list A) : prog unit :=
  match l with
  | [] => Ret tt
  | a :: l => _ ← f a; for_each f l
  end.

Section Run.
Context `{K : Keccak} `{G : StorageGas} `{H : Cas20Host}.

Fixpoint exec_prog {A} (read_only : bool) (p : prog A) (c : Ctx) : exec Cas20Err A * Ctx :=
  match p with
  | Ret a => (Done a, c)
  | Throw e => (Fail e, c)
  | Crash => (Panics, c)
  | Do o k => let '(r, c) := handle read_only o c in exec_prog read_only (k r) c
  end.

(** [Frame::new] *)
Definition new_ctx (h : Host) (gas_limit : Z) : Ctx :=
  {| frame := {| state := h; gas := {| limit := gas_limit; used := 0; refund := 0 |};
                 out_of_gas := false; write_protected := false; fatal := None |};
     admin_renounced := false |}.

Definition err4 (sel : Z) : bytes := be_encode 4 sel.

(** [complete]: database failure, write protection, out of gas, then the result. *)
Definition complete (f : Frame) (result : exec Cas20Err bytes) : exec unit (Outcome * Z * Z) :=
  match fatal f with
  | Some msg => Done (OFatal msg, limit (gas f), 0)
  | None =>
      let result := if write_protected f then Fail WriteProtection
                    else if out_of_gas f then Fail OutOfGas else result in
      match result with
      | Done data => Done (OReturn data, used (gas f), refund (gas f))
      | Fail (Revert data) => Done (ORevert data, used (gas f), 0)
      | Fail DelegateCall => Done (ORevert (err4 ERR_DELEGATE_CALL_NOT_ALLOWED), used (gas f), 0)
      | Fail WriteProtection => Done (ORevert (err4 ERR_STATIC_CALL_NOT_ALLOWED), used (gas f), 0)
      | Fail OutOfGas => Done (OOutOfGas, limit (gas f), 0)
      | Panics => Panics
      end
  end.
End Run.

(** ** The same program on the state alone *)

Record IState := { world : World; renounced : bool }.
Definition on_world (f : World → World) (s : IState) : IState := {| world := f (world s); renounced := renounced s |}.

Section Ideal.
Context `{K : Keccak}.

Definition ideal_op (o : op) (s : IState) : resp o * IState :=
  match o return resp o * IState with
  | ChargeGas _ => (true, s)
  | ReadSlot a k => (Some (w_get (world s) a k), s)
  | WriteSlot a k v => (true, on_world (w_set a k v) s)
  | AddLog a ts d => (true, on_world (w_log {| log_address := a; log_topics := ts; log_data := d |}) s)
  | IsOutOfGas => (false, s)
  | AccountAccess a => (Some (w_code_hash (world s) a), s)
  | WriteCode a code => (true, on_world (w_set_code a (keccak256 code)) s)
  | BlockTime => (w_time (world s), s)
  | ChainId => (w_chain (world s), s)
  | AdminRenounced => (renounced s, s)
  | SetAdminRenounced b => (tt, {| world := world s; renounced := b |})
  end.

Fixpoint ideal {A} (p : prog A) (s : IState) : exec Cas20Err A * IState :=
  match p with
  | Ret a => (Done a, s)
  | Throw e => (Fail e, s)
  | Crash => (Panics, s)
  | Do o k => let '(r, s) := ideal_op o s in ideal (k r) s
  end.
End Ideal.
