(* ===== verification/Cas20Meta.v ===== *)
(** * Cas20Meta: what holds of every CAS20 program

    Proved once, by induction on programs, for whatever handlers are written:
    an error flag is never lost, a frame that completes has computed what the
    program computes on the state alone, a read-only frame changes nothing, gas
    stays within its limit, and a program touches only the accounts it names. *)

From stdpp Require Import base tactics numbers option list gmap strings.
From Stdlib Require Import ZArith Lia Bool.
From S2P Require Import Prelude.
From S2P Require Import Cas20Sigs.
From S2P Require Import Cas20Frame.

Section Meta.
Context `{K : Keccak} `{G : StorageGas} `{H : Cas20Host}.
Implicit Types (c : Ctx) (o : op) (ro : bool).

(** ** Sequencing *)

Lemma exec_bind {A B} ro (p : prog A) (f : A → prog B) c :
  exec_prog ro (p ≫= f) c =
  match exec_prog ro p c with
  | (Done a, c') => exec_prog ro (f a) c'
  | (Fail e, c') => (Fail e, c')
  | (Panics, c') => (Panics, c')
  end.
Proof.
  revert c. induction p as [a|e| |o k IH]; intros c; try done. cbn.
  destruct (handle ro o c) as [r c']. apply IH.
Qed.

Lemma ideal_bind {A B} (p : prog A) (f : A → prog B) s :
  ideal (p ≫= f) s =
  match ideal p s with
  | (Done a, s') => ideal (f a) s'
  | (Fail e, s') => (Fail e, s')
  | (Panics, s') => (Panics, s')
  end.
Proof.
  revert s. induction p as [a|e| |o k IH]; intros s; try done. cbn.
  destruct (ideal_op o s) as [r s']. apply IH.
Qed.

Lemma ideal_attempt {A} (p : prog A) s :
  ideal (attempt p) s =
  match ideal p s with
  | (Done a, s') => (Done (inr a), s')
  | (Fail e, s') => (Done (inl e), s')
  | (Panics, s') => (Panics, s')
  end.
Proof.
  revert s. induction p as [a|e| |o k IH]; intros s; try done. cbn.
  destruct (ideal_op o s) as [r s']. apply IH.
Qed.

(** ** Stopped frames *)

(** A flag is up: the frame ends in [Fatal], [OutOfGas] or write protection. *)
Definition stopped c : Prop :=
  out_of_gas (frame c) = true ∨ write_protected (frame c) = true ∨ is_Some (fatal (frame c)).

Lemma charge_gas_cases cost c :
  (charge_gas cost c = (false, c) ∧ out_of_gas (frame c) = true)
  ∨ charge_gas cost c = (false, mark_out_of_gas c)
  ∨ ∃ m, charge_gas cost c = (true, with_frame (set_gas m) c) ∧ meter_charge (gas (frame c)) cost = Some m
         ∧ out_of_gas (frame c) = false.
Proof.
  unfold charge_gas. destruct (out_of_gas (frame c)) eqn:E; [by left|].
  destruct (meter_charge _ _) as [m|]; [|by right; left]. right. right. by exists m.
Qed.

(** Case analysis on everything a context operation does. *)
Ltac step_charge :=
  match goal with
  | |- context [charge_gas ?cost ?c] =>
      let E := fresh "E" in
      destruct (charge_gas_cases cost c) as [[E ?]|[E|(? & E & ? & ?)]]; rewrite E in *; clear E
  | H : context [charge_gas ?cost ?c] |- _ =>
      let E := fresh "E" in
      destruct (charge_gas_cases cost c) as [[E ?]|[E|(? & E & ? & ?)]]; rewrite E in *; clear E
  end.

Lemma handle_sticky ro o c : stopped c → stopped (handle ro o c).2.
Proof.
  unfold stopped. destruct o; cbn;
    unfold read_slot, write_slot, add_log, charge_account_access, write_code, charge_code_write;
    repeat (first [progress cbn | case_match | step_charge | destruct ro]); simplify_eq; cbn; naive_solver.
Qed.

Lemma exec_sticky {A} ro (p : prog A) c : stopped c → stopped (exec_prog ro p c).2.
Proof.
  revert c. induction p as [a|e| |o k IH]; intros c Hs; try done. cbn.
  pose proof (handle_sticky ro o c Hs). destruct (handle ro o c). by apply IH.
Qed.

(** ** Refinement *)

Context `{HL : !Cas20HostLaws K H}.

(** The state a frame represents. *)
Definition ist c : IState := {| world := view (state (frame c)); renounced := admin_renounced c |}.

(** What the laws of the journal say about the calls in sight. *)
Ltac use_laws :=
  repeat match goal with
  | E : host_sload _ _ _ = (inr _, _) |- _ => apply sload_view in E as [? ?]
  | E : host_sload _ _ _ = (inl _, _) |- _ => apply sload_fails in E
  | E : host_sstore _ _ _ _ = (inr _, _) |- _ => apply sstore_view in E
  | E : host_sstore _ _ _ _ = (inl _, _) |- _ => apply sstore_fails in E
  | E : host_code_hash _ _ = (inr _, _) |- _ => apply code_hash_view in E as [? ?]
  | E : host_code_hash _ _ = (inl _, _) |- _ => apply code_hash_fails in E
  | E : host_set_code _ _ _ = (inr _, _) |- _ => apply set_code_view in E
  | E : host_set_code _ _ _ = (inl _, _) |- _ => apply set_code_fails in E
  end.

Ltac open_handle :=
  unfold read_slot, write_slot, add_log, charge_account_access, write_code, charge_code_write;
  repeat (first [progress cbn | case_match | step_charge]); simplify_eq; use_laws.

Lemma handle_refines ro o c :
  stopped (handle ro o c).2
  ∨ handle ro o c = ((ideal_op o (ist c)).1, (handle ro o c).2) ∧ ist (handle ro o c).2 = (ideal_op o (ist c)).2.
Proof.
  unfold stopped, ist. destruct o; cbn; open_handle; cbn;
    first [ left; left; (reflexivity || assumption) | left; right; left; reflexivity
          | right; unfold on_world; cbn; rewrite ?log_view, ?timestamp_view, ?chain_id_view;
            split; [by f_equal; f_equal; congruence|cbn in *; congruence]
          | destruct (out_of_gas (frame c)); [by left; left|by right] ].
Qed.

Lemma exec_refines {A} ro (p : prog A) c :
  stopped (exec_prog ro p c).2
  ∨ (exec_prog ro p c).1 = (ideal p (ist c)).1 ∧ ist (exec_prog ro p c).2 = (ideal p (ist c)).2.
Proof.
  revert c. induction p as [a|e| |o k IH]; intros c; cbn; try by right.
  destruct (handle_refines ro o c) as [Hs|[Hr Hi]].
  - left. destruct (handle ro o c). by apply exec_sticky.
  - destruct (handle ro o c) as [r c']. injection Hr as ->. cbn in Hi.
    destruct (ideal_op o (ist c)) as [r s]. cbn in *. rewrite <- Hi. apply IH.
Qed.

(** ** Read-only frames *)

Lemma handle_read_only o c : world (ist (handle true o c).2) = world (ist c).
Proof. destruct o; cbn; open_handle; cbn in *; congruence. Qed.

Lemma exec_read_only {A} (p : prog A) c : world (ist (exec_prog true p c).2) = world (ist c).
Proof.
  revert c. induction p as [a|e| |o k IH]; intros c; try done. cbn.
  pose proof (handle_read_only o c) as Ho. destruct (handle true o c) as [r c']. etrans; [apply IH|exact Ho].
Qed.

(** ** Gas *)

Definition gas_wf c : Prop := 0 <= used (gas (frame c)) <= limit (gas (frame c)) ∧ limit (gas (frame c)) < 2 ^ 64.

(** Running only spends: the budget stays and what is left never grows. *)
Definition spends c c' : Prop :=
  gas_wf c' ∧ limit (gas (frame c')) = limit (gas (frame c)) ∧ gas_left c' <= gas_left c.

Lemma gas_left_wf c : gas_wf c → gas_left c = limit (gas (frame c)) - used (gas (frame c)).
Proof. intros [? ?]. unfold gas_left, meter_left. apply sub64_small; lia. Qed.

Lemma meter_charge_spends m cost m' :
  0 <= used m <= limit m → limit m < 2 ^ 64 → 0 <= cost → meter_charge m cost = Some m' →
  limit m' = limit m ∧ used m' = used m + cost ∧ used m' <= limit m.
Proof.
  intros Hu Hl Hc. unfold meter_charge, meter_left. rewrite sub64_small by lia.
  destruct (Z.ltb_spec (limit m - used m) cost); [done|]. intros [= <-]. cbn. rewrite add64_small by lia. lia.
Qed.

Lemma charge_gas_spends cost c : gas_wf c → 0 <= cost → spends c (charge_gas cost c).2.
Proof.
  intros [Hu Hl] Hc. unfold spends, gas_wf. destruct (charge_gas_cases cost c) as [[-> _]|[->|(m & -> & Hm & _)]]; cbn.
  - lia.
  - split_and!; [lia|lia|lia|done|]. rewrite !gas_left_wf by (unfold gas_wf; cbn; lia). cbn. lia.
  - apply meter_charge_spends in Hm as (El & Eu & ?); [|lia..]. rewrite El.
    split_and!; [lia|lia|lia|done|]. rewrite !gas_left_wf by (unfold gas_wf; cbn; lia). cbn. lia.
Qed.

Lemma spends_trans c1 c2 c3 : spends c1 c2 → spends c2 c3 → spends c1 c3.
Proof. unfold spends. intros (? & ? & ?) (? & ? & ?). split_and!; [done|congruence|lia]. Qed.

Lemma spends_refl c : gas_wf c → spends c c.
Proof. intros Hwf. unfold spends. split_and!; [done|done|lia]. Qed.

(** The meter alone decides. *)
Lemma spends_meter c c1 c2 : gas (frame c2) = gas (frame c1) → spends c c1 → spends c c2.
Proof. unfold spends, gas_wf, gas_left. by intros ->. Qed.
Lemma spends_meter_l c1 c2 c : gas (frame c2) = gas (frame c1) → spends c1 c → spends c2 c.
Proof. unfold spends, gas_wf, gas_left. by intros ->. Qed.
Lemma gas_wf_meter c1 c2 : used (gas (frame c2)) = used (gas (frame c1)) →
  limit (gas (frame c2)) = limit (gas (frame c1)) → gas_wf c1 → gas_wf c2.
Proof. unfold gas_wf. by intros -> ->. Qed.

Lemma handle_spends ro o c : gas_wf c → spends c (handle ro o c).2.
Proof.
  assert (Hc64 : ∀ z, 0 <= wrap64 z) by (intros; apply wrap64_range).
  assert (Hadd : ∀ a b, 0 <= add64 a b) by (intros; apply wrap64_range).
  assert (Hmul : ∀ a b, 0 <= mul64 a b) by (intros; apply wrap64_range).
  intros Hwf. pose proof (spends_refl c Hwf) as Hr.
  assert (Hoog : spends c (mark_out_of_gas c)).
  { destruct Hwf. unfold spends, gas_wf. cbn. split_and!; [lia|lia|lia|done|].
    rewrite !gas_left_wf by (unfold gas_wf; cbn; lia). cbn. lia. }
  assert (Hch : ∀ f cost, used (gas (f (frame c))) = used (gas (frame c)) → limit (gas (f (frame c))) = limit (gas (frame c)) → 0 <= cost →
                spends c (charge_gas cost (with_frame f c)).2).
  { intros f cost Hu Hl Hcost. apply (spends_trans _ (with_frame f c)); [|apply charge_gas_spends; [|done]].
    - unfold spends, gas_wf, gas_left, meter_left. cbn. by rewrite Hu, Hl.
    - by apply (gas_wf_meter c); [cbn; rewrite Hu|cbn; rewrite Hl|]. }
  destruct o; cbn [handle snd]; try done.
  - by apply charge_gas_spends.
  - unfold read_slot. case_match; [done|]. destruct (host_sload _ _ _) as [[e|[v cold]] h].
    + by apply (spends_meter _ c).
    + pose proof (Hch (set_state h) (wrap64 (if cold then cold_storage_cost else warm_storage_read_cost))
        ltac:(done) ltac:(done) (Hc64 _)) as Hs. by destruct (charge_gas _ _).
  - unfold write_slot. case_match; [by apply (spends_meter _ c)|]. case_match; [done|]. case_match; [done|].
    destruct (host_sstore _ _ _ _) as [[e|[res cold]] h]; [by apply (spends_meter _ c)|]. by apply Hch.
  - unfold add_log. case_match; [by apply (spends_meter _ c)|].
    pose proof (charge_gas_spends (log_cost (zlen topics) (zlen data)) c Hwf (Hadd _ _)) as Hs.
    destruct (charge_gas _ _) as [[] c']; [|done]. by apply (spends_meter _ c').
  - unfold charge_account_access. case_match; [done|]. destruct (host_code_hash _ _) as [[e|[v cold]] h].
    + by apply (spends_meter _ c).
    + pose proof (Hch (set_state h) (if cold then COLD_ACCOUNT_ACCESS_COST else WARM_STORAGE_READ_COST)
        ltac:(done) ltac:(done) ltac:(by destruct cold)) as Hs. by destruct (charge_gas _ _).
  - unfold write_code. assert (Hcw : spends c (charge_code_write ro addr code c).2).
    { unfold charge_code_write. case_match; [by apply (spends_meter _ c)|].
      destruct (host_code_hash _ _) as [[e|[v cold]] h]; [by apply (spends_meter _ c)|].
      match goal with |- context [charge_gas ?x (with_frame (set_state h) c)] =>
        assert (Hs : spends c (charge_gas x (with_frame (set_state h) c)).2)
          by (apply Hch; [done|done|by case_match]) end.
      destruct (charge_gas _ _) as [[] c']; [|done]. cbn in Hs.
      apply (spends_trans _ c' _ Hs). apply charge_gas_spends; [apply Hs|apply Hadd]. }
    destruct (charge_code_write _ _ _ _) as [[] c']; [|done]. apply (spends_meter _ c'); [|done].
    cbn. by destruct (host_set_code _ _ _) as [[] ?].
Qed.

Lemma exec_spends {A} ro (p : prog A) c : gas_wf c → spends c (exec_prog ro p c).2.
Proof.
  revert c. induction p as [a|e| |o k IH]; intros c Hwf; try by apply spends_refl. cbn.
  pose proof (handle_spends ro o c Hwf) as Ho. destruct (handle ro o c) as [r c'].
  apply (spends_trans _ c' _ Ho), IH, Ho.
Qed.

(** ** Which accounts a program touches *)

Definition op_within (P : Z → Prop) o : Prop :=
  match o with
  | WriteSlot a _ _ | AddLog a _ _ | WriteCode a _ => P a
  | _ => True
  end.

Fixpoint within {A} (P : Z → Prop) (p : prog A) : Prop :=
  match p with
  | Do o k => op_within P o ∧ ∀ r, within P (k r)
  | _ => True
  end.

(** Accounts outside [P] are the same in [w'] as in [w], and the new logs come
    from [P]. *)
Definition same_outside (P : Z → Prop) (w w' : World) : Prop :=
  (∀ a k, ¬ P a → w_storage w' !! (a, k) = w_storage w !! (a, k))
  ∧ (∀ a, ¬ P a → w_code w' !! a = w_code w !! a)
  ∧ (∃ ls, w_logs w' = w_logs w ++ ls ∧ Forall (λ l, P (log_address l)) ls)
  ∧ w_time w' = w_time w ∧ w_chain w' = w_chain w.

#[export] Instance same_outside_refl P : Reflexive (same_outside P).
Proof. intros w. split_and!; try done. exists []. by rewrite app_nil_r. Qed.
#[export] Instance same_outside_trans P : Transitive (same_outside P).
Proof.
  intros w1 w2 w3 (S1 & C1 & (l1 & L1 & F1) & T1 & H1) (S2 & C2 & (l2 & L2 & F2) & T2 & H2).
  split_and!; [intros; by rewrite S2, S1|intros; by rewrite C2, C1| |congruence|congruence].
  exists (l1 ++ l2). rewrite L2, L1, (assoc_L (++)). split; [done|]. by apply Forall_app.
Qed.

Lemma same_outside_set P a k v w : P a → same_outside P w (w_set a k v w).
Proof.
  intros Ha. split_and!; try done; [|by exists []; cbn; rewrite app_nil_r].
  intros b j Hb. cbn. rewrite lookup_insert_ne; [done|]. by intros [= -> _].
Qed.

Lemma same_outside_log P l w : P (log_address l) → same_outside P w (w_log l w).
Proof. intros Hl. split_and!; try done. exists [l]. split; [done|]. by constructor. Qed.

Lemma same_outside_code P a h w : P a → same_outside P w (w_set_code a h w).
Proof.
  intros Ha. split_and!; try done; [|by exists []; cbn; rewrite app_nil_r].
  intros b Hb. cbn. rewrite lookup_insert_ne; [done|]. by intros ->.
Qed.

Lemma handle_within P ro o c :
  op_within P o → same_outside P (world (ist c)) (world (ist (handle ro o c).2)).
Proof.
  destruct o; cbn; intros HP; open_handle; cbn in *; rewrite ?log_view;
    repeat match goal with E : view _ = _ |- _ => rewrite E; clear E end;
    try done; by (apply same_outside_set || apply same_outside_log || apply same_outside_code).
Qed.

Lemma exec_within {A} P ro (p : prog A) c :
  within P p → same_outside P (world (ist c)) (world (ist (exec_prog ro p c).2)).
Proof.
  revert c. induction p as [a|e| |o k IH]; intros c Hp; try done. destruct Hp as [Ho Hk]. cbn.
  pose proof (handle_within P ro o c Ho) as Hs. destruct (handle ro o c) as [r c']. cbn in Hs.
  etrans; [exact Hs|]. by apply IH.
Qed.

(** ** Panics *)

(** No run with less than [g] gas left panics. *)
Definition no_panic {A} (g : Z) (p : prog A) : Prop :=
  ∀ ro c, gas_wf c → gas_left c < g → (exec_prog ro p c).1 ≠ Panics.

Lemma no_panic_ret {A} g (a : A) : no_panic g (Ret a).
Proof. done. Qed.
Lemma no_panic_throw {A} g e : no_panic g (Throw e : prog A).
Proof. done. Qed.

Lemma no_panic_do {A} g o (k : resp o → prog A) : (∀ r, no_panic g (k r)) → no_panic g (Do o k).
Proof.
  intros Hk ro c Hwf Hg. cbn. pose proof (handle_spends ro o c Hwf) as (? & ? & ?).
  destruct (handle ro o c) as [r c']. apply Hk; [done|cbn in *; lia].
Qed.

Lemma no_panic_bind {A B} g (p : prog A) (f : A → prog B) :
  no_panic g p → (∀ a, no_panic g (f a)) → no_panic g (p ≫= f).
Proof.
  intros Hp Hf ro c Hwf Hg. rewrite exec_bind. pose proof (exec_spends ro p c Hwf) as (? & ? & ?).
  specialize (Hp ro c Hwf Hg). destruct (exec_prog ro p c) as [[a|e|] c']; [|done|done].
  apply Hf; [done|cbn in *; lia].
Qed.

Lemma exec_attempt {A} ro (p : prog A) c :
  exec_prog ro (attempt p) c =
  match exec_prog ro p c with
  | (Done a, c') => (Done (inr a), c')
  | (Fail e, c') => (Done (inl e), c')
  | (Panics, c') => (Panics, c')
  end.
Proof.
  revert c. induction p as [a|e| |o k IH]; intros c; try done. cbn. destruct (handle ro o c). apply IH.
Qed.

Lemma no_panic_attempt {A} g (p : prog A) : no_panic g p → no_panic g (attempt p).
Proof.
  intros Hp ro c Hwf Hg. rewrite exec_attempt. specialize (Hp ro c Hwf Hg). by destruct (exec_prog ro p c) as [[]].
Qed.

Lemma no_panic_lift {A} g (m : exec Cas20Err A) : m ≠ Panics → no_panic g (lift m).
Proof. intros Hm ro c _ _. by destruct m. Qed.
End Meta.

Section Structure.
Lemma within_bind {A B} P (p : prog A) (f : A → prog B) :
  within P p → (∀ a, within P (f a)) → within P (p ≫= f).
Proof. intros Hp Hf. induction p as [a|e| |o k IH]; cbn; [apply Hf|done|done|]. destruct Hp. split; naive_solver. Qed.

Lemma within_attempt {A} P (p : prog A) : within P p → within P (attempt p).
Proof. induction p as [a|e| |o k IH]; cbn; try done. intros [? ?]. split; naive_solver. Qed.

Lemma within_lift {A} P (m : exec Cas20Err A) : within P (lift m).
Proof. by destruct m. Qed.

Lemma within_for_each {A} P (f : A → prog unit) l : (∀ a, within P (f a)) → within P (for_each f l).
Proof. intros Hf. induction l as [|a l IH]; cbn [for_each]; [done|]. apply within_bind; [apply Hf|done]. Qed.
End Structure.
