(* ===== verification/Cas20Abi.v ===== *)
(** * Cas20Abi: calldata and return data of the CAS20 precompiles

    Models [src/evm/precompiles/cas20/abi.rs] and the error encoders of
    [errors.rs].  A 32-byte word is the big-endian number of its bytes, so a
    word fits in [n] bytes when it is below [256 ^ n].  Offsets and lengths are
    compared with the length of the calldata before they are used, so none of
    the sums of the decoders can overflow. *)

From stdpp Require Import base tactics numbers option list.
From Stdlib Require Import ZArith Lia Bool.
From S2P Require Import Prelude.
From S2P Require Import Cas20Sigs.
From S2P Require Import Cas20Frame.

(** ** Errors *)

Definition revert : Cas20Err := Revert [].
Definition rev (sel : Z) (words : list Z) : Cas20Err :=
  Revert (err4 sel ++ concat (be_encode 32 <$> words)).

(** ** Encoders *)

Definition enc_u256 (v : Z) : bytes := be_encode 32 v.
Definition enc_word (w : Z) : bytes := be_encode 32 w.
Definition enc_bool (b : bool) : bytes := replicate 31 0 ++ [if b then 1 else 0].

Inductive AbiPart := Word (w : Z) | Dynamic (tail : bytes).

Definition abi_word (w : Z) : AbiPart := Word w.
Definition abi_bytes (b : bytes) : AbiPart :=
  let padded := div_ceil (zlen b) 32 * 32 in
  Dynamic (be_encode 32 (zlen b) ++ b ++ replicate (Z.to_nat (padded - zlen b)) 0).
Definition abi_string (s : bytes) : AbiPart := abi_bytes s.
Definition abi_word_array (words : list Z) : AbiPart :=
  Dynamic (be_encode 32 (zlen words) ++ concat (be_encode 32 <$> words)).

(** The heads and the tails so far. *)
Definition encode_part (tail_start : Z) (acc : bytes * bytes) (p : AbiPart) : bytes * bytes :=
  let '(head, tail) := acc in
  match p with
  | Word w => (head ++ be_encode 32 w, tail)
  | Dynamic t => (head ++ be_encode 32 (tail_start + zlen tail), tail ++ t)
  end.
Definition encode_tuple (parts : list AbiPart) : bytes :=
  let '(head, tail) := fold_left (encode_part (32 * zlen parts)) parts ([], []) in head ++ tail.
Definition abi_encode_struct (members : list AbiPart) : bytes :=
  encode_tuple [Dynamic (encode_tuple members)].

Definition enc_string (s : bytes) : bytes := encode_tuple [abi_string s].

Definition rev_bytes (sel : Z) (payload : bytes) : Cas20Err :=
  Revert (err4 sel ++ encode_tuple [abi_bytes payload]).
Definition rev_string_bytes (sel : Z) (key value : bytes) : Cas20Err :=
  Revert (err4 sel ++ encode_tuple [abi_string key; abi_bytes value]).
Definition rev_panic (code : Z) : Cas20Err := rev ERR_PANIC [code].

(** ** Decoders *)

Definition word_fits_in (w n : Z) : bool := w <? 256 ^ n.
Definition u64_from_word (w : Z) : option Z := if word_fits_in w 8 then Some w else None.
Definition address_from_word (w : Z) : option Z := if word_fits_in w 20 then Some w else None.
Definition is_enum_word (w max : Z) : bool := word_fits_in w 1 && (w mod 256 <=? max).
(** [w.0[31]] *)
Definition low_byte (w : Z) : Z := w mod 256.

Definition read_word (args : bytes) (i : Z) : exec Cas20Err Z :=
  let off := i * 32 in
  if zlen args <? off + 32 then Fail revert
  else w ← slice args off (off + 32); Done (be_decode w).

Definition read_address (args : bytes) (i : Z) : exec Cas20Err Z :=
  w ← read_word args i; ok_or (address_from_word w) revert.
Definition read_u64 (args : bytes) (i : Z) : exec Cas20Err Z :=
  w ← read_word args i; ok_or (u64_from_word w) revert.
Definition read_u256 (args : bytes) (i : Z) : exec Cas20Err Z := read_word args i.
Definition read_strict_uint8 (args : bytes) (i : Z) : exec Cas20Err Z :=
  w ← read_word args i;
  if is_enum_word w 0xff then Done (low_byte w) else Fail revert.

(** An offset or length: [Fail tt] stands for [None]. *)
Definition word_u64 (args : bytes) (pos : Z) : exec unit Z :=
  let len := zlen args in
  if (len <? pos) || (len - pos <? 32) then Fail tt
  else
    high ← slice args pos (pos + 24);
    if existsb (λ b, negb (b =? 0)) high then Fail tt
    else low ← slice args (pos + 24) (pos + 32); Done (be_decode low).
(** [word_u64(..).ok_or_else(revert)?] *)
Definition word_u64_or_revert (args : bytes) (pos : Z) : exec Cas20Err Z :=
  map_err (λ _, revert) (word_u64 args pos).

Definition read_string_bytes (args : bytes) (arg_index : Z) : exec Cas20Err bytes :=
  let len := zlen args in
  off ← word_u64_or_revert args (arg_index * 32);
  if (len <? off) || (len - off <? 32) then Fail revert
  else
    n ← word_u64_or_revert args off;
    let data_pos := off + 32 in
    if len - data_pos <? n then Fail revert
    else slice args data_pos (data_pos + n).
Definition read_bytes_arg := read_string_bytes.
Definition read_string_arg := read_string_bytes.

(** [for i in 0..n { out.push(f(i)?) }] *)
Fixpoint collect {A} (f : Z → exec Cas20Err A) (is_ : list Z) : exec Cas20Err (list A) :=
  match is_ with
  | [] => Done []
  | i :: is_ => a ← f i; rest ← collect f is_; Done (a :: rest)
  end.

Definition read_bytes_elem (args : bytes) (arr_data i : Z) : exec Cas20Err bytes :=
  let len := zlen args in
  elem_off ← word_u64_or_revert args (arr_data + i * 32);
  let pos := sat_add64 arr_data elem_off in
  if (len - arr_data <? elem_off) || (len <? pos) || (len - pos <? 32) then Fail revert
  else
    elem_len ← word_u64_or_revert args pos;
    let start := pos + 32 in
    if len - start <? elem_len then Fail revert
    else slice args start (start + elem_len).

(** The position and the length of the array an argument points to. *)
Definition array_head (args : bytes) (arg_index : Z) : exec Cas20Err (Z * Z) :=
  let len := zlen args in
  base ← word_u64_or_revert args (arg_index * 32);
  if (len <? base) || (len - base <? 32) then Fail revert
  else
    n ← word_u64_or_revert args base;
    let data_pos := base + 32 in
    if (len - data_pos) / 32 <? n then Fail revert else Done (data_pos, n).

Definition read_bytes_array (args : bytes) (arg_index : Z) : exec Cas20Err (list bytes) :=
  h ← array_head args arg_index;
  let '(arr_data, n) := (h : Z * Z) in
  collect (read_bytes_elem args arr_data) (seqZ 0 n).

Definition read_word_array (args : bytes) (arg_index : Z) : exec Cas20Err (list Z) :=
  h ← array_head args arg_index;
  let '(data_pos, n) := (h : Z * Z) in
  collect (λ i, let p := data_pos + i * 32 in w ← slice args p (p + 32); Done (be_decode w)) (seqZ 0 n).

(** A dynamic [uint8[]] at head position 0. *)
Definition read_uint8_array (args : bytes) : exec Cas20Err (list Z) :=
  h ← array_head args 0;
  let '(data_pos, n) := (h : Z * Z) in
  collect (λ i, v ← word_u64_or_revert args (data_pos + i * 32);
                if 0xff <? v then Fail revert else Done v) (seqZ 0 n).

(** ** The decoders never panic *)

Section NoPanic.
Lemma slice_in_range {E A} (l : list A) a b : 0 <= a → a <= b → b <= zlen l → slice (E := E) l a b ≠ Panics.
Proof.
  intros. unfold slice. rewrite (proj2 (Z.leb_le 0 a)), (proj2 (Z.leb_le a b)), (proj2 (Z.leb_le b _)) by done. done.
Qed.

Lemma bind_no_panic {E A B} (m : exec E A) (f : A → exec E B) :
  m ≠ Panics → (∀ a, m = Done a → f a ≠ Panics) → m ≫= f ≠ Panics.
Proof. destruct m; naive_solver. Qed.

Lemma ok_or_no_panic {E A} (o : option A) (e : E) : ok_or o e ≠ Panics.
Proof. by destruct o. Qed.

Lemma map_err_no_panic {E F A} (f : E → F) (m : exec E A) : m ≠ Panics → map_err f m ≠ Panics.
Proof. by destruct m. Qed.

Lemma collect_no_panic {A} (f : Z → exec Cas20Err A) l : (∀ i, i ∈ l → f i ≠ Panics) → collect f l ≠ Panics.
Proof.
  induction l as [|i l IH]; intros Hf; cbn [collect]; [done|]. apply bind_no_panic; [by apply Hf; left|].
  intros a _. apply bind_no_panic; [apply IH; intros; apply Hf; by right|done].
Qed.

Context (args : bytes).

Lemma read_word_no_panic i : 0 <= i → read_word args i ≠ Panics.
Proof.
  intros Hi. unfold read_word. case_if; [done|]. split_tests.
  apply bind_no_panic; [apply slice_in_range; lia|done].
Qed.

Lemma word_u64_no_panic pos : 0 <= pos → word_u64_or_revert args pos ≠ Panics.
Proof.
  intros Hp. apply map_err_no_panic. unfold word_u64. case_if; [done|]. split_tests.
  apply bind_no_panic; [apply slice_in_range; lia|]. intros high _. case_if; [done|].
  apply bind_no_panic; [apply slice_in_range; lia|done].
Qed.

(** The calldata is made of bytes, so what is read is not negative. *)
Context (Hargs : Forall byte_ok args).

Lemma slice_bytes {E} a b x : slice (E := E) args a b = Done x → Forall byte_ok x.
Proof using Hargs. unfold slice. case_if; [|done]. intros [= <-]. by apply Forall_take, Forall_drop. Qed.

Lemma word_u64_nonneg pos v : word_u64_or_revert args pos = Done v → 0 <= v.
Proof using Hargs.
  unfold word_u64_or_revert. rewrite map_err_Done. unfold word_u64. case_if; [done|].
  rewrite bind_Done. intros (high & _ & Hv). revert Hv. case_if; [done|].
  rewrite bind_Done. intros (low & Hl & [= <-]). by eapply be_decode_bound, slice_bytes.
Qed.

Lemma read_string_no_panic i : 0 <= i → read_string_bytes args i ≠ Panics.
Proof using Hargs.
  intros Hi. unfold read_string_bytes. apply bind_no_panic; [apply word_u64_no_panic; lia|].
  intros off Hoff%word_u64_nonneg. case_if; [done|]. split_tests.
  apply bind_no_panic; [by apply word_u64_no_panic|]. intros n Hn%word_u64_nonneg. case_if; [done|]. split_tests.
  apply slice_in_range; lia.
Qed.

Lemma array_head_no_panic i : 0 <= i → array_head args i ≠ Panics.
Proof using Hargs.
  intros Hi. unfold array_head. apply bind_no_panic; [apply word_u64_no_panic; lia|].
  intros base Hb%word_u64_nonneg. case_if; [done|]. apply bind_no_panic; [by apply word_u64_no_panic|].
  intros n _. by case_if.
Qed.

Lemma array_head_Done i p n :
  array_head args i = Done (p, n) → 0 <= p ∧ 0 <= n ∧ p + 32 * n <= zlen args.
Proof using Hargs.
  unfold array_head. rewrite bind_Done. intros (base & Hb%word_u64_nonneg & H). revert H. case_if; [done|].
  rewrite bind_Done. intros (m & Hm%word_u64_nonneg & H). revert H. case_if; [done|]. intros [= <- <-]. split_tests.
  pose proof (Z.mul_div_le (zlen args - (base + 32)) 32 ltac:(lia)). lia.
Qed.

Lemma read_bytes_array_no_panic i : 0 <= i → read_bytes_array args i ≠ Panics.
Proof using Hargs.
  intros Hi. unfold read_bytes_array. apply bind_no_panic; [by apply array_head_no_panic|].
  intros [p n] (Hp & Hn & Hl)%array_head_Done. apply collect_no_panic. intros j Hj%elem_of_seqZ.
  unfold read_bytes_elem. apply bind_no_panic; [apply word_u64_no_panic; lia|].
  intros off Hoff%word_u64_nonneg. case_if; [done|]. split_tests.
  assert (0 <= sat_add64 p off) by (unfold sat_add64, u64_max; lia).
  apply bind_no_panic; [by apply word_u64_no_panic|]. intros m Hm%word_u64_nonneg. case_if; [done|]. split_tests.
  apply slice_in_range; lia.
Qed.

Lemma read_word_array_no_panic i : 0 <= i → read_word_array args i ≠ Panics.
Proof using Hargs.
  intros Hi. unfold read_word_array. apply bind_no_panic; [by apply array_head_no_panic|].
  intros [p n] (Hp & Hn & Hl)%array_head_Done. apply collect_no_panic. intros j Hj%elem_of_seqZ.
  apply bind_no_panic; [apply slice_in_range; lia|done].
Qed.

Lemma read_uint8_array_no_panic : read_uint8_array args ≠ Panics.
Proof using Hargs.
  unfold read_uint8_array. apply bind_no_panic; [by apply array_head_no_panic|].
  intros [p n] (Hp & Hn & Hl)%array_head_Done. apply collect_no_panic. intros j Hj%elem_of_seqZ.
  apply bind_no_panic; [apply word_u64_no_panic; lia|]. intros v _. by case_if.
Qed.

Lemma read_address_no_panic i : 0 <= i → read_address args i ≠ Panics.
Proof. intros Hi. apply bind_no_panic; [by apply read_word_no_panic|]. intros. apply ok_or_no_panic. Qed.
Lemma read_u64_no_panic i : 0 <= i → read_u64 args i ≠ Panics.
Proof. intros Hi. apply bind_no_panic; [by apply read_word_no_panic|]. intros. apply ok_or_no_panic. Qed.
Lemma read_strict_uint8_no_panic i : 0 <= i → read_strict_uint8 args i ≠ Panics.
Proof. intros Hi. apply bind_no_panic; [by apply read_word_no_panic|]. intros w _. by case_if. Qed.
End NoPanic.
