(* ===== verification/Cas20Storage.v ===== *)
(** * Cas20Storage: the storage layout of a token

    Models [src/evm/precompiles/cas20/storage.rs] (BEP-702 3.17): named slots,
    mappings hashed into slots, policy ids packed into words and strings in
    Solidity's encoding, all read and written through the meter.  [at_] is the
    account whose storage it is. *)

From stdpp Require Import base tactics numbers option list.
From Stdlib Require Import ZArith Lia Bool.
From S2P Require Import Prelude.
From S2P Require Import Cas20Sigs.
From S2P Require Import Cas20Frame.
From S2P Require Import Cas20Abi.

Definition SLOT_NAME : Z := 0.
Definition SLOT_SYMBOL : Z := 1.
Definition SLOT_CONTRACT_URI : Z := 2.
Definition SLOT_TOTAL_SUPPLY : Z := 3.
Definition SLOT_BALANCES : Z := 4.
Definition SLOT_ALLOWANCES : Z := 5.
Definition SLOT_ROLES : Z := 6.
Definition SLOT_ROLE_ADMINS : Z := 7.
Definition SLOT_ADMIN_COUNT : Z := 8.
Definition SLOT_TRANSFER_POLICIES : Z := 9.
Definition SLOT_MINT_POLICY : Z := 10.
Definition SLOT_PAUSED : Z := 11.
Definition SLOT_SUPPLY_CAP : Z := 12.
Definition SLOT_NONCES : Z := 13.
Definition SLOT_SEIZE_POLICIES : Z := 14.

Definition OFF_TRANSFER_SENDER : Z := 0.
Definition OFF_TRANSFER_RECEIVER : Z := 8.
Definition OFF_TRANSFER_EXECUTOR : Z := 16.
Definition OFF_MINT_RECEIVER : Z := 0.
Definition OFF_SEIZE_EXEMPT : Z := 0.
Definition OFF_SEIZE_RECEIVER : Z := 8.

Definition MAX_STRING_LEN : Z := 2 ^ 24.

Definition offset_slot (root offset : Z) : Z := wrap256 (root + offset).
Definition slot_at (offset : Z) : Z := offset_slot ROOT_CORE offset.

(** [(word >> (byte_off * 8)) as u64] *)
Definition packed_lane (word byte_off : Z) : Z := wrap64 (Z.shiftr word (byte_off * 8)).

Definition charge_keccak (size : Z) : prog bool := do_ (ChargeGas (keccak_cost size)).

Section Storage.
Context `{K : Keccak}.

Definition mapping_slot (base key : Z) : Z := keccak256 (be_encode 32 key ++ be_encode 32 base).

Definition map_slot (base key : Z) : prog Z :=
  paid ← charge_keccak 64;
  Ret (if (paid : bool) then mapping_slot base key else 0).

Definition str_map_slot (base : Z) (key : bytes) : prog Z :=
  paid ← charge_keccak (zlen key + 32);
  Ret (if (paid : bool) then keccak256 (key ++ be_encode 32 base) else 0).

(** ** Words *)

Definition get_word_checked (at_ slot : Z) : prog (option Z) := do_ (ReadSlot at_ slot).
Definition get_word (at_ slot : Z) : prog Z := r ← get_word_checked at_ slot; Ret (default 0 r).
Definition set_word (at_ slot v : Z) : prog bool := do_ (WriteSlot at_ slot v).
(** A write whose refusal the caller does not look at. *)
Definition put_word (at_ slot v : Z) : prog unit := _ ← set_word at_ slot v; Ret tt.

Definition get_u256 (at_ offset : Z) : prog Z := get_word at_ (slot_at offset).
Definition set_u256 (at_ offset v : Z) : prog unit := put_word at_ (slot_at offset) v.
Definition total_supply (at_ : Z) := get_u256 at_ SLOT_TOTAL_SUPPLY.
Definition set_total_supply (at_ v : Z) := set_u256 at_ SLOT_TOTAL_SUPPLY v.
Definition supply_cap (at_ : Z) := get_u256 at_ SLOT_SUPPLY_CAP.
Definition set_supply_cap (at_ v : Z) := set_u256 at_ SLOT_SUPPLY_CAP v.
Definition admin_count (at_ : Z) := get_u256 at_ SLOT_ADMIN_COUNT.
Definition set_admin_count (at_ v : Z) := set_u256 at_ SLOT_ADMIN_COUNT v.
Definition paused_checked (at_ : Z) := get_word_checked at_ (slot_at SLOT_PAUSED).
Definition paused (at_ : Z) := get_u256 at_ SLOT_PAUSED.
Definition set_paused (at_ v : Z) := set_u256 at_ SLOT_PAUSED v.

(** ** Balances, allowances, nonces *)

Definition balance_slot (a : Z) : prog Z := map_slot (slot_at SLOT_BALANCES) a.
Definition allowance_slot (owner spender : Z) : prog Z :=
  inner ← map_slot (slot_at SLOT_ALLOWANCES) owner;
  map_slot inner spender.

Definition balance_of (at_ a : Z) : prog Z := slot ← balance_slot a; get_word at_ slot.
Definition allowance (at_ owner spender : Z) : prog Z := slot ← allowance_slot owner spender; get_word at_ slot.
Definition set_allowance (at_ owner spender v : Z) : prog unit :=
  slot ← allowance_slot owner spender; put_word at_ slot v.
Definition nonce (at_ owner : Z) : prog Z := slot ← map_slot (slot_at SLOT_NONCES) owner; get_word at_ slot.
Definition set_nonce (at_ owner v : Z) : prog unit :=
  slot ← map_slot (slot_at SLOT_NONCES) owner; put_word at_ slot v.

(** ** Roles *)

Definition role_slot (role a : Z) : prog Z :=
  inner ← map_slot (slot_at SLOT_ROLES) role;
  map_slot inner a.
Definition has_role (at_ role a : Z) : prog bool :=
  slot ← role_slot role a;
  w ← get_word at_ slot;
  Ret (negb (w =? 0)).
Definition set_role (at_ role a : Z) (enabled : bool) : prog unit :=
  slot ← role_slot role a; put_word at_ slot (if enabled then 1 else 0).
Definition role_admin (at_ role : Z) : prog Z := slot ← map_slot (slot_at SLOT_ROLE_ADMINS) role; get_word at_ slot.
Definition store_role_admin (at_ role admin : Z) : prog unit :=
  slot ← map_slot (slot_at SLOT_ROLE_ADMINS) role; put_word at_ slot admin.

(** ** Packed policy ids *)

Definition get_packed_u64 (at_ offset byte_off : Z) : prog Z :=
  w ← get_word at_ (slot_at offset); Ret (packed_lane w byte_off).

Definition set_packed_u64 (at_ offset byte_off v : Z) : prog unit :=
  word ← get_word at_ (slot_at offset);
  let lane := Z.shiftl u64_max (byte_off * 8) in
  let word := Z.lor (Z.land word (Z.lnot lane)) (Z.shiftl v (byte_off * 8)) in
  put_word at_ (slot_at offset) word.

Definition transfer_policies (at_ : Z) : prog (Z * Z * Z) :=
  w ← get_word at_ (slot_at SLOT_TRANSFER_POLICIES);
  Ret (packed_lane w OFF_TRANSFER_SENDER, packed_lane w OFF_TRANSFER_RECEIVER, packed_lane w OFF_TRANSFER_EXECUTOR).

Definition seize_policies (at_ : Z) : prog (Z * Z) :=
  w ← get_word at_ (slot_at SLOT_SEIZE_POLICIES);
  Ret (packed_lane w OFF_SEIZE_EXEMPT, packed_lane w OFF_SEIZE_RECEIVER).

Definition mint_receiver_policy (at_ : Z) : prog Z := get_packed_u64 at_ SLOT_MINT_POLICY OFF_MINT_RECEIVER.

(** ** Strings *)

Definition string_data_root (slot : Z) : prog Z :=
  paid ← charge_keccak 32;
  Ret (if (paid : bool) then keccak256 (be_encode 32 slot) else 0).

(** The [while i < length] loop: one word per chunk index. *)
Fixpoint read_chunks (at_ base : Z) (is_ : list Z) : prog (option bytes) :=
  match is_ with
  | [] => Ret (Some [])
  | i :: is_ =>
      r ← get_word_checked at_ (wrap256 (base + i));
      match r with
      | None => Ret None
      | Some chunk =>
          rest ← read_chunks at_ base is_;
          Ret (app (be_encode 32 chunk) <$> (rest : option bytes))
      end
  end.

(** The length a word of the long form stands for; [None] for a malformed one. *)
Definition long_length (word : Z) : option Z :=
  if 2 * MAX_STRING_LEN + 1 <? word then None
  else
    let length := (word - 1) / 2 in
    if length <? 32 then None else Some length.

Definition get_string_at (at_ slot : Z) : prog (option bytes) :=
  r ← get_word_checked at_ slot;
  match r with
  | None => Ret None
  | Some word =>
      if Z.even (low_byte word) then
        let n := low_byte word / 2 in
        if 31 <? n then Ret (Some [])
        else Ret (Some (take (Z.to_nat n) (be_encode 32 word)))
      else
        match long_length word with
        | None => Ret (Some [])
        | Some length =>
            base ← string_data_root slot;
            out ← read_chunks at_ base (seqZ 0 (div_ceil length 32));
            Ret (take (Z.to_nat length) <$> (out : option bytes))
        end
  end.

Definition string_chunks (at_ slot : Z) : prog Z :=
  word ← get_word at_ slot;
  if Z.even (low_byte word) then Ret 0
  else Ret (from_option (λ length, div_ceil length 32) 0 (long_length word)).

(** The [i]-th 32 bytes, padded with zeros on the right. *)
Definition chunk_at (b : bytes) (i : Z) : Z :=
  let piece := take 32 (drop (Z.to_nat (i * 32)) b) in
  be_decode (piece ++ replicate (32 - length piece) 0).

(** A [for] loop over slots that stops when the frame is out of gas. *)
Fixpoint write_chunks (at_ base : Z) (f : Z → Z) (is_ : list Z) : prog bool :=
  match is_ with
  | [] => Ret true
  | i :: is_ =>
      oog ← do_ IsOutOfGas;
      if (oog : bool) then Ret false
      else
        _ ← set_word at_ (wrap256 (base + i)) (f i);
        write_chunks at_ base f is_
  end.

(** The word that stands for [b]: the bytes and twice the length, or twice the
    length plus one. *)
Definition string_word (b : bytes) : Z :=
  if zlen b <? 32 then be_decode (b ++ replicate (31 - length b) 0 ++ [zlen b * 2])
  else zlen b * 2 + 1.

Definition set_string_at (at_ slot : Z) (b : bytes) : prog bool :=
  old_chunks ← string_chunks at_ slot;
  let new_chunks := if 32 <=? zlen b then div_ceil (zlen b) 32 else 0 in
  ok ← set_word at_ slot (string_word b);
  if negb ok then Ret false
  else if (new_chunks =? 0) && (old_chunks =? 0) then Ret true
  else
    base ← string_data_root slot;
    ok ← write_chunks at_ base (chunk_at b) (seqZ 0 new_chunks);
    if negb ok then Ret false
    else write_chunks at_ base (λ _, 0) (seqZ new_chunks (old_chunks - new_chunks)).

Definition get_string (at_ offset : Z) := get_string_at at_ (slot_at offset).
Definition set_string (at_ offset : Z) (s : bytes) := set_string_at at_ (slot_at offset) s.
Definition name (at_ : Z) := get_string at_ SLOT_NAME.
Definition set_name (at_ : Z) (v : bytes) := set_string at_ SLOT_NAME v.
Definition symbol (at_ : Z) := get_string at_ SLOT_SYMBOL.
Definition set_symbol (at_ : Z) (v : bytes) := set_string at_ SLOT_SYMBOL v.
Definition contract_uri (at_ : Z) := get_string at_ SLOT_CONTRACT_URI.
Definition set_contract_uri (at_ : Z) (v : bytes) := set_string at_ SLOT_CONTRACT_URI v.
End Storage.
