(* ===== verification/Cas20Policy.v ===== *)
(** * Cas20Policy: the activation and policy registries

    Models [src/evm/precompiles/cas20/activation.rs] and [policy.rs].  The
    activation registry switches features on and off; the policy registry keeps
    allow and block lists that tokens refer to by id, and composites of them.

    [is_authorized] follows the children of a composite without a bound of its
    own; [depth] is the number of levels the model follows, and [Crash] (a stack
    overflow) what happens beyond. *)

From stdpp Require Import base tactics numbers option list.
From Stdlib Require Import ZArith Lia Bool.
From S2P Require Import Prelude.
From S2P Require Import Cas20Sigs.
From S2P Require Import Cas20Frame.
From S2P Require Import Cas20Abi.
From S2P Require Import Cas20Storage.

(** The fields of [Ctx] that do not change. *)
Record Env := {
  self_addr : Z;
  caller : Z;
  read_only : bool;
  direct_call : bool;
  value : Z;
}.

Definition ACTIVATION_REGISTRY_ADDRESS : Z := 0x7020000000000000000000000000000000000001.
Definition POLICY_REGISTRY_ADDRESS : Z := 0x7020000000000000000000000000000000000002.
Definition GOV_HUB_ADDRESS : Z := 0x1007.

(** [Address::from_word]: the low 20 bytes. *)
Definition address_of_word (w : Z) : Z := w mod 2 ^ 160.
Definition bool_word (b : bool) : Z := if b then 1 else 0.

(** [if !ctx.add_log(..) { return Err(OutOfGas) }] *)
Definition emit_log (env : Env) (topics : list Z) (data : bytes) : prog unit :=
  ok ← do_ (AddLog (self_addr env) topics data);
  require ok OutOfGas.

(** The selector and the arguments of calldata of at least four bytes. *)
Definition selector_of (input : bytes) : Z := be_decode (take 4 input).
Definition args_of (input : bytes) : bytes := drop 4 input.

Section Registries.
Context `{K : Keccak}.
Implicit Types (env : Env) (args : bytes).

(** ** Activation ([activation.rs]) *)

Definition SLOT_FEATURES : Z := 0.
Definition SLOT_ADMIN : Z := 1.
(** [b"admin"] *)
Definition PARAM_ADMIN : bytes := [0x61; 0x64; 0x6d; 0x69; 0x6e].

Definition act_slot (offset : Z) : Z := offset_slot ROOT_ACTIVATION offset.

Definition is_activated (feature : Z) : prog bool :=
  slot ← map_slot (act_slot SLOT_FEATURES) feature;
  w ← get_word ACTIVATION_REGISTRY_ADDRESS slot;
  Ret (negb (w =? 0)).

Definition set_activated (feature : Z) (on : bool) : prog unit :=
  slot ← map_slot (act_slot SLOT_FEATURES) feature;
  put_word ACTIVATION_REGISTRY_ADDRESS slot (bool_word on).

Definition activation_admin : prog Z :=
  w ← get_word ACTIVATION_REGISTRY_ADDRESS (act_slot SLOT_ADMIN);
  Ret (address_of_word w).

Definition set_admin (a : Z) : prog unit := put_word ACTIVATION_REGISTRY_ADDRESS (act_slot SLOT_ADMIN) a.

Definition require_admin env : prog unit :=
  a ← activation_admin;
  require (negb ((a =? 0) || negb (caller env =? a))) (rev ERR_UNAUTHORIZED_ADDR [caller env]).

Definition require_gov env : prog unit :=
  require (caller env =? GOV_HUB_ADDRESS) (rev ERR_UNAUTHORIZED_ADDR [caller env]).

Definition update_param env args : prog unit :=
  _ ← require (negb (read_only env)) WriteProtection;
  key ← lift (read_string_arg args 0);
  value ← lift (read_bytes_arg args 1);
  _ ← require_gov env;
  _ ← require (bool_decide (key = PARAM_ADMIN)) (rev_string_bytes ERR_UNKNOWN_PARAM key value);
  _ ← require (zlen value =? 20) (rev_string_bytes ERR_INVALID_VALUE key value);
  let next := be_decode value in
  _ ← require (negb (next =? 0)) (rev_string_bytes ERR_INVALID_VALUE key value);
  previous ← activation_admin;
  _ ← set_admin next;
  _ ← emit_log env [TOPIC_ADMIN_CHANGED; previous; next; caller env] [];
  emit_log env [TOPIC_PARAM_CHANGE] (encode_tuple [abi_string key; abi_bytes value]).

Definition set_feature env args (on : bool) : prog unit :=
  _ ← require (negb (read_only env)) WriteProtection;
  feature ← lift (read_word args 0);
  _ ← require_admin env;
  active ← is_activated feature;
  _ ← require (negb (on && active)) (rev ERR_ALREADY_ACTIVATED [feature]);
  _ ← require (negb (negb on && negb active)) (rev ERR_FEATURE_NOT_ACTIVATED [feature]);
  _ ← set_activated feature on;
  emit_log env [if on then TOPIC_FEATURE_ACTIVATED else TOPIC_FEATURE_DEACTIVATED; feature; caller env] [].

Definition run_activation env (input : bytes) : prog bytes :=
  _ ← require (negb (zlen input <? 4)) revert;
  let sel := selector_of input in
  let args := args_of input in
  if sel =? SEL_IS_ACTIVATED then
    feature ← lift (read_word args 0);
    b ← is_activated feature;
    Ret (enc_bool b)
  else if sel =? SEL_CHECK_ACTIVATED then
    feature ← lift (read_word args 0);
    b ← is_activated feature;
    _ ← require b (rev ERR_FEATURE_NOT_ACTIVATED [feature]);
    Ret []
  else if sel =? SEL_ACTIVATION_ADMIN then
    a ← activation_admin;
    Ret (enc_word a)
  else if sel =? SEL_UPDATE_PARAM then _ ← update_param env args; Ret []
  else if sel =? SEL_ACTIVATE then _ ← set_feature env args true; Ret []
  else if sel =? SEL_DEACTIVATE then _ ← set_feature env args false; Ret []
  else Throw revert.

Definition ensure_feature_activated (feature : Z) : prog unit :=
  b ← is_activated feature;
  require b (rev ERR_FEATURE_NOT_ACTIVATED [feature]).

(** ** Policies ([policy.rs]) *)

Definition TYPE_BLOCKLIST : Z := 0.
Definition TYPE_ALLOWLIST : Z := 1.
Definition TYPE_UNION : Z := 2.
Definition TYPE_INTERSECT : Z := 3.
Definition BATCH_MAX : Z := 64.
Definition COMPOSITE_MIN_CHILDREN : Z := 2.
Definition COMPOSITE_MAX_CHILDREN : Z := 4.
Definition FIRST_ID : Z := 2.
Definition ALWAYS_ALLOW : Z := 0.
Definition ALWAYS_BLOCK : Z := Z.lor (Z.shiftl 1 56) 1.
Definition COUNTER_MAX : Z := 2 ^ 56 - 1.

Definition SLOT_POLICIES : Z := 0.
Definition SLOT_MEMBERS : Z := 1.
Definition SLOT_PENDING_ADMINS : Z := 2.
Definition SLOT_COUNTER : Z := 3.
Definition SLOT_CHILDREN : Z := 4.

Definition EXISTS_BIT : Z := 2 ^ 255.
Definition pack_policy (admin : Z) : Z := Z.lor admin EXISTS_BIT.
Definition word_exists (w : Z) : bool := Z.testbit w 255.
Definition word_admin (w : Z) : Z := address_of_word (Z.land w (2 ^ 160 - 1)).
Definition id_type (id : Z) : Z := Z.shiftr id 56.
Definition id_well_formed (id : Z) : bool := id_type id <=? TYPE_INTERSECT.
Definition is_sentinel_policy (id : Z) : bool := (id =? ALWAYS_ALLOW) || (id =? ALWAYS_BLOCK).
Definition is_composite (id : Z) : bool := (id_type id =? TYPE_UNION) || (id_type id =? TYPE_INTERSECT).
Definition pol_slot (offset : Z) : Z := offset_slot ROOT_POLICY offset.

Definition counter : prog Z := w ← get_word POLICY_REGISTRY_ADDRESS (pol_slot SLOT_COUNTER); Ret (wrap64 w).
Definition set_counter (v : Z) : prog unit := put_word POLICY_REGISTRY_ADDRESS (pol_slot SLOT_COUNTER) v.
Definition policy_word (id : Z) : prog Z := slot ← map_slot (pol_slot SLOT_POLICIES) id; get_word POLICY_REGISTRY_ADDRESS slot.
Definition set_policy_admin (id a : Z) : prog unit :=
  slot ← map_slot (pol_slot SLOT_POLICIES) id; put_word POLICY_REGISTRY_ADDRESS slot (pack_policy a).
Definition policy_word_exists (id : Z) : prog bool := w ← policy_word id; Ret (word_exists w).
Definition policy_admin (id : Z) : prog Z := w ← policy_word id; Ret (word_admin w).
Definition pending_admin (id : Z) : prog Z :=
  slot ← map_slot (pol_slot SLOT_PENDING_ADMINS) id;
  w ← get_word POLICY_REGISTRY_ADDRESS slot;
  Ret (address_of_word w).
Definition set_pending_admin (id a : Z) : prog unit :=
  slot ← map_slot (pol_slot SLOT_PENDING_ADMINS) id; put_word POLICY_REGISTRY_ADDRESS slot a.
Definition member_slot (id account : Z) : prog Z :=
  inner ← map_slot (pol_slot SLOT_MEMBERS) id; map_slot inner account.
Definition member (id account : Z) : prog bool :=
  slot ← member_slot id account; w ← get_word POLICY_REGISTRY_ADDRESS slot; Ret (negb (w =? 0)).
Definition set_member (id account : Z) (in_set : bool) : prog unit :=
  slot ← member_slot id account; put_word POLICY_REGISTRY_ADDRESS slot (bool_word in_set).

Definition children_slot (id : Z) : prog Z := map_slot (pol_slot SLOT_CHILDREN) id.

(** The loop of [children]; [None]: the frame ran out of gas in it. *)
Fixpoint read_children (base : Z) (is_ : list Z) : prog (option (list Z)) :=
  match is_ with
  | [] => Ret (Some [])
  | i :: is_ =>
      oog ← do_ IsOutOfGas;
      if (oog : bool) then Ret None
      else
        w ← get_word POLICY_REGISTRY_ADDRESS (wrap256 (base + i / 4));
        rest ← read_children base is_;
        Ret (cons (wrap64 (Z.shiftr w (i mod 4 * 64))) <$> (rest : option (list Z)))
  end.

Definition children (id : Z) : prog (list Z) :=
  slot ← children_slot id;
  w ← get_word POLICY_REGISTRY_ADDRESS slot;
  let n := wrap64 w in
  if (n =? 0) || (COMPOSITE_MAX_CHILDREN <? n) then Ret []
  else
    base ← string_data_root slot;
    out ← read_children base (seqZ 0 n);
    Ret (default [] (out : option (list Z))).

(** [kids[w * 4 + lane]] shifted to its lane, for the four lanes of word [w]. *)
Definition packed_children (kids : list Z) (w : Z) : Z :=
  fold_left (λ acc lane, match kids !! Z.to_nat (w * 4 + lane) with
                         | Some k => Z.lor acc (Z.shiftl k (lane * 64))
                         | None => acc end) (seqZ 0 4) 0.

Definition set_child_word (base : Z) (kids : list Z) (w : Z) : prog unit :=
  let packed := packed_children kids w in
  let slot_w := wrap256 (base + w) in
  if (packed =? 0) && (zlen kids <=? w * 4) then
    old ← get_word POLICY_REGISTRY_ADDRESS slot_w;
    if old =? 0 then Ret tt else put_word POLICY_REGISTRY_ADDRESS slot_w packed
  else put_word POLICY_REGISTRY_ADDRESS slot_w packed.

Definition set_children (id : Z) (kids : list Z) : prog unit :=
  slot ← children_slot id;
  _ ← put_word POLICY_REGISTRY_ADDRESS slot (zlen kids);
  base ← string_data_root slot;
  for_each (set_child_word base kids) (seqZ 0 (div_ceil COMPOSITE_MAX_CHILDREN 4)).

(** [for child in l { if f(child) == stop { return stop } } !stop] *)
Fixpoint first_child (f : Z → prog bool) (stop : bool) (l : list Z) : prog bool :=
  match l with
  | [] => Ret (negb stop)
  | child :: l =>
      b ← f child;
      if Bool.eqb b stop then Ret stop else first_child f stop l
  end.

Fixpoint is_authorized (depth : nat) (id account : Z) : prog bool :=
  match depth with
  | O => Crash
  | S depth =>
      if negb (id_well_formed id) then Ret false
      else if id =? ALWAYS_ALLOW then Ret true
      else if id =? ALWAYS_BLOCK then Ret false
      else if id_type id =? TYPE_UNION then
        kids ← children id;
        first_child (λ child, is_authorized depth child account) true kids
      else if id_type id =? TYPE_INTERSECT then
        kids ← children id;
        first_child (λ child, is_authorized depth child account) false kids
      else
        m ← member id account;
        Ret (if id_type id =? TYPE_ALLOWLIST then m else negb m)
  end.

Definition policy_exists (id : Z) : prog bool :=
  if negb (id_well_formed id) then Ret false
  else if is_sentinel_policy id then Ret true
  else policy_word_exists id.

Definition policy_admin_of (id : Z) : prog Z :=
  if negb (id_well_formed id) then Ret 0
  else w ← policy_word id; Ret (if word_exists w then word_admin w else 0).

Definition pending_policy_admin_of (id : Z) : prog Z :=
  if negb (id_well_formed id) || is_sentinel_policy id then Ret 0 else pending_admin id.

Definition ensure_initialized : prog Z :=
  c ← counter;
  if FIRST_ID <=? c then Ret c
  else
    _ ← set_policy_admin ALWAYS_ALLOW 0;
    _ ← set_policy_admin ALWAYS_BLOCK 0;
    _ ← set_counter FIRST_ID;
    Ret FIRST_ID.

Definition require_policy_exists (id : Z) : prog unit :=
  b ← policy_exists id; require b (rev ERR_POLICY_NOT_FOUND []).

Definition require_policy_admin env (id : Z) : prog unit :=
  _ ← require_policy_exists id;
  admin ← policy_admin id;
  require (negb ((admin =? 0) || negb (admin =? caller env))) (rev ERR_UNAUTHORIZED []).

Definition emit_policy_admin_updated env (id previous next : Z) : prog unit :=
  emit_log env [TOPIC_POLICY_ADMIN_UPDATED; id; previous; next] [].

Definition emit_members_updated env (ptype id updater : Z) (included : bool) (accounts : list Z) : prog unit :=
  emit_log env [if ptype =? TYPE_ALLOWLIST then TOPIC_ALLOWLIST_UPDATED else TOPIC_BLOCKLIST_UPDATED; id; updater]
    (encode_tuple [abi_word (bool_word included); abi_word_array accounts]).

Definition emit_composite_updated env (id admin : Z) (kids : list Z) : prog unit :=
  emit_log env [TOPIC_COMPOSITE_POLICY_UPDATED; id; admin] (encode_tuple [abi_word_array kids]).

Definition validate_children (kids : list Z) : prog (list Z) :=
  _ ← require (negb ((zlen kids <? COMPOSITE_MIN_CHILDREN) || (COMPOSITE_MAX_CHILDREN <? zlen kids)))
        (rev ERR_CHILD_POLICIES_OUTSIDE_OF_RANGE []);
  out ← lift (collect (λ w, ok_or (u64_from_word w) revert) kids);
  _ ← for_each (λ id, b ← policy_exists id; require b (rev ERR_POLICY_NOT_FOUND [])) out;
  _ ← for_each (λ id, require (negb (is_sentinel_policy id || is_composite id)) (rev ERR_INVALID_CHILD_POLICY [id])) out;
  Ret out.

(** A fresh id of type [ptype], with its admin. *)
Definition new_policy (ptype admin : Z) : prog Z :=
  c ← ensure_initialized;
  _ ← require (negb (COUNTER_MAX <=? c)) (rev_panic 0x11);
  let id := Z.lor (Z.shiftl ptype 56) c in
  _ ← set_counter (c + 1);
  _ ← set_policy_admin id admin;
  Ret id.

Definition create_composite_policy env args : prog bytes :=
  admin ← lift (read_address args 0);
  ptype_word ← lift (read_word args 1);
  _ ← require (is_enum_word ptype_word TYPE_INTERSECT) revert;
  let ptype := low_byte ptype_word in
  _ ← require (negb (admin =? 0)) (rev ERR_ZERO_ADDRESS []);
  _ ← require (is_composite (Z.shiftl ptype 56)) (rev ERR_INCOMPATIBLE_POLICY_TYPE []);
  raw_kids ← lift (read_word_array args 2);
  kids ← validate_children raw_kids;
  id ← new_policy ptype admin;
  _ ← set_children id kids;
  _ ← emit_log env [TOPIC_POLICY_CREATED; id; caller env] (be_encode 32 ptype);
  _ ← emit_policy_admin_updated env id 0 admin;
  _ ← emit_composite_updated env id admin kids;
  Ret (be_encode 32 id).

Definition update_composite env args : prog unit :=
  id ← lift (read_u64 args 0);
  _ ← require_policy_exists id;
  _ ← require (is_composite id) (rev ERR_INCOMPATIBLE_POLICY_TYPE []);
  admin ← policy_admin id;
  _ ← require (negb ((admin =? 0) || negb (admin =? caller env))) (rev ERR_UNAUTHORIZED []);
  raw_kids ← lift (read_word_array args 1);
  kids ← validate_children raw_kids;
  _ ← set_children id kids;
  emit_composite_updated env id (caller env) kids.

(** [address_from_word(a)?; set_member(..)] for each account *)
Definition set_members (id : Z) (in_set : bool) (accounts : list Z) : prog unit :=
  for_each (λ a, addr ← lift (ok_or (address_from_word a) revert); set_member id addr in_set) accounts.

Definition create_policy env args (with_accounts : bool) : prog bytes :=
  admin ← lift (read_address args 0);
  ptype_word ← lift (read_word args 1);
  let ptype := low_byte ptype_word in
  _ ← require (is_enum_word ptype_word TYPE_INTERSECT) revert;
  _ ← require (negb (admin =? 0)) (rev ERR_ZERO_ADDRESS []);
  _ ← require (negb (is_composite (Z.shiftl ptype 56))) (rev ERR_INCOMPATIBLE_POLICY_TYPE []);
  accounts ← (if with_accounts then
                accounts ← lift (read_word_array args 2);
                _ ← require (negb (BATCH_MAX <? zlen accounts)) (rev ERR_BATCH_SIZE_TOO_LARGE [BATCH_MAX]);
                Ret accounts
              else Ret []);
  id ← new_policy ptype admin;
  _ ← emit_log env [TOPIC_POLICY_CREATED; id; caller env] (be_encode 32 ptype);
  _ ← emit_policy_admin_updated env id 0 admin;
  _ ← (if with_accounts then
         _ ← set_members id true accounts;
         emit_members_updated env ptype id (caller env) true accounts
       else Ret tt);
  Ret (enc_u256 id).

Definition update_members env args (want_type : Z) : prog unit :=
  pid ← lift (read_u64 args 0);
  in_word ← lift (read_word args 1);
  _ ← require (is_enum_word in_word 1) revert;
  accounts ← lift (read_word_array args 2);
  _ ← require_policy_exists pid;
  _ ← require (id_type pid =? want_type) (rev ERR_INCOMPATIBLE_POLICY_TYPE []);
  _ ← require_policy_admin env pid;
  _ ← require (negb (BATCH_MAX <? zlen accounts)) (rev ERR_BATCH_SIZE_TOO_LARGE [BATCH_MAX]);
  let in_set := low_byte in_word =? 1 in
  _ ← set_members pid in_set accounts;
  emit_members_updated env want_type pid (caller env) in_set accounts.

Definition stage_update_admin env args : prog unit :=
  id ← lift (read_u64 args 0);
  new_admin ← lift (read_address args 1);
  _ ← require_policy_admin env id;
  _ ← set_pending_admin id new_admin;
  emit_log env [TOPIC_POLICY_ADMIN_STAGED; id; caller env; new_admin] [].

Definition finalize_update_admin env args : prog unit :=
  pid ← lift (read_u64 args 0);
  _ ← require_policy_exists pid;
  pending ← pending_admin pid;
  _ ← require (negb (pending =? 0)) (rev ERR_NO_PENDING_ADMIN []);
  _ ← require (pending =? caller env) (rev ERR_UNAUTHORIZED []);
  previous ← policy_admin pid;
  _ ← set_policy_admin pid (caller env);
  _ ← set_pending_admin pid 0;
  emit_policy_admin_updated env pid previous (caller env).

Definition renounce_admin env args : prog unit :=
  pid ← lift (read_u64 args 0);
  _ ← require_policy_admin env pid;
  _ ← set_policy_admin pid 0;
  _ ← set_pending_admin pid 0;
  emit_policy_admin_updated env pid (caller env) 0.

Definition is_policy_write (sel : Z) : bool :=
  (sel =? SEL_CREATE_POLICY) || (sel =? SEL_CREATE_POLICY_WITH_ACCOUNTS) || (sel =? SEL_UPDATE_ALLOWLIST)
  || (sel =? SEL_UPDATE_BLOCKLIST) || (sel =? SEL_STAGE_UPDATE_ADMIN) || (sel =? SEL_FINALIZE_UPDATE_ADMIN)
  || (sel =? SEL_RENOUNCE_ADMIN) || (sel =? SEL_CREATE_COMPOSITE) || (sel =? SEL_UPDATE_COMPOSITE).

Definition run_policy (depth : nat) env (input : bytes) : prog bytes :=
  _ ← require (negb (zlen input <? 4)) revert;
  let sel := selector_of input in
  let args := args_of input in
  if sel =? SEL_IS_AUTHORIZED then
    id ← lift (read_u64 args 0);
    acct ← lift (read_address args 1);
    b ← is_authorized depth id acct;
    Ret (enc_bool b)
  else if sel =? SEL_POLICY_EXISTS then
    id ← lift (read_u64 args 0);
    b ← policy_exists id;
    Ret (enc_bool b)
  else if sel =? SEL_POLICY_ADMIN then
    id ← lift (read_u64 args 0);
    a ← policy_admin_of id;
    Ret (enc_word a)
  else if sel =? SEL_PENDING_POLICY_ADMIN then
    id ← lift (read_u64 args 0);
    a ← pending_policy_admin_of id;
    Ret (enc_word a)
  else if sel =? SEL_MIN_COMPOSITE_CHILDREN then Ret (enc_u256 COMPOSITE_MIN_CHILDREN)
  else if sel =? SEL_MAX_COMPOSITE_CHILDREN then Ret (enc_u256 COMPOSITE_MAX_CHILDREN)
  else if sel =? SEL_COMPOSITE_CHILD_IDS then
    id ← lift (read_u64 args 0);
    kids ← children id;
    Ret (encode_tuple [abi_word_array kids])
  else if negb (is_policy_write sel) then Throw revert
  else
    _ ← require (negb (read_only env)) WriteProtection;
    _ ← ensure_feature_activated FEATURE_POLICY_REGISTRY;
    if sel =? SEL_CREATE_POLICY then create_policy env args false
    else if sel =? SEL_CREATE_POLICY_WITH_ACCOUNTS then create_policy env args true
    else if sel =? SEL_CREATE_COMPOSITE then create_composite_policy env args
    else if sel =? SEL_UPDATE_COMPOSITE then _ ← update_composite env args; Ret []
    else if sel =? SEL_UPDATE_ALLOWLIST then _ ← update_members env args TYPE_ALLOWLIST; Ret []
    else if sel =? SEL_UPDATE_BLOCKLIST then _ ← update_members env args TYPE_BLOCKLIST; Ret []
    else if sel =? SEL_STAGE_UPDATE_ADMIN then _ ← stage_update_admin env args; Ret []
    else if sel =? SEL_FINALIZE_UPDATE_ADMIN then _ ← finalize_update_admin env args; Ret []
    else if sel =? SEL_RENOUNCE_ADMIN then _ ← renounce_admin env args; Ret []
    else Throw revert.
End Registries.
