(* ===== verification/Cas20Token.v ===== *)
(** * Cas20Token: the token itself

    Models [token.rs] (the ERC-20 surface), [admin.rs] (roles, pausing, minting,
    burning, seizing, caps and policies), [permit.rs] (EIP-2612 and memos),
    [memo.rs] and [metadata.rs] of [src/evm/precompiles/cas20/].  Recovering an
    address from a signature is another crate's code ([Ecrecover]).

    A dispatcher that does not know a selector answers [None]; the tables are
    asked one after the other, as in [Token::dispatch]. *)

From stdpp Require Import base tactics numbers option list.
From Stdlib Require Import ZArith Lia Bool.
From S2P Require Import Prelude.
From S2P Require Import Cas20Sigs.
From S2P Require Import Cas20Frame.
From S2P Require Import Cas20Abi.
From S2P Require Import Cas20Storage.
From S2P Require Import Cas20Policy.

Definition PAUSE_TRANSFER : Z := 0.
Definition PAUSE_MINT : Z := 1.
Definition PAUSE_BURN : Z := 2.
Definition PAUSE_SEIZE : Z := 3.
(** [type(uint128).max] *)
Definition NO_SUPPLY_CAP : Z := 2 ^ 128 - 1.
(** [b"1"] *)
Definition EIP712_VERSION : bytes := [0x31].

Record Token := { ctx : Env; decimals : Z; privileged : bool; in_announce : bool }.
Definition token_new (env : Env) (d : Z) : Token :=
  {| ctx := env; decimals := d; privileged := false; in_announce := false |}.
Definition token_bootstrap (env : Env) (d : Z) : Token :=
  {| ctx := env; decimals := d; privileged := true; in_announce := false |}.

(** [secp256k1::ecrecover] of revm: the hash, the recovery id and the signature
    give a public key hash, or fail. *)
Class Ecrecover := { secp_recover : Z → Z → Z → Z → option Z }.

Definition SECP256K1_N : Z := 0xfffffffffffffffffffffffffffffffebaaedce6af48a03bbfd25e8cd0364141.
Definition SECP256K1_HALF_N : Z := 0x7fffffffffffffffffffffffffffffff5d576e7357a4501ddfe92f46681b20a0.

Definition policy_lane (scope : Z) : option (Z * Z) :=
  if scope =? SCOPE_TRANSFER_SENDER then Some (SLOT_TRANSFER_POLICIES, OFF_TRANSFER_SENDER)
  else if scope =? SCOPE_TRANSFER_RECEIVER then Some (SLOT_TRANSFER_POLICIES, OFF_TRANSFER_RECEIVER)
  else if scope =? SCOPE_TRANSFER_EXECUTOR then Some (SLOT_TRANSFER_POLICIES, OFF_TRANSFER_EXECUTOR)
  else if scope =? SCOPE_MINT_RECEIVER then Some (SLOT_MINT_POLICY, OFF_MINT_RECEIVER)
  else if scope =? SCOPE_SEIZE_EXEMPT then Some (SLOT_SEIZE_POLICIES, OFF_SEIZE_EXEMPT)
  else if scope =? SCOPE_SEIZE_RECEIVER then Some (SLOT_SEIZE_POLICIES, OFF_SEIZE_RECEIVER)
  else None.

Section Token.
Context `{K : Keccak} `{Ec : Ecrecover} (depth : nat).
Implicit Types (self : Token) (args : bytes).

(** ** The ERC-20 core ([token.rs]) *)

Definition at_of self : Z := self_addr (ctx self).
Definition msg_sender self : Z := caller (ctx self).

Definition require_writable self : prog unit := require (negb (read_only (ctx self))) WriteProtection.

Definition emit self (topic0 a b amount : Z) : prog unit :=
  emit_log (ctx self) [topic0; a; b] (be_encode 32 amount).

Definition is_paused self (bit : Z) : prog bool := w ← paused (at_of self); Ret (Z.testbit w bit).
Definition require_unpaused self (bit : Z) : prog unit :=
  p ← is_paused self bit; require (negb p) (rev ERR_CONTRACT_PAUSED [bit]).

Definition policy_allows (id account : Z) : prog bool :=
  if id =? 0 then Ret true else is_authorized depth id account.
Definition require_policy (id account scope : Z) : prog unit :=
  b ← policy_allows id account; require b (rev ERR_POLICY_FORBIDS [scope; id]).

Definition approve self (owner spender amount : Z) : prog bytes :=
  _ ← require_writable self;
  _ ← require (negb (owner =? 0)) (rev ERR_INVALID_APPROVER [owner]);
  _ ← require (negb (spender =? 0)) (rev ERR_INVALID_SPENDER [spender]);
  _ ← set_allowance (at_of self) owner spender amount;
  _ ← emit self TOPIC_APPROVAL owner spender amount;
  Ret (enc_bool true).

(** The two writes at the end of [move_balance] and [seize_with_memo]. *)
Definition shift_balance self (from to amount : Z) : prog unit :=
  from_slot ← balance_slot from;
  bal ← get_word (at_of self) from_slot;
  _ ← require (negb (bal <? amount)) (rev ERR_INSUFFICIENT_BALANCE [from; bal; amount]);
  _ ← put_word (at_of self) from_slot (bal - amount);
  to_slot ← balance_slot to;
  to_bal ← get_word (at_of self) to_slot;
  put_word (at_of self) to_slot (wrap256 (to_bal + amount)).

Definition move_balance self (from to amount : Z) : prog unit :=
  _ ← require (negb (to =? 0)) (rev ERR_INVALID_RECEIVER [to]);
  _ ← require (negb (from =? 0)) (rev ERR_INVALID_SENDER [from]);
  _ ← (if privileged self then Ret tt
       else
         ps ← transfer_policies (at_of self);
         let '(sender, receiver, _) := (ps : Z * Z * Z) in
         _ ← require_policy sender from SCOPE_TRANSFER_SENDER;
         require_policy receiver to SCOPE_TRANSFER_RECEIVER);
  shift_balance self from to amount.

Definition transfer self (from to amount : Z) : prog bytes :=
  _ ← require_writable self;
  _ ← require_unpaused self PAUSE_TRANSFER;
  _ ← move_balance self from to amount;
  _ ← emit self TOPIC_TRANSFER from to amount;
  Ret (enc_bool true).

Definition transfer_from self (spender from to amount : Z) : prog bytes :=
  _ ← require_writable self;
  _ ← require_unpaused self PAUSE_TRANSFER;
  _ ← require (negb (to =? 0)) (rev ERR_INVALID_RECEIVER [to]);
  _ ← require (negb (from =? 0)) (rev ERR_INVALID_SENDER [from]);
  slot ← allowance_slot from spender;
  allowed ← get_word (at_of self) slot;
  let infinite := allowed =? U256_MAX in
  _ ← require (infinite || negb (allowed <? amount)) (rev ERR_INSUFFICIENT_ALLOWANCE [spender; allowed; amount]);
  _ ← (if negb (privileged self) && negb (spender =? from) then
         ps ← transfer_policies (at_of self);
         let '(_, _, executor) := (ps : Z * Z * Z) in
         require_policy executor spender SCOPE_TRANSFER_EXECUTOR
       else Ret tt);
  _ ← (if infinite then Ret tt else put_word (at_of self) slot (allowed - amount));
  _ ← move_balance self from to amount;
  _ ← emit self TOPIC_TRANSFER from to amount;
  Ret (enc_bool true).

(** ** Roles ([admin.rs]) *)

Definition ensure_role self (role : Z) : prog unit :=
  if privileged self then Ret tt
  else
    b ← has_role (at_of self) role (msg_sender self);
    require b (rev ERR_AC_UNAUTHORIZED [msg_sender self; role]).

Definition ensure_role_mutable self (role : Z) : prog unit :=
  _ ← require_writable self;
  gone ← do_ AdminRenounced;
  frozen ← (if negb (privileged self) || gone then
              n ← admin_count (at_of self); Ret (n =? 0)
            else Ret false);
  if (frozen : bool) then
    admin ← role_admin (at_of self) role;
    Throw (rev ERR_AC_UNAUTHORIZED [msg_sender self; admin])
  else if privileged self then Ret tt
  else
    admin ← role_admin (at_of self) role;
    b ← has_role (at_of self) admin (msg_sender self);
    if (b : bool) then Ret tt
    else
      admin ← role_admin (at_of self) role;
      Throw (rev ERR_AC_UNAUTHORIZED [msg_sender self; admin]).

Definition grant_role self (role account : Z) : prog unit :=
  _ ← ensure_role_mutable self role;
  has ← has_role (at_of self) role account;
  if (has : bool) then Ret tt
  else
    _ ← set_role (at_of self) role account true;
    _ ← (if role =? ROLE_DEFAULT_ADMIN then
           n ← admin_count (at_of self); set_admin_count (at_of self) (wrap256 (n + 1))
         else Ret tt);
    emit_log (ctx self) [TOPIC_ROLE_GRANTED; role; account; msg_sender self] [].

(** [remove_role], with the [OutOfGas] both callers return when it fails. *)
Definition remove_role self (role account : Z) : prog unit :=
  has ← has_role (at_of self) role account;
  if negb has then Ret tt
  else
    _ ← set_role (at_of self) role account false;
    _ ← (if role =? ROLE_DEFAULT_ADMIN then
           n ← admin_count (at_of self); set_admin_count (at_of self) (wrap256 (n - 1))
         else Ret tt);
    emit_log (ctx self) [TOPIC_ROLE_REVOKED; role; account; msg_sender self] [].

(** The last admin cannot be removed by [revoke_role] and [renounce_role]. *)
Definition guard_last_admin self (role account : Z) : prog unit :=
  if role =? ROLE_DEFAULT_ADMIN then
    has ← has_role (at_of self) role account;
    if (has : bool) then
      n ← admin_count (at_of self);
      require (negb (n =? 1)) (rev ERR_LAST_ADMIN_CANNOT_RENOUNCE [])
    else Ret tt
  else Ret tt.

Definition revoke_role self (role account : Z) : prog unit :=
  _ ← ensure_role_mutable self role;
  _ ← guard_last_admin self role account;
  remove_role self role account.

Definition renounce_role self (role confirmation : Z) : prog unit :=
  _ ← require_writable self;
  _ ← require (confirmation =? msg_sender self) (rev ERR_AC_BAD_CONFIRMATION []);
  _ ← guard_last_admin self role (msg_sender self);
  remove_role self role (msg_sender self).

Definition renounce_last_admin self : prog unit :=
  _ ← require_writable self;
  b ← has_role (at_of self) ROLE_DEFAULT_ADMIN (msg_sender self);
  _ ← require b (rev ERR_AC_UNAUTHORIZED [msg_sender self; ROLE_DEFAULT_ADMIN]);
  n ← admin_count (at_of self);
  _ ← require (n =? 1) (rev ERR_NOT_SOLE_ADMIN []);
  _ ← set_role (at_of self) ROLE_DEFAULT_ADMIN (msg_sender self) false;
  _ ← set_admin_count (at_of self) 0;
  _ ← do_ (SetAdminRenounced true);
  _ ← emit_log (ctx self) [TOPIC_ROLE_REVOKED; ROLE_DEFAULT_ADMIN; msg_sender self; msg_sender self] [];
  emit_log (ctx self) [TOPIC_LAST_ADMIN_RENOUNCED; msg_sender self] [].

Definition set_role_admin self (role new_admin_role : Z) : prog unit :=
  _ ← ensure_role_mutable self role;
  prev ← role_admin (at_of self) role;
  _ ← store_role_admin (at_of self) role new_admin_role;
  emit_log (ctx self) [TOPIC_ROLE_ADMIN_CHANGED; role; prev; new_admin_role] [].

(** ** Pausing *)

(** The loop over the features: an out-of-range one reverts. *)
Fixpoint pause_mask (on : bool) (features : list Z) (p : Z) : exec Cas20Err Z :=
  match features with
  | [] => Done p
  | f :: features =>
      if PAUSE_SEIZE <? f then Fail revert
      else
        let mask := Z.shiftl 1 f in
        pause_mask on features (if on then Z.lor p mask else Z.land p (Z.lnot mask))
  end.

Definition set_pause self args (on : bool) : prog unit :=
  features ← lift (read_uint8_array args);
  _ ← require_writable self;
  _ ← ensure_role self (if on then ROLE_PAUSE else ROLE_UNPAUSE);
  _ ← require (negb (zlen features =? 0)) (rev ERR_EMPTY_FEATURE_SET []);
  r ← paused_checked (at_of self);
  p ← lift (ok_or r OutOfGas);
  p ← lift (pause_mask on features p);
  _ ← set_paused (at_of self) p;
  emit_log (ctx self) [if on then TOPIC_PAUSED else TOPIC_UNPAUSED; msg_sender self]
    (encode_tuple [abi_word_array features]).

(** ** Minting, burning, seizing *)

Definition mint_core self (to amount : Z) : prog unit :=
  _ ← require (negb (to =? 0)) (rev ERR_INVALID_RECEIVER [to]);
  mint_receiver ← mint_receiver_policy (at_of self);
  _ ← require_policy mint_receiver to SCOPE_MINT_RECEIVER;
  supply ← total_supply (at_of self);
  let new_supply := wrap256 (supply + amount) in
  _ ← require (supply + amount <? 2 ^ 256) (rev_panic 0x11);
  cap ← supply_cap (at_of self);
  _ ← require (negb (cap <? new_supply)) (rev ERR_SUPPLY_CAP_EXCEEDED [cap; new_supply]);
  to_slot ← balance_slot to;
  bal ← get_word (at_of self) to_slot;
  _ ← put_word (at_of self) to_slot (wrap256 (bal + amount));
  _ ← set_total_supply (at_of self) new_supply;
  emit self TOPIC_TRANSFER 0 to amount.

Definition mint self (to amount : Z) : prog unit :=
  _ ← require_writable self;
  _ ← require_unpaused self PAUSE_MINT;
  _ ← ensure_role self ROLE_MINT;
  mint_core self to amount.

Definition burn self (from amount : Z) : prog unit :=
  _ ← require_writable self;
  _ ← require_unpaused self PAUSE_BURN;
  _ ← ensure_role self ROLE_BURN;
  from_slot ← balance_slot from;
  bal ← get_word (at_of self) from_slot;
  _ ← require (negb (bal <? amount)) (rev ERR_INSUFFICIENT_BALANCE [from; bal; amount]);
  _ ← put_word (at_of self) from_slot (bal - amount);
  supply ← total_supply (at_of self);
  _ ← require (negb (supply <? amount)) (rev_panic 0x11);
  _ ← set_total_supply (at_of self) (supply - amount);
  emit self TOPIC_TRANSFER from 0 amount.

Definition emit_memo self (memo : Z) : prog unit := emit_log (ctx self) [TOPIC_MEMO; msg_sender self; memo] [].

Definition seize_with_memo self (from to amount memo : Z) : prog unit :=
  _ ← require_writable self;
  _ ← require_unpaused self PAUSE_SEIZE;
  _ ← ensure_role self ROLE_SEIZE;
  _ ← require (negb ((to =? 0) || (from =? to))) (rev ERR_INVALID_RECEIVER [to]);
  _ ← require (negb (from =? 0)) (rev ERR_INVALID_SENDER [from]);
  ps ← seize_policies (at_of self);
  let '(seize_exempt, seize_receiver) := (ps : Z * Z) in
  exempt ← policy_allows seize_exempt from;
  _ ← require (negb exempt) (rev ERR_ACCOUNT_NOT_SEIZABLE [from]);
  _ ← require_policy seize_receiver to SCOPE_SEIZE_RECEIVER;
  _ ← shift_balance self from to amount;
  _ ← emit self TOPIC_TRANSFER from to amount;
  _ ← emit_memo self memo;
  emit_log (ctx self) [TOPIC_SEIZED; msg_sender self; from; to] (be_encode 32 amount).

(** ** Configuration *)

Definition update_supply_cap self (new_cap : Z) : prog unit :=
  _ ← require_writable self;
  _ ← ensure_role self ROLE_DEFAULT_ADMIN;
  supply ← total_supply (at_of self);
  _ ← require (negb ((new_cap <? supply) || (NO_SUPPLY_CAP <? new_cap))) (rev ERR_INVALID_SUPPLY_CAP [supply; new_cap]);
  previous ← supply_cap (at_of self);
  _ ← set_supply_cap (at_of self) new_cap;
  emit_log (ctx self) [TOPIC_SUPPLY_CAP_UPDATED; msg_sender self] (be_encode 32 previous ++ be_encode 32 new_cap).

Definition update_policy self (scope id : Z) : prog unit :=
  _ ← require_writable self;
  _ ← ensure_role self ROLE_DEFAULT_ADMIN;
  lane ← lift (ok_or (policy_lane scope) (rev ERR_UNSUPPORTED_SCOPE [scope]));
  let '(slot, off) := (lane : Z * Z) in
  b ← policy_exists id;
  _ ← require b (rev ERR_POLICY_NOT_FOUND_ID [id]);
  previous ← get_packed_u64 (at_of self) slot off;
  _ ← set_packed_u64 (at_of self) slot off id;
  emit_log (ctx self) [TOPIC_POLICY_UPDATED; scope] (be_encode 32 previous ++ be_encode 32 id).
(** ** The table of [admin.rs] *)

(** [.map(|_| Vec::new())] *)
Definition returns_nothing (p : prog unit) : prog bytes := _ ← p; Ret [].

Definition read_role_account args : exec Cas20Err (Z * Z) :=
  role ← read_word args 0;
  account ← read_address args 1;
  Done (role, account).

Definition dispatch_admin self (sel : Z) args : option (prog bytes) :=
  if sel =? SEL_DEFAULT_ADMIN_ROLE then Some (Ret (enc_word ROLE_DEFAULT_ADMIN))
  else if sel =? SEL_MINT_ROLE then Some (Ret (enc_word ROLE_MINT))
  else if sel =? SEL_BURN_ROLE then Some (Ret (enc_word ROLE_BURN))
  else if sel =? SEL_SEIZE_ROLE then Some (Ret (enc_word ROLE_SEIZE))
  else if sel =? SEL_PAUSE_ROLE then Some (Ret (enc_word ROLE_PAUSE))
  else if sel =? SEL_UNPAUSE_ROLE then Some (Ret (enc_word ROLE_UNPAUSE))
  else if sel =? SEL_METADATA_ROLE then Some (Ret (enc_word ROLE_METADATA))
  else if sel =? SEL_HAS_ROLE then Some (
    role ← lift (read_word args 0);
    acct ← lift (read_address args 1);
    b ← has_role (at_of self) role acct;
    Ret (enc_bool b))
  else if sel =? SEL_GET_ROLE_ADMIN then Some (
    role ← lift (read_word args 0);
    w ← role_admin (at_of self) role;
    Ret (enc_word w))
  else if sel =? SEL_GRANT_ROLE then Some (
    ra ← lift (read_role_account args); returns_nothing (grant_role self ra.1 ra.2))
  else if sel =? SEL_REVOKE_ROLE then Some (
    ra ← lift (read_role_account args); returns_nothing (revoke_role self ra.1 ra.2))
  else if sel =? SEL_RENOUNCE_ROLE then Some (
    ra ← lift (read_role_account args); returns_nothing (renounce_role self ra.1 ra.2))
  else if sel =? SEL_SET_ROLE_ADMIN then Some (
    role ← lift (read_word args 0);
    new_admin ← lift (read_word args 1);
    returns_nothing (set_role_admin self role new_admin))
  else if sel =? SEL_RENOUNCE_LAST_ADMIN then Some (returns_nothing (renounce_last_admin self))
  else if sel =? SEL_IS_PAUSED then Some (
    w ← lift (read_word args 0);
    _ ← require (is_enum_word w PAUSE_SEIZE) revert;
    b ← is_paused self (low_byte w);
    Ret (enc_bool b))
  else if sel =? SEL_PAUSE then Some (returns_nothing (set_pause self args true))
  else if sel =? SEL_UNPAUSE then Some (returns_nothing (set_pause self args false))
  else if sel =? SEL_MINT then Some (
    to ← lift (read_address args 0);
    amount ← lift (read_u256 args 1);
    returns_nothing (mint self to amount))
  else if sel =? SEL_BURN then Some (
    amount ← lift (read_u256 args 0);
    returns_nothing (burn self (msg_sender self) amount))
  else if sel =? SEL_SEIZE_WITH_MEMO then Some (
    from ← lift (read_address args 0);
    to ← lift (read_address args 1);
    amount ← lift (read_u256 args 2);
    memo ← lift (read_word args 3);
    _ ← seize_with_memo self from to amount memo;
    Ret (enc_bool true))
  else if sel =? SEL_UPDATE_SUPPLY_CAP then Some (
    cap ← lift (read_u256 args 0);
    returns_nothing (update_supply_cap self cap))
  else if sel =? SEL_UPDATE_POLICY then Some (
    scope ← lift (read_word args 0);
    id ← lift (read_u64 args 1);
    returns_nothing (update_policy self scope id))
  else if sel =? SEL_TRANSFER_SENDER_SCOPE then Some (Ret (enc_word SCOPE_TRANSFER_SENDER))
  else if sel =? SEL_TRANSFER_RECEIVER_SCOPE then Some (Ret (enc_word SCOPE_TRANSFER_RECEIVER))
  else if sel =? SEL_TRANSFER_EXECUTOR_SCOPE then Some (Ret (enc_word SCOPE_TRANSFER_EXECUTOR))
  else if sel =? SEL_MINT_RECEIVER_SCOPE then Some (Ret (enc_word SCOPE_MINT_RECEIVER))
  else if sel =? SEL_SEIZE_EXEMPT_SCOPE then Some (Ret (enc_word SCOPE_SEIZE_EXEMPT))
  else if sel =? SEL_SEIZE_RECEIVER_SCOPE then Some (Ret (enc_word SCOPE_SEIZE_RECEIVER))
  else if sel =? SEL_POLICY_ID then Some (
    scope ← lift (read_word args 0);
    lane ← lift (ok_or (policy_lane scope) (rev ERR_UNSUPPORTED_SCOPE [scope]));
    id ← get_packed_u64 (at_of self) lane.1 lane.2;
    Ret (enc_u256 id))
  else None.

(** ** Metadata ([metadata.rs]) *)

Definition ensure_metadata_write self : prog unit :=
  _ ← require_writable self;
  ensure_role self ROLE_METADATA.

Definition update_name self (v : bytes) : prog unit :=
  _ ← ensure_metadata_write self;
  ok ← set_name (at_of self) v;
  _ ← require ok OutOfGas;
  _ ← emit_log (ctx self) [TOPIC_NAME_UPDATED; msg_sender self] (enc_string v);
  emit_log (ctx self) [TOPIC_EIP712_DOMAIN_CHANGED] [].

Definition update_symbol self (v : bytes) : prog unit :=
  _ ← ensure_metadata_write self;
  ok ← set_symbol (at_of self) v;
  _ ← require ok OutOfGas;
  emit_log (ctx self) [TOPIC_SYMBOL_UPDATED; msg_sender self] (enc_string v).

Definition update_contract_uri self (v : bytes) : prog unit :=
  _ ← ensure_metadata_write self;
  ok ← set_contract_uri (at_of self) v;
  _ ← require ok OutOfGas;
  emit_log (ctx self) [TOPIC_CONTRACT_URI_UPDATED] [].

Definition paused_features self : prog (list Z) :=
  p ← paused (at_of self);
  Ret (filter (λ f, Z.testbit p f = true) (seqZ 0 (PAUSE_SEIZE + 1))).

(** [fields.0[0] = 0x0f]: the top byte of the word. *)
Definition DOMAIN_FIELDS : Z := Z.shiftl 0x0f 248.

Definition eip712_domain self : prog (option bytes) :=
  nm ← name (at_of self);
  match nm with
  | None => Ret None
  | Some nm =>
      chain ← do_ ChainId;
      Ret (Some (encode_tuple [abi_word DOMAIN_FIELDS; abi_string nm; abi_string EIP712_VERSION;
                               abi_word chain; abi_word (at_of self); abi_word 0; abi_word_array []]))
  end.

Definition dispatch_metadata self (sel : Z) args : option (prog bytes) :=
  if sel =? SEL_CONTRACT_URI then Some (
    v ← contract_uri (at_of self);
    v ← lift (ok_or v OutOfGas);
    Ret (enc_string v))
  else if sel =? SEL_SUPPLY_CAP then Some (v ← supply_cap (at_of self); Ret (enc_u256 v))
  else if sel =? SEL_PAUSED_FEATURES then Some (fs ← paused_features self; Ret (encode_tuple [abi_word_array fs]))
  else if sel =? SEL_EIP712_DOMAIN then Some (d ← eip712_domain self; lift (ok_or d OutOfGas))
  else if sel =? SEL_UPDATE_NAME then Some (v ← lift (read_string_arg args 0); returns_nothing (update_name self v))
  else if sel =? SEL_UPDATE_SYMBOL then Some (v ← lift (read_string_arg args 0); returns_nothing (update_symbol self v))
  else if sel =? SEL_UPDATE_CONTRACT_URI then Some (
    v ← lift (read_string_arg args 0); returns_nothing (update_contract_uri self v))
  else None.

(** ** Permits and memos ([permit.rs]) *)

(** [a && b && ..] of charges: the first unpaid one stops. *)
Fixpoint charge_all (costs : list Z) : prog bool :=
  match costs with
  | [] => Ret true
  | cost :: costs => paid ← do_ (ChargeGas cost); if (paid : bool) then charge_all costs else Ret false
  end.

(** The free function [domain_separator]. *)
Definition eip712_separator (nm : bytes) (chain_id this : Z) : Z :=
  keccak256 (be_encode 32 DOMAIN_TYPEHASH ++ be_encode 32 (keccak256 nm) ++ be_encode 32 (keccak256 EIP712_VERSION)
             ++ be_encode 32 chain_id ++ be_encode 32 this).

Definition domain_separator self : prog (option Z) :=
  nm ← name (at_of self);
  match nm with
  | None => Ret None
  | Some nm =>
      paid ← charge_all [keccak_cost (zlen nm); keccak_cost (zlen EIP712_VERSION); keccak_cost 160];
      if negb paid then Ret None
      else chain ← do_ ChainId; Ret (Some (eip712_separator nm chain (at_of self)))
  end.

Definition ecrecover_address (hash v r s : Z) : option Z :=
  if negb (v =? 27) && negb (v =? 28) then None
  else if (r =? 0) || (s =? 0) || (SECP256K1_HALF_N <? s) || (SECP256K1_N <=? r) || (SECP256K1_N <=? s) then None
  else address_of_word <$> secp_recover hash (v - 27) r s.

Definition permit_struct (owner spender value n deadline : Z) : bytes :=
  be_encode 32 PERMIT_TYPEHASH ++ be_encode 32 owner ++ be_encode 32 spender ++ be_encode 32 value
  ++ be_encode 32 n ++ be_encode 32 deadline.
Definition permit_digest (dom : Z) (struct_hash : bytes) : Z :=
  keccak256 ([0x19; 0x01] ++ be_encode 32 dom ++ be_encode 32 (keccak256 struct_hash)).

Definition permit self (owner spender value deadline v r s : Z) : prog bytes :=
  _ ← require_writable self;
  _ ← require (negb (owner =? 0)) (rev ERR_INVALID_APPROVER [owner]);
  now ← do_ BlockTime;
  _ ← require (negb (deadline <? now)) (rev ERR_EXPIRED_SIGNATURE [deadline]);
  n ← nonce (at_of self) owner;
  let struct_hash := permit_struct owner spender value n deadline in
  dom ← domain_separator self;
  dom ← lift (ok_or dom OutOfGas);
  paid ← charge_all [keccak_cost (zlen struct_hash); keccak_cost 66; ECRECOVER_GAS];
  _ ← require paid OutOfGas;
  let signer := ecrecover_address (permit_digest dom struct_hash) v r s in
  _ ← require (bool_decide (signer = Some owner)) (rev ERR_INVALID_SIGNER [default 0 signer; owner]);
  _ ← require (negb (spender =? 0)) (rev ERR_INVALID_SPENDER [spender]);
  _ ← set_nonce (at_of self) owner (wrap256 (n + 1));
  _ ← set_allowance (at_of self) owner spender value;
  _ ← emit self TOPIC_APPROVAL owner spender value;
  Ret [].

Definition decode_permit self args : prog bytes :=
  owner ← lift (read_address args 0);
  spender ← lift (read_address args 1);
  value ← lift (read_u256 args 2);
  deadline ← lift (read_u256 args 3);
  v ← lift (read_strict_uint8 args 4);
  r ← lift (read_word args 5);
  s ← lift (read_word args 6);
  permit self owner spender value deadline v r s.

Definition read_to_amount_memo args : exec Cas20Err (Z * Z * Z) :=
  to ← read_address args 0;
  amount ← read_u256 args 1;
  memo ← read_word args 2;
  Done (to, amount, memo).

Definition dispatch_permit_memo self (sel : Z) args : option (prog bytes) :=
  if sel =? SEL_DOMAIN_SEPARATOR then Some (
    d ← domain_separator self;
    d ← lift (ok_or d OutOfGas);
    Ret (enc_word d))
  else if sel =? SEL_NONCES then Some (
    owner ← lift (read_address args 0);
    n ← nonce (at_of self) owner;
    Ret (enc_u256 n))
  else if sel =? SEL_PERMIT then Some (decode_permit self args)
  else if sel =? SEL_TRANSFER_WITH_MEMO then Some (
    tam ← lift (read_to_amount_memo args);
    let '(to, amount, memo) := (tam : Z * Z * Z) in
    ret ← transfer self (msg_sender self) to amount;
    _ ← emit_memo self memo;
    Ret ret)
  else if sel =? SEL_TRANSFER_FROM_WITH_MEMO then Some (
    from ← lift (read_address args 0);
    to ← lift (read_address args 1);
    amount ← lift (read_u256 args 2);
    memo ← lift (read_word args 3);
    ret ← transfer_from self (msg_sender self) from to amount;
    _ ← emit_memo self memo;
    Ret ret)
  else if sel =? SEL_MINT_WITH_MEMO then Some (
    tam ← lift (read_to_amount_memo args);
    let '(to, amount, memo) := (tam : Z * Z * Z) in
    _ ← mint self to amount;
    _ ← emit_memo self memo;
    Ret [])
  else if sel =? SEL_BURN_WITH_MEMO then Some (
    amount ← lift (read_u256 args 0);
    memo ← lift (read_word args 1);
    _ ← burn self (msg_sender self) amount;
    _ ← emit_memo self memo;
    Ret [])
  else None.

(** ** Declared memo formats ([memo.rs]) *)

Definition transfer_with_memo_format self (format memo : Z) (transfer : prog bytes) : prog bytes :=
  _ ← require_writable self;
  _ ← require (negb (format =? 0)) (rev ERR_INVALID_FORMAT_ID []);
  ret ← transfer;
  _ ← emit_memo self memo;
  _ ← emit_log (ctx self) [TOPIC_MEMO_FORMAT_DECLARED; msg_sender self; memo; format] [];
  Ret ret.

Definition dispatch_memo_format self (sel : Z) args : option (prog bytes) :=
  if sel =? SEL_TRANSFER_WITH_MEMO_FORMAT then Some (
    tam ← lift (read_to_amount_memo args);
    let '(to, amount, memo) := (tam : Z * Z * Z) in
    format ← lift (read_word args 3);
    transfer_with_memo_format self format memo (transfer self (msg_sender self) to amount))
  else if sel =? SEL_TRANSFER_FROM_WITH_MEMO_FORMAT then Some (
    from ← lift (read_address args 0);
    to ← lift (read_address args 1);
    amount ← lift (read_u256 args 2);
    memo ← lift (read_word args 3);
    format ← lift (read_word args 4);
    transfer_with_memo_format self format memo (transfer_from self (msg_sender self) from to amount))
  else None.

(** ** [Token::dispatch] *)

Definition dispatch_erc20 self (sel : Z) args : option (prog bytes) :=
  if sel =? SEL_NAME then Some (v ← name (at_of self); v ← lift (ok_or v OutOfGas); Ret (enc_string v))
  else if sel =? SEL_SYMBOL then Some (v ← symbol (at_of self); v ← lift (ok_or v OutOfGas); Ret (enc_string v))
  else if sel =? SEL_DECIMALS then Some (Ret (enc_u256 (decimals self)))
  else if sel =? SEL_TOTAL_SUPPLY then Some (v ← total_supply (at_of self); Ret (enc_u256 v))
  else if sel =? SEL_BALANCE_OF then Some (
    a ← lift (read_address args 0);
    v ← balance_of (at_of self) a;
    Ret (enc_u256 v))
  else if sel =? SEL_ALLOWANCE then Some (
    owner ← lift (read_address args 0);
    spender ← lift (read_address args 1);
    v ← allowance (at_of self) owner spender;
    Ret (enc_u256 v))
  else if sel =? SEL_APPROVE then Some (
    spender ← lift (read_address args 0);
    amount ← lift (read_u256 args 1);
    approve self (msg_sender self) spender amount)
  else if sel =? SEL_TRANSFER then Some (
    to ← lift (read_address args 0);
    amount ← lift (read_u256 args 1);
    transfer self (msg_sender self) to amount)
  else if sel =? SEL_TRANSFER_FROM then Some (
    from ← lift (read_address args 0);
    to ← lift (read_address args 1);
    amount ← lift (read_u256 args 2);
    transfer_from self (msg_sender self) from to amount)
  else None.

(** The first table that knows the selector. *)
Fixpoint first_table (tables : list (option (prog bytes))) : prog bytes :=
  match tables with
  | [] => Throw revert
  | Some p :: _ => p
  | None :: tables => first_table tables
  end.

Definition dispatch self (input : bytes) : prog bytes :=
  _ ← require (negb (zlen input <? 4)) revert;
  let sel := selector_of input in
  let args := args_of input in
  first_table [dispatch_erc20 self sel args; dispatch_admin self sel args; dispatch_metadata self sel args;
               dispatch_permit_memo self sel args; dispatch_memo_format self sel args].
End Token.
