(* ===== verification/Cas20Asset.v ===== *)
(** * Cas20Asset: the two token variants

    Models [asset.rs] (decimals, the scheduled UI multiplier of ERC-8056,
    announcements, extra metadata, batch minting) and [stablecoin.rs] of
    [src/evm/precompiles/cas20/].

    An announcement runs internal calls through the dispatcher of the token
    itself; a nested announcement reverts, so two levels of [nesting] are all
    there is ([asset_dispatch_two]). *)

From stdpp Require Import base tactics numbers option list.
From Stdlib Require Import ZArith Lia Bool.
From S2P Require Import Prelude.
From S2P Require Import Cas20Sigs.
From S2P Require Import Cas20Frame.
From S2P Require Import Cas20Abi.
From S2P Require Import Cas20Storage.
From S2P Require Import Cas20Policy.
From S2P Require Import Cas20Token.

Definition SLOT_DECIMALS : Z := 0.
Definition SLOT_MULTIPLIER : Z := 1.
Definition SLOT_ANNOUNCEMENTS : Z := 2.
Definition SLOT_EXTRA_META : Z := 3.
Definition SLOT_PENDING : Z := 4.
Definition PENDING_WHEN_BITS : Z := 128.

Definition WAD : Z := 10 ^ 18.
Definition U128_MASK : Z := 2 ^ 128 - 1.

Definition INTERFACE_IDS : list Z := [0x01ffc9a7; 0xa60bf13d; 0x4bd27648; 0xd890fd71; 0x57854fc3].

Definition asset_slot (offset : Z) : Z := offset_slot ROOT_ASSET offset.

(** The packed schedule: the multiplier and when it takes effect. *)
Definition unpack_pending (w : Z) : Z * Z := (Z.land w U128_MASK, wrap64 (Z.shiftr w PENDING_WHEN_BITS)).
Definition pack_pending (mul effective_at : Z) : Z :=
  Z.lor (Z.land mul U128_MASK) (Z.shiftl effective_at PENDING_WHEN_BITS).

Definition apply_multiplier (raw mul : Z) : exec Cas20Err Z :=
  if raw * mul <? 2 ^ 256 then Done (raw * mul / WAD) else Fail (rev_panic 0x11).
(** A zero multiplier answers zero, as [Z.div] does. *)
Definition remove_multiplier (scaled mul : Z) : exec Cas20Err Z :=
  if scaled * WAD <? 2 ^ 256 then Done (scaled * WAD / mul) else Fail (rev_panic 0x11).

(** [Ctx::charge_internal_dispatch] *)
Definition charge_internal_dispatch (call : bytes) : prog bool :=
  do_ (ChargeGas (add64 WARM_STORAGE_READ_COST (mul64 (div_ceil (zlen call) 32) CALLDATA_WORD_GAS))).

Definition set_in_announce (self : Token) : Token :=
  {| ctx := ctx self; decimals := decimals self; privileged := privileged self; in_announce := true |}.

Section Asset.
Context `{K : Keccak} `{Ec : Ecrecover} (depth : nat).
Implicit Types (tok : Token) (args : bytes).

(** ** Storage *)

Definition asset_decimals tok : prog Z := w ← get_word (at_of tok) (asset_slot SLOT_DECIMALS); Ret (w mod 256).
Definition set_asset_decimals tok (d : Z) : prog unit := put_word (at_of tok) (asset_slot SLOT_DECIMALS) d.
Definition multiplier tok : prog Z := get_word (at_of tok) (asset_slot SLOT_MULTIPLIER).
Definition set_multiplier tok (m : Z) : prog unit := put_word (at_of tok) (asset_slot SLOT_MULTIPLIER) m.

Definition pending tok : prog (Z * Z) :=
  w ← get_word (at_of tok) (asset_slot SLOT_PENDING); Ret (unpack_pending w).
Definition set_pending tok (mul effective_at : Z) : prog unit :=
  put_word (at_of tok) (asset_slot SLOT_PENDING) (pack_pending mul effective_at).
Definition clear_pending tok : prog unit := put_word (at_of tok) (asset_slot SLOT_PENDING) 0.

Definition settle_matured tok (now : Z) : prog unit :=
  ma ← pending tok;
  let '(mul, at_) := (ma : Z * Z) in
  if negb (at_ =? 0) && (at_ <=? now) then set_multiplier tok mul else Ret tt.

Definition effective_multiplier tok (now : Z) : prog Z :=
  ma ← pending tok;
  let '(mul, at_) := (ma : Z * Z) in
  if negb (at_ =? 0) && (at_ <=? now) then Ret mul else multiplier tok.

Definition announcement_slot (id : bytes) : prog Z := str_map_slot (asset_slot SLOT_ANNOUNCEMENTS) id.
Definition announcement_used tok (id : bytes) : prog (option bool) :=
  slot ← announcement_slot id;
  r ← get_word_checked (at_of tok) slot;
  Ret ((λ w, negb (w =? 0)) <$> (r : option Z)).
Definition mark_announcement tok (id : bytes) : prog bool :=
  slot ← announcement_slot id; set_word (at_of tok) slot 1.

Definition extra_meta_slot (key : bytes) : prog Z := str_map_slot (asset_slot SLOT_EXTRA_META) key.
Definition extra_metadata tok (key : bytes) : prog (option bytes) :=
  slot ← extra_meta_slot key; get_string_at (at_of tok) slot.
Definition set_extra_metadata tok (key v : bytes) : prog bool :=
  slot ← extra_meta_slot key; set_string_at (at_of tok) slot v.

Definition init_asset_extension tok (d : Z) : prog unit :=
  _ ← set_asset_decimals tok d; set_multiplier tok WAD.

(** ** Operations *)

Definition update_extra_metadata tok (key v : bytes) : prog unit :=
  _ ← require_writable tok;
  _ ← ensure_role tok ROLE_METADATA;
  _ ← require (negb (zlen key =? 0)) (rev ERR_INVALID_METADATA_KEY []);
  ok ← set_extra_metadata tok key v;
  _ ← require ok OutOfGas;
  emit_log (ctx tok) [TOPIC_EXTRA_METADATA_UPDATED] (encode_tuple [abi_string key; abi_string v]).

(** One internal call of an announcement. *)
Definition internal_call (dispatcher : Token → bytes → prog bytes) tok (c : bytes) : prog unit :=
  paid ← charge_internal_dispatch c;
  _ ← require paid OutOfGas;
  _ ← require (negb (zlen c <? 4)) (rev_bytes ERR_INTERNAL_CALL_MALFORMED c);
  r ← attempt (dispatcher tok c);
  match (r : Cas20Err + bytes) with
  | inl _ => Throw (rev_bytes ERR_INTERNAL_CALL_FAILED c)
  | inr _ => Ret tt
  end.

Definition announce (dispatcher : Token → bytes → prog bytes) tok args : prog unit :=
  calls ← lift (read_bytes_array args 0);
  id ← lift (read_string_arg args 1);
  description ← lift (read_string_arg args 2);
  uri ← lift (read_string_arg args 3);
  _ ← require_writable tok;
  _ ← require (negb (in_announce tok)) (rev ERR_ANNOUNCEMENT_IN_PROGRESS []);
  _ ← ensure_role tok ROLE_OPERATOR;
  r ← announcement_used tok id;
  used ← lift (ok_or r OutOfGas);
  _ ← require (negb used) (rev_bytes ERR_ANNOUNCEMENT_ID_ALREADY_USED id);
  ok ← mark_announcement tok id;
  _ ← require ok OutOfGas;
  _ ← emit_log (ctx tok) [TOPIC_ANNOUNCEMENT; msg_sender tok]
        (encode_tuple [abi_string id; abi_string description; abi_string uri]);
  _ ← for_each (internal_call dispatcher (set_in_announce tok)) calls;
  emit_log (ctx tok) [TOPIC_END_ANNOUNCEMENT] (encode_tuple [abi_string id]).

Definition update_ui_multiplier tok (new_mul at_ : Z) : prog unit :=
  _ ← require_writable tok;
  _ ← ensure_role tok ROLE_OPERATOR;
  _ ← require (negb ((new_mul =? 0) || (U128_MASK <? new_mul))) (rev ERR_INVALID_MULTIPLIER []);
  now ← do_ BlockTime;
  _ ← require (negb (at_ <=? now)) (rev ERR_EFFECTIVE_AT_IN_PAST [at_]);
  _ ← require (negb (u64_max <? at_)) (rev ERR_EFFECTIVE_AT_TOO_FAR [at_]);
  ma ← pending tok;
  let existing := ma.2 in
  _ ← require (negb (now <? existing)) (rev ERR_UI_MUL_EXISTS [existing]);
  _ ← settle_matured tok now;
  previous ← multiplier tok;
  _ ← set_pending tok new_mul at_;
  emit_log (ctx tok) [TOPIC_UI_MULTIPLIER_UPDATED] (be_encode 32 previous ++ be_encode 32 new_mul ++ be_encode 32 at_).

Definition cancel_ui_multiplier tok : prog unit :=
  _ ← require_writable tok;
  _ ← ensure_role tok ROLE_OPERATOR;
  ma ← pending tok;
  let '(mul, at_) := (ma : Z * Z) in
  now ← do_ BlockTime;
  _ ← require (negb (at_ <=? now)) (rev ERR_UI_MUL_MISSING []);
  _ ← clear_pending tok;
  emit_log (ctx tok) [TOPIC_UI_MULTIPLIER_UPDATE_CANCELLED] (be_encode 32 mul ++ be_encode 32 at_).

Definition update_multiplier tok (new_mul : Z) : prog unit :=
  _ ← require_writable tok;
  _ ← ensure_role tok ROLE_OPERATOR;
  _ ← require (negb ((new_mul =? 0) || (U128_MASK <? new_mul))) (rev ERR_INVALID_MULTIPLIER []);
  now ← do_ BlockTime;
  previous ← effective_multiplier tok now;
  ma ← pending tok;
  let '(pending_mul, at_) := (ma : Z * Z) in
  _ ← (if negb (at_ =? 0) then
         _ ← clear_pending tok;
         if now <? at_ then
           emit_log (ctx tok) [TOPIC_UI_MULTIPLIER_UPDATE_CANCELLED] (be_encode 32 pending_mul ++ be_encode 32 at_)
         else Ret tt
       else Ret tt);
  _ ← set_multiplier tok new_mul;
  _ ← emit_log (ctx tok) [TOPIC_MULTIPLIER_UPDATED] (be_encode 32 new_mul);
  emit_log (ctx tok) [TOPIC_UI_MULTIPLIER_UPDATED] (be_encode 32 previous ++ be_encode 32 new_mul ++ be_encode 32 now).

(** One recipient of a batch. *)
Definition batch_entry tok (ra : Z * Z) : prog unit :=
  oog ← do_ IsOutOfGas;
  _ ← require (negb oog) OutOfGas;
  to ← lift (ok_or (address_from_word ra.1) revert);
  mint_core depth tok to ra.2.

Definition batch_mint tok args : prog unit :=
  recipients ← lift (read_word_array args 0);
  amounts ← lift (read_word_array args 1);
  _ ← require_writable tok;
  _ ← require_unpaused tok PAUSE_MINT;
  _ ← ensure_role tok ROLE_MINT;
  _ ← require (zlen recipients =? zlen amounts) (rev ERR_LENGTH_MISMATCH [zlen recipients; zlen amounts]);
  _ ← require (negb (zlen recipients =? 0)) (rev ERR_EMPTY_BATCH []);
  for_each (batch_entry tok) (zip recipients amounts).

(** ** The table of [asset.rs] *)

Definition dispatch_asset (dispatcher : Token → bytes → prog bytes) tok (now sel : Z) args : option (prog bytes) :=
  if sel =? SEL_DECIMALS then Some (d ← asset_decimals tok; Ret (enc_u256 d))
  else if (sel =? SEL_MULTIPLIER) || (sel =? SEL_UI_MULTIPLIER) then Some (
    m ← effective_multiplier tok now; Ret (enc_u256 m))
  else if sel =? SEL_WAD_PRECISION then Some (Ret (enc_u256 WAD))
  else if sel =? SEL_MAX_UI_MULTIPLIER then Some (Ret (enc_u256 U128_MASK))
  else if sel =? SEL_OPERATOR_ROLE then Some (Ret (enc_word ROLE_OPERATOR))
  else if sel =? SEL_NEW_UI_MULTIPLIER then Some (
    ma ← pending tok;
    let '(mul, at_) := (ma : Z * Z) in
    if at_ <=? now then m ← effective_multiplier tok now; Ret (enc_u256 m) else Ret (enc_u256 mul))
  else if sel =? SEL_EFFECTIVE_AT then Some (ma ← pending tok; Ret (enc_u256 ma.2))
  else if sel =? SEL_TOTAL_SUPPLY_UI then Some (
    supply ← total_supply (at_of tok);
    mul ← effective_multiplier tok now;
    v ← lift (apply_multiplier supply mul);
    Ret (enc_u256 v))
  else if sel =? SEL_SUPPORTS_INTERFACE then Some (
    id ← lift (read_word args 0);
    _ ← require (id mod 2 ^ 224 =? 0) revert;
    Ret (enc_bool (existsb (Z.eqb (Z.shiftr id 224)) INTERFACE_IDS)))
  else if sel =? SEL_CANCEL_UI_MULTIPLIER then Some (returns_nothing (cancel_ui_multiplier tok))
  else if sel =? SEL_UPDATE_UI_MULTIPLIER then Some (
    mul ← lift (read_u256 args 0);
    at_ ← lift (read_u256 args 1);
    returns_nothing (update_ui_multiplier tok mul at_))
  else if (sel =? SEL_SCALED_BALANCE_OF) || (sel =? SEL_BALANCE_OF_UI) then Some (
    a ← lift (read_address args 0);
    bal ← balance_of (at_of tok) a;
    mul ← effective_multiplier tok now;
    v ← lift (apply_multiplier bal mul);
    Ret (enc_u256 v))
  else if (sel =? SEL_TO_SCALED_BALANCE) || (sel =? SEL_TO_UI_AMOUNT) then Some (
    raw ← lift (read_u256 args 0);
    mul ← effective_multiplier tok now;
    v ← lift (apply_multiplier raw mul);
    Ret (enc_u256 v))
  else if (sel =? SEL_TO_RAW_BALANCE) || (sel =? SEL_FROM_UI_AMOUNT) then Some (
    scaled ← lift (read_u256 args 0);
    mul ← effective_multiplier tok now;
    v ← lift (remove_multiplier scaled mul);
    Ret (enc_u256 v))
  else if sel =? SEL_UPDATE_MULTIPLIER then Some (
    m ← lift (read_u256 args 0); returns_nothing (update_multiplier tok m))
  else if sel =? SEL_BATCH_MINT then Some (returns_nothing (batch_mint tok args))
  else if sel =? SEL_IS_ANNOUNCEMENT_ID_USED then Some (
    id ← lift (read_string_arg args 0);
    r ← announcement_used tok id;
    used ← lift (ok_or r OutOfGas);
    Ret (enc_bool used))
  else if sel =? SEL_ANNOUNCE then Some (returns_nothing (announce dispatcher tok args))
  else if sel =? SEL_EXTRA_METADATA then Some (
    key ← lift (read_string_arg args 0);
    r ← extra_metadata tok key;
    v ← lift (ok_or r OutOfGas);
    Ret (enc_string v))
  else if sel =? SEL_UPDATE_EXTRA_METADATA then Some (
    key ← lift (read_string_arg args 0);
    v ← lift (read_string_arg args 1);
    returns_nothing (update_extra_metadata tok key v))
  else None.

Fixpoint asset_dispatch (nesting : nat) tok (input : bytes) : prog bytes :=
  match nesting with
  | O => Crash
  | S nesting =>
      if zlen input <? 4 then dispatch depth tok input
      else
        now ← do_ BlockTime;
        match dispatch_asset (asset_dispatch nesting) tok now (selector_of input) (args_of input) with
        | Some p => p
        | None => dispatch depth tok input
        end
  end.

(** ** Stablecoins *)

Definition SLOT_CURRENCY : Z := 0.
Definition stablecoin_slot (offset : Z) : Z := offset_slot ROOT_STABLECOIN offset.
Definition currency tok : prog (option bytes) := get_string_at (at_of tok) (stablecoin_slot SLOT_CURRENCY).
Definition set_currency tok (v : bytes) : prog bool := set_string_at (at_of tok) (stablecoin_slot SLOT_CURRENCY) v.

Definition stablecoin_dispatch tok (input : bytes) : prog bytes :=
  if (4 <=? zlen input) && (selector_of input =? SEL_CURRENCY) then
    r ← currency tok;
    v ← lift (ok_or r OutOfGas);
    Ret (enc_string v)
  else dispatch depth tok input.
End Asset.
