(* ===== verification/Cas20Factory.v ===== *)
(** * Cas20Factory: creating tokens, and the entry of a CAS20 call

    Models [factory.rs] (addresses, creation with its bootstrap calls) and
    [mod.rs] (routing, the prologue of a call, its exit) of
    [src/evm/precompiles/cas20/].  Addresses are numbers of 20 bytes: the byte
    at index [i] is that of weight [256 ^ (19 - i)]. *)

From stdpp Require Import base tactics numbers option list gmap strings.
From Stdlib Require Import ZArith Lia Bool.
From S2P Require Import Prelude.
From S2P Require Import Hardforks.
From S2P Require Import Cas20Sigs.
From S2P Require Import Cas20Frame.
From S2P Require Import Cas20Abi.
From S2P Require Import Cas20Storage.
From S2P Require Import Cas20Policy.
From S2P Require Import Cas20Token.
From S2P Require Import Cas20Asset.

(** ** Routing ([mod.rs]) *)

Definition MARKER_PREFIX : Z := 0xca52.
Definition VARIANT_ASSET : Z := 0x00.
Definition VARIANT_STABLECOIN : Z := 0x01.
Definition VARIANT_MAX : Z := VARIANT_STABLECOIN.
Definition FACTORY_ADDRESS : Z := 0xCA5F000000000000000000000000000000000000.
Definition MARKER_CODE : bytes := [0xEF].

(** [addr[i]], and the first two bytes. *)
Definition addr_byte (a i : Z) : Z := Z.shiftr a ((19 - i) * 8) mod 256.
Definition addr_prefix (a : Z) : Z := Z.shiftr a 144.

Definition is_cas20_address (a : Z) : bool :=
  (addr_prefix a =? MARKER_PREFIX) && forallb (λ i, addr_byte a i =? 0) (seqZ 2 8).

Definition variant_feature (variant : Z) : option Z :=
  if variant =? VARIANT_ASSET then Some FEATURE_ASSET
  else if variant =? VARIANT_STABLECOIN then Some FEATURE_STABLECOIN
  else None.

Inductive Kind := KFactory | KPolicy | KActivation | KAsset | KStablecoin.
#[export] Instance kind_eq_dec : EqDecision Kind.
Proof. solve_decision. Defined.

Definition resolve (a : Z) : option Kind :=
  if (addr_prefix a =? 0xca52) && is_cas20_address a then
    if addr_byte a 10 =? VARIANT_ASSET then Some KAsset
    else if addr_byte a 10 =? VARIANT_STABLECOIN then Some KStablecoin
    else None
  else if (addr_prefix a =? 0xca5f) && (a =? FACTORY_ADDRESS) then Some KFactory
  else if addr_prefix a =? 0x7020 then
    if a =? POLICY_REGISTRY_ADDRESS then Some KPolicy
    else if a =? ACTIVATION_REGISTRY_ADDRESS then Some KActivation
    else None
  else None.

Definition is_cas20_precompile (a : Z) : bool := bool_decide (is_Some (resolve a)).

(** [Cas20Lookup::lookup]: [disabled] are the accounts whose code a caller overrides. *)
Definition lookup_precompile (spec : BscHardfork) (disabled : list Z) (a : Z) : option Kind :=
  if negb (fork_rank Jenner <=? fork_rank spec) then None
  else kind ← resolve a; if bool_decide (a ∈ disabled) then None else Some kind.

(** [Ctx::charge_calldata] *)
Definition charge_calldata (input : bytes) : prog bool :=
  let words := div_ceil (zlen input) 32 in
  if words =? 0 then Ret true else do_ (ChargeGas (mul64 words CALLDATA_WORD_GAS)).

Definition initialized_metered (a : Z) : prog bool :=
  r ← do_ (AccountAccess a);
  Ret (match r with Some hash => hash =? MARKER_CODE_HASH | None => false end).

Section Factory.
Context `{K : Keccak} `{Ec : Ecrecover} (depth : nat).
Implicit Types (env : Env) (args : bytes).

Definition address_occupied (a : Z) : prog bool :=
  r ← do_ (AccountAccess a);
  Ret (match r with None => true | Some hash => negb (had_no_code hash) end).

(** ** Creation ([factory.rs]) *)

Definition PARAMS_VERSION : Z := 1.
Definition MIN_DECIMALS : Z := 6.
Definition MAX_DECIMALS : Z := 18.

(** The prefix, eight zero bytes, the variant and the first nine bytes of the hash. *)
Definition derive_address (variant creator salt : Z) : Z :=
  let h := keccak256 (be_encode 32 creator ++ be_encode 32 salt) in
  MARKER_PREFIX * 2 ^ 144 + variant * 2 ^ 72 + Z.shiftr h 184.

Record CreateParams := {
  cp_variant : Z;
  cp_name : bytes;
  cp_symbol : bytes;
  cp_initial_admin : Z;
  cp_decimals : Z;
  cp_currency : bytes;
}.

Definition decode_create_params (variant : Z) (params : bytes) : exec Cas20Err CreateParams :=
  off ← word_u64_or_revert params 0;
  if zlen params <? off then Fail revert
  else
    body ← slice params off (zlen params);
    version ← read_strict_uint8 body 0;
    if negb (version =? PARAMS_VERSION) then Fail (rev ERR_UNSUPPORTED_VERSION [version; variant])
    else
      name ← read_string_arg body 1;
      symbol ← read_string_arg body 2;
      initial_admin ← read_address body 3;
      if variant =? VARIANT_ASSET then
        decimals ← read_strict_uint8 body 4;
        if negb ((MIN_DECIMALS <=? decimals) && (decimals <=? MAX_DECIMALS)) then Fail (rev ERR_INVALID_DECIMALS [decimals])
        else Done {| cp_variant := variant; cp_name := name; cp_symbol := symbol; cp_initial_admin := initial_admin;
                     cp_decimals := decimals; cp_currency := [] |}
      else
        currency ← read_string_arg body 4;
        Done {| cp_variant := variant; cp_name := name; cp_symbol := symbol; cp_initial_admin := initial_admin;
                cp_decimals := 6; cp_currency := currency |}.

(** [b"currency"] *)
Definition FIELD_CURRENCY : bytes := [0x63; 0x75; 0x72; 0x72; 0x65; 0x6e; 0x63; 0x79].
Definition is_ascii_uppercase (b : Z) : bool := (0x41 <=? b) && (b <=? 0x5a).

Definition validate_currency (code : bytes) : exec Cas20Err unit :=
  if zlen code =? 0 then Fail (rev_bytes ERR_MISSING_REQUIRED_FIELD FIELD_CURRENCY)
  else if negb (forallb is_ascii_uppercase code) then Fail (rev_bytes ERR_INVALID_CURRENCY code)
  else Done tt.

Definition encode_created_data (c : CreateParams) : bytes :=
  let variant_params :=
    if cp_variant c =? VARIANT_STABLECOIN then
      abi_encode_struct [abi_word PARAMS_VERSION; abi_string (cp_currency c)]
    else [] in
  encode_tuple [abi_string (cp_name c); abi_string (cp_symbol c); abi_word (cp_decimals c); abi_bytes variant_params].

(** [Ctx::spawn_bootstrap]; the flag of the new context is reset by the caller. *)
Definition spawn_bootstrap env (a caller_ : Z) : Env :=
  {| self_addr := a; caller := caller_; read_only := read_only env; direct_call := true; value := 0 |}.

(** The dispatcher of a variant. *)
Definition variant_dispatch (variant : Z) (tok : Token) (call : bytes) : prog bytes :=
  if variant =? VARIANT_ASSET then asset_dispatch depth 2 tok call else stablecoin_dispatch depth tok call.

(** Name, symbol, cap and the extension of the variant. *)
Definition write_initial_state (variant : Z) (tok : Token) (create : CreateParams) : prog unit :=
  ok ← set_name (at_of tok) (cp_name create);
  _ ← require ok OutOfGas;
  ok ← set_symbol (at_of tok) (cp_symbol create);
  _ ← require ok OutOfGas;
  _ ← set_supply_cap (at_of tok) NO_SUPPLY_CAP;
  if variant =? VARIANT_ASSET then init_asset_extension tok (cp_decimals create)
  else ok ← set_currency tok (cp_currency create); require ok OutOfGas.

Definition grant_initial_admin (tok : Token) (initial_admin : Z) : prog unit :=
  if initial_admin =? 0 then Ret tt
  else
    _ ← set_role (at_of tok) ROLE_DEFAULT_ADMIN initial_admin true;
    _ ← set_admin_count (at_of tok) 1;
    emit_log (ctx tok) [TOPIC_ROLE_GRANTED; ROLE_DEFAULT_ADMIN; initial_admin; FACTORY_ADDRESS] [].

(** The [i]-th bootstrap call. *)
Definition init_call (variant : Z) (tok : Token) (ic : Z * bytes) : prog unit :=
  let '(i, call) := ic in
  paid ← charge_internal_dispatch call;
  _ ← require paid OutOfGas;
  _ ← require (negb (zlen call <? 4)) (rev_bytes ERR_INTERNAL_CALL_MALFORMED call);
  r ← attempt (variant_dispatch variant tok call);
  match (r : Cas20Err + bytes) with
  | inr _ => Ret tt
  | inl (Revert _) => Throw (rev ERR_INIT_CALL_FAILED [i])
  | inl other => Throw other
  end.

(** The end of [create_cas20], once the address is known. *)
Definition create_at env (a variant : Z) (create : CreateParams) (init_calls : list bytes) : prog bytes :=
  occupied ← address_occupied a;
  _ ← require (negb occupied) (rev ERR_TOKEN_ALREADY_EXISTS [a]);
  ok ← do_ (WriteCode a MARKER_CODE);
  _ ← require ok OutOfGas;
  let tok := token_bootstrap (spawn_bootstrap env a FACTORY_ADDRESS) (cp_decimals create) in
  _ ← write_initial_state variant tok create;
  _ ← emit_log env [TOPIC_CAS20_CREATED; a; variant] (encode_created_data create);
  _ ← do_ (SetAdminRenounced false);
  _ ← grant_initial_admin tok (cp_initial_admin create);
  _ ← for_each (init_call variant tok) (zip (seqZ 0 (zlen init_calls)) init_calls);
  oog ← do_ IsOutOfGas;
  _ ← require (negb oog) OutOfGas;
  Ret (enc_word a).

Definition create_cas20 env args : prog bytes :=
  _ ← require (negb (read_only env)) WriteProtection;
  variant_word ← lift (read_word args 0);
  salt ← lift (read_word args 1);
  params ← lift (read_bytes_arg args 2);
  init_calls ← lift (read_bytes_array args 3);
  _ ← require (is_enum_word variant_word VARIANT_MAX) revert;
  let variant := low_byte variant_word in
  feature ← lift (ok_or (variant_feature variant) (rev ERR_INVALID_VARIANT []));
  _ ← ensure_feature_activated feature;
  create ← lift (decode_create_params variant params);
  _ ← (if variant =? VARIANT_STABLECOIN then lift (validate_currency (cp_currency create)) else Ret tt);
  paid ← charge_keccak 64;
  _ ← require paid OutOfGas;
  let a := derive_address variant (caller env) salt in
  create_at env a variant create init_calls.

Definition run_factory env (input : bytes) : prog bytes :=
  _ ← require (negb (zlen input <? 4)) revert;
  let sel := selector_of input in
  let args := args_of input in
  if sel =? SEL_GET_CAS20_ADDRESS then
    variant ← lift (read_word args 0);
    sender ← lift (read_address args 1);
    salt ← lift (read_word args 2);
    _ ← require (is_enum_word variant VARIANT_MAX) revert;
    paid ← charge_keccak 64;
    _ ← require paid OutOfGas;
    Ret (enc_word (derive_address (low_byte variant) sender salt))
  else if sel =? SEL_IS_CAS20 then
    a ← lift (read_address args 0);
    Ret (enc_bool (is_cas20_address a))
  else if sel =? SEL_VARIANT_OF then
    a ← lift (read_address args 0);
    _ ← require (negb (negb (is_cas20_address a) || bool_decide (variant_feature (addr_byte a 10) = None)))
          (rev ERR_INVALID_VARIANT []);
    Ret (enc_word (addr_byte a 10))
  else if sel =? SEL_IS_CAS20_INITIALIZED then
    a ← lift (read_address args 0);
    if is_cas20_address a then b ← initialized_metered a; Ret (enc_bool b) else Ret (enc_bool false)
  else if sel =? SEL_CREATE_CAS20 then create_cas20 env args
  else Throw revert.

(** ** One call ([mod.rs]) *)

Definition execute (kind : Kind) env (data : bytes) : prog bytes :=
  _ ← require (direct_call env) DelegateCall;
  _ ← require (value env =? 0) (rev ERR_NON_PAYABLE []);
  paid ← charge_calldata data;
  _ ← require paid OutOfGas;
  match kind with
  | KFactory => run_factory env data
  | KPolicy => run_policy depth env data
  | KActivation => run_activation env data
  | KAsset =>
      ok ← initialized_metered (self_addr env);
      _ ← require ok revert;
      asset_dispatch depth 2 (token_new env 0) data
  | KStablecoin =>
      ok ← initialized_metered (self_addr env);
      _ ← require ok revert;
      stablecoin_dispatch depth (token_new env 6) data
  end.
End Factory.

Section Call.
Context `{K : Keccak} `{G : StorageGas} `{H : Cas20Host} `{Ec : Ecrecover}.

(** Levels of composite policies a budget can pay for: a level hashes a slot of
    its own before it reads its children. *)
Definition policy_depth (gas_limit : Z) : nat := Z.to_nat (gas_limit / keccak_cost 64 + 2).

(** [run], without the observer: the outcome with the gas used and refunded, and
    the journal. *)
Definition run (kind : Kind) (env : Env) (data : bytes) (h : Host) (gas_limit : Z) : exec unit (Outcome * Z * Z) * Host :=
  let '(result, c) := exec_prog (read_only env) (execute (policy_depth gas_limit) kind env data) (new_ctx h gas_limit) in
  (complete (frame c) result, state (frame c)).
End Call.
