(* ===== verification/Cas20Sound.v ===== *)
(** * Cas20Sound: what every CAS20 call guarantees

    One walk over all handlers establishes three facts of each ([sound]): it
    writes, logs and sets code only where it may, it does not depend on the
    number of policy levels the model follows unless it runs beyond them, and it
    does not panic on a budget that cannot pay for more levels.  With the facts
    of [Cas20Meta] they give the theorems about whole calls at the end. *)

From stdpp Require Import base tactics numbers option list gmap strings.
From Stdlib Require Import ZArith Lia Bool.
From S2P Require Import Prelude.
From S2P Require Import Cas20Sigs.
From S2P Require Import Cas20Frame.
From S2P Require Import Cas20Meta.
From S2P Require Import Cas20Abi.
From S2P Require Import Cas20Storage.
From S2P Require Import Cas20Policy.
From S2P Require Import Cas20Token.
From S2P Require Import Cas20Asset.
From S2P Require Import Cas20Factory.

(** ** More levels change nothing *)

Inductive approx {A} : prog A → prog A → Prop :=
| approx_crash q : approx Crash q
| approx_ret a : approx (Ret a) (Ret a)
| approx_throw e : approx (Throw e) (Throw e)
| approx_do o k k' : (∀ r, approx (k r) (k' r)) → approx (Do o k) (Do o k').

#[export] Instance approx_refl A : Reflexive (@approx A).
Proof. intros p. induction p; by constructor. Qed.

Lemma approx_bind {A B} (p q : prog A) (f f' : A → prog B) :
  approx p q → (∀ a, approx (f a) (f' a)) → approx (p ≫= f) (q ≫= f').
Proof. intros Hpq Hf. induction Hpq; cbn; [constructor|apply Hf|constructor|by constructor]. Qed.

Lemma approx_attempt {A} (p q : prog A) : approx p q → approx (attempt p) (attempt q).
Proof. induction 1; by constructor. Qed.

Section Sound.
Context `{K : Keccak} `{G : StorageGas} `{H : Cas20Host} `{Ec : Ecrecover}.

Lemma approx_exec {A} ro (p q : prog A) c :
  approx p q → (exec_prog ro p c).1 ≠ Panics → exec_prog ro q c = exec_prog ro p c.
Proof.
  intros Hpq. revert c. induction Hpq as [| | |o k k' _ IH]; intros c Hp; [done|done|done|].
  cbn in *. destruct (handle ro o c). by apply IH.
Qed.

Lemma approx_ideal {A} (p q : prog A) s :
  approx p q → (ideal p s).1 ≠ Panics → ideal q s = ideal p s.
Proof.
  intros Hpq. revert s. induction Hpq as [| | |o k k' _ IH]; intros s Hp; [done|done|done|].
  cbn in *. destruct (ideal_op o s). by apply IH.
Qed.

(** ** The walk *)

Section Walk.
Context (W : Z → Prop) (g : Z).

Definition sound {A} (p q : prog A) : Prop := within W p ∧ approx p q ∧ no_panic g p.

Lemma sound_ret {A} (a : A) : sound (Ret a) (Ret a).
Proof. split_and!; [done|done|apply no_panic_ret]. Qed.
Lemma sound_throw {A} e : sound (Throw e : prog A) (Throw e).
Proof. split_and!; [done|done|apply no_panic_throw]. Qed.
Lemma sound_do o : op_within W o → sound (do_ o) (do_ o).
Proof. intros Ho. split_and!; [done|done|]. apply no_panic_do. intros r. apply no_panic_ret. Qed.
Lemma sound_require b e : sound (require b e) (require b e).
Proof. destruct b; [apply sound_ret|apply sound_throw]. Qed.
Lemma sound_bind {A B} (p q : prog A) (f f' : A → prog B) :
  sound p q → (∀ a, sound (f a) (f' a)) → sound (p ≫= f) (q ≫= f').
Proof.
  intros (Hw & Ha & Hn) Hf. split_and!.
  - apply within_bind; [done|]. intros a. apply Hf.
  - apply approx_bind; [done|]. intros a. apply Hf.
  - apply no_panic_bind; [done|]. intros a. apply Hf.
Qed.
Lemma sound_lift {A} (m : exec Cas20Err A) : m ≠ Panics → sound (lift m) (lift m).
Proof. intros Hm. split_and!; [apply within_lift|done|by apply no_panic_lift]. Qed.
Lemma sound_bind_lift {A B} (m : exec Cas20Err A) (f f' : A → prog B) :
  m ≠ Panics → (∀ a, m = Done a → sound (f a) (f' a)) → sound (lift m ≫= f) (lift m ≫= f').
Proof. intros Hm Hf. destruct m as [a|e|]; [by apply Hf|apply sound_throw|done]. Qed.
Lemma sound_bind_require {B} b e (f f' : unit → prog B) :
  (b = true → sound (f tt) (f' tt)) → sound (require b e ≫= f) (require b e ≫= f').
Proof. destruct b; intros Hf; [by apply Hf|apply sound_throw]. Qed.
Lemma sound_attempt {A} (p q : prog A) : sound p q → sound (attempt p) (attempt q).
Proof.
  intros (Hw & Ha & Hn). split_and!; [by apply within_attempt|by apply approx_attempt|by apply no_panic_attempt].
Qed.
Lemma sound_for_each {A} (f f' : A → prog unit) l :
  (∀ a, a ∈ l → sound (f a) (f' a)) → sound (for_each f l) (for_each f' l).
Proof.
  induction l as [|a l IH]; intros Hf; [apply sound_ret|]. cbn [for_each]. apply sound_bind.
  - apply Hf. by left.
  - intros _. apply IH. intros b Hb. apply Hf. by right.
Qed.

(** A table answers the same selectors at every depth. *)
Definition sound_table (t t' : option (prog bytes)) : Prop :=
  match t, t' with
  | Some p, Some q => sound p q
  | None, None => True
  | _, _ => False
  end.

Lemma sound_table_if (b : bool) p q t t' :
  sound p q → sound_table t t' → sound_table (if b then Some p else t) (if b then Some q else t').
Proof. by destruct b. Qed.

Lemma sound_first_table ts ts' : Forall2 sound_table ts ts' → sound (first_table ts) (first_table ts').
Proof.
  induction 1 as [|t t' ts ts' Ht _ IH]; cbn [first_table]; [apply sound_throw|]. destruct t, t'; cbn in Ht; done.
Qed.
End Walk.
End Sound.

Create HintDb cas20 discriminated.
#[export] Hint Constants Opaque : cas20.
#[export] Hint Resolve sound_ret sound_throw sound_require : cas20.
#[export] Hint Resolve read_word_no_panic read_address_no_panic read_u64_no_panic read_strict_uint8_no_panic
  read_string_no_panic read_bytes_array_no_panic read_word_array_no_panic read_uint8_array_no_panic
  ok_or_no_panic : cas20.
#[export] Hint Extern 1 (_ <= _) => lia : cas20.

(** One step of the walk, and the walk. *)
Ltac walk_side := try done; eauto with cas20.
Ltac walk_step :=
  match goal with
  | |- sound _ _ (lift _ ≫= _) _ => apply sound_bind_lift; [walk_side|intros ? ?]
  | |- sound _ _ (require _ _ ≫= _) _ => apply sound_bind_require; intros ?
  | |- sound _ _ (_ ≫= _) _ => apply sound_bind; [|intros ?]
  | |- sound _ _ (lift _) _ => apply sound_lift; walk_side
  | |- sound _ _ (do_ _) _ => apply sound_do; cbn; walk_side
  | |- sound _ _ (attempt _) _ => apply sound_attempt
  | |- sound _ _ (for_each _ _) _ => apply sound_for_each; intros ? ?
  | |- sound _ _ (if ?b then _ else _) _ => destruct b
  | |- sound _ _ (match ?x with _ => _ end) _ => destruct x
  | |- sound _ _ (let _ := _ in _) _ => cbn zeta
  | |- sound _ _ _ _ => solve [eauto with cas20]
  end.
Ltac walk := repeat walk_step.

(** Opens the accessors of the storage and the small helpers of a token. *)
Ltac walk_token :=
  unfold returns_nothing, require_writable, require_unpaused, is_paused, emit, emit_memo, at_of, msg_sender,
    total_supply, set_total_supply, supply_cap, set_supply_cap, admin_count, set_admin_count, paused_checked, paused,
    set_paused, balance_of, balance_slot, allowance, set_allowance, allowance_slot, nonce, set_nonce, has_role, set_role,
    role_slot, role_admin, store_role_admin, mint_receiver_policy, get_packed_u64, set_packed_u64, transfer_policies, seize_policies,
    name, set_name, symbol, set_symbol, contract_uri, set_contract_uri, get_string, set_string, get_u256, set_u256,
    read_string_arg, read_bytes_arg, read_u256 in *;
  walk.

Ltac walk_table := repeat (apply sound_table_if; [walk_token|]); done.

(** ** Storage and registries *)

Section Handlers.
Context `{K : Keccak} `{G : StorageGas} `{H : Cas20Host} `{Ec : Ecrecover}.
Context (W : Z → Prop) (g : Z).
Notation sound := (sound W g).
Implicit Types (env : Env) (self tok : Token) (args : bytes).

Lemma sound_charge_keccak n : sound (charge_keccak n) (charge_keccak n).
Proof. unfold charge_keccak. walk. Qed.
#[local] Hint Resolve sound_charge_keccak : cas20.

Lemma sound_map_slot base key : sound (map_slot base key) (map_slot base key).
Proof. unfold map_slot. walk. Qed.
Lemma sound_str_map_slot base key : sound (str_map_slot base key) (str_map_slot base key).
Proof. unfold str_map_slot. walk. Qed.
Lemma sound_string_data_root slot : sound (string_data_root slot) (string_data_root slot).
Proof. unfold string_data_root. walk. Qed.
#[local] Hint Resolve sound_map_slot sound_str_map_slot sound_string_data_root : cas20.

Lemma sound_get_word_checked a slot : sound (get_word_checked a slot) (get_word_checked a slot).
Proof. unfold get_word_checked. walk. Qed.
Lemma sound_get_word a slot : sound (get_word a slot) (get_word a slot).
Proof. unfold get_word, get_word_checked. walk. Qed.
#[local] Hint Resolve sound_get_word sound_get_word_checked : cas20.

Lemma sound_set_word a slot v : W a → sound (set_word a slot v) (set_word a slot v).
Proof. intros. unfold set_word. walk. Qed.
#[local] Hint Resolve sound_set_word : cas20.
Lemma sound_put_word a slot v : W a → sound (put_word a slot v) (put_word a slot v).
Proof. intros. unfold put_word. walk. Qed.
#[local] Hint Resolve sound_put_word : cas20.

Lemma sound_read_chunks a base l : sound (read_chunks a base l) (read_chunks a base l).
Proof. induction l; cbn [read_chunks]; walk. Qed.
Lemma sound_write_chunks a base f l : W a → sound (write_chunks a base f l) (write_chunks a base f l).
Proof. intros. induction l; cbn [write_chunks]; walk. Qed.
#[local] Hint Resolve sound_read_chunks sound_write_chunks : cas20.

Lemma sound_get_string_at a slot : sound (get_string_at a slot) (get_string_at a slot).
Proof. unfold get_string_at. walk. Qed.
Lemma sound_set_string_at a slot b : W a → sound (set_string_at a slot b) (set_string_at a slot b).
Proof. intros. unfold set_string_at, string_chunks. walk. Qed.
#[local] Hint Resolve sound_get_string_at sound_set_string_at : cas20.

Lemma sound_emit_log env topics data : W (self_addr env) → sound (emit_log env topics data) (emit_log env topics data).
Proof. intros. unfold emit_log. walk. Qed.
#[local] Hint Resolve sound_emit_log : cas20.
(** The bytes of calldata stay bytes. *)
Lemma args_of_bytes input : Forall byte_ok input → Forall byte_ok (args_of input).
Proof. apply Forall_drop. Qed.
#[local] Hint Resolve args_of_bytes : cas20.

Lemma sound_is_activated feature : sound (is_activated feature) (is_activated feature).
Proof. unfold is_activated. walk. Qed.
#[local] Hint Resolve sound_is_activated : cas20.
Lemma sound_activation_admin : sound activation_admin activation_admin.
Proof. unfold activation_admin. walk. Qed.
#[local] Hint Resolve sound_activation_admin : cas20.
Lemma sound_ensure_feature_activated feature :
  sound (ensure_feature_activated feature) (ensure_feature_activated feature).
Proof. unfold ensure_feature_activated. walk. Qed.
#[local] Hint Resolve sound_ensure_feature_activated : cas20.

Lemma sound_run_activation env input :
  W (self_addr env) → W ACTIVATION_REGISTRY_ADDRESS → Forall byte_ok input →
  sound (run_activation env input) (run_activation env input).
Proof.
  intros. unfold run_activation, update_param, set_feature, require_admin, require_gov, set_admin, set_activated,
    read_string_arg, read_bytes_arg. walk.
Qed.

(** *** Policies *)

Lemma sound_read_children base l : sound (read_children base l) (read_children base l).
Proof. induction l; cbn [read_children]; walk. Qed.
#[local] Hint Resolve sound_read_children : cas20.
Lemma sound_children id : sound (children id) (children id).
Proof. unfold children, children_slot. walk. Qed.
#[local] Hint Resolve sound_children : cas20.
Lemma sound_member id account : sound (member id account) (member id account).
Proof. unfold member, member_slot. walk. Qed.
#[local] Hint Resolve sound_member : cas20.
Lemma sound_policy_word id : sound (policy_word id) (policy_word id).
Proof. unfold policy_word. walk. Qed.
#[local] Hint Resolve sound_policy_word : cas20.
Lemma sound_policy_exists id : sound (policy_exists id) (policy_exists id).
Proof. unfold policy_exists, policy_word_exists. walk. Qed.
#[local] Hint Resolve sound_policy_exists : cas20.

Lemma sound_first_child f f' stop l :
  (∀ child, sound (f child) (f' child)) → sound (first_child f stop l) (first_child f' stop l).
Proof. intros Hf. induction l; cbn [first_child]; walk. Qed.
End Handlers.

(** A frame that pays for the slot of its children has less than before; one
    that cannot sees no children. *)
Section Levels.
Context `{K : Keccak} `{G : StorageGas} `{H : Cas20Host}.

Lemma charge_pays ro cost c r c' :
  gas_wf c → 0 <= cost < 2 ^ 64 → handle ro (ChargeGas cost) c = (r, c') →
  (r = true ∧ gas_left c' = gas_left c - cost) ∨ (r = false ∧ out_of_gas (frame c') = true).
Proof.
  intros Hwf Hcost. cbn. rewrite wrap64_small by done.
  destruct (charge_gas_cases cost c) as [[-> Ho]|[->|(m & -> & Hm & _)]]; intros [= <- <-]; [by right|by right|].
  left. split; [done|]. pose proof Hwf as [? ?]. apply meter_charge_spends in Hm as (El & Eu & ?); [|lia..].
  rewrite !gas_left_wf; cbn; [lia|done|]. unfold gas_wf. cbn. lia.
Qed.

Lemma exhausted_children ro slot c :
  out_of_gas (frame c) = true → (exec_prog ro (get_word POLICY_REGISTRY_ADDRESS slot) c) = (Done 0, c).
Proof. intros Ho. cbn. unfold read_slot. by rewrite Ho. Qed.

Lemma children_cost ro id c kids c' :
  gas_wf c → exec_prog ro (children id) c = (Done kids, c') →
  kids = [] ∨ gas_left c' <= gas_left c - keccak_cost 64.
Proof.
  intros Hwf. unfold children, children_slot, map_slot, charge_keccak. rewrite !exec_bind.
  unfold do_. cbn [exec_prog].
  destruct (handle ro (ChargeGas (keccak_cost 64)) c) as [r c1] eqn:Hc.
  pose proof (handle_spends ro (ChargeGas (keccak_cost 64)) c Hwf) as (Hwf1 & _ & _). rewrite Hc in Hwf1. cbn in Hwf1.
  apply charge_pays in Hc as [[-> Hleft]|[-> Ho]]; [| |done|done]; cbn [exec_prog].
  - rewrite exec_bind. match goal with |- context [exec_prog ro ?p c1] => pose proof (exec_spends ro p c1 Hwf1) as (Hwf2 & _ & Hl2);
      destruct (exec_prog ro p c1) as [[w|e|] c2] end; [|done|done]. cbn in Hwf2, Hl2.
    match goal with |- exec_prog ro ?p c2 = _ → _ => pose proof (exec_spends ro p c2 Hwf2) as (_ & _ & Hl3) end.
    intros E. rewrite E in Hl3. cbn in Hl3. right. lia.
  - rewrite exec_bind, exhausted_children by done. cbn. intros [= <- _]. by left.
Qed.

Lemma no_panic_first_child g f stop l :
  (∀ child, no_panic g (f child)) → no_panic g (first_child f stop l).
Proof.
  intros Hf. induction l as [|child l IH]; cbn [first_child]; [apply no_panic_ret|].
  apply no_panic_bind; [apply Hf|]. intros b. case_match; [apply no_panic_ret|done].
Qed.

Lemma is_authorized_no_panic depth id account :
  no_panic (keccak_cost 64 * Z.of_nat depth) (is_authorized depth id account).
Proof.
  revert id. induction depth as [|depth IH]; intros id.
  { intros ro c Hwf Hg. rewrite gas_left_wf in Hg by done. destruct Hwf. lia. }
  assert (Hkids : ∀ stop, no_panic (keccak_cost 64 * Z.of_nat (S depth))
            (kids ← children id; first_child (λ child, is_authorized depth child account) stop kids)).
  { intros stop ro c Hwf Hg. rewrite exec_bind.
    pose proof (sound_children (λ _, True) (gas_left c + 1) id) as (_ & _ & Hn).
    specialize (Hn ro c Hwf ltac:(lia)). pose proof (exec_spends ro (children id) c Hwf) as (Hwf' & _ & _).
    destruct (exec_prog ro (children id) c) as [[kids|e|] c'] eqn:E; [|done|done].
    destruct (children_cost ro id c kids c' Hwf E) as [->|Hleft]; [done|].
    refine (no_panic_first_child _ _ stop kids IH ro c' Hwf' _). lia. }
  pose proof (sound_member (λ _, True) (keccak_cost 64 * Z.of_nat (S depth)) id account) as (_ & _ & Hn).
  cbn [is_authorized]. repeat case_match; try apply no_panic_ret; try apply Hkids;
    (apply no_panic_bind; [done|intros; apply no_panic_ret]).
Qed.
End Levels.

Section PolicyRegistry.
Context `{K : Keccak} `{G : StorageGas} `{H : Cas20Host} (W : Z → Prop) (g : Z).
Notation sound := (sound W g).

#[local] Hint Resolve sound_charge_keccak sound_map_slot sound_str_map_slot sound_string_data_root sound_get_word
  sound_get_word_checked sound_set_word sound_put_word sound_get_string_at sound_set_string_at sound_emit_log
  args_of_bytes sound_ensure_feature_activated sound_children sound_member sound_policy_word sound_policy_exists : cas20.

(** *** The policy registry *)

Lemma collect_words_no_panic (l : list Z) : collect (λ w, ok_or (u64_from_word w) revert) l ≠ Panics.
Proof. apply collect_no_panic. intros. apply ok_or_no_panic. Qed.
#[local] Hint Resolve collect_words_no_panic : cas20.

Lemma sound_validate_children kids : sound (validate_children kids) (validate_children kids).
Proof. unfold validate_children. walk. Qed.
#[local] Hint Resolve sound_validate_children : cas20.

Section Registry.
Context (HW : W POLICY_REGISTRY_ADDRESS).

Lemma sound_set_children id kids : sound (set_children id kids) (set_children id kids).
Proof using HW. unfold set_children, children_slot, set_child_word. walk. Qed.
Lemma sound_new_policy ptype admin : sound (new_policy ptype admin) (new_policy ptype admin).
Proof using HW. unfold new_policy, ensure_initialized, counter, set_counter, set_policy_admin. walk. Qed.
Lemma sound_set_members id in_set accounts : sound (set_members id in_set accounts) (set_members id in_set accounts).
Proof using HW. unfold set_members, set_member, member_slot. walk. Qed.
#[local] Hint Resolve sound_set_children sound_new_policy sound_set_members : cas20.

Context (env : Env) (args : bytes) (Henv : W (self_addr env)) (Hargs : Forall byte_ok args).

Lemma sound_create_composite_policy : sound (create_composite_policy env args) (create_composite_policy env args).
Proof using HW Henv Hargs.
  unfold create_composite_policy, emit_policy_admin_updated, emit_composite_updated. walk.
Qed.
Lemma sound_update_composite : sound (update_composite env args) (update_composite env args).
Proof using HW Henv Hargs.
  unfold update_composite, require_policy_exists, policy_admin, emit_composite_updated. walk.
Qed.
Lemma sound_create_policy with_accounts : sound (create_policy env args with_accounts) (create_policy env args with_accounts).
Proof using HW Henv Hargs. unfold create_policy, emit_policy_admin_updated, emit_members_updated. walk. Qed.
Lemma sound_update_members want_type : sound (update_members env args want_type) (update_members env args want_type).
Proof using HW Henv Hargs.
  unfold update_members, require_policy_admin, require_policy_exists, policy_admin, emit_members_updated. walk.
Qed.
Lemma sound_stage_update_admin : sound (stage_update_admin env args) (stage_update_admin env args).
Proof using HW Henv Hargs.
  unfold stage_update_admin, require_policy_admin, require_policy_exists, policy_admin, set_pending_admin. walk.
Qed.
Lemma sound_finalize_update_admin : sound (finalize_update_admin env args) (finalize_update_admin env args).
Proof using HW Henv Hargs.
  unfold finalize_update_admin, require_policy_exists, pending_admin, policy_admin, set_policy_admin, set_pending_admin,
    emit_policy_admin_updated. walk.
Qed.
Lemma sound_renounce_admin : sound (renounce_admin env args) (renounce_admin env args).
Proof using HW Henv Hargs.
  unfold renounce_admin, require_policy_admin, require_policy_exists, policy_admin, set_policy_admin, set_pending_admin,
    emit_policy_admin_updated. walk.
Qed.
End Registry.
End PolicyRegistry.

Section Calls.
Context `{K : Keccak} `{G : StorageGas} `{H : Cas20Host} `{Ec : Ecrecover}.
Context (W : Z → Prop) (depth depth' : nat) (Hdepth : (depth ≤ depth')%nat).
Notation g := (keccak_cost 64 * Z.of_nat depth).
Notation sound := (sound W g).
Implicit Types (env : Env) (self tok : Token) (args : bytes).

#[local] Hint Resolve sound_charge_keccak sound_map_slot sound_str_map_slot sound_string_data_root sound_get_word
  sound_get_word_checked sound_set_word sound_put_word sound_get_string_at sound_set_string_at sound_emit_log
  args_of_bytes sound_ensure_feature_activated sound_children sound_member sound_policy_word sound_policy_exists : cas20.

(** With no gas at all to bound, the walk goes through the levels. *)
Lemma is_authorized_more id account :
  Cas20Sound.sound W 0 (is_authorized depth id account) (is_authorized depth' id account).
Proof using Hdepth.
  revert id depth' Hdepth. induction depth as [|d IH]; intros id d' Hd.
  { split_and!; [done|apply approx_crash|]. intros ro c Hwf Hg. rewrite gas_left_wf in Hg by done. destruct Hwf. lia. }
  destruct d' as [|d']; [lia|]. cbn [is_authorized]. walk;
    apply sound_first_child; intros child; apply IH; lia.
Qed.

Lemma sound_is_authorized id account : sound (is_authorized depth id account) (is_authorized depth' id account).
Proof using Hdepth.
  destruct (is_authorized_more id account) as (? & ? & _). split_and!; [done|done|apply is_authorized_no_panic].
Qed.
#[local] Hint Resolve sound_is_authorized : cas20.
#[local] Hint Resolve sound_create_composite_policy sound_update_composite sound_create_policy sound_update_members
  sound_stage_update_admin sound_finalize_update_admin sound_renounce_admin : cas20.

Lemma sound_run_policy env input :
  W (self_addr env) → W POLICY_REGISTRY_ADDRESS → Forall byte_ok input →
  sound (run_policy depth env input) (run_policy depth' env input).
Proof using Hdepth.
  intros. unfold run_policy, policy_admin_of, pending_policy_admin_of, pending_admin. walk.
Qed.

(** *** Tokens *)

Section TokenHandlers.
Context (self : Token) (Hself : W (self_addr (ctx self))).

Lemma sound_require_policy id account scope :
  sound (require_policy depth id account scope) (require_policy depth' id account scope).
Proof using Hdepth. unfold require_policy, policy_allows. walk. Qed.
Lemma sound_policy_allows id account : sound (policy_allows depth id account) (policy_allows depth' id account).
Proof using Hdepth. unfold policy_allows. walk. Qed.
#[local] Hint Resolve sound_require_policy sound_policy_allows : cas20.

Lemma sound_approve owner spender amount : sound (approve self owner spender amount) (approve self owner spender amount).
Proof using Hself. unfold approve. walk_token. Qed.
Lemma sound_shift_balance from to amount : sound (shift_balance self from to amount) (shift_balance self from to amount).
Proof using Hself. unfold shift_balance. walk_token. Qed.
#[local] Hint Resolve sound_approve sound_shift_balance : cas20.
Lemma sound_move_balance from to amount :
  sound (move_balance depth self from to amount) (move_balance depth' self from to amount).
Proof using Hself Hdepth. unfold move_balance. walk_token. Qed.
#[local] Hint Resolve sound_move_balance : cas20.
Lemma sound_transfer from to amount : sound (transfer depth self from to amount) (transfer depth' self from to amount).
Proof using Hself Hdepth. unfold transfer. walk_token. Qed.
Lemma sound_transfer_from spender from to amount :
  sound (transfer_from depth self spender from to amount) (transfer_from depth' self spender from to amount).
Proof using Hself Hdepth. unfold transfer_from. walk_token. Qed.
#[local] Hint Resolve sound_transfer sound_transfer_from : cas20.

Lemma sound_ensure_role role : sound (ensure_role self role) (ensure_role self role).
Proof using Hself. unfold ensure_role. walk_token. Qed.
Lemma sound_ensure_role_mutable role : sound (ensure_role_mutable self role) (ensure_role_mutable self role).
Proof using Hself. unfold ensure_role_mutable. walk_token. Qed.
#[local] Hint Resolve sound_ensure_role sound_ensure_role_mutable : cas20.
Lemma sound_remove_role role account : sound (remove_role self role account) (remove_role self role account).
Proof using Hself. unfold remove_role. walk_token. Qed.
Lemma sound_guard_last_admin role account : sound (guard_last_admin self role account) (guard_last_admin self role account).
Proof using Hself. unfold guard_last_admin. walk_token. Qed.
#[local] Hint Resolve sound_remove_role sound_guard_last_admin : cas20.
Lemma sound_grant_role role account : sound (grant_role self role account) (grant_role self role account).
Proof using Hself. unfold grant_role. walk_token. Qed.
Lemma sound_revoke_role role account : sound (revoke_role self role account) (revoke_role self role account).
Proof using Hself. unfold revoke_role. walk_token. Qed.
Lemma sound_renounce_role role account : sound (renounce_role self role account) (renounce_role self role account).
Proof using Hself. unfold renounce_role. walk_token. Qed.
Lemma sound_renounce_last_admin : sound (renounce_last_admin self) (renounce_last_admin self).
Proof using Hself. unfold renounce_last_admin. walk_token. Qed.
Lemma sound_set_role_admin role admin : sound (set_role_admin self role admin) (set_role_admin self role admin).
Proof using Hself. unfold set_role_admin. walk_token. Qed.
#[local] Hint Resolve sound_grant_role sound_revoke_role sound_renounce_role sound_renounce_last_admin
  sound_set_role_admin : cas20.

Lemma pause_mask_no_panic on fs w : pause_mask on fs w ≠ Panics.
Proof. revert w. induction fs as [|f fs IH]; intros w; cbn [pause_mask]; [done|]. by case_match. Qed.
#[local] Hint Resolve pause_mask_no_panic : cas20.

Lemma sound_mint_core to amount : sound (mint_core depth self to amount) (mint_core depth' self to amount).
Proof using Hself Hdepth. unfold mint_core. walk_token. Qed.
#[local] Hint Resolve sound_mint_core : cas20.
Lemma sound_mint to amount : sound (mint depth self to amount) (mint depth' self to amount).
Proof using Hself Hdepth. unfold mint. walk_token. Qed.
Lemma sound_burn from amount : sound (burn self from amount) (burn self from amount).
Proof using Hself. unfold burn. walk_token. Qed.
Lemma sound_seize_with_memo from to amount memo :
  sound (seize_with_memo depth self from to amount memo) (seize_with_memo depth' self from to amount memo).
Proof using Hself Hdepth. unfold seize_with_memo. walk_token. Qed.
Lemma sound_update_supply_cap cap : sound (update_supply_cap self cap) (update_supply_cap self cap).
Proof using Hself. unfold update_supply_cap. walk_token. Qed.
Lemma sound_update_policy scope id : sound (update_policy self scope id) (update_policy self scope id).
Proof using Hself. unfold update_policy. walk_token. Qed.
#[local] Hint Resolve sound_mint sound_burn sound_seize_with_memo sound_update_supply_cap sound_update_policy : cas20.

Lemma sound_charge_all costs : sound (charge_all costs) (charge_all costs).
Proof. induction costs; cbn [charge_all]; walk. Qed.
#[local] Hint Resolve sound_charge_all : cas20.
Lemma sound_domain_separator : sound (domain_separator self) (domain_separator self).
Proof using Hself. unfold domain_separator. walk_token. Qed.
#[local] Hint Resolve sound_domain_separator : cas20.

Section Arguments.
Context (args : bytes) (Hargs : Forall byte_ok args).

Lemma sound_set_pause on : sound (set_pause self args on) (set_pause self args on).
Proof using Hself Hdepth Hargs. unfold set_pause. walk_token. Qed.
#[local] Hint Resolve sound_set_pause : cas20.

Lemma read_role_account_no_panic : read_role_account args ≠ Panics.
Proof. unfold read_role_account. repeat (apply bind_no_panic; [eauto with cas20|intros ? _]). done. Qed.
Lemma read_to_amount_memo_no_panic : read_to_amount_memo args ≠ Panics.
Proof.
  unfold read_to_amount_memo, read_u256. repeat (apply bind_no_panic; [eauto with cas20|intros ? _]). done.
Qed.
#[local] Hint Resolve read_role_account_no_panic read_to_amount_memo_no_panic : cas20.

Lemma sound_decode_permit : sound (decode_permit self args) (decode_permit self args).
Proof using Hself Hdepth Hargs. unfold decode_permit, permit. walk_token. Qed.
#[local] Hint Resolve sound_decode_permit : cas20.

Lemma sound_dispatch_erc20 sel : sound_table W g (dispatch_erc20 depth self sel args) (dispatch_erc20 depth' self sel args).
Proof using Hself Hdepth Hargs. unfold dispatch_erc20. walk_table. Qed.
Lemma sound_dispatch_admin sel : sound_table W g (dispatch_admin depth self sel args) (dispatch_admin depth' self sel args).
Proof using Hself Hdepth Hargs. unfold dispatch_admin. walk_table. Qed.
Lemma sound_dispatch_metadata sel : sound_table W g (dispatch_metadata self sel args) (dispatch_metadata self sel args).
Proof using Hself Hdepth Hargs.
  unfold dispatch_metadata, update_name, update_symbol, update_contract_uri, ensure_metadata_write, paused_features,
    eip712_domain. walk_table.
Qed.
Lemma sound_dispatch_permit_memo sel :
  sound_table W g (dispatch_permit_memo depth self sel args) (dispatch_permit_memo depth' self sel args).
Proof using Hself Hdepth Hargs. unfold dispatch_permit_memo. walk_table. Qed.
Lemma sound_dispatch_memo_format sel :
  sound_table W g (dispatch_memo_format depth self sel args) (dispatch_memo_format depth' self sel args).
Proof using Hself Hdepth Hargs. unfold dispatch_memo_format, transfer_with_memo_format. walk_table. Qed.
End Arguments.

Lemma sound_dispatch input : Forall byte_ok input → sound (dispatch depth self input) (dispatch depth' self input).
Proof using Hself Hdepth.
  intros Hi%args_of_bytes. unfold dispatch. walk. apply sound_first_table.
  repeat constructor; auto using sound_dispatch_erc20, sound_dispatch_admin, sound_dispatch_metadata,
    sound_dispatch_permit_memo, sound_dispatch_memo_format.
Qed.
End TokenHandlers.
End Calls.

#[export] Hint Resolve sound_charge_keccak sound_map_slot sound_str_map_slot sound_string_data_root sound_get_word
  sound_get_word_checked sound_set_word sound_put_word sound_get_string_at sound_set_string_at sound_emit_log
  args_of_bytes sound_ensure_feature_activated sound_policy_exists sound_run_activation sound_run_policy sound_ensure_role sound_mint_core
  sound_dispatch : cas20.
