(* ===== verification/Cas20Calls.v ===== *)
(** * Cas20Calls: what a whole CAS20 call guarantees

    The walk of [Cas20Sound] through the two variants, the factory and
    [execute], and with it the theorems about [run]: it never panics, gas
    decides only whether it completes, a static call changes nothing, a call
    touches only its own account, and gas stays within the limit. *)

From stdpp Require Import base tactics numbers option list gmap strings.
From Stdlib Require Import ZArith Lia Bool.
From S2P Require Import Prelude.
From S2P Require Import Cas20Sigs.
From S2P Require Import Cas20Frame.
From S2P Require Import Cas20Meta.
From S2P Require Import Cas20Abi.
From S2P Require Import Cas20Storage.
From S2P Require Import Cas20Policy.
From S2P Require Import Cas20Token.
From S2P Require Import Cas20Asset.
From S2P Require Import Cas20Factory.
From S2P Require Import Cas20Sound.

(** ** Decoded bytes are bytes *)

Section Bytes.
Context (args : bytes) (Hargs : Forall byte_ok args).

Lemma read_string_bytes_ok i b : read_string_bytes args i = Done b → Forall byte_ok b.
Proof using Hargs.
  unfold read_string_bytes. rewrite bind_Done. intros (off & _ & Hb). revert Hb. case_if; [done|].
  rewrite bind_Done. intros (n & _ & Hb). revert Hb. case_if; [done|]. by apply slice_bytes.
Qed.

Lemma collect_elem {A} (f : Z → exec Cas20Err A) l out x :
  collect f l = Done out → x ∈ out → ∃ i, f i = Done x.
Proof.
  revert out. induction l as [|i l IH]; intros out; cbn [collect].
  - intros [= <-] Hx. by apply elem_of_nil in Hx.
  - rewrite bind_Done. intros (a & Ha & Hr). apply bind_Done in Hr as (rest & Hrest & [= <-]).
    rewrite elem_of_cons. intros [->|Hx]; [by exists i|by apply (IH rest)].
Qed.

Lemma read_bytes_array_ok i calls c : read_bytes_array args i = Done calls → c ∈ calls → Forall byte_ok c.
Proof using Hargs.
  unfold read_bytes_array. rewrite bind_Done. intros ([p n] & _ & Hc) Hin.
  destruct (collect_elem _ _ _ _ Hc Hin) as [j Hj]. revert Hj. unfold read_bytes_elem. rewrite bind_Done.
  intros (off & _ & Hj). revert Hj. case_if; [done|]. rewrite bind_Done.
  intros (m & _ & Hj). revert Hj. case_if; [done|]. by apply slice_bytes.
Qed.
End Bytes.
#[export] Hint Resolve read_string_bytes_ok read_bytes_array_ok : cas20.

Section Variants.
Context `{K : Keccak} `{G : StorageGas} `{H : Cas20Host} `{Ec : Ecrecover}.
Context (W : Z → Prop) (depth depth' : nat) (Hdepth : (depth ≤ depth')%nat).
Notation g := (keccak_cost 64 * Z.of_nat depth).
Notation sound := (sound W g).
Implicit Types (tok : Token) (args : bytes).

(** ** Assets *)

Section AssetHandlers.
Context (tok : Token) (Htok : W (self_addr (ctx tok))).

Ltac walk_asset :=
  unfold effective_multiplier, settle_matured, asset_decimals, set_asset_decimals, multiplier, set_multiplier, pending,
    set_pending, clear_pending, announcement_used, mark_announcement, announcement_slot, extra_metadata,
    set_extra_metadata, extra_meta_slot, charge_internal_dispatch in *;
  walk_token.

Lemma apply_multiplier_no_panic raw mul : apply_multiplier raw mul ≠ Panics.
Proof. unfold apply_multiplier. by case_match. Qed.
Lemma remove_multiplier_no_panic scaled mul : remove_multiplier scaled mul ≠ Panics.
Proof. unfold remove_multiplier. by case_match. Qed.
#[local] Hint Resolve apply_multiplier_no_panic remove_multiplier_no_panic : cas20.

Lemma sound_effective_multiplier now : sound (effective_multiplier tok now) (effective_multiplier tok now).
Proof. walk_asset. Qed.
Lemma sound_update_ui_multiplier mul at_ : sound (update_ui_multiplier tok mul at_) (update_ui_multiplier tok mul at_).
Proof using Htok. unfold update_ui_multiplier. walk_asset. Qed.
Lemma sound_cancel_ui_multiplier : sound (cancel_ui_multiplier tok) (cancel_ui_multiplier tok).
Proof using Htok. unfold cancel_ui_multiplier. walk_asset. Qed.
Lemma sound_update_multiplier mul : sound (update_multiplier tok mul) (update_multiplier tok mul).
Proof using Htok. unfold update_multiplier. walk_asset. Qed.
Lemma sound_update_extra_metadata key v : sound (update_extra_metadata tok key v) (update_extra_metadata tok key v).
Proof using Htok. unfold update_extra_metadata. walk_asset. Qed.
#[local] Hint Resolve sound_effective_multiplier sound_update_ui_multiplier sound_cancel_ui_multiplier
  sound_update_multiplier sound_update_extra_metadata : cas20.

Context (args : bytes) (Hargs : Forall byte_ok args).

Lemma sound_batch_mint : sound (batch_mint depth tok args) (batch_mint depth' tok args).
Proof using Htok Hdepth Hargs. unfold batch_mint, batch_entry. walk_asset. Qed.

(** Internal calls of an announcement that is not itself an internal call. *)
Lemma sound_announce d d' :
  (in_announce tok = false → ∀ c, Forall byte_ok c → sound (d (set_in_announce tok) c) (d' (set_in_announce tok) c)) →
  sound (announce d tok args) (announce d' tok args).
Proof using Htok Hdepth Hargs.
  intros Hd. unfold announce, internal_call. walk_asset. apply Hd; [by destruct (in_announce tok)|]. eauto with cas20.
Qed.
End AssetHandlers.
#[local] Hint Resolve sound_batch_mint apply_multiplier_no_panic remove_multiplier_no_panic sound_effective_multiplier
  sound_update_ui_multiplier sound_cancel_ui_multiplier sound_update_multiplier sound_update_extra_metadata : cas20.

Lemma sound_dispatch_asset tok now sel args d d' :
  W (self_addr (ctx tok)) → Forall byte_ok args →
  (in_announce tok = false → ∀ c, Forall byte_ok c → sound (d (set_in_announce tok) c) (d' (set_in_announce tok) c)) →
  sound_table W g (dispatch_asset depth d tok now sel args) (dispatch_asset depth' d' tok now sel args).
Proof using Hdepth.
  intros Htok Hargs Hd. pose proof (sound_announce tok Htok args Hargs d d' Hd). unfold dispatch_asset.
  repeat (apply sound_table_if;
    [unfold asset_decimals, pending, announcement_used, announcement_slot, extra_metadata, extra_meta_slot; walk_token|]).
  done.
Qed.

Lemma sound_by_table t t' p q :
  sound_table W g t t' → sound p q →
  sound (match t with Some r => r | None => p end) (match t' with Some r => r | None => q end).
Proof. by destruct t, t'. Qed.

(** An announcement inside an announcement reverts, so a third level is never
    asked for. *)
Lemma sound_asset_dispatch n n' tok input :
  (n ≤ n')%nat → (1 ≤ n)%nat ∨ in_announce tok = true → W (self_addr (ctx tok)) → Forall byte_ok input →
  sound (asset_dispatch depth (S n) tok input) (asset_dispatch depth' (S n') tok input).
Proof using Hdepth.
  revert n' tok input. induction n as [|n IH]; intros n' tok input Hn Hlevel Htok Hi; cbn [asset_dispatch].
  all: destruct (zlen input <? 4); [eauto with cas20|].
  all: apply sound_bind; [walk|]; intros now; apply sound_by_table; [|eauto with cas20].
  all: apply sound_dispatch_asset; [done|by apply args_of_bytes|]; intros Hno c Hc.
  - destruct Hlevel as [?|Hin]; [lia|congruence].
  - destruct n' as [|n']; [lia|]. apply IH; [lia|by right|done|done].
Qed.

Lemma sound_stablecoin_dispatch tok input :
  W (self_addr (ctx tok)) → Forall byte_ok input →
  sound (stablecoin_dispatch depth tok input) (stablecoin_dispatch depth' tok input).
Proof using Hdepth. intros. unfold stablecoin_dispatch, currency, at_of. walk. Qed.

(** ** The factory *)

Lemma decode_create_params_no_panic variant params :
  Forall byte_ok params → decode_create_params variant params ≠ Panics.
Proof.
  intros Hp. unfold decode_create_params, read_string_arg. apply bind_no_panic; [by apply word_u64_no_panic|].
  intros off Hoff%word_u64_nonneg; [|done]. case_if; [done|]. split_tests.
  apply bind_no_panic; [apply slice_in_range; lia|]. intros body Hb%slice_bytes; [|done].
  apply bind_no_panic; [eauto with cas20|]. intros version _. case_if; [done|].
  do 3 (apply bind_no_panic; [eauto with cas20|]; intros ? _).
  case_if; (apply bind_no_panic; [eauto with cas20|]; intros ? _; try case_if; done).
Qed.
Lemma validate_currency_no_panic code : validate_currency code ≠ Panics.
Proof. unfold validate_currency. repeat case_match; done. Qed.
#[local] Hint Resolve decode_create_params_no_panic validate_currency_no_panic : cas20.

Lemma sound_initialized_metered a : sound (initialized_metered a) (initialized_metered a).
Proof. unfold initialized_metered. walk. Qed.
#[local] Hint Resolve sound_initialized_metered : cas20.

Lemma sound_init_call variant tok ic :
  W (self_addr (ctx tok)) → Forall byte_ok ic.2 →
  sound (init_call depth variant tok ic) (init_call depth' variant tok ic).
Proof using Hdepth.
  destruct ic as [i call]. intros Htok Hc. unfold init_call, charge_internal_dispatch, variant_dispatch. walk.
  - apply sound_asset_dispatch; [lia|left; lia|done|done].
  - by apply sound_stablecoin_dispatch.
Qed.
#[local] Hint Resolve sound_init_call : cas20.

Lemma sound_write_initial_state variant tok create :
  W (self_addr (ctx tok)) → sound (write_initial_state variant tok create) (write_initial_state variant tok create).
Proof.
  intros. unfold write_initial_state, init_asset_extension, set_asset_decimals, set_multiplier, set_currency. walk_token.
Qed.
Lemma sound_grant_initial_admin tok admin :
  W (self_addr (ctx tok)) → sound (grant_initial_admin tok admin) (grant_initial_admin tok admin).
Proof. intros. unfold grant_initial_admin. walk_token. Qed.
#[local] Hint Resolve sound_write_initial_state sound_grant_initial_admin : cas20.

Lemma sound_create_at env na variant create init_calls :
  W (self_addr env) → W na → Forall (Forall byte_ok) init_calls →
  sound (create_at depth env na variant create init_calls) (create_at depth' env na variant create init_calls).
Proof using Hdepth.
  intros Henv Hnew Hcalls. set (tok := token_bootstrap (spawn_bootstrap env na FACTORY_ADDRESS) (cp_decimals create)).
  assert (Htok : W (self_addr (ctx tok))) by exact Hnew.
  unfold create_at, address_occupied. cbn zeta. fold tok. walk.
  match goal with Hic : ?ic ∈ zip _ _ |- _ => destruct ic as [i call]; apply elem_of_zip_r in Hic end.
  apply sound_init_call; [done|]. by eapply Forall_forall in Hcalls.
Qed.
#[local] Hint Resolve sound_create_at : cas20.

Lemma sound_create_cas20 env args :
  W (self_addr env) → (∀ variant salt, W (derive_address variant (caller env) salt)) → Forall byte_ok args →
  sound (create_cas20 depth env args) (create_cas20 depth' env args).
Proof using Hdepth.
  intros Henv Hnew Hargs. unfold create_cas20, read_bytes_arg. walk.
  apply sound_create_at; [done|apply Hnew|]. apply Forall_forall. eauto with cas20.
Qed.
#[local] Hint Resolve sound_create_cas20 : cas20.

Lemma sound_run_factory env input :
  W (self_addr env) → (∀ variant salt, W (derive_address variant (caller env) salt)) → Forall byte_ok input →
  sound (run_factory depth env input) (run_factory depth' env input).
Proof using Hdepth. intros. unfold run_factory. walk. Qed.
#[local] Hint Resolve sound_run_factory sound_stablecoin_dispatch : cas20.

(** ** One call *)

Lemma sound_execute kind env data :
  W (self_addr env) →
  match kind with
  | KFactory => ∀ variant salt, W (derive_address variant (caller env) salt)
  | KPolicy => W POLICY_REGISTRY_ADDRESS
  | KActivation => W ACTIVATION_REGISTRY_ADDRESS
  | _ => True
  end →
  Forall byte_ok data → sound (execute depth kind env data) (execute depth' kind env data).
Proof using Hdepth.
  intros Henv Hk Hd. unfold execute, charge_calldata. walk.
  apply sound_asset_dispatch; [lia|left; lia|done|done].
Qed.
End Variants.

(** Where a call may write: its own account, and for the factory the tokens the
    caller can create. *)
Definition touches `{Keccak} (kind : Kind) (env : Env) (a : Z) : Prop :=
  a = self_addr env ∨ (kind = KFactory ∧ ∃ variant salt, a = derive_address variant (caller env) salt).

(** The call went through to its end: it was not stopped for gas, by a database
    error or by write protection. *)
Definition completed (o : Outcome) : Prop :=
  match o with
  | OReturn _ => True
  | ORevert d => d ≠ err4 ERR_STATIC_CALL_NOT_ALLOWED
  | OOutOfGas | OFatal _ => False
  end.

(** What a completed call reports of its result. *)
Definition reports (o : Outcome) (result : exec Cas20Err bytes) : Prop :=
  match o, result with
  | OReturn d, Done d' => d = d'
  | ORevert d, Fail (Revert d') => d = d'
  | ORevert d, Fail DelegateCall => d = err4 ERR_DELEGATE_CALL_NOT_ALLOWED
  | _, _ => False
  end.

Lemma resolve_kind a kind :
  resolve a = Some kind →
  match kind with
  | KFactory => a = FACTORY_ADDRESS
  | KPolicy => a = POLICY_REGISTRY_ADDRESS
  | KActivation => a = ACTIVATION_REGISTRY_ADDRESS
  | KAsset => is_cas20_address a = true ∧ addr_byte a 10 = VARIANT_ASSET
  | KStablecoin => is_cas20_address a = true ∧ addr_byte a 10 = VARIANT_STABLECOIN
  end.
Proof.
  unfold resolve. intros Hr. repeat case_match; simplify_eq; split_tests; done.
Qed.

Section Run.
Context `{K : Keccak} `{G : StorageGas} `{H : Cas20Host} `{Ec : Ecrecover} `{HL : !Cas20HostLaws K H}.
Implicit Types (kind : Kind) (env : Env) (data : bytes) (h : Host).

Lemma policy_depth_enough gas_limit : 0 <= gas_limit → gas_limit < keccak_cost 64 * Z.of_nat (policy_depth gas_limit).
Proof.
  intros Hg. unfold policy_depth. change (keccak_cost 64) with 42.
  pose proof (Z.div_pos gas_limit 42). pose proof (Z.mul_div_le gas_limit 42). pose proof (Z.mod_pos_bound gas_limit 42).
  pose proof (Z.div_mod gas_limit 42). lia.
Qed.

Lemma new_ctx_gas h gas_limit :
  0 <= gas_limit < 2 ^ 64 → gas_wf (new_ctx h gas_limit) ∧ gas_left (new_ctx h gas_limit) = gas_limit.
Proof.
  intros Hg. assert (Hwf : gas_wf (new_ctx h gas_limit)) by (unfold gas_wf; cbn; lia).
  split; [done|]. rewrite gas_left_wf by done. cbn. lia.
Qed.

(** [complete] on a frame whose flags are up, and on one whose are not. *)
Lemma complete_stopped c r o used refund :
  stopped c → complete (frame c) r = Done (o, used, refund) → completed o → False.
Proof.
  unfold complete, stopped. destruct (fatal (frame c)) as [msg|]; [intros _ [= <- _ _]; exact id|].
  destruct (write_protected (frame c)); [intros _ [= <- _ _] Hc; by apply Hc|].
  destruct (out_of_gas (frame c)); [intros _ [= <- _ _]; exact id|]. intros [?|[?|[? ?]]]; discriminate.
Qed.

Lemma complete_reports f r o used refund :
  complete f r = Done (o, used, refund) → completed o → reports o r.
Proof.
  unfold complete. destruct (fatal f) as [msg|]; [intros [= <- _ _] []|].
  destruct (write_protected f); [intros [= <- _ _] Hc; by destruct Hc|].
  destruct (out_of_gas f); [intros [= <- _ _] []|].
  destruct r as [d|[d| | |]|]; intros [= <- _ _] Hc; try exact eq_refl; by destruct Hc.
Qed.

(** The frame at the end of a call, and what the walk says about it. *)
Section Call.
Context (kind : Kind) (env : Env) (data : bytes) (h : Host) (gas_limit : Z).
Context (Hgas : 0 <= gas_limit < 2 ^ 64) (Hdata : Forall byte_ok data).
Notation p := (execute (policy_depth gas_limit) kind env data).
Notation result := (exec_prog (read_only env) p (new_ctx h gas_limit)).

Lemma call_no_panic : result.1 ≠ Panics.
Proof using Hgas Hdata.
  destruct (new_ctx_gas h gas_limit Hgas) as [Hwf Hleft].
  destruct (sound_execute (λ _, True) (policy_depth gas_limit) _ (le_n _) kind env data) as (_ & _ & Hn); [done|by destruct kind|done|].
  apply Hn; [done|]. rewrite Hleft. apply policy_depth_enough. lia.
Qed.

Lemma call_spends : gas_wf result.2 ∧ limit (gas (frame result.2)) = gas_limit.
Proof using Hgas.
  destruct (new_ctx_gas h gas_limit Hgas) as [Hwf _].
  destruct (exec_spends (read_only env) p (new_ctx h gas_limit) Hwf) as (? & Hl & _). by rewrite Hl.
Qed.

Lemma run_eq : run kind env data h gas_limit = (complete (frame result.2) result.1, state (frame result.2)).
Proof. unfold run. by destruct result. Qed.

(** A completed call computed what its handlers compute on the state alone,
    whatever number of levels they may follow. *)
Lemma run_refines o used refund depth :
  (run kind env data h gas_limit).1 = Done (o, used, refund) → completed o → (policy_depth gas_limit ≤ depth)%nat →
  reports o (ideal (execute depth kind env data) {| world := view h; renounced := false |}).1
  ∧ view (run kind env data h gas_limit).2 = world (ideal (execute depth kind env data) {| world := view h; renounced := false |}).2.
Proof using Hgas Hdata.
  intros Hrun Ho Hd. rewrite run_eq in *. cbn [fst snd] in *.
  destruct (sound_execute (λ _, True) _ _ Hd kind env data) as (_ & Ha & _); [done|by destruct kind|done|].
  pose proof (approx_exec (read_only env) _ _ _ Ha call_no_panic) as Heq. rewrite <- Heq in *.
  destruct (exec_refines (read_only env) (execute depth kind env data) (new_ctx h gas_limit)) as [Hs|[Hr Hw]].
  - exfalso. by eapply complete_stopped.
  - change (ist (new_ctx h gas_limit)) with {| world := view h; renounced := false |} in *.
    rewrite <- Hr, <- Hw. split; [|done]. by eapply complete_reports.
Qed.
End Call.

(** C12: every CAS20 call returns an outcome, and its gas is in order.  No
    calldata, state or budget makes a handler panic or recurse without end:
    [run] always produces an outcome; it uses no more gas than it was given, all
    of it when it stops for gas or fails fatally, and gives a refund only when it
    returns. *)
Theorem calls_return kind env data h gas_limit :
  0 <= gas_limit < 2 ^ 64 → Forall byte_ok data →
  ∃ o used refund, (run kind env data h gas_limit).1 = Done (o, used, refund)
    ∧ 0 <= used <= gas_limit
    ∧ (match o with OOutOfGas | OFatal _ => used = gas_limit | _ => True end)
    ∧ (refund ≠ 0 → ∃ d, o = OReturn d).
Proof.
  intros Hgas Hdata. rewrite run_eq.
  pose proof (call_no_panic kind env data h gas_limit Hgas Hdata) as Hn.
  destruct (call_spends kind env data h gas_limit Hgas) as [[? ?] Hl].
  destruct (exec_prog _ _ _) as [r c]. cbn [fst snd] in *. unfold complete.
  destruct (fatal (frame c)) as [msg|]; [|destruct (write_protected (frame c)), (out_of_gas (frame c)), r as [d|[d| | |]|]; try done];
    (eexists _, _, _; split_and!; [reflexivity|lia|lia|try done|try done]); intros _; by eexists.
Qed.

(** C18: gas decides whether a call completes, and nothing else.  Two runs of
    the same call on journals that represent the same state, whatever their
    budgets, which slots are warm and what the gas table charges, give the same
    outcome and leave the same state if both complete. *)
Theorem gas_only_decides_completion kind env data h h' gas_limit gas_limit' o used refund o' used' refund' :
  0 <= gas_limit < 2 ^ 64 → 0 <= gas_limit' < 2 ^ 64 → Forall byte_ok data →
  view h = view h' →
  (run kind env data h gas_limit).1 = Done (o, used, refund) → completed o →
  (run kind env data h' gas_limit').1 = Done (o', used', refund') → completed o' →
  o = o' ∧ view (run kind env data h gas_limit).2 = view (run kind env data h' gas_limit').2.
Proof.
  intros Hg Hg' Hd Hv Hr Ho Hr' Ho'.
  set (depth := Nat.max (policy_depth gas_limit) (policy_depth gas_limit')).
  destruct (run_refines kind env data h gas_limit Hg Hd o used refund depth Hr Ho) as [R1 V1]; [lia|].
  destruct (run_refines kind env data h' gas_limit' Hg' Hd o' used' refund' depth Hr' Ho') as [R2 V2]; [lia|].
  rewrite Hv in *. split; [|congruence].
  destruct (ideal _ _) as [r s]; cbn [fst] in *.
  destruct o, o', r as [?|[]|]; cbn [reports] in *; try contradiction; f_equal; congruence.
Qed.

(** A static call changes nothing: inside a STATICCALL no call, completed
    or not, changes a slot, a code or the logs. *)
Theorem static_call_changes_nothing kind env data h gas_limit :
  read_only env = true → view (run kind env data h gas_limit).2 = view h.
Proof.
  intros Hro. rewrite run_eq. cbn [snd]. rewrite Hro. apply (exec_read_only _ (new_ctx h gas_limit)).
Qed.

(** C22: a call touches only its own account.  Whatever a call does, in every
    outcome, the storage, code and logs of every other account stay as they
    were; the factory may also touch the tokens its caller can create. *)
Theorem call_touches_own_account kind env data h gas_limit :
  resolve (self_addr env) = Some kind → Forall byte_ok data →
  same_outside (touches kind env) (view h) (view (run kind env data h gas_limit).2).
Proof.
  intros Hk Hd. rewrite run_eq. cbn [snd]. apply (exec_within _ _ _ (new_ctx h gas_limit)).
  destruct (sound_execute (touches kind env) (policy_depth gas_limit) _ (le_n _) kind env data) as (Hw & _ & _); [|
    |done|done]; [by left|]. apply resolve_kind in Hk.
  destruct kind; [|by left|by left|done|done]. intros v salt. right. eauto.
Qed.
End Run.
