(* ===== verification/Cas20Ledger.v ===== *)
(** * Cas20Ledger: the cells of a token and what is true of them

    The storage of a token account as cells: each slot the code computes has a
    tag, and [Layout] says that no slot has two (hashed slots do not collide).
    [token_ok] is the invariant of an account: the balances add up to the total
    supply, the supply is within its cap, and the admin count counts the admins.

    Programs are run by [ideal], on the state alone; [Cas20Calls] carries what
    is shown here to calls with gas. *)

From stdpp Require Import base tactics numbers option list gmap strings.
From Stdlib Require Import ZArith Lia Bool.
From S2P Require Import Prelude.
From S2P Require Import Cas20Sigs.
From S2P Require Import Cas20Frame.
From S2P Require Import Cas20Meta.
From S2P Require Import Cas20Abi.
From S2P Require Import Cas20Storage.
From S2P Require Import Cas20Policy.
From S2P Require Import Cas20Token.
From S2P Require Import Cas20Asset.
From S2P Require Import Cas20Factory.
From S2P Require Import Cas20Sound.

(** ** Sums over all accounts *)

Definition account_ok (x : Z) : Prop := 0 <= x < 2 ^ 160.
Definition word_ok (w : Z) : Prop := 0 <= w < 2 ^ 256.
Definition accounts : list Z := seqZ 0 (2 ^ 160).
Definition sum_over (l : list Z) (f : Z → Z) : Z := foldr (λ x acc, f x + acc) 0 l.
Definition total (f : Z → Z) : Z := sum_over accounts f.

Section Sums.
Implicit Types (f g : Z → Z) (l : list Z).

Lemma elem_of_accounts x : x ∈ accounts ↔ account_ok x.
Proof. unfold accounts, account_ok. rewrite elem_of_seqZ. lia. Qed.
Lemma NoDup_accounts : NoDup accounts.
Proof. apply NoDup_seqZ. Qed.

Lemma sum_cons f x l : sum_over (x :: l) f = f x + sum_over l f.
Proof. done. Qed.

Lemma accounts_len : zlen accounts = 2 ^ 160.
Proof. unfold accounts, zlen. rewrite length_seqZ. lia. Qed.

Lemma sum_ext f g l : (∀ x, x ∈ l → f x = g x) → sum_over l f = sum_over l g.
Proof.
  induction l as [|y l IH]; intros Hfg; rewrite ?sum_cons; [done|]. rewrite (Hfg y) by left. f_equal. apply IH.
  intros x Hx. apply Hfg. by right.
Qed.

Lemma sum_update f g l x :
  NoDup l → x ∈ l → (∀ y, y ∈ l → y ≠ x → g y = f y) → sum_over l g = sum_over l f - f x + g x.
Proof.
  intros Hnd. induction Hnd as [|y l Hy Hnd IH]; intros Hx Hg; [by apply elem_of_nil in Hx|]. rewrite !sum_cons.
  apply elem_of_cons in Hx as [->|Hx].
  - rewrite (sum_ext g f l); [lia|]. intros z Hz. apply Hg; [by right|]. by intros ->.
  - rewrite IH; [|done|]; [|intros; apply Hg; [by right|done]].
    rewrite (Hg y); [lia|by left|]. by intros ->.
Qed.

Lemma sum_nonneg f l : (∀ x, x ∈ l → 0 <= f x) → 0 <= sum_over l f.
Proof.
  induction l as [|y l IH]; intros Hf; rewrite ?sum_cons; [cbn; lia|].
  pose proof (Hf y ltac:(by left)). specialize (IH ltac:(intros; apply Hf; by right)). lia.
Qed.

Lemma sum_ge f l x : (∀ y, y ∈ l → 0 <= f y) → x ∈ l → f x <= sum_over l f.
Proof.
  induction l as [|y l IH]; intros Hf Hx; [by apply elem_of_nil in Hx|]. rewrite !sum_cons.
  pose proof (Hf y ltac:(by left)). pose proof (sum_nonneg f l ltac:(intros; apply Hf; by right)).
  apply elem_of_cons in Hx as [->|Hx]; [lia|]. specialize (IH ltac:(intros; apply Hf; by right) Hx). lia.
Qed.

Lemma total_ext f g : (∀ x, account_ok x → f x = g x) → total f = total g.
Proof. intros Hfg. apply sum_ext. intros x Hx%elem_of_accounts. by apply Hfg. Qed.
Lemma total_update f g x :
  account_ok x → (∀ y, account_ok y → y ≠ x → g y = f y) → total g = total f - f x + g x.
Proof.
  intros Hx Hg. apply sum_update; [apply NoDup_accounts|by apply elem_of_accounts|].
  intros y Hy%elem_of_accounts. by apply Hg.
Qed.
Lemma total_ge f x : (∀ y, account_ok y → 0 <= f y) → account_ok x → f x <= total f.
Proof.
  intros Hf Hx. apply sum_ge; [|by apply elem_of_accounts]. intros y Hy%elem_of_accounts. by apply Hf.
Qed.
Lemma sum_const l c : sum_over l (λ _, c) = c * zlen l.
Proof. induction l as [|x l IH]; [unfold zlen, sum_over; cbn [foldr length]; lia|]. rewrite sum_cons, IH, zlen_cons. lia. Qed.
Lemma total_zero : total (λ _, 0) = 0.
Proof. unfold total. rewrite sum_const. lia. Qed.
Lemma sum_le f g l : (∀ x, x ∈ l → f x <= g x) → sum_over l f <= sum_over l g.
Proof.
  induction l as [|y l IH]; intros Hf; rewrite ?sum_cons; [cbn; lia|].
  pose proof (Hf y ltac:(by left)). specialize (IH ltac:(intros; apply Hf; by right)). lia.
Qed.
End Sums.
#[global] Opaque accounts.

(** ** Cells *)

(** What a slot of a token holds. *)
Inductive tag := TBalance (a : Z) | TSupply | TCap | TAdmin (a : Z) | TAdminCount | TRole | TRoleAdmin | TOther.
#[export] Instance tag_eq_dec : EqDecision tag.
Proof. solve_decision. Defined.

Section Ledger.
Context `{K : Keccak}.

Definition role_key (role a : Z) : Z := mapping_slot (mapping_slot (slot_at SLOT_ROLES) role) a.
Definition str_key (offset : Z) (key : bytes) : Z := keccak256 (key ++ be_encode 32 (asset_slot offset)).

(** The slots that hold a string. *)
Inductive string_slot : Z → Prop :=
| string_core k : k ∈ [SLOT_NAME; SLOT_SYMBOL; SLOT_CONTRACT_URI] → string_slot (slot_at k)
| string_currency : string_slot (stablecoin_slot SLOT_CURRENCY)
| string_meta key : string_slot (str_key SLOT_EXTRA_META key).

Inductive slot_is : tag → Z → Prop :=
| is_balance a : account_ok a → slot_is (TBalance a) (mapping_slot (slot_at SLOT_BALANCES) a)
| is_supply : slot_is TSupply (slot_at SLOT_TOTAL_SUPPLY)
| is_cap : slot_is TCap (slot_at SLOT_SUPPLY_CAP)
| is_admin a : account_ok a → slot_is (TAdmin a) (role_key ROLE_DEFAULT_ADMIN a)
| is_admin_count : slot_is TAdminCount (slot_at SLOT_ADMIN_COUNT)
| is_role role a : word_ok role → role ≠ ROLE_DEFAULT_ADMIN → account_ok a → slot_is TRole (role_key role a)
| is_role_admin role : slot_is TRoleAdmin (mapping_slot (slot_at SLOT_ROLE_ADMINS) role)
| is_named k :
    k ∈ [SLOT_NAME; SLOT_SYMBOL; SLOT_CONTRACT_URI; SLOT_TRANSFER_POLICIES; SLOT_MINT_POLICY; SLOT_PAUSED;
         SLOT_SEIZE_POLICIES] → slot_is TOther (slot_at k)
| is_allowance owner spender : slot_is TOther (mapping_slot (mapping_slot (slot_at SLOT_ALLOWANCES) owner) spender)
| is_nonce owner : slot_is TOther (mapping_slot (slot_at SLOT_NONCES) owner)
| is_asset k : k ∈ [SLOT_DECIMALS; SLOT_MULTIPLIER; SLOT_PENDING] → slot_is TOther (asset_slot k)
| is_announcement id : slot_is TOther (str_key SLOT_ANNOUNCEMENTS id)
| is_string slot : string_slot slot → slot_is TOther slot
| is_string_data slot i :
    string_slot slot → 0 <= i <= 2 ^ 59 → slot_is TOther (wrap256 (keccak256 (be_encode 32 slot) + i)).

(** No slot is two cells. *)
Class Layout : Prop := one_tag t t' slot : slot_is t slot → slot_is t' slot → t = t'.

(** Writing to such a cell leaves the ledger alone. *)
Definition aside (t : tag) : Prop := t = TRole ∨ t = TRoleAdmin ∨ t = TOther.

Definition balance (w : World) (a x : Z) : Z := w_get w a (mapping_slot (slot_at SLOT_BALANCES) x).
Definition supply (w : World) (a : Z) : Z := w_get w a (slot_at SLOT_TOTAL_SUPPLY).
Definition cap (w : World) (a : Z) : Z := w_get w a (slot_at SLOT_SUPPLY_CAP).
Definition admins (w : World) (a : Z) : Z := w_get w a (slot_at SLOT_ADMIN_COUNT).
Definition holds_role (w : World) (a role x : Z) : bool := negb (w_get w a (role_key role x) =? 0).
Definition admin_flag (w : World) (a x : Z) : Z := if holds_role w a ROLE_DEFAULT_ADMIN x then 1 else 0.

Lemma admin_flag_range w a x : 0 <= admin_flag w a x <= 1.
Proof. unfold admin_flag. case_match; lia. Qed.

(** [d] tokens and [e] admins are in flight: written to one cell and not yet to
    the one that counts them. *)
Record ledger (d e : Z) (w : World) (a : Z) : Prop := {
  balances_nonneg x : account_ok x → 0 <= balance w a x;
  supply_is_total : total (balance w a) = supply w a + d;
  supply_capped : supply w a <= cap w a <= NO_SUPPLY_CAP;
  admins_counted : total (admin_flag w a) = admins w a + e;
}.
Definition token_ok : World → Z → Prop := ledger 0 0.

(** The cells of the ledger of [a] are the same in both worlds. *)
Definition same_ledger (a : Z) (w w' : World) : Prop :=
  ∀ t slot, slot_is t slot → ¬ aside t → w_get w' a slot = w_get w a slot.

Lemma same_ledger_ok d e a w w' : same_ledger a w w' → ledger d e w a → ledger d e w' a.
Proof.
  intros Hs [Hn Ht Hc Ha].
  assert (Hcell : ∀ t slot, slot_is t slot → match t with TRole | TRoleAdmin | TOther => False | _ => True end →
                  w_get w' a slot = w_get w a slot).
  { intros t slot Ht' Hne. apply (Hs t); [exact Ht'|]. by intros [-> | [-> | ->]]. }
  assert (Hb : ∀ x, account_ok x → balance w' a x = balance w a x) by (intros x Hx; exact (Hcell _ _ (is_balance x Hx) I)).
  assert (Hf : ∀ x, account_ok x → admin_flag w' a x = admin_flag w a x).
  { intros x Hx. unfold admin_flag, holds_role. by rewrite (Hcell _ _ (is_admin x Hx) I). }
  pose proof (Hcell _ _ is_supply I) as Es. pose proof (Hcell _ _ is_cap I) as Ec.
  pose proof (Hcell _ _ is_admin_count I) as En. fold (supply w a) (supply w' a) in Es.
  fold (cap w a) (cap w' a) in Ec. fold (admins w a) (admins w' a) in En.
  split; [intros x Hx; rewrite Hb; auto|rewrite Es, (total_ext _ _ Hb); exact Ht|rewrite Es, Ec; exact Hc|].
  rewrite En, (total_ext _ _ Hf). exact Ha.
Qed.

Lemma w_get_set w a slot v a' slot' :
  w_get (w_set a slot v w) a' slot' = if bool_decide (a = a' ∧ slot = slot') then v else w_get w a' slot'.
Proof.
  unfold w_get. cbn. case_bool_decide as Heq.
  - destruct Heq as [-> ->]. by rewrite lookup_insert_eq.
  - rewrite lookup_insert_ne; [done|]. intros [= -> ->]. by apply Heq.
Qed.
Lemma w_get_set_eq w a slot v : w_get (w_set a slot v w) a slot = v.
Proof. rewrite w_get_set, bool_decide_true; done. Qed.
Lemma w_get_set_ne w a slot v a' slot' : a ≠ a' ∨ slot ≠ slot' → w_get (w_set a slot v w) a' slot' = w_get w a' slot'.
Proof. intros Hne. rewrite w_get_set, bool_decide_false; [done|]. naive_solver. Qed.

Context `{L : !Layout}.

(** Two cells with different tags are two slots. *)
Lemma cells_differ t t' slot slot' : slot_is t slot → slot_is t' slot' → t ≠ t' → slot ≠ slot'.
Proof using L. intros Ht Ht' Hne ->. apply Hne. by apply (one_tag _ _ slot'). Qed.

Lemma write_aside a t slot v w : slot_is t slot → aside t → same_ledger a w (w_set a slot v w).
Proof using L.
  intros Ht Has t' slot' Ht' Hn. apply w_get_set_ne. right. apply (cells_differ t t'); [done|done|]. by intros ->.
Qed.

Lemma ledger_log d e l w a : ledger d e w a → ledger d e (w_log l w) a.
Proof. by apply same_ledger_ok. Qed.
Lemma ledger_eq d e d' e' w a : ledger d e w a → d = d' → e = e' → ledger d' e' w a.
Proof. by intros ? -> ->. Qed.

Lemma balance_bound d e w a x : ledger d e w a → account_ok x → 0 <= balance w a x <= NO_SUPPLY_CAP + d.
Proof.
  intros [Hn Ht Hc _] Hx. split; [by apply Hn|]. pose proof (total_ge (balance w a) x Hn Hx). lia.
Qed.
Lemma supply_nonneg d e w a : ledger d e w a → 0 <= supply w a + d.
Proof.
  intros [Hn Ht Hc _]. rewrite <- Ht. apply sum_nonneg. intros x Hx%elem_of_accounts. by apply Hn.
Qed.

(** *** One write to a cell of the ledger *)

Lemma balance_write w a x v t slot :
  account_ok x → slot_is t slot → t ≠ TBalance x →
  w_get (w_set a (mapping_slot (slot_at SLOT_BALANCES) x) v w) a slot = w_get w a slot.
Proof using L.
  intros Hx Hs Hne. apply w_get_set_ne. right. apply (cells_differ (TBalance x) t); [by constructor|done|congruence].
Qed.
Lemma balance_write_counters w a x v :
  account_ok x → let w' := w_set a (mapping_slot (slot_at SLOT_BALANCES) x) v w in
  supply w' a = supply w a ∧ cap w' a = cap w a ∧ admins w' a = admins w a.
Proof using L.
  intros Hx w'. split_and!.
  - exact (balance_write w a x v _ _ Hx is_supply ltac:(done)).
  - exact (balance_write w a x v _ _ Hx is_cap ltac:(done)).
  - exact (balance_write w a x v _ _ Hx is_admin_count ltac:(done)).
Qed.

Lemma set_balance_ledger d e w a x v :
  ledger d e w a → account_ok x → 0 <= v →
  ledger (d - balance w a x + v) e (w_set a (mapping_slot (slot_at SLOT_BALANCES) x) v w) a.
Proof using L.
  intros [Hn Ht Hc Ha] Hx Hv. set (w' := w_set _ _ _ _).
  assert (Hcell : ∀ t slot, slot_is t slot → t ≠ TBalance x → w_get w' a slot = w_get w a slot).
  { intros t slot Hs Hne. by apply (balance_write w a x v t). }
  destruct (balance_write_counters w a x v Hx) as (Es & Ec & En). fold w' in Es, Ec, En.
  assert (Ex : balance w' a x = v) by apply w_get_set_eq.
  assert (Eb : ∀ y, account_ok y → y ≠ x → balance w' a y = balance w a y).
  { intros y Hy Hyx. apply (Hcell (TBalance y) _ (is_balance y Hy)). congruence. }
  split.
  - intros y Hy. destruct (decide (y = x)) as [->|Hyx]; [by rewrite Ex|]. rewrite Eb by done. by apply Hn.
  - rewrite Es, (total_update (balance w a) _ x Hx Eb), Ex, Ht. lia.
  - by rewrite Es, Ec.
  - rewrite En, <- Ha. apply total_ext. intros y Hy. unfold admin_flag, holds_role.
    by rewrite (Hcell (TAdmin y) _ (is_admin y Hy)).
Qed.

Lemma admin_write w a x v t slot :
  account_ok x → slot_is t slot → t ≠ TAdmin x →
  w_get (w_set a (role_key ROLE_DEFAULT_ADMIN x) v w) a slot = w_get w a slot.
Proof using L.
  intros Hx Hs Hne. apply w_get_set_ne. right. apply (cells_differ (TAdmin x) t); [by constructor|done|congruence].
Qed.
Lemma admin_write_counters w a x v :
  account_ok x → admins (w_set a (role_key ROLE_DEFAULT_ADMIN x) v w) a = admins w a.
Proof using L. intros Hx. exact (admin_write w a x v _ _ Hx is_admin_count ltac:(done)). Qed.

(** The admins in flight aside, there are no more than accounts. *)
Lemma admins_bound d e w a : ledger d e w a → 0 <= admins w a + e <= 2 ^ 160.
Proof.
  intros [_ _ _ Ha]. rewrite <- Ha. unfold total. split.
  - apply sum_nonneg. intros x _. apply admin_flag_range.
  - transitivity (sum_over accounts (λ _, 1)); [apply sum_le; intros x _; apply admin_flag_range|].
    rewrite sum_const, accounts_len. lia.
Qed.

(** With a count of zero nobody is an admin. *)
Lemma no_admins w a x :
  token_ok w a → admins w a = 0 → account_ok x → holds_role w a ROLE_DEFAULT_ADMIN x = false.
Proof.
  intros Hok Hn Hx. pose proof (total_ge (admin_flag w a) x) as Hge. rewrite (admins_counted _ _ _ _ Hok), Hn in Hge.
  assert (Hf : admin_flag w a x <= 0) by (apply Hge; [intros; apply admin_flag_range|done]).
  unfold admin_flag in Hf. by destruct (holds_role w a ROLE_DEFAULT_ADMIN x).
Qed.

Lemma set_admin_ledger d e w a x (b : bool) :
  ledger d e w a → account_ok x →
  ledger d (e - admin_flag w a x + (if b then 1 else 0)) (w_set a (role_key ROLE_DEFAULT_ADMIN x) (if b then 1 else 0) w) a.
Proof using L.
  intros [Hn Ht Hc Ha] Hx. set (w' := w_set _ _ _ _).
  assert (Hcell : ∀ t slot, slot_is t slot → t ≠ TAdmin x → w_get w' a slot = w_get w a slot).
  { intros t slot Hs Hne. by apply (admin_write w a x _ t). }
  assert (Es : supply w' a = supply w a) by exact (Hcell TSupply _ is_supply ltac:(done)).
  assert (Ec : cap w' a = cap w a) by exact (Hcell TCap _ is_cap ltac:(done)).
  assert (En : admins w' a = admins w a) by exact (Hcell TAdminCount _ is_admin_count ltac:(done)).
  assert (Ex : admin_flag w' a x = if b then 1 else 0).
  { unfold admin_flag, holds_role, w'. rewrite w_get_set_eq. by destruct b. }
  assert (Ef : ∀ y, account_ok y → y ≠ x → admin_flag w' a y = admin_flag w a y).
  { intros y Hy Hyx. unfold admin_flag, holds_role. rewrite (Hcell (TAdmin y) _ (is_admin y Hy)); [done|]. congruence. }
  assert (Eb : ∀ y, account_ok y → balance w' a y = balance w a y).
  { intros y Hy. by apply (Hcell (TBalance y) _ (is_balance y Hy)). }
  split.
  - intros y Hy. rewrite Eb by done. by apply Hn.
  - rewrite Es, <- Ht. by apply total_ext.
  - by rewrite Es, Ec.
  - rewrite En, (total_update (admin_flag w a) _ x Hx Ef), Ex, Ha. lia.
Qed.

(** The three counters. *)
Lemma counter_is t slot :
  slot_is t slot →
  match t with
  | TSupply => slot = slot_at SLOT_TOTAL_SUPPLY
  | TCap => slot = slot_at SLOT_SUPPLY_CAP
  | TAdminCount => slot = slot_at SLOT_ADMIN_COUNT
  | _ => True
  end.
Proof. intros []; exact I || exact eq_refl. Qed.

Lemma counter_slot t slot slot' :
  t = TSupply ∨ t = TCap ∨ t = TAdminCount → slot_is t slot → slot_is t slot' → slot = slot'.
Proof. intros Hk Hs%counter_is Hs'%counter_is. destruct Hk as [-> | [-> | ->]]; congruence. Qed.

Lemma set_counter_ledger d e w a t slot v :
  slot_is t slot → t = TSupply ∨ t = TCap ∨ t = TAdminCount → ledger d e w a →
  let w' := w_set a slot v w in
  (∀ x, account_ok x → balance w' a x = balance w a x)
  ∧ total (balance w' a) = supply w a + d ∧ total (admin_flag w' a) = admins w a + e
  ∧ supply w' a = match t with TSupply => v | _ => supply w a end
  ∧ cap w' a = match t with TCap => v | _ => cap w a end
  ∧ admins w' a = match t with TAdminCount => v | _ => admins w a end.
Proof using L.
  intros Hs Hk [Hn Ht Hc Ha] w'.
  assert (Hcell : ∀ t' slot', slot_is t' slot' → w_get w' a slot' = if bool_decide (t = t') then v else w_get w a slot').
  { intros t' slot' Hs'. case_bool_decide as Heq.
    - subst t'. rewrite (counter_slot t slot' slot Hk Hs' Hs). apply w_get_set_eq.
    - apply w_get_set_ne. right. by apply (cells_differ t t'). }
  assert (Eb : ∀ x, account_ok x → balance w' a x = balance w a x).
  { intros x Hx. unfold balance. rewrite (Hcell _ _ (is_balance x Hx)), bool_decide_false; [done|].
    by destruct Hk as [-> | [-> | ->]]. }
  assert (Ef : ∀ x, account_ok x → admin_flag w' a x = admin_flag w a x).
  { intros x Hx. unfold admin_flag, holds_role. rewrite (Hcell _ _ (is_admin x Hx)), bool_decide_false; [done|].
    by destruct Hk as [-> | [-> | ->]]. }
  split_and!; [done|by rewrite (total_ext _ _ Eb)|by rewrite (total_ext _ _ Ef)|..].
  - unfold supply. rewrite (Hcell _ _ is_supply). by destruct Hk as [-> | [-> | ->]].
  - unfold cap. rewrite (Hcell _ _ is_cap). by destruct Hk as [-> | [-> | ->]].
  - unfold admins. rewrite (Hcell _ _ is_admin_count). by destruct Hk as [-> | [-> | ->]].
Qed.

Lemma set_supply_ledger d e w a v :
  ledger d e w a → v <= cap w a → ledger (d + supply w a - v) e (w_set a (slot_at SLOT_TOTAL_SUPPLY) v w) a.
Proof using L.
  intros Hl Hv. destruct (set_counter_ledger d e w a TSupply _ v is_supply (or_introl eq_refl) Hl)
    as (Eb & Et & Ef & Es & Ec & En). destruct Hl as [Hn Ht Hc Ha]. cbn match in Es, Ec, En.
  split; [intros x Hx; rewrite Eb; auto|rewrite Et, Es; lia|rewrite Es, Ec; lia|by rewrite Ef, En].
Qed.
Lemma set_cap_ledger d e w a v :
  ledger d e w a → supply w a <= v <= NO_SUPPLY_CAP → ledger d e (w_set a (slot_at SLOT_SUPPLY_CAP) v w) a.
Proof using L.
  intros Hl Hv. destruct (set_counter_ledger d e w a TCap _ v is_cap (or_intror (or_introl eq_refl)) Hl)
    as (Eb & Et & Ef & Es & Ec & En). destruct Hl as [Hn Ht Hc Ha]. cbn match in Es, Ec, En.
  split; [intros x Hx; rewrite Eb; auto|by rewrite Et, Es|by rewrite Es, Ec|by rewrite Ef, En].
Qed.
Lemma set_admins_ledger d e w a v :
  ledger d e w a → ledger d (e + admins w a - v) (w_set a (slot_at SLOT_ADMIN_COUNT) v w) a.
Proof using L.
  intros Hl. destruct (set_counter_ledger d e w a TAdminCount _ v is_admin_count (or_intror (or_intror eq_refl)) Hl)
    as (Eb & Et & Ef & Es & Ec & En). destruct Hl as [Hn Ht Hc Ha]. cbn match in Es, Ec, En.
  split; [intros x Hx; rewrite Eb; auto|by rewrite Et, Es|by rewrite Es, Ec|rewrite Ef, En; lia].
Qed.
End Ledger.
