(* ===== verification/Cas20Keeps.v ===== *)
(** * Cas20Keeps: the ledger of a token survives every operation

    [keeps I p]: a run of [p] on the state alone that returns leaves a state
    with [I] if it started from one.  The handlers that write cells of the
    ledger are run symbolically; the others are walked through. *)

From stdpp Require Import base tactics numbers option list gmap strings.
From Stdlib Require Import ZArith Lia Bool.
From S2P Require Import Prelude.
From S2P Require Import Cas20Sigs.
From S2P Require Import Cas20Frame.
From S2P Require Import Cas20Meta.
From S2P Require Import Cas20Abi.
From S2P Require Import Cas20Storage.
From S2P Require Import Cas20Policy.
From S2P Require Import Cas20Token.
From S2P Require Import Cas20Asset.
From S2P Require Import Cas20Factory.
From S2P Require Import Cas20Sound.
From S2P Require Import Cas20Calls.
From S2P Require Import Cas20Ledger.

(** ** Running programs symbolically *)

Section Ideal.
Context `{K : Keccak}.
Implicit Types (s : IState).

Lemma ideal_ret {A} (r : A) s : ideal (Ret r) s = (Done r, s).
Proof. done. Qed.
Lemma ideal_throw {A} e s : ideal (Throw e : prog A) s = (Fail e, s).
Proof. done. Qed.
Lemma ideal_get_word at_ slot s : ideal (get_word at_ slot) s = (Done (w_get (world s) at_ slot), s).
Proof. done. Qed.
Lemma ideal_put_word at_ slot v s : ideal (put_word at_ slot v) s = (Done tt, on_world (w_set at_ slot v) s).
Proof. done. Qed.
Lemma ideal_map_slot base key s : ideal (map_slot base key) s = (Done (mapping_slot base key), s).
Proof. done. Qed.
Lemma ideal_balance_slot x s : ideal (balance_slot x) s = (Done (mapping_slot (slot_at SLOT_BALANCES) x), s).
Proof. done. Qed.
Lemma ideal_role_slot role x s : ideal (role_slot role x) s = (Done (role_key role x), s).
Proof. done. Qed.
Lemma ideal_has_role at_ role x s : ideal (has_role at_ role x) s = (Done (holds_role (world s) at_ role x), s).
Proof. done. Qed.
Lemma ideal_set_role at_ role x b s :
  ideal (set_role at_ role x b) s = (Done tt, on_world (w_set at_ (role_key role x) (if b then 1 else 0)) s).
Proof. done. Qed.
Lemma ideal_admin_count at_ s : ideal (admin_count at_) s = (Done (admins (world s) at_), s).
Proof. done. Qed.
Lemma ideal_set_admin_count at_ v s :
  ideal (set_admin_count at_ v) s = (Done tt, on_world (w_set at_ (slot_at SLOT_ADMIN_COUNT) v) s).
Proof. done. Qed.
Lemma ideal_total_supply at_ s : ideal (total_supply at_) s = (Done (supply (world s) at_), s).
Proof. done. Qed.
Lemma ideal_set_total_supply at_ v s :
  ideal (set_total_supply at_ v) s = (Done tt, on_world (w_set at_ (slot_at SLOT_TOTAL_SUPPLY) v) s).
Proof. done. Qed.
Lemma ideal_supply_cap at_ s : ideal (supply_cap at_) s = (Done (cap (world s) at_), s).
Proof. done. Qed.
Lemma ideal_set_supply_cap at_ v s :
  ideal (set_supply_cap at_ v) s = (Done tt, on_world (w_set at_ (slot_at SLOT_SUPPLY_CAP) v) s).
Proof. done. Qed.
Lemma ideal_emit_log env topics data s :
  ideal (emit_log env topics data) s =
  (Done tt, on_world (w_log {| log_address := self_addr env; log_topics := topics; log_data := data |}) s).
Proof. done. Qed.
Lemma ideal_require_bind {B} b e (f : unit → prog B) s :
  ideal (require b e ≫= f) s = if b then ideal (f tt) s else (Fail e, s).
Proof. by destruct b. Qed.

Lemma wrap256_small z : 0 <= z < 2 ^ 256 → wrap256 z = z.
Proof. apply Z.mod_small. Qed.

(** A program that writes only in [P] leaves the rest alone. *)
Lemma ideal_within {A} P (p : prog A) s : within P p → same_outside P (world s) (world (ideal p s).2).
Proof.
  revert s. induction p as [r|e| |o k IH]; intros s Hp; [done|done|done|]. destruct Hp as [Ho Hk]. cbn.
  assert (Hs : same_outside P (world s) (world (ideal_op o s).2)).
  { destruct o; cbn in *; try done; by (apply same_outside_set || apply same_outside_log || apply same_outside_code). }
  destruct (ideal_op o s) as [r s']. cbn in Hs. etrans; [exact Hs|]. by apply IH.
Qed.
End Ideal.

(** Runs the program in the goal as far as its reads and writes go. *)
Ltac run_ideal :=
  repeat first
    [ rewrite ideal_require_bind
    | rewrite ideal_bind
    | rewrite ideal_ret | rewrite ideal_throw
    | rewrite ideal_get_word | rewrite ideal_put_word | rewrite ideal_map_slot | rewrite ideal_balance_slot
    | rewrite ideal_role_slot | rewrite ideal_has_role | rewrite ideal_set_role | rewrite ideal_admin_count
    | rewrite ideal_set_admin_count | rewrite ideal_total_supply | rewrite ideal_set_total_supply
    | rewrite ideal_supply_cap | rewrite ideal_set_supply_cap | rewrite ideal_emit_log ];
  cbn [world on_world].

(** ** The logic *)

Section Keeps.
Context `{K : Keccak} (a : Z) (I : World → Prop).
Implicit Types (s : IState).

Definition keeps {A} (p : prog A) : Prop :=
  ∀ s r s', ideal p s = (Done r, s') → I (world s) → I (world s').

(** [I] is about the storage and the code of [a]. *)
Definition about_account : Prop :=
  ∀ w w', (∀ k, w_storage w' !! (a, k) = w_storage w !! (a, k)) → w_code w' !! a = w_code w !! a → I w → I w'.

Lemma keeps_ret {A} (r : A) : keeps (Ret r).
Proof. by intros s r' s' [= _ <-]. Qed.
Lemma keeps_throw {A} e : keeps (Throw e : prog A).
Proof. by intros s r' s' [=]. Qed.
Lemma keeps_bind {A B} (p : prog A) (f : A → prog B) : keeps p → (∀ r, keeps (f r)) → keeps (p ≫= f).
Proof.
  intros Hp Hf s r s'. rewrite ideal_bind. destruct (ideal p s) as [[x|e|] s1] eqn:E; [|done|done].
  intros E2 HI. eapply Hf; [exact E2|]. by eapply Hp.
Qed.
(** A program with one answer, which changes nothing. *)
Lemma keeps_bind_det {A B} (p : prog A) v (f : A → prog B) :
  (∀ s, ideal p s = (Done v, s)) → keeps (f v) → keeps (p ≫= f).
Proof. intros Hp Hf s r s'. rewrite ideal_bind, Hp. apply Hf. Qed.
Lemma keeps_lift {A} (m : exec Cas20Err A) : keeps (lift m).
Proof. intros s r s'. by destruct m; intros [= _ <-]. Qed.
Lemma keeps_bind_lift {A B} (m : exec Cas20Err A) (f : A → prog B) :
  (∀ r, m = Done r → keeps (f r)) → keeps (lift m ≫= f).
Proof. intros Hf. destruct m as [r|e|]; [by apply Hf|apply keeps_throw|by intros ? ? ? [=]]. Qed.
Lemma keeps_require b e : keeps (require b e).
Proof. destruct b; [apply keeps_ret|apply keeps_throw]. Qed.
Lemma keeps_bind_require {B} b e (f : unit → prog B) : (b = true → keeps (f tt)) → keeps (require b e ≫= f).
Proof. destruct b; intros Hf; [by apply Hf|apply keeps_throw]. Qed.
(** What a program returns. *)
Definition returns {A} (Q : A → Prop) (p : prog A) : Prop := ∀ s r s', ideal p s = (Done r, s') → Q r.
Lemma keeps_bind_returns {A B} (Q : A → Prop) (p : prog A) (f : A → prog B) :
  returns Q p → keeps p → (∀ r, Q r → keeps (f r)) → keeps (p ≫= f).
Proof.
  intros Hq Hp Hf s r s'. rewrite ideal_bind. destruct (ideal p s) as [[x|e|] s1] eqn:E; [|done|done].
  intros E2 HI. eapply Hf; [by eapply Hq|exact E2|]. by eapply Hp.
Qed.
(** A failed attempt must end in a failure. *)
Lemma keeps_bind_attempt {A B} (p : prog A) (f : Cas20Err + A → prog B) :
  keeps p → (∀ e, ∃ e', f (inl e) = Throw e') → (∀ r, keeps (f (inr r))) → keeps (attempt p ≫= f).
Proof.
  intros Hp He Hf s r s'. rewrite ideal_bind, ideal_attempt. destruct (ideal p s) as [[x|e|] s1] eqn:E; [| |done].
  - intros E2 HI. eapply Hf; [exact E2|]. by eapply Hp.
  - by destruct (He e) as [e' ->].
Qed.
Lemma keeps_for_each {A} (f : A → prog unit) l : (∀ x, x ∈ l → keeps (f x)) → keeps (for_each f l).
Proof.
  induction l as [|x l IH]; intros Hf; cbn [for_each]; [apply keeps_ret|].
  apply keeps_bind; [apply Hf; by left|]. intros _. apply IH. intros y Hy. apply Hf. by right.
Qed.

Context (Ha : about_account).

Lemma keeps_elsewhere {A} (p : prog A) : within (λ b, b ≠ a) p → keeps p.
Proof using Ha.
  intros Hp s r s' E. destruct (ideal_within _ p s Hp) as (Hst & Hco & _). rewrite E in *. cbn in *.
  apply Ha; [intros; apply Hst; by intros []|apply Hco; by intros []].
Qed.
Lemma keeps_emit_log env topics data : keeps (emit_log env topics data).
Proof using Ha. intros s r s'. rewrite ideal_emit_log. intros [= _ <-]. by apply Ha. Qed.
Lemma keeps_set_admin_renounced b : keeps (do_ (SetAdminRenounced b)).
Proof. by intros s r s' [= _ <-]. Qed.
End Keeps.

(** One step of the walk. *)
Create HintDb keeps discriminated.
#[export] Hint Constants Opaque : keeps.
#[export] Hint Resolve keeps_ret keeps_throw keeps_lift keeps_require keeps_set_admin_renounced : keeps.

(** A leaf that does not write at the account. *)
Ltac by_reads :=
  eapply keeps_elsewhere; [solve [eauto with keeps typeclass_instances]|];
  match goal with |- within ?W ?p => enough (sound W 0 p p) as [? _] by assumption end; walk_token.

Ltac keep_step :=
  match goal with
  | |- keeps _ (lift _ ≫= _) => apply keeps_bind_lift; intros ? ?
  | |- keeps _ (require _ _ ≫= _) => apply keeps_bind_require; intros ?
  | |- keeps _ (attempt _ ≫= _) => apply keeps_bind_attempt; [|intros ?; by eexists|intros ?]
  | |- keeps _ (allowance_slot _ _ ≫= _) => eapply keeps_bind_det; [intros; reflexivity|]
  | |- keeps _ (_ ≫= _) => apply keeps_bind; [|intros ?]
  | |- keeps _ (for_each _ _) => apply keeps_for_each; intros ? ?
  | |- keeps _ (if ?b then _ else _) => destruct b
  | |- keeps _ (match ?x with _ => _ end) => destruct x
  | |- keeps _ (let _ := _ in _) => cbn zeta
  | |- keeps _ _ => solve [eauto with keeps typeclass_instances]
  | |- keeps _ _ => solve [by_reads]
  end.
Ltac keep := repeat keep_step.

(** ** Writes that an invariant does not mind *)

(** [I] is about the account [a], and survives writes to its [free] cells. *)
Class Stable `{Keccak} (a : Z) (free : tag → Prop) (I : World → Prop) : Prop := {
  stable_account : about_account a I;
  stable_other : free TOther;
  stable_write t slot v w : slot_is t slot → free t → I w → I (w_set a slot v w);
}.

Section StableKeeps.
Context `{K : Keccak} `{G : StorageGas} `{H : Cas20Host}.
Context {a : Z} {free : tag → Prop} {I : World → Prop} `{S : !Stable a free I}.
Notation keeps := (keeps I).

Lemma about_stable : about_account a I.
Proof using S. apply stable_account. Qed.
#[local] Hint Resolve about_stable : keeps.

Lemma keeps_log env topics data : keeps (emit_log env topics data).
Proof using S. apply (keeps_emit_log a), stable_account. Qed.
#[local] Hint Resolve keeps_log : keeps.

Lemma keeps_free t slot v : slot_is t slot → free t → keeps (put_word a slot v).
Proof using S. intros Ht Hf s r s'. rewrite ideal_put_word. intros [= _ <-]. by apply (stable_write t). Qed.
Lemma keeps_other slot v : slot_is TOther slot → keeps (put_word a slot v).
Proof using S. intros Hs. exact (keeps_free TOther slot v Hs stable_other). Qed.

Lemma keeps_set_allowance owner spender v : keeps (set_allowance a owner spender v).
Proof using S. eapply keeps_bind_det; [done|]. apply keeps_other, is_allowance. Qed.
Lemma keeps_set_nonce owner v : keeps (set_nonce a owner v).
Proof using S. eapply keeps_bind_det; [done|]. apply keeps_other, is_nonce. Qed.
Lemma keeps_put_allowance owner spender v :
  keeps (put_word a (mapping_slot (mapping_slot (slot_at SLOT_ALLOWANCES) owner) spender) v).
Proof using S. apply keeps_other, is_allowance. Qed.
Lemma keeps_set_paused v : keeps (set_paused a v).
Proof using S. apply keeps_other, is_named. set_solver. Qed.
Lemma keeps_set_packed_u64 k off v :
  k ∈ [SLOT_TRANSFER_POLICIES; SLOT_MINT_POLICY; SLOT_SEIZE_POLICIES] → keeps (set_packed_u64 a k off v).
Proof using S.
  intros Hk. apply keeps_bind; [apply (keeps_elsewhere a); [apply stable_account|done]|]. intros w.
  apply keeps_other, is_named. set_solver.
Qed.

(** *** Strings *)

Lemma keeps_set_other slot v : slot_is TOther slot → keeps (set_word a slot v).
Proof using S.
  intros Hs s r s' E. apply (keeps_other slot v Hs s tt s'). unfold put_word. rewrite ideal_bind, E. done.
Qed.

Lemma keeps_write_chunks slot f l :
  string_slot slot → (∀ i, i ∈ l → 0 <= i <= 2 ^ 59) →
  keeps (write_chunks a (keccak256 (be_encode 32 slot)) f l).
Proof using S G H.
  intros Hs. induction l as [|i l IH]; intros Hl; cbn [write_chunks]; [keep|].
  apply keeps_bind; [by_reads|]. intros [|]; [keep|].
  apply keeps_bind; [apply keeps_set_other, is_string_data; [done|]; apply Hl; by left|].
  intros _. apply IH. intros j Hj. apply Hl. by right.
Qed.

Lemma string_chunks_bound at_ slot : returns (λ n, 0 <= n <= 2 ^ 59) (string_chunks at_ slot).
Proof.
  intros s n s'. unfold string_chunks. rewrite ideal_bind, ideal_get_word.
  case_if; [rewrite ideal_ret; intros [= <- _]; lia|]. rewrite ideal_ret. intros [= <- _].
  unfold long_length. case_if; [cbn; lia|]. case_if; [cbn; lia|]. split_tests. cbn.
  set (len := (_ - 1) / 2) in *. assert (len <= MAX_STRING_LEN).
  { unfold len. apply Z.div_le_upper_bound; unfold MAX_STRING_LEN in *; lia. }
  pose proof (div_ceil_spec len 32 ltac:(lia) ltac:(lia)). unfold MAX_STRING_LEN in *. lia.
Qed.

Lemma keeps_set_string_at slot b : string_slot slot → zlen b < 2 ^ 64 → keeps (set_string_at a slot b).
Proof using S G H.
  intros Hs Hb. unfold set_string_at. eapply keeps_bind_returns; [apply string_chunks_bound| |].
  { unfold string_chunks. by_reads. }
  intros old Hold. cbn beta in Hold. apply keeps_bind; [by apply keeps_set_other, is_string|]. intros ok.
  case_if; [keep|]. case_if; [keep|]. eapply keeps_bind_det; [done|].
  pose proof (zlen_nonneg b). pose proof (div_ceil_spec (zlen b) 32 ltac:(lia) ltac:(lia)).
  assert (Hnew : 0 <= (if 32 <=? zlen b then div_ceil (zlen b) 32 else 0) <= 2 ^ 59) by (case_if; lia).
  apply keeps_bind; [apply keeps_write_chunks; [done|]; intros i Hi%elem_of_seqZ; lia|]. intros ok'.
  case_if; [keep|]. apply keeps_write_chunks; [done|]. intros i Hi%elem_of_seqZ. lia.
Qed.

Lemma keeps_set_name b : zlen b < 2 ^ 64 → keeps (set_name a b).
Proof using S G H. apply keeps_set_string_at, string_core. set_solver. Qed.
Lemma keeps_set_symbol b : zlen b < 2 ^ 64 → keeps (set_symbol a b).
Proof using S G H. apply keeps_set_string_at, string_core. set_solver. Qed.
Lemma keeps_set_contract_uri b : zlen b < 2 ^ 64 → keeps (set_contract_uri a b).
Proof using S G H. apply keeps_set_string_at, string_core. set_solver. Qed.
Lemma keeps_set_currency tok b : self_addr (ctx tok) = a → zlen b < 2 ^ 64 → keeps (set_currency tok b).
Proof using S G H. unfold set_currency, at_of. intros ->. apply keeps_set_string_at, string_currency. Qed.

(** *** Policies *)

Lemma keeps_require_policy depth id account scope : keeps (require_policy depth id account scope).
Proof using S G H.
  apply (keeps_elsewhere a); [apply stable_account|]. apply (sound_require_policy _ depth depth (le_n _)).
Qed.
Lemma keeps_policy_allows depth id account : keeps (policy_allows depth id account).
Proof using S G H.
  apply (keeps_elsewhere a); [apply stable_account|]. apply (sound_policy_allows _ depth depth (le_n _)).
Qed.
Lemma keeps_ensure_role self role : keeps (ensure_role self role).
Proof using S G H. unfold ensure_role. keep. Qed.

(** *** The cells of an asset *)

Section AssetCells.
Context (tok : Token) (Htok : self_addr (ctx tok) = a).

Lemma keeps_asset_cell k v : k ∈ [SLOT_DECIMALS; SLOT_MULTIPLIER; SLOT_PENDING] → keeps (put_word (at_of tok) (asset_slot k) v).
Proof using S Htok. intros Hk. unfold at_of. rewrite Htok. by apply keeps_other, is_asset. Qed.
Lemma keeps_set_asset_decimals d : keeps (set_asset_decimals tok d).
Proof using S Htok. apply keeps_asset_cell. set_solver. Qed.
Lemma keeps_set_multiplier m : keeps (set_multiplier tok m).
Proof using S Htok. apply keeps_asset_cell. set_solver. Qed.
Lemma keeps_set_pending m at_ : keeps (set_pending tok m at_).
Proof using S Htok. apply keeps_asset_cell. set_solver. Qed.
Lemma keeps_clear_pending : keeps (clear_pending tok).
Proof using S Htok. apply keeps_asset_cell. set_solver. Qed.
Lemma keeps_mark_announcement id : keeps (mark_announcement tok id).
Proof using S Htok.
  unfold mark_announcement, at_of. rewrite Htok. eapply keeps_bind_det; [done|]. apply keeps_set_other, is_announcement.
Qed.
Lemma keeps_set_extra_metadata key v : zlen v < 2 ^ 64 → keeps (set_extra_metadata tok key v).
Proof using S Htok G H.
  intros Hv. unfold set_extra_metadata, at_of. rewrite Htok. eapply keeps_bind_det; [done|].
  apply keeps_set_string_at; [apply string_meta|done].
Qed.
#[local] Hint Resolve keeps_set_asset_decimals keeps_set_multiplier : keeps.
Lemma keeps_init_asset_extension d : keeps (init_asset_extension tok d).
Proof using S Htok G H. unfold init_asset_extension. keep. Qed.
End AssetCells.
End StableKeeps.
#[export] Hint Resolve about_stable keeps_log keeps_set_allowance keeps_set_nonce keeps_put_allowance keeps_set_paused
  keeps_set_packed_u64 keeps_set_name keeps_set_symbol keeps_set_contract_uri keeps_set_currency keeps_require_policy
  keeps_policy_allows keeps_ensure_role keeps_set_asset_decimals keeps_set_multiplier keeps_set_pending
  keeps_clear_pending keeps_mark_announcement keeps_set_extra_metadata keeps_init_asset_extension : keeps.

(** ** The ledger *)

Section LedgerKeeps.
Context `{K : Keccak} `{G : StorageGas} `{H : Cas20Host} `{Ec : Ecrecover} `{L : !Layout}.
Context (a c : Z).

(** The ledger of [a] is in order, and its code is the one with hash [c]. *)
Definition in_order (w : World) : Prop := token_ok w a ∧ w_code_hash w a = c.

Lemma token_ok_about w w' :
  (∀ k, w_storage w' !! (a, k) = w_storage w !! (a, k)) → token_ok w a → token_ok w' a.
Proof. intros Hs. apply same_ledger_ok. intros t slot _ _. unfold w_get. by rewrite Hs. Qed.

#[global] Instance in_order_stable : Stable a aside in_order.
Proof using L.
  split.
  - intros w w' Hs Hc [Ht Hh]. split; [by apply (token_ok_about w)|]. unfold w_code_hash in *. by rewrite Hc.
  - by right; right.
  - intros t slot v w Ht Has [Hok Hc]. split; [|exact Hc].
    apply (same_ledger_ok 0 0 a w); [|exact Hok]. by apply (write_aside a t).
Qed.

Notation keeps := (keeps in_order).

Lemma aside_role_admin : aside TRoleAdmin.
Proof. by right; left. Qed.
Lemma aside_role : aside TRole.
Proof. by left. Qed.
Lemma keeps_store_role_admin role v : keeps (store_role_admin a role v).
Proof using L. eapply keeps_bind_det; [done|]. exact (keeps_free _ _ v (is_role_admin role) aside_role_admin). Qed.
#[local] Hint Resolve keeps_store_role_admin : keeps.

(** *** Operations on the ledger *)

Section Operations.
Context (depth : nat) (self : Token) (Hself : self_addr (ctx self) = a) (Hcaller : account_ok (caller (ctx self))).

(** Runs an operation of the token up to its result. *)
Ltac open_op :=
  let r := fresh "r" in intros s r s'; unfold at_of, msg_sender, emit; rewrite ?Hself; run_ideal;
  repeat match goal with |- context [be_encode ?n ?x] => let b := fresh "b" in generalize (be_encode n x); intros b end.

Ltac close_op :=
  intros [= _ <-] [Hok Hc]; (split; [|exact Hc]); cbn [world on_world] in *; unfold token_ok; repeat apply ledger_log.

Lemma keeps_shift_balance from to amount :
  account_ok from → account_ok to → 0 <= amount → keeps (shift_balance self from to amount).
Proof using L Hself.
  intros Hf Ht Ham. unfold shift_balance. open_op. case_if; [|done]. split_tests.
  close_op.
  change (w_get (world s) a (mapping_slot (slot_at SLOT_BALANCES) from)) with (balance (world s) a from) in *.
  assert (Hv : 0 <= balance (world s) a from - amount) by lia.
  pose proof (set_balance_ledger 0 0 (world s) a from _ Hok Hf Hv) as H1. set (w1 := w_set a _ _ (world s)) in *.
  change (w_get w1 a (mapping_slot (slot_at SLOT_BALANCES) to)) with (balance w1 a to).
  pose proof (balance_bound _ _ w1 a to H1 Ht) as Hb. unfold NO_SUPPLY_CAP in Hb.
  rewrite wrap256_small by lia. assert (Hv2 : 0 <= balance w1 a to + amount) by lia.
  eapply ledger_eq; [exact (set_balance_ledger _ _ w1 a to _ H1 Ht Hv2)|lia|lia].
Qed.
#[local] Hint Resolve keeps_shift_balance : keeps.

Ltac keep_op := unfold at_of, emit, emit_memo; rewrite ?Hself; keep.

Lemma keeps_ensure_role_mutable role : keeps (ensure_role_mutable self role).
Proof using L G H. unfold ensure_role_mutable. keep. Qed.
#[local] Hint Resolve keeps_ensure_role_mutable : keeps.

(** The writes at the end of [mint_core]. *)
Lemma keeps_mint_core to amount : account_ok to → 0 <= amount → keeps (mint_core depth self to amount).
Proof using L Hself G H.
  intros Ht Ham. unfold mint_core. unfold at_of. rewrite Hself. keep_step. keep_step; [by_reads|]. keep_step; [keep|].
  open_op. case_if; [|done]. case_if; [|done]. split_tests. close_op. pose proof (supply_nonneg _ _ _ _ Hok). pose proof (supply_capped _ _ _ _ Hok) as Hcap.
  unfold NO_SUPPLY_CAP in Hcap. rewrite wrap256_small in * by lia.
  change (w_get (world s) a (mapping_slot (slot_at SLOT_BALANCES) to)) with (balance (world s) a to).
  pose proof (balance_bound _ _ _ a to Hok Ht) as Hb. unfold NO_SUPPLY_CAP in Hb. rewrite wrap256_small by lia.
  assert (Hv : 0 <= balance (world s) a to + amount) by lia.
  pose proof (set_balance_ledger 0 0 (world s) a to _ Hok Ht Hv) as Hl1. set (w1 := w_set a _ _ (world s)) in *.
  assert (Es : supply w1 a = supply (world s) a ∧ cap w1 a = cap (world s) a) by (split; apply (balance_write_counters (world s) a to), Ht).
  destruct Es as [Es Ecap]. assert (Hle : supply (world s) a + amount <= cap w1 a) by lia.
  eapply ledger_eq; [exact (set_supply_ledger _ _ w1 a _ Hl1 Hle)|lia|lia].
Qed.
Lemma keeps_burn from amount : account_ok from → 0 <= amount → keeps (burn self from amount).
Proof using L Hself G H.
  intros Hf Ham. unfold burn, at_of. rewrite Hself. keep_step; [keep|]. keep_step; [keep|]. keep_step; [keep|].
  open_op. case_if; [|done]. case_if; [|done]. split_tests. close_op.
  change (w_get (world s) a (mapping_slot (slot_at SLOT_BALANCES) from)) with (balance (world s) a from) in *.
  assert (Hv : 0 <= balance (world s) a from - amount) by lia.
  pose proof (set_balance_ledger 0 0 (world s) a from _ Hok Hf Hv) as Hl1. set (w1 := w_set a _ _ (world s)) in *.
  pose proof (supply_capped _ _ _ _ Hl1) as Hcap. assert (Hle : supply w1 a - amount <= cap w1 a) by lia.
  eapply ledger_eq; [exact (set_supply_ledger _ _ w1 a _ Hl1 Hle)|lia|lia].
Qed.

Lemma keeps_update_supply_cap new_cap : keeps (update_supply_cap self new_cap).
Proof using L Hself G H.
  unfold update_supply_cap, at_of. rewrite Hself. keep_step; [keep|]. keep_step; [keep|].
  open_op. case_if; [|done]. split_tests. close_op. by apply set_cap_ledger.
Qed.

(** *** Admins *)

Lemma keeps_grant_role role account : word_ok role → account_ok account → keeps (grant_role self role account).
Proof using L Hself G H.
  intros Hrole Hacc. unfold grant_role, at_of. rewrite Hself. keep_step; [keep|]. open_op.
  destruct (holds_role (world s) a role account) eqn:Hr; [by intros [= _ <-]|]. run_ideal.
  destruct (Z.eqb_spec role ROLE_DEFAULT_ADMIN) as [-> | Hne]; run_ideal; close_op.
  - pose proof (set_admin_ledger 0 0 (world s) a account true Hok Hacc) as Hl1.
    set (w1 := w_set a _ _ (world s)) in *. unfold admin_flag in Hl1. rewrite Hr in Hl1.
    rewrite wrap256_small by (pose proof (admins_bound _ _ _ _ Hl1); lia).
    eapply ledger_eq; [exact (set_admins_ledger _ _ w1 a _ Hl1)|lia|lia].
  - apply (same_ledger_ok 0 0 a (world s)); [|exact Hok].
    exact (write_aside a TRole _ _ _ (is_role role account Hrole Hne Hacc) aside_role).
Qed.

Lemma keeps_remove_role role account : word_ok role → account_ok account → keeps (remove_role self role account).
Proof using L Hself G H.
  intros Hrole Hacc. unfold remove_role, at_of. rewrite Hself. open_op.
  destruct (holds_role (world s) a role account) eqn:Hr; cbn [negb]; [|by run_ideal; intros [= _ <-]]. run_ideal.
  destruct (Z.eqb_spec role ROLE_DEFAULT_ADMIN) as [-> | Hne]; run_ideal; close_op.
  - pose proof (set_admin_ledger 0 0 (world s) a account false Hok Hacc) as Hl1.
    set (w1 := w_set a _ _ (world s)) in *. unfold admin_flag in Hl1. rewrite Hr in Hl1.
    rewrite wrap256_small by (pose proof (admins_bound _ _ _ _ Hl1); lia).
    eapply ledger_eq; [exact (set_admins_ledger _ _ w1 a _ Hl1)|lia|lia].
  - apply (same_ledger_ok 0 0 a (world s)); [|exact Hok].
    exact (write_aside a TRole _ _ _ (is_role role account Hrole Hne Hacc) aside_role).
Qed.
#[local] Hint Resolve keeps_grant_role keeps_remove_role : keeps.

Lemma keeps_guard_last_admin role account : keeps (guard_last_admin self role account).
Proof using L G H. unfold guard_last_admin. keep. Qed.
#[local] Hint Resolve keeps_guard_last_admin : keeps.
Lemma keeps_revoke_role role account : word_ok role → account_ok account → keeps (revoke_role self role account).
Proof using L Hself G H. intros. unfold revoke_role. keep. Qed.
Lemma keeps_renounce_role role confirmation : word_ok role → keeps (renounce_role self role confirmation).
Proof using L Hself Hcaller G H. intros. unfold renounce_role, msg_sender. keep. Qed.
Lemma keeps_set_role_admin role admin : keeps (set_role_admin self role admin).
Proof using L Hself G H. unfold set_role_admin. keep_op. Qed.

Lemma keeps_renounce_last_admin : keeps (renounce_last_admin self).
Proof using L Hself Hcaller G H.
  unfold renounce_last_admin, at_of. rewrite Hself. keep_step; [keep|]. open_op.
  destruct (holds_role (world s) a ROLE_DEFAULT_ADMIN (caller (ctx self))) eqn:Hr; [|done].
  case_if; [|done]. split_tests. close_op.
  pose proof (set_admin_ledger 0 0 (world s) a _ false Hok Hcaller) as Hl1.
  set (w1 := w_set a _ _ (world s)) in *. unfold admin_flag in Hl1. rewrite Hr in Hl1.
  assert (En : admins w1 a = 1) by (unfold w1; by rewrite (admin_write_counters (world s) a _ _ Hcaller)).
  eapply ledger_eq; [exact (set_admins_ledger _ _ w1 a 0 Hl1)|lia|lia].
Qed.
End Operations.
End LedgerKeeps.

(** ** The interface between the ledger and the token *)

(** What an invariant [I] of the account [a] must survive for the calls of the
    tokens in [P] to keep it: the operations that move balances, change the
    supply or touch roles.  Everything else a token does follows. *)
Class TokenInvariant `{Keccak} (a : Z) (free : tag → Prop) (P : Token → Prop) (I : World → Prop) : Prop := {
  #[global] inv_stable :: Stable a free I;
  inv_self tok : P tok → self_addr (ctx tok) = a;
  inv_caller tok : P tok → account_ok (caller (ctx tok));
  inv_announce tok : P tok → P (set_in_announce tok);
  inv_shift_balance tok from to amount :
    P tok → account_ok from → account_ok to → 0 <= amount → keeps I (shift_balance tok from to amount);
  inv_mint_core depth tok to amount : P tok → account_ok to → 0 <= amount → keeps I (mint_core depth tok to amount);
  inv_burn tok from amount : P tok → account_ok from → 0 <= amount → keeps I (burn tok from amount);
  inv_update_supply_cap tok new_cap : P tok → keeps I (update_supply_cap tok new_cap);
  inv_grant_role tok role account : P tok → word_ok role → account_ok account → keeps I (grant_role tok role account);
  inv_revoke_role tok role account : P tok → word_ok role → account_ok account → keeps I (revoke_role tok role account);
  inv_renounce_role tok role account : P tok → word_ok role → keeps I (renounce_role tok role account);
  inv_renounce_last_admin tok : P tok → keeps I (renounce_last_admin tok);
  inv_set_role_admin tok role admin : P tok → word_ok role → keeps I (set_role_admin tok role admin);
}.

(** The tokens at [a] with a proper caller. *)
Definition token_at (a : Z) (tok : Token) : Prop := self_addr (ctx tok) = a ∧ account_ok (caller (ctx tok)).

#[export] Instance in_order_invariant `{K : Keccak} `{G : StorageGas} `{H : Cas20Host} `{L : !Layout} a c :
  TokenInvariant a aside (token_at a) (in_order a c).
Proof.
  split; try (intros tok []; done); intros; repeat match goal with Hp : token_at _ _ |- _ => destruct Hp end.
  - apply in_order_stable.
  - by apply keeps_shift_balance.
  - by apply keeps_mint_core.
  - by apply keeps_burn.
  - by apply keeps_update_supply_cap.
  - by apply keeps_grant_role.
  - by apply keeps_revoke_role.
  - by apply keeps_renounce_role.
  - by apply keeps_renounce_last_admin.
  - by apply keeps_set_role_admin.
Qed.
#[export] Hint Resolve inv_shift_balance inv_mint_core inv_burn inv_update_supply_cap inv_grant_role inv_revoke_role
  inv_renounce_role inv_renounce_last_admin inv_set_role_admin : keeps.

Section TokenKeeps.
Context `{K : Keccak} `{G : StorageGas} `{H : Cas20Host} `{Ec : Ecrecover}.
Context {a : Z} {free : tag → Prop} {P : Token → Prop} {I : World → Prop} `{TI : !TokenInvariant a free P I}.
Context (depth : nat) (self : Token) (HP : P self).
Notation keeps := (keeps I).

Ltac keep_op := unfold at_of, emit, emit_memo; rewrite ?(inv_self self HP); keep.

Lemma keeps_move_balance from to amount :
  account_ok from → account_ok to → 0 <= amount → keeps (move_balance depth self from to amount).
Proof using TI HP G H. intros. unfold move_balance. keep_op. Qed.
#[local] Hint Resolve keeps_move_balance : keeps.
Lemma keeps_transfer from to amount :
  account_ok from → account_ok to → 0 <= amount → keeps (transfer depth self from to amount).
Proof using TI HP G H. intros. unfold transfer. keep_op. Qed.
Lemma keeps_transfer_from spender from to amount :
  account_ok from → account_ok to → 0 <= amount → keeps (transfer_from depth self spender from to amount).
Proof using TI HP G H. intros. unfold transfer_from. keep_op. Qed.
Lemma keeps_approve owner spender amount : keeps (approve self owner spender amount).
Proof using TI HP G H. intros. unfold approve. keep_op. Qed.
Lemma keeps_seize_with_memo from to amount memo :
  account_ok from → account_ok to → 0 <= amount → keeps (seize_with_memo depth self from to amount memo).
Proof using TI HP G H. intros. unfold seize_with_memo. keep_op. Qed.

Lemma keeps_mint to amount : account_ok to → 0 <= amount → keeps (mint depth self to amount).
Proof using TI HP G H. intros. unfold mint. keep_op. Qed.
End TokenKeeps.
#[export] Hint Resolve keeps_transfer keeps_transfer_from keeps_approve keeps_seize_with_memo keeps_mint : keeps.
