(* ===== verification/Cas20Tokens.v ===== *)
(** * Cas20Tokens: the ledger survives every call

    The walk of [Cas20Keeps] through the tables of a token, the two variants and
    the factory, up to [execute]. *)

From stdpp Require Import base tactics numbers option list gmap strings.
From Stdlib Require Import ZArith Lia Bool.
From S2P Require Import Prelude.
From S2P Require Import Cas20Sigs.
From S2P Require Import Cas20Frame.
From S2P Require Import Cas20Meta.
From S2P Require Import Cas20Abi.
From S2P Require Import Cas20Storage.
From S2P Require Import Cas20Policy.
From S2P Require Import Cas20Token.
From S2P Require Import Cas20Asset.
From S2P Require Import Cas20Factory.
From S2P Require Import Cas20Sound.
From S2P Require Import Cas20Calls.
From S2P Require Import Cas20Ledger.
From S2P Require Import Cas20Keeps.

(** ** What the decoders answer *)

(** Calldata: bytes, as many as a [usize] counts. *)
Definition calldata_ok (b : bytes) : Prop := Forall byte_ok b ∧ zlen b < 2 ^ 64.

Section Decoded.
Context (args : bytes) (Hargs : calldata_ok args).

Lemma read_word_range i w : read_word args i = Done w → 0 <= w < 2 ^ 256.
Proof using Hargs.
  destruct Hargs as [Hb _]. unfold read_word. case_if; [done|]. rewrite bind_Done. intros (x & Hx & [= <-]).
  pose proof (slice_length _ _ _ _ Hx) as Hl. apply (slice_bytes _ Hb) in Hx.
  pose proof (be_decode_bound x Hx) as Hd. replace (zlen x) with 32 in Hd by lia. exact Hd.
Qed.
Lemma read_word_ok i w : read_word args i = Done w → word_ok w.
Proof using Hargs. apply read_word_range. Qed.
Lemma read_address_range i x : read_address args i = Done x → account_ok x.
Proof using Hargs.
  unfold read_address. rewrite bind_Done. intros (w & Hw%read_word_range & Hx).
  apply ok_or_Done in Hx. unfold address_from_word, word_fits_in in Hx. revert Hx. case_if; [|done].
  intros [= <-]. split_tests. unfold account_ok. change (256 ^ 20) with (2 ^ 160) in *. lia.
Qed.
Lemma read_u256_nonneg i w : read_u256 args i = Done w → 0 <= w.
Proof using Hargs. intros ?%read_word_range. lia. Qed.
Lemma read_string_length i b : read_string_bytes args i = Done b → zlen b < 2 ^ 64.
Proof using Hargs.
  destruct Hargs as [Hb Hlen]. unfold read_string_bytes. rewrite bind_Done.
  intros (off & Hoff%word_u64_nonneg & H); [|done]. revert H. case_if; [done|]. rewrite bind_Done.
  intros (n & Hn & H). revert H. case_if; [done|]. intros H. pose proof (slice_length _ _ _ _ H).
  apply slice_Done in H as (? & ? & _). lia.
Qed.
Lemma read_string_calldata i b : read_string_bytes args i = Done b → calldata_ok b.
Proof using Hargs.
  intros Hb. split; [|by eapply read_string_length]. destruct Hargs as [? _]. by eapply read_string_bytes_ok.
Qed.
Lemma read_bytes_array_calldata i calls x : read_bytes_array args i = Done calls → x ∈ calls → calldata_ok x.
Proof using Hargs.
  intros Hc Hin. destruct Hargs as [Hb Hlen]. split; [by eapply read_bytes_array_ok|].
  revert Hc. unfold read_bytes_array. rewrite bind_Done. intros ([p n] & Hp & Hc).
  destruct (collect_elem _ _ _ _ Hc Hin) as [j Hj]. revert Hj. unfold read_bytes_elem. rewrite bind_Done.
  intros (off & _ & Hj). revert Hj. case_if; [done|]. rewrite bind_Done.
  intros (m & _ & Hj). revert Hj. case_if; [done|]. intros Hj. pose proof (slice_length _ _ _ _ Hj).
  apply slice_Done in Hj as (? & ? & _). lia.
Qed.
Lemma read_word_array_nonneg i ws w : read_word_array args i = Done ws → w ∈ ws → 0 <= w.
Proof using Hargs.
  intros Hc Hin. destruct Hargs as [Hb Hlen]. revert Hc. unfold read_word_array. rewrite bind_Done.
  intros ([p n] & Hp & Hc). destruct (collect_elem _ _ _ _ Hc Hin) as [j Hj]. revert Hj. cbn zeta. rewrite bind_Done.
  intros (x & Hx & [= <-]). apply (slice_bytes _ Hb) in Hx. by apply be_decode_bound.
Qed.
Lemma address_of_recipient w x : 0 <= w → ok_or (address_from_word w) revert = Done x → account_ok x.
Proof.
  intros Hw Hx%ok_or_Done. unfold address_from_word, word_fits_in in Hx. revert Hx. case_if; [|done].
  intros [= <-]. split_tests. unfold account_ok. change (256 ^ 20) with (2 ^ 160) in *. lia.
Qed.
Lemma read_role_account_role ra : read_role_account args = Done ra → word_ok ra.1.
Proof using Hargs.
  unfold read_role_account. rewrite bind_Done. intros (role & Hr & Ha). apply bind_Done in Ha as (x & _ & [= <-]).
  by eapply read_word_range.
Qed.
Lemma read_role_account_range ra : read_role_account args = Done ra → account_ok ra.2.
Proof using Hargs.
  unfold read_role_account. rewrite bind_Done. intros (role & _ & Ha). apply bind_Done in Ha as (x & Hx & [= <-]).
  by eapply read_address_range.
Qed.
Lemma read_to_amount_memo_range to amount memo :
  read_to_amount_memo args = Done (to, amount, memo) → account_ok to ∧ 0 <= amount.
Proof using Hargs.
  unfold read_to_amount_memo. rewrite bind_Done. intros (x & Hx & Ha). apply bind_Done in Ha as (v & Hv & Ha).
  apply bind_Done in Ha as (m & _ & [= <- <- <-]). split; [by eapply read_address_range|by eapply read_u256_nonneg].
Qed.
Lemma read_to_amount_memo_to to amount memo : read_to_amount_memo args = Done (to, amount, memo) → account_ok to.
Proof using Hargs. by intros []%read_to_amount_memo_range. Qed.
Lemma read_to_amount_memo_amount to amount memo : read_to_amount_memo args = Done (to, amount, memo) → 0 <= amount.
Proof using Hargs. by intros []%read_to_amount_memo_range. Qed.
Lemma args_of_calldata : calldata_ok (args_of args).
Proof using Hargs.
  destruct Hargs. split; [by apply Forall_drop|]. unfold args_of, zlen in *. rewrite length_drop. lia.
Qed.
End Decoded.
#[export] Hint Resolve read_word_ok read_address_range read_u256_nonneg read_string_length read_string_calldata
  read_to_amount_memo_to read_to_amount_memo_amount read_bytes_array_calldata read_role_account_role read_role_account_range args_of_calldata : keeps.

(** ** The tables of a token *)

Section Tables.
Context `{K : Keccak} `{G : StorageGas} `{H : Cas20Host} `{Ec : Ecrecover}.
Context {a : Z} {free : tag → Prop} {P : Token → Prop} {Inv : World → Prop} `{TI : !TokenInvariant a free P Inv}.
Context (depth : nat).
Notation keeps := (keeps Inv).
#[local] Hint Resolve inv_self inv_caller : keeps.

Definition keeps_table (t : option (prog bytes)) : Prop := from_option keeps True t.
Lemma keeps_table_if (b : bool) p t : keeps p → keeps_table t → keeps_table (if b then Some p else t).
Proof. by destruct b. Qed.
Lemma keeps_first_table ts : Forall keeps_table ts → keeps (first_table ts).
Proof. induction 1 as [|[p|] ts Ht _ IH]; cbn [first_table]; [apply keeps_throw|exact Ht|exact IH]. Qed.

Section Self.
Context (self : Token) (HP : P self).
Context (args : bytes) (Hargs : calldata_ok args).

Ltac keep_op := unfold returns_nothing, at_of, msg_sender, emit, emit_memo, read_string_arg, read_bytes_arg in *; rewrite ?(inv_self self HP); keep.
Ltac keep_table := repeat (apply keeps_table_if; [keep_op|]); exact I.

Lemma keeps_dispatch_erc20 sel : keeps_table (dispatch_erc20 depth self sel args).
Proof using TI HP Hargs G H. unfold dispatch_erc20. keep_table. Qed.

Lemma keeps_set_pause on : keeps (set_pause self args on).
Proof using TI HP Hargs G H. unfold set_pause. keep_op. Qed.
Lemma policy_lane_slot scope lane :
  policy_lane scope = Some lane → lane.1 ∈ [SLOT_TRANSFER_POLICIES; SLOT_MINT_POLICY; SLOT_SEIZE_POLICIES].
Proof. unfold policy_lane. repeat case_match; intros [= <-]; cbn [fst]; set_solver. Qed.
Lemma keeps_update_policy scope id : keeps (update_policy self scope id).
Proof using TI HP Hargs G H.
  unfold update_policy, at_of. rewrite (inv_self self HP). keep_step; [keep|]. keep_step; [keep|]. keep_step.
  match goal with Hl : ok_or _ _ = Done ?lane |- _ => apply ok_or_Done, policy_lane_slot in Hl; destruct lane as [slot off] end.
  keep.
Qed.
#[local] Hint Resolve keeps_set_pause keeps_update_policy : keeps.

Lemma keeps_dispatch_admin sel : keeps_table (dispatch_admin depth self sel args).
Proof using TI HP Hargs G H. unfold dispatch_admin. keep_table. Qed.

Lemma keeps_dispatch_metadata sel : keeps_table (dispatch_metadata self sel args).
Proof using TI HP Hargs G H.
  unfold dispatch_metadata, update_name, update_symbol, update_contract_uri, ensure_metadata_write, paused_features,
    eip712_domain. keep_table.
Qed.

Lemma keeps_charge_all costs : keeps (charge_all costs).
Proof using TI G H. apply (keeps_elsewhere a); [apply stable_account|]. apply (sound_charge_all _ 0). Qed.
#[local] Hint Resolve keeps_charge_all : keeps.
Lemma keeps_domain_separator : keeps (domain_separator self).
Proof using TI G H. unfold domain_separator. keep. Qed.
#[local] Hint Resolve keeps_domain_separator : keeps.

Lemma keeps_dispatch_permit_memo sel : keeps_table (dispatch_permit_memo depth self sel args).
Proof using TI HP Hargs G H.
  unfold dispatch_permit_memo, decode_permit, permit. keep_table.
Qed.
Lemma keeps_dispatch_memo_format sel : keeps_table (dispatch_memo_format depth self sel args).
Proof using TI HP Hargs G H.
  unfold dispatch_memo_format, transfer_with_memo_format. keep_table.
Qed.

Lemma keeps_dispatch_with sel :
  Forall keeps_table [dispatch_erc20 depth self sel args; dispatch_admin depth self sel args;
    dispatch_metadata self sel args; dispatch_permit_memo depth self sel args; dispatch_memo_format depth self sel args].
Proof using TI HP Hargs G H.
  repeat constructor; auto using keeps_dispatch_erc20, keeps_dispatch_admin, keeps_dispatch_metadata,
    keeps_dispatch_permit_memo, keeps_dispatch_memo_format.
Qed.
End Self.

Lemma keeps_dispatch self input : P self → calldata_ok input → keeps (dispatch depth self input).
Proof using TI G H.
  intros HP Hi%args_of_calldata. unfold dispatch. keep_step. by apply keeps_first_table, keeps_dispatch_with.
Qed.
#[local] Hint Resolve keeps_dispatch : keeps.

(** ** Assets *)

Section Assets.
Context (tok : Token) (HP : P tok).

Lemma keeps_pending : keeps (pending tok).
Proof using TI G H. unfold pending. keep. Qed.
Lemma keeps_multiplier : keeps (multiplier tok).
Proof using TI G H. unfold multiplier. keep. Qed.
Lemma keeps_asset_decimals : keeps (asset_decimals tok).
Proof using TI G H. unfold asset_decimals. keep. Qed.
#[local] Hint Resolve keeps_pending keeps_multiplier keeps_asset_decimals : keeps.
Lemma keeps_effective_multiplier now : keeps (effective_multiplier tok now).
Proof using TI G H. unfold effective_multiplier. keep. Qed.
Lemma keeps_settle_matured now : keeps (settle_matured tok now).
Proof using TI HP G H. unfold settle_matured. keep. Qed.
Lemma keeps_announcement_used id : keeps (announcement_used tok id).
Proof using TI G H. unfold announcement_used, announcement_slot. keep. Qed.
Lemma keeps_extra_metadata key : keeps (extra_metadata tok key).
Proof using TI G H. unfold extra_metadata, extra_meta_slot. keep. Qed.
#[local] Hint Resolve keeps_effective_multiplier keeps_settle_matured keeps_announcement_used keeps_extra_metadata : keeps.

Lemma keeps_update_ui_multiplier m at_ : keeps (update_ui_multiplier tok m at_).
Proof using TI HP G H. unfold update_ui_multiplier. keep. Qed.
Lemma keeps_cancel_ui_multiplier : keeps (cancel_ui_multiplier tok).
Proof using TI HP G H. unfold cancel_ui_multiplier. keep. Qed.
Lemma keeps_update_multiplier m : keeps (update_multiplier tok m).
Proof using TI HP G H. unfold update_multiplier. keep. Qed.
Lemma keeps_update_extra_metadata key v : zlen v < 2 ^ 64 → keeps (update_extra_metadata tok key v).
Proof using TI HP G H. intros. unfold update_extra_metadata. keep. Qed.
#[local] Hint Resolve keeps_update_ui_multiplier keeps_cancel_ui_multiplier keeps_update_multiplier
  keeps_update_extra_metadata : keeps.

Context (args : bytes) (Hargs : calldata_ok args).

Lemma keeps_batch_mint : keeps (batch_mint depth tok args).
Proof using TI HP Hargs G H.
  unfold batch_mint, batch_entry. keep. match goal with Hi : ?ra ∈ zip _ _ |- _ => destruct ra as [rcpt amt];
    pose proof (elem_of_zip_l _ _ _ _ Hi); pose proof (elem_of_zip_r _ _ _ _ Hi) end.
  apply inv_mint_core; [done|eapply address_of_recipient; [|eassumption]|]; cbn [fst snd];
    match goal with
    | Hr : read_word_array args _ = Done ?ws, Hi : ?w ∈ ?ws |- 0 <= ?w => exact (read_word_array_nonneg args Hargs _ ws w Hr Hi)
    end.
Qed.
#[local] Hint Resolve keeps_batch_mint : keeps.

Lemma keeps_announce d :
  (∀ x, calldata_ok x → keeps (d (set_in_announce tok) x)) → keeps (announce d tok args).
Proof using TI HP Hargs G H. intros Hd. unfold announce, internal_call, read_string_arg, charge_internal_dispatch. keep. Qed.

Lemma keeps_dispatch_asset d now sel :
  (∀ x, calldata_ok x → keeps (d (set_in_announce tok) x)) → keeps_table (dispatch_asset depth d tok now sel args).
Proof using TI HP Hargs G H.
  intros Hd%keeps_announce. unfold dispatch_asset, returns_nothing, read_string_arg.
  repeat (apply keeps_table_if; [keep|]). exact I.
Qed.
End Assets.

Lemma keeps_by_table t p : keeps_table t → keeps p → keeps (match t with Some q => q | None => p end).
Proof. by destruct t. Qed.

Lemma keeps_asset_dispatch n tok input :
  P tok → calldata_ok input → keeps (asset_dispatch depth n tok input).
Proof using TI G H.
  revert tok input. induction n as [|n IH]; intros tok input HP Hi; [by intros ? ? ? [=]|].
  cbn [asset_dispatch]. keep_step; [by apply keeps_dispatch|]. keep_step; [keep|].
  apply keeps_by_table; [|by apply keeps_dispatch].
  apply keeps_dispatch_asset; [done|by apply args_of_calldata|]. intros x Hx. apply IH; [by apply inv_announce|done].
Qed.

Lemma keeps_stablecoin_dispatch tok input :
  P tok → calldata_ok input →
  keeps (stablecoin_dispatch depth tok input).
Proof using TI G H. intros. unfold stablecoin_dispatch, currency. keep. Qed.

Lemma keeps_init_call variant tok ic :
  P tok → calldata_ok ic.2 → keeps (init_call depth variant tok ic).
Proof using TI G H.
  intros HP Hc. destruct ic as [i call]. cbn [snd] in Hc. unfold init_call, charge_internal_dispatch.
  keep_step; [keep|]. keep_step. keep_step. apply keeps_bind_attempt; [|intros []; by eexists|intros; keep].
  unfold variant_dispatch. case_match; [by apply keeps_asset_dispatch|by apply keeps_stablecoin_dispatch].
Qed.
End Tables.

(** ** Whole calls *)

(** The facts about the hash of the marker code that creation relies on. *)
Class MarkerHash `{Keccak} : Prop := {
  marker_hash : keccak256 MARKER_CODE = MARKER_CODE_HASH;
  marker_not_empty : MARKER_CODE_HASH ≠ KECCAK256_EMPTY;
}.

(** The ledger of [a] is in order, and an account without code has no admin. *)
Definition account_sound `{Keccak} (w : World) (a : Z) : Prop :=
  token_ok w a ∧ (had_no_code (w_code_hash w a) = true → admins w a = 0).

Section Execute.
Context `{K : Keccak} `{G : StorageGas} `{H : Cas20Host} `{Ec : Ecrecover} `{L : !Layout} `{M : !MarkerHash}.
Context (a : Z) (depth : nat).
Notation sound_at := (λ w, account_sound w a).

#[global] Instance account_sound_stable : Stable a aside sound_at.
Proof using L.
  split.
  - intros w w' Hs Hc [Hok Hn]. split; [by apply (token_ok_about a w)|]. unfold w_code_hash, admins, w_get in *.
    by rewrite Hc, Hs.
  - by right; right.
  - intros t slot v w Ht Has [Hok Hn]. pose proof (write_aside a t slot v w Ht Has) as Hsame.
    split; [by apply (same_ledger_ok 0 0 a w)|]. intros Hcode. unfold admins.
    rewrite (Hsame TAdminCount _ is_admin_count); [by apply Hn|]. by intros [[=]|[[=]|[=]]].
Qed.

Lemma marker_has_code : had_no_code MARKER_CODE_HASH = false.
Proof using M.
  unfold had_no_code. rewrite (proj2 (Z.eqb_neq MARKER_CODE_HASH KECCAK256_EMPTY)) by apply marker_not_empty. done.
Qed.

Lemma in_order_sound w : in_order a MARKER_CODE_HASH w → account_sound w a.
Proof using M. intros [Hok Hc]. split; [done|]. rewrite Hc, marker_has_code. done. Qed.

(** A token call runs on an account that carries the marker. *)
Lemma keeps_token_call (p : prog bytes) :
  keeps (in_order a MARKER_CODE_HASH) p →
  keeps sound_at (ok ← initialized_metered a; _ ← require ok revert; p).
Proof using M.
  intros Hp s r s'. unfold initialized_metered. rewrite !ideal_bind. cbn [ideal ideal_op do_ fst snd].
  rewrite ideal_require_bind. case_if; [|done]. split_tests. intros Er [Hok _].
  apply in_order_sound. by apply (Hp s r s' Er).
Qed.

(** *** Creation *)

(** A token that has just been given its code: no admin yet. *)
Definition newborn (w : World) : Prop := in_order a MARKER_CODE_HASH w ∧ admins w a = 0.

#[global] Instance newborn_stable : Stable a aside newborn.
Proof using L.
  split.
  - intros w w' Hs Hc [Hi Hn]. split; [by apply (stable_account (free := aside) w)|].
    unfold admins, w_get in *. by rewrite Hs.
  - by right; right.
  - intros t slot v w Ht Has [Hi Hn]. split; [by apply (stable_write (free := aside) t)|]. unfold admins.
    rewrite (write_aside a t slot v w Ht Has TAdminCount _ is_admin_count); [exact Hn|]. by intros [[=]|[[=]|[=]]].
Qed.

Section Create.
Context (tok : Token) (Htok : self_addr (ctx tok) = a).

Lemma keeps_no_supply_cap : keeps newborn (set_supply_cap a NO_SUPPLY_CAP).
Proof using L.
  intros s r s'. rewrite ideal_set_supply_cap. intros [= _ <-] [[Hok Hc] Hn]. cbn [world on_world].
  pose proof (supply_capped _ _ _ _ Hok). split; [split; [|exact Hc]|].
  - apply set_cap_ledger; [exact Hok|lia].
  - unfold admins in *. rewrite w_get_set_ne; [exact Hn|]. right.
    apply (cells_differ TCap TAdminCount); [constructor|constructor|done].
Qed.
#[local] Hint Resolve keeps_no_supply_cap : keeps.

Lemma keeps_write_initial_state variant create :
  zlen (cp_name create) < 2 ^ 64 → zlen (cp_symbol create) < 2 ^ 64 → zlen (cp_currency create) < 2 ^ 64 →
  keeps newborn (write_initial_state variant tok create).
Proof using L Htok G H. intros. unfold write_initial_state, at_of. rewrite Htok. keep. Qed.

(** The first admin is counted. *)
Lemma grant_initial_admin_order admin s r s' :
  account_ok admin → ideal (grant_initial_admin tok admin) s = (Done r, s') → newborn (world s) →
  in_order a MARKER_CODE_HASH (world s').
Proof using L Htok.
  intros Hadm. unfold grant_initial_admin, at_of. rewrite Htok. case_if; [by intros [= _ <-] []|].
  run_ideal. intros [= _ <-] [[Hok Hc] Hn]. split; [|exact Hc]. cbn [world on_world].
  apply ledger_log. pose proof (set_admin_ledger 0 0 (world s) a admin true Hok Hadm) as Hl1.
  set (w1 := w_set a _ _ (world s)) in *.
  assert (Hflag : admin_flag (world s) a admin = 0) by (unfold admin_flag; by rewrite (no_admins (world s) a admin Hok Hn Hadm)).
  assert (En : admins w1 a = 0) by (unfold w1; by rewrite (admin_write_counters (world s) a _ _ Hadm)).
  eapply ledger_eq; [exact (set_admins_ledger _ _ w1 a 1 Hl1)|lia|lia].
Qed.
End Create.

Lemma decode_create_params_ok variant params create :
  calldata_ok params → decode_create_params variant params = Done create →
  zlen (cp_name create) < 2 ^ 64 ∧ zlen (cp_symbol create) < 2 ^ 64 ∧ zlen (cp_currency create) < 2 ^ 64
  ∧ account_ok (cp_initial_admin create).
Proof.
  intros Hp. unfold decode_create_params, read_string_arg. rewrite bind_Done. intros (off & Hoff & Hd). revert Hd.
  case_if; [done|]. rewrite bind_Done. intros (body & Hbody & Hd). revert Hd.
  assert (Hb : calldata_ok body).
  { destruct Hp as [Hb Hlen]. split; [by eapply slice_bytes|]. pose proof (slice_length _ _ _ _ Hbody).
    apply slice_Done in Hbody as (? & ? & _). lia. }
  rewrite bind_Done. intros (version & _ & Hd). revert Hd. case_if; [done|].
  rewrite bind_Done. intros (nm & Hnm%read_string_length & Hd); [|done]. revert Hd.
  rewrite bind_Done. intros (sy & Hsy%read_string_length & Hd); [|done]. revert Hd.
  rewrite bind_Done. intros (ad & Had%read_address_range & Hd); [|done]. revert Hd.
  case_if; rewrite bind_Done; intros (x & Hx & Hd); revert Hd; [case_if; [done|]|]; intros [= <-];
    cbn [cp_name cp_symbol cp_currency cp_initial_admin].
  - repeat split; done || apply Had.
  - apply read_string_length in Hx; [|done]. repeat split; done || apply Had.
Qed.

Lemma ideal_address_occupied na s :
  ideal (address_occupied na) s = (Done (negb (had_no_code (w_code_hash (world s) na))), s).
Proof. done. Qed.
Lemma ideal_write_code na code s :
  @ideal K bool (do_ (WriteCode na code)) s = (Done true, on_world (w_set_code na (keccak256 code)) s).
Proof. done. Qed.

(** An account without code that is given the marker is a newborn token. *)
Lemma newborn_at w :
  account_sound w a → had_no_code (w_code_hash w a) = true → newborn (w_set_code a (keccak256 MARKER_CODE) w).
Proof using M.
  intros [Hok Hn] Hcode. split; [split|exact (Hn Hcode)].
  - by apply (token_ok_about a w).
  - unfold w_code_hash. cbn. by rewrite lookup_insert_eq, marker_hash.
Qed.

Lemma keeps_create_at env na variant create init_calls :
  self_addr env ≠ a → Forall calldata_ok init_calls →
  zlen (cp_name create) < 2 ^ 64 → zlen (cp_symbol create) < 2 ^ 64 → zlen (cp_currency create) < 2 ^ 64 →
  account_ok (cp_initial_admin create) →
  keeps sound_at (create_at depth env na variant create init_calls).
Proof using L M G H.
  intros Henv Hcalls Hnm Hsy Hcu Hadm. destruct (decide (na = a)) as [-> | Hne].
  2: { apply (keeps_elsewhere a); [apply stable_account|]. apply (sound_create_at _ depth depth (le_n _)); [done|done|].
       eapply Forall_impl; [exact Hcalls|]. by intros x []. }
  intros s r s'. unfold create_at. cbn zeta. set (tok := token_bootstrap _ _).
  assert (Htok : self_addr (ctx tok) = a ∧ account_ok (caller (ctx tok))) by done. destruct Htok as [Htok Hcaller].
  rewrite ideal_bind, ideal_address_occupied, ideal_require_bind, negb_involutive.
  destruct (had_no_code (w_code_hash (world s) a)) eqn:Hcode; [cbn match|done].
  rewrite ideal_bind, ideal_write_code, ideal_require_bind, ideal_bind.
  destruct (ideal (write_initial_state _ _ _) _) as [[u1|e|] s1] eqn:E1; [|done|done].
  rewrite ideal_bind, ideal_emit_log, ideal_bind. cbn [ideal ideal_op do_]. rewrite ideal_bind.
  destruct (ideal (grant_initial_admin _ _) _) as [[u2|e|] s2] eqn:E2; [|done|done]. intros E3 Hs.
  pose proof (keeps_write_initial_state tok Htok variant create Hnm Hsy Hcu _ _ _ E1 (newborn_at _ Hs Hcode)) as Hn1.
  eapply grant_initial_admin_order in E2; [|done|done|]; [|by apply (stable_account (free := aside) (world s1))].
  apply in_order_sound. revert E3 E2. generalize s2. intros s3 E3. revert s3 r s' E3.
  change (keeps (in_order a MARKER_CODE_HASH)
    (_ ← for_each (init_call depth variant tok) (zip (seqZ 0 (zlen init_calls)) init_calls);
     oog ← do_ IsOutOfGas; _ ← require (negb oog) OutOfGas; Ret (enc_word a))).
  keep. match goal with Hic : ?ic ∈ zip _ _ |- _ => destruct ic as [i call]; apply elem_of_zip_r in Hic end.
  apply keeps_init_call; [done|]. by eapply Forall_forall in Hcalls.
Qed.

Lemma keeps_create_cas20 env args :
  self_addr env ≠ a → calldata_ok args → keeps sound_at (create_cas20 depth env args).
Proof using L M G H.
  intros Henv Hargs. unfold create_cas20, read_bytes_arg. do 7 keep_step.
  keep_step; [keep|]. keep_step.
  match goal with Hd : decode_create_params _ ?params = Done ?create, Hp : read_string_bytes _ _ = Done ?params |- _ =>
    apply decode_create_params_ok in Hd as (Hnm & Hsy & Hcu & Hadm); [|by eapply read_string_calldata] end.
  keep_step; [keep|]. keep_step; [keep|]. keep_step. apply keeps_create_at; try done.
  apply Forall_forall. eauto with keeps.
Qed.
#[local] Hint Resolve keeps_create_cas20 : keeps.

Lemma keeps_run_factory env input :
  self_addr env ≠ a → calldata_ok input → keeps sound_at (run_factory depth env input).
Proof using L M G H.
  intros. unfold run_factory, initialized_metered. keep.
Qed.

Lemma keeps_execute kind env data :
  resolve (self_addr env) = Some kind → is_cas20_address a = true → account_ok (caller env) → calldata_ok data →
  keeps sound_at (execute depth kind env data).
Proof using L M G H.
  intros Hk%resolve_kind Ha Hcaller Hdata.
  assert (Hnot : ∀ b, is_cas20_address b = false → b ≠ a) by congruence.
  destruct (decide (self_addr env = a)) as [Hself | Hself].
  - unfold execute, charge_calldata. keep_step. keep_step. keep_step; [keep|]. keep_step. rewrite Hself.
    destruct kind.
    + exfalso. apply (Hnot (self_addr env)); [by rewrite Hk|done].
    + exfalso. apply (Hnot (self_addr env)); [by rewrite Hk|done].
    + exfalso. apply (Hnot (self_addr env)); [by rewrite Hk|done].
    + by apply keeps_token_call, keeps_asset_dispatch.
    + by apply keeps_token_call, keeps_stablecoin_dispatch.
  - destruct (decide (kind = KFactory)) as [-> | Hf].
    + unfold execute, charge_calldata. keep_step. keep_step. keep_step; [keep|]. keep_step. by apply keeps_run_factory.
    + apply (keeps_elsewhere a); [apply stable_account|].
      apply (sound_execute _ depth depth (le_n _)); [done| |apply Hdata]. by destruct kind; [|apply Hnot|apply Hnot|..].
Qed.
End Execute.

Section Steps.
Context `{K : Keccak} `{G : StorageGas} `{H : Cas20Host} `{Ec : Ecrecover} `{HL : !Cas20HostLaws K H}.

(** Every call that returns keeps [Inv]. *)
Definition calls_keep (Inv : World → Prop) : Prop :=
  ∀ kind env data h gas_limit d used refund,
  0 <= gas_limit < 2 ^ 64 → calldata_ok data → account_ok (caller env) → resolve (self_addr env) = Some kind →
  (run kind env data h gas_limit).1 = Done (OReturn d, used, refund) →
  Inv (view h) → Inv (view (run kind env data h gas_limit).2).

(** It is enough that the handlers keep it. *)
Lemma keeps_calls (Inv : World → Prop) :
  (∀ depth kind env data, resolve (self_addr env) = Some kind → account_ok (caller env) → calldata_ok data →
     keeps Inv (execute depth kind env data)) →
  calls_keep Inv.
Proof.
  intros Hx kind env data h gas_limit d used refund Hgas Hdata Hcaller Hkind Hrun Hi.
  destruct (run_refines kind env data h gas_limit Hgas (proj1 Hdata) _ _ _ (policy_depth gas_limit) Hrun I (le_n _)) as [Hrep ->].
  set (s := {| world := view h; renounced := false |}) in *.
  destruct (ideal (execute (policy_depth gas_limit) kind env data) s) as [[r|e|] s'] eqn:E; cbn in Hrep; [|done|done].
  by apply (Hx _ kind env data Hkind Hcaller Hdata s r s' E).
Qed.

Context `{L : !Layout} `{M : !MarkerHash}.

Lemma account_sound_kept a : is_cas20_address a = true → calls_keep (λ w, account_sound w a).
Proof. intros Ha. apply keeps_calls. intros depth kind env data **. by apply keeps_execute. Qed.
End Steps.
