(* ===== verification/Cas20Roles.v ===== *)
(** * Cas20Roles: renouncing the last admin is final

    Once a token has no admin, no call can grant a role or change which role
    administers another: the second instance of [TokenInvariant]. *)

From stdpp Require Import base tactics numbers option list gmap strings.
From Stdlib Require Import ZArith Lia Bool.
From S2P Require Import Prelude.
From S2P Require Import Cas20Sigs.
From S2P Require Import Cas20Frame.
From S2P Require Import Cas20Meta.
From S2P Require Import Cas20Abi.
From S2P Require Import Cas20Storage.
From S2P Require Import Cas20Policy.
From S2P Require Import Cas20Token.
From S2P Require Import Cas20Asset.
From S2P Require Import Cas20Factory.
From S2P Require Import Cas20Sound.
From S2P Require Import Cas20Calls.
From S2P Require Import Cas20Ledger.
From S2P Require Import Cas20Keeps.
From S2P Require Import Cas20Tokens.

(** The cells that say who may do what. *)
Definition about_roles (t : tag) : Prop :=
  match t with TAdmin _ | TAdminCount | TRole | TRoleAdmin => True | _ => False end.

Section Roles.
Context `{K : Keccak} `{G : StorageGas} `{H : Cas20Host} `{L : !Layout}.
Context (a c : Z).

Definition admin_role_of (w : World) (role : Z) : Z := w_get w a (mapping_slot (slot_at SLOT_ROLE_ADMINS) role).

(** The cells about roles are those of [w0]. *)
Definition roles_same (w0 w : World) : Prop :=
  ∀ t slot, slot_is t slot → about_roles t → w_get w a slot = w_get w0 a slot.

#[global] Instance roles_same_stable w0 : Stable a (λ t, ¬ about_roles t) (roles_same w0).
Proof using L.
  split.
  - intros w w' Hs _ Hr t slot Ht Ha. rewrite <- (Hr t slot Ht Ha). unfold w_get. by rewrite Hs.
  - by intros [].
  - intros t slot v w Ht Hf Hr t' slot' Ht' Ha'. rewrite <- (Hr t' slot' Ht' Ha'). apply w_get_set_ne. right.
    apply (cells_differ t t'); [done|done|]. by intros ->.
Qed.

Section Same.
Context (w0 : World) (depth : nat) (tok : Token) (Htok : self_addr (ctx tok) = a).
Notation keeps := (keeps (roles_same w0)).

Lemma same_put_balance x v : account_ok x → keeps (put_word a (mapping_slot (slot_at SLOT_BALANCES) x) v).
Proof using L. intros Hx. exact (keeps_free (free := λ t, ¬ about_roles t) _ _ v (is_balance x Hx) id). Qed.
Lemma same_set_total_supply v : keeps (set_total_supply a v).
Proof using L. exact (keeps_free (free := λ t, ¬ about_roles t) _ _ v is_supply id). Qed.
Lemma same_set_supply_cap v : keeps (set_supply_cap a v).
Proof using L. exact (keeps_free (free := λ t, ¬ about_roles t) _ _ v is_cap id). Qed.
#[local] Hint Resolve same_put_balance same_set_total_supply same_set_supply_cap : keeps.

(** The walk, with the slot of a balance known. *)
Ltac keep_roles :=
  unfold at_of, msg_sender, emit; rewrite ?Htok;
  repeat (match goal with |- Cas20Keeps.keeps _ (balance_slot _ ≫= _) => eapply keeps_bind_det; [intros; reflexivity|] end || keep_step).

Lemma same_shift_balance from to amount : account_ok from → account_ok to → keeps (shift_balance tok from to amount).
Proof using L Htok G H. intros. unfold shift_balance. keep_roles. Qed.
Lemma same_mint_core to amount : account_ok to → keeps (mint_core depth tok to amount).
Proof using L Htok G H. intros. unfold mint_core. keep_roles. Qed.
Lemma same_burn from amount : account_ok from → keeps (burn tok from amount).
Proof using L Htok G H. intros. unfold burn. keep_roles. Qed.
Lemma same_update_supply_cap new_cap : keeps (update_supply_cap tok new_cap).
Proof using L Htok G H. unfold update_supply_cap. keep_roles. Qed.
End Same.

(** ** No admin, no change *)

(** There is no admin, and since [w0] nobody was given a role and no role was
    given another administrator. *)
Definition frozen (w0 w : World) : Prop :=
  in_order a c w ∧ admins w a = 0
  ∧ (∀ role x, word_ok role → account_ok x → holds_role w a role x = true → holds_role w0 a role x = true)
  ∧ (∀ role, admin_role_of w role = admin_role_of w0 role).

Lemma role_cell role x : word_ok role → account_ok x → ∃ t, slot_is t (role_key role x) ∧ about_roles t.
Proof.
  intros Hr Hx. destruct (decide (role = ROLE_DEFAULT_ADMIN)) as [-> | Hne].
  - exists (TAdmin x). split; [by apply is_admin|exact I].
  - exists TRole. split; [by apply is_role|exact I].
Qed.

Lemma roles_same_frozen w0 w w' : frozen w0 w → roles_same w w' → in_order a c w' → frozen w0 w'.
Proof.
  intros (_ & Hn & Hr & Ha) Hs Ho. split_and!; [done| | |].
  - unfold admins in *. by rewrite (Hs _ _ is_admin_count I).
  - intros role x Hw Hx. destruct (role_cell role x Hw Hx) as (t & Ht & Hab). unfold holds_role.
    rewrite (Hs _ _ Ht Hab). by apply Hr.
  - intros role. rewrite <- Ha. exact (Hs _ _ (is_role_admin role) I).
Qed.

Lemma frozen_keeps {A} w0 (p : prog A) :
  keeps (in_order a c) p → (∀ w, keeps (roles_same w) p) → keeps (frozen w0) p.
Proof.
  intros Ho Hr s r s' E Hf. apply (roles_same_frozen w0 (world s)); [done| |by apply (Ho _ _ _ E), Hf].
  by apply (Hr _ _ _ _ E).
Qed.

#[global] Instance frozen_stable w0 : Stable a (λ t, ¬ about_roles t ∧ aside t) (frozen w0).
Proof using L.
  split.
  - intros w w' Hs Hc Hf. apply (roles_same_frozen w0 w); [done| |].
    + intros t slot _ _. unfold w_get. by rewrite Hs.
    + exact (stable_account (a := a) (free := aside) (I := in_order a c) w w' Hs Hc (proj1 Hf)).
  - split; [by intros []|by right; right].
  - intros t slot v w Ht [Hab Has] Hf. apply (roles_same_frozen w0 w); [done| |].
    + by apply (stable_write (free := λ t, ¬ about_roles t) (I := roles_same w) t slot v w Ht Hab).
    + exact (stable_write (free := aside) (I := in_order a c) t slot v w Ht Has (proj1 Hf)).
Qed.

Section Frozen.
Context (w0 : World) (tok : Token) (Htok : token_at a tok) (Hpriv : privileged tok = false).
Notation keeps := (keeps (frozen w0)).

(** A step that cannot return. *)
Lemma frozen_blocks {A B} (p : prog A) (f : A → prog B) :
  (∀ s, admins (world s) a = 0 → ∃ e, (ideal p s).1 = Fail e) → keeps (p ≫= f).
Proof.
  intros Hp s r s' E Hf. destruct (Hp s (proj1 (proj2 Hf))) as [e He]. rewrite ideal_bind in E.
  destruct (ideal p s) as [[x|e'|] s1]; done.
Qed.

Lemma no_role_mutable role s : admins (world s) a = 0 → ∃ e, (ideal (ensure_role_mutable tok role) s).1 = Fail e.
Proof using Htok Hpriv.
  destruct Htok as [Ha _]. intros Hn. unfold ensure_role_mutable, require_writable, at_of. rewrite Hpriv, Ha.
  rewrite ideal_require_bind. case_if; [|by eexists]. rewrite ideal_bind. cbn [ideal ideal_op do_ negb orb].
  rewrite ideal_bind, ideal_bind, ideal_admin_count, ideal_ret, Hn. cbn [Z.eqb]. rewrite ideal_bind. cbn. by eexists.
Qed.

Lemma frozen_remove_role role : word_ok role → keeps (remove_role tok role (msg_sender tok)).
Proof using L Htok G H.
  destruct Htok as [Ha Hc]. intros Hrole s r s' E Hf. pose proof Hf as (Ho & Hn & Hr & Har).
  pose proof (keeps_remove_role a c tok Ha role (msg_sender tok) Hrole Hc s r s' E Ho) as Ho'.
  revert E. unfold remove_role, at_of, msg_sender. rewrite Ha. run_ideal.
  destruct (holds_role (world s) a role (caller (ctx tok))) eqn:Hhas; cbn [negb]; run_ideal; [|by intros [= _ <-]].
  destruct (Z.eqb_spec role ROLE_DEFAULT_ADMIN) as [-> | Hne].
  { by rewrite (no_admins (world s) a _ (proj1 Ho) Hn Hc) in Hhas. }
  run_ideal. intros [= _ <-]. split_and!; [done| | |]; cbn [world on_world] in *.
  - unfold admins in *. rewrite <- Hn. apply w_get_set_ne. right.
    apply (cells_differ TRole TAdminCount); [by apply is_role|apply is_admin_count|done].
  - intros role' x Hw Hx Hh. apply Hr; [done|done|]. revert Hh. unfold holds_role. cbn.
    change (w_get (w_log ?l ?w) ?x ?y) with (w_get w x y). rewrite w_get_set. by case_bool_decide.
  - intros role'. rewrite <- Har. unfold admin_role_of. apply w_get_set_ne. right.
    apply (cells_differ TRole TRoleAdmin); [by apply is_role|apply is_role_admin|done].
Qed.

Lemma frozen_renounce_role role confirmation : word_ok role → keeps (renounce_role tok role confirmation).
Proof using L Htok G H.
  intros Hr. pose proof (frozen_remove_role role Hr). unfold renounce_role, guard_last_admin. keep.
Qed.

Lemma frozen_renounce_last_admin : keeps (renounce_last_admin tok).
Proof using Htok.
  destruct Htok as [Ha Hc]. intros s r s' E (Ho & Hn & _). revert E.
  unfold renounce_last_admin, require_writable, at_of, msg_sender. rewrite Ha. run_ideal.
  case_if; [|done]. by rewrite (no_admins (world s) a _ (proj1 Ho) Hn Hc).
Qed.
End Frozen.

Definition plain_token_at (tok : Token) : Prop := token_at a tok ∧ privileged tok = false.

#[global] Instance frozen_invariant w0 : TokenInvariant a (λ t, ¬ about_roles t ∧ aside t) plain_token_at (frozen w0).
Proof using L G H.
  split; try (intros tok [[] ?]; done); intros;
    try match goal with Hp : plain_token_at _ |- _ => destruct Hp as [Htok Hpriv] end.
  - apply frozen_stable.
  - apply frozen_keeps; [by apply inv_shift_balance|]. intros w. by apply same_shift_balance; [apply Htok|..].
  - apply frozen_keeps; [by apply inv_mint_core|]. intros w. by apply same_mint_core; [apply Htok|..].
  - apply frozen_keeps; [by apply inv_burn|]. intros w. by apply same_burn; [apply Htok|..].
  - apply frozen_keeps; [by apply inv_update_supply_cap|]. intros w. by apply same_update_supply_cap, Htok.
  - apply frozen_blocks. by apply no_role_mutable.
  - apply frozen_blocks. by apply no_role_mutable.
  - by apply frozen_renounce_role.
  - by apply frozen_renounce_last_admin.
  - apply frozen_blocks. by apply no_role_mutable.
Qed.
End Roles.

(** ** Calls on an account that is a token *)

Section Marked.
Context `{K : Keccak} `{G : StorageGas} `{H : Cas20Host} `{Ec : Ecrecover} `{M : !MarkerHash}.
Context {a : Z} {free : tag → Prop} {P : Token → Prop} {Inv : World → Prop} `{TI : !TokenInvariant a free P Inv}.
Context (Hcode : ∀ w, Inv w → w_code_hash w a = MARKER_CODE_HASH).
Context (Hplain : ∀ env d, self_addr env = a → account_ok (caller env) → P (token_new env d)).
Context (depth : nat).
Notation keeps := (keeps Inv).

(** An account with code is never created again. *)
Lemma marked_create_at env na variant create init_calls :
  self_addr env ≠ a → Forall calldata_ok init_calls → keeps (create_at depth env na variant create init_calls).
Proof using TI M G H Hcode.
  intros Henv Hcalls. destruct (decide (na = a)) as [-> | Hne].
  - intros s r s' E Hi. revert E. unfold create_at. rewrite ideal_bind, ideal_address_occupied.
    by rewrite (Hcode _ Hi), marker_has_code.
  - apply (keeps_elsewhere a); [apply stable_account|]. apply (sound_create_at _ depth depth (le_n _)); [done|done|].
    eapply Forall_impl; [exact Hcalls|]. by intros x [].
Qed.

Lemma marked_execute kind env data :
  resolve (self_addr env) = Some kind → is_cas20_address a = true → account_ok (caller env) → calldata_ok data →
  keeps (execute depth kind env data).
Proof using TI M G H Hcode Hplain.
  intros Hk%resolve_kind Ha Hcaller Hdata.
  assert (Hnot : ∀ b, is_cas20_address b = false → b ≠ a) by congruence.
  destruct (decide (kind = KFactory)) as [-> | Hf].
  - assert (Henv : self_addr env ≠ a) by (rewrite Hk; by apply Hnot).
    unfold execute, charge_calldata. keep_step. keep_step. keep_step; [keep|]. keep_step.
    unfold run_factory, initialized_metered, create_cas20, read_bytes_arg. apply args_of_calldata in Hdata. keep.
    apply marked_create_at; [done|]. apply Forall_forall. eauto with keeps.
  - destruct (decide (self_addr env = a)) as [Hself | Hself].
    + unfold execute, charge_calldata, initialized_metered. keep_step. keep_step. keep_step; [keep|]. keep_step.
      destruct kind; [done|exfalso; apply (Hnot (self_addr env)); [by rewrite Hk|done]..| |]; keep;
        [apply keeps_asset_dispatch|apply keeps_stablecoin_dispatch]; auto.
    + apply (keeps_elsewhere a); [apply stable_account|].
      apply (sound_execute _ depth depth (le_n _)); [done| |apply Hdata]. by destruct kind; [|apply Hnot|apply Hnot|..].
Qed.
End Marked.

Section Steps.
Context `{K : Keccak} `{G : StorageGas} `{H : Cas20Host} `{Ec : Ecrecover} `{HL : !Cas20HostLaws K H}.
Context `{L : !Layout} `{M : !MarkerHash}.

(** Calls keep a token without an admin frozen. *)
Lemma frozen_kept a w0 : is_cas20_address a = true → calls_keep (frozen a MARKER_CODE_HASH w0).
Proof.
  intros Ha. apply keeps_calls. intros depth kind env data Hkind Hcaller Hdata.
  refine (marked_execute (a := a) (P := plain_token_at a) (Inv := frozen a MARKER_CODE_HASH w0) _ _ _ kind env data
            Hkind Ha Hcaller Hdata); [by intros w [[_ ?] _]|done].
Qed.
End Steps.
