(* ===== verification/Cas20History.v ===== *)
(** * Cas20History: what holds in every state the chain reaches

    A precompile call runs to its end before anything else happens, so what
    can happen to the token accounts is a sequence of calls that return and of
    everything else, which leaves those accounts alone.  The invariants of the
    calls carry over to every such history. *)

From stdpp Require Import base tactics numbers option list gmap strings.
From Stdlib Require Import ZArith Lia Bool.
From S2P Require Import Prelude.
From S2P Require Import Cas20Sigs.
From S2P Require Import Cas20Frame.
From S2P Require Import Cas20Abi.
From S2P Require Import Cas20Storage.
From S2P Require Import Cas20Policy.
From S2P Require Import Cas20Token.
From S2P Require Import Cas20Factory.
From S2P Require Import Cas20Calls.
From S2P Require Import Cas20Ledger.
From S2P Require Import Cas20Keeps.
From S2P Require Import Cas20Tokens.
From S2P Require Import Cas20Roles.

Section History.
Context `{K : Keccak} `{G : StorageGas} `{H : Cas20Host} `{Ec : Ecrecover} `{HL : !Cas20HostLaws K H}.

(** Storage and code of every token account are the same. *)
Definition tokens_untouched (w w' : World) : Prop :=
  ∀ a, is_cas20_address a = true →
    (∀ k, w_storage w' !! (a, k) = w_storage w !! (a, k)) ∧ w_code w' !! a = w_code w !! a.

(** The states reached from [h0].  A call that returns leaves what it did.  A
    call that reverts, runs out of gas or fails is undone by the interpreter,
    and so is any number of calls when an enclosing frame or transaction fails:
    the state is then one that was reached before, which the second rule allows
    with other warm slots, other logs and another time, like everything other
    contracts do. *)
Inductive history (h0 : Host) : Host → Prop :=
| history_starts : history h0 h0
| history_call kind env data h gas_limit d used refund :
    history h0 h →
    0 <= gas_limit < 2 ^ 64 → calldata_ok data → account_ok (caller env) → resolve (self_addr env) = Some kind →
    (run kind env data h gas_limit).1 = Done (OReturn d, used, refund) →
    history h0 (run kind env data h gas_limit).2
| history_elsewhere h h' :
    history h0 h → tokens_untouched (view h) (view h') → history h0 h'.

Context `{L : !Layout} `{M : !MarkerHash}.

(** An account nobody wrote to has nothing on its ledger. *)
Lemma empty_account_sound w a : (∀ k, w_get w a k = 0) → account_sound w a.
Proof.
  intros Hz. assert (Hf : ∀ x, admin_flag w a x = 0) by (intros x; unfold admin_flag, holds_role; by rewrite Hz).
  split; [|intros _; apply Hz]. split.
  - intros x _. unfold balance. by rewrite Hz.
  - rewrite (total_ext _ (λ _, 0)) by (intros; apply Hz). unfold supply. by rewrite total_zero, Hz.
  - unfold supply, cap. rewrite !Hz. unfold NO_SUPPLY_CAP. lia.
  - rewrite (total_ext _ (λ _, 0)) by (intros; apply Hf). unfold admins. by rewrite total_zero, Hz.
Qed.

(** An invariant of one token account that calls keep holds in every history. *)
Lemma history_keeps a (Inv : World → Prop) h0 h :
  is_cas20_address a = true → about_account a Inv → calls_keep Inv → history h0 h → Inv (view h0) → Inv (view h).
Proof using Type.
  intros Ha Habout Hcalls Hh Hi.
  induction Hh as [|kind env data h gas_limit d used refund Hh IH Hgas Hdata Hcaller Hkind Hrun|h h' Hh IH Hsame]; [done| |].
  - by eapply Hcalls.
  - destruct (Hsame a Ha) as [Hs Hc]. by apply (Habout (view h)).
Qed.

Lemma history_sound h0 h a :
  (∀ b k, is_cas20_address b = true → w_get (view h0) b k = 0) → history h0 h → is_cas20_address a = true →
  account_sound (view h) a.
Proof.
  intros Hz Hh Ha. apply (history_keeps a (λ w, account_sound w a) h0 h Ha);
    [exact (stable_account (free := aside))|by apply account_sound_kept|done|].
  apply empty_account_sound. intros k. by apply Hz.
Qed.

(** C4: no history creates or destroys value other than by minting and burning,
    and admins are never miscounted.  From a state without tokens on, after any
    calls by anybody, in every token account the balances of all accounts add up
    to the total supply, which is within its cap and so within 128 bits, and the
    admin count is the number of admins.  In particular none of the unchecked
    additions to a balance ever wraps around. *)
Theorem ledger_always_balances h0 h a :
  (∀ b k, is_cas20_address b = true → w_get (view h0) b k = 0) → history h0 h → is_cas20_address a = true →
  let w := view h in
  (∀ x, account_ok x → 0 <= balance w a x)
  ∧ total (balance w a) = supply w a
  ∧ supply w a <= cap w a <= NO_SUPPLY_CAP
  ∧ total (admin_flag w a) = admins w a.
Proof.
  intros Hz Hh Ha w.
  destruct (history_sound h0 h a Hz Hh Ha) as [[Hn Ht Hc Hadm] _]. fold w in Hn, Ht, Hc, Hadm. rewrite Z.add_0_r in Ht, Hadm.
  split_and!; [exact Hn|exact Ht|apply Hc|apply Hc|exact Hadm].
Qed.

(** C5: renouncing the last admin is final.  Once a token has no admin, it
    never has one again: whatever is called, by whomever and how often, its
    admin count stays zero, nobody holds a role who did not hold it before, and
    every role keeps the role that administers it. *)
Theorem renouncement_is_final h0 h a :
  is_cas20_address a = true → token_ok (view h0) a → w_code_hash (view h0) a = MARKER_CODE_HASH →
  admins (view h0) a = 0 → history h0 h →
  admins (view h) a = 0
  ∧ (∀ role x, word_ok role → account_ok x → holds_role (view h) a role x = true → holds_role (view h0) a role x = true)
  ∧ (∀ role, admin_role_of a (view h) role = admin_role_of a (view h0) role).
Proof.
  intros Ha Hok Hcode Hn Hh.
  assert (Hf : frozen a MARKER_CODE_HASH (view h0) (view h)); [|apply Hf].
  apply (history_keeps a (frozen a MARKER_CODE_HASH (view h0)) h0 h Ha);
    [apply frozen_stable|by apply frozen_kept|done|by split_and!].
Qed.
End History.
