(* ===== verification/Cas20Demo.v ===== *)
(** * Cas20Demo: a small chain to run CAS20 calls on

    A journal that never fails and charges flat prices, and a hash function
    whose values are easy to tell apart, for which the assumptions of the
    theorems are proved: they can hold, and the theorems apply to calls that
    evaluate. *)

From stdpp Require Import base tactics numbers option list gmap strings.
From Stdlib Require Import ZArith Lia Bool.
From S2P Require Import Prelude.
From S2P Require Import Cas20Sigs.
From S2P Require Import Cas20Frame.
From S2P Require Import Cas20Meta.
From S2P Require Import Cas20Abi.
From S2P Require Import Cas20Storage.
From S2P Require Import Cas20Policy.
From S2P Require Import Cas20Token.
From S2P Require Import Cas20Asset.
From S2P Require Import Cas20Factory.
From S2P Require Import Cas20Sound.
From S2P Require Import Cas20Calls.
From S2P Require Import Cas20Ledger.
From S2P Require Import Cas20Keeps.
From S2P Require Import Cas20Tokens.
From S2P Require Import Cas20Roles.
From S2P Require Import Cas20History.

Module Cas20Demo.

(** Comparisons of constants. *)
Ltac by_calc := solve [unfold word_ok; repeat split; vm_compute; (discriminate || reflexivity)].

(** ** The hash *)

Definition BALANCES_AT : Z := Z.shiftl 0x80 248.
Definition ADMIN_BASE : Z := Z.shiftl 0x90 248.
Definition ROLE_BASE : Z := Z.shiftl 0x91 248.
Definition ADMINS_AT : Z := Z.shiftl 0xa0 248.
Definition ROLES_AT : Z := Z.shiftl 0xb0 248.
Definition ROLE_ADMINS_AT : Z := Z.shiftl 0xc0 248.

Definition hash_pair (key base : Z) : Z :=
  if (base =? slot_at SLOT_BALANCES) && (key <? 2 ^ 160) then BALANCES_AT + key
  else if base =? slot_at SLOT_ROLES then (if key =? 0 then ADMIN_BASE else ROLE_BASE)
  else if (base =? ADMIN_BASE) && (key <? 2 ^ 160) then ADMINS_AT + key
  else if base =? ROLE_BASE then ROLES_AT
  else if base =? slot_at SLOT_ROLE_ADMINS then ROLE_ADMINS_AT
  else 0.

Definition hash (b : bytes) : Z :=
  if bool_decide (b = MARKER_CODE) then MARKER_CODE_HASH
  else if zlen b =? 64 then hash_pair (be_decode (take 32 b)) (be_decode (drop 32 b))
  else 0.

#[export] Instance demo_keccak : Keccak := {| keccak256 := hash; KECCAK256_EMPTY := Z.shiftl 0xc5 248 |}.
#[export] Instance demo_ecrecover : Ecrecover := {| secp_recover := λ _ _ r _, Some r |}.

(** Which cell a slot is. *)
Definition cell_of (slot : Z) : tag :=
  if (BALANCES_AT <=? slot) && (slot <? BALANCES_AT + 2 ^ 160) then TBalance (slot - BALANCES_AT)
  else if (ADMINS_AT <=? slot) && (slot <? ADMINS_AT + 2 ^ 160) then TAdmin (slot - ADMINS_AT)
  else if slot =? ROLES_AT then TRole
  else if slot =? ROLE_ADMINS_AT then TRoleAdmin
  else if slot =? slot_at SLOT_TOTAL_SUPPLY then TSupply
  else if slot =? slot_at SLOT_SUPPLY_CAP then TCap
  else if slot =? slot_at SLOT_ADMIN_COUNT then TAdminCount
  else TOther.

Lemma hash_64 key base :
  keccak256 (be_encode 32 key ++ be_encode 32 base) = hash_pair (be_decode (be_encode 32 key)) (be_decode (be_encode 32 base)).
Proof.
  cbn [keccak256 demo_keccak]. unfold hash. rewrite bool_decide_false.
  2: { intros E%(f_equal length). rewrite length_app, !be_encode_length in E. done. }
  unfold zlen. rewrite length_app, !be_encode_length. cbn [Z.eqb Z.of_nat Pos.eqb Nat.add Pos.of_succ_nat Pos.succ].
  rewrite take_app_length' by (by rewrite be_encode_length). by rewrite drop_app_length' by (by rewrite be_encode_length).
Qed.

Lemma decode_word w : word_ok w → be_decode (be_encode 32 w) = w.
Proof. intros Hw. apply be_decode_encode. exact Hw. Qed.
Lemma mapping_demo base key : word_ok base → mapping_slot base key = hash_pair (be_decode (be_encode 32 key)) base.
Proof. intros Hb. unfold mapping_slot. by rewrite hash_64, (decode_word base Hb). Qed.
Lemma account_word x : account_ok x → word_ok x.
Proof. unfold account_ok, word_ok. lia. Qed.

(** Any other key hashes to zero. *)
Lemma hash_pair_other key base :
  base ≠ slot_at SLOT_BALANCES → base ≠ slot_at SLOT_ROLES → base ≠ ADMIN_BASE → base ≠ ROLE_BASE →
  base ≠ slot_at SLOT_ROLE_ADMINS → hash_pair key base = 0.
Proof.
  intros H1 H2 H3 H4 H5. unfold hash_pair. apply Z.eqb_neq in H1, H2, H3, H4, H5. by rewrite H1, H2, H3, H4, H5.
Qed.

Lemma hash_str offset key :
  offset ∈ [SLOT_ANNOUNCEMENTS; SLOT_EXTRA_META] → str_key offset key = 0.
Proof.
  intros Ho. unfold str_key. cbn [keccak256 demo_keccak]. unfold hash. rewrite bool_decide_false.
  2: { intros E%(f_equal length). rewrite length_app, be_encode_length in E. cbn in E. lia. }
  case_if; [|done]. split_tests. rewrite zlen_app in Eif. unfold zlen in Eif. rewrite be_encode_length in Eif.
  rewrite take_app_length' by lia. rewrite drop_app_length' by lia.
  rewrite decode_word; [|by repeat (apply elem_of_cons in Ho as [-> | Ho]; [by_calc|]); apply elem_of_nil in Ho].
  repeat (apply elem_of_cons in Ho as [-> | Ho]; [apply hash_pair_other; by_calc|]). by apply elem_of_nil in Ho.
Qed.

Lemma hash_slot slot : keccak256 (be_encode 32 slot) = 0.
Proof.
  cbn [keccak256 demo_keccak]. unfold hash. rewrite bool_decide_false.
  - unfold zlen. by rewrite be_encode_length.
  - intros E%(f_equal length). by rewrite be_encode_length in E.
Qed.

Lemma cell_small slot : 0 <= slot <= 2 ^ 59 → cell_of slot = TOther.
Proof.
  intros Hs. unfold cell_of.
  assert (Hb : ∀ z, 2 ^ 59 < z → (z <=? slot) = false ∧ (slot =? z) = false) by (intros; lia).
  rewrite (proj1 (Hb BALANCES_AT ltac:(done))), (proj1 (Hb ADMINS_AT ltac:(done))). cbn [andb].
  rewrite (proj2 (Hb ROLES_AT ltac:(done))), (proj2 (Hb ROLE_ADMINS_AT ltac:(done))).
  rewrite (proj2 (Hb (slot_at SLOT_TOTAL_SUPPLY) ltac:(done))), (proj2 (Hb (slot_at SLOT_SUPPLY_CAP) ltac:(done))).
  by rewrite (proj2 (Hb (slot_at SLOT_ADMIN_COUNT) ltac:(done))).
Qed.

Ltac each_named Hk := repeat (apply elem_of_cons in Hk as [-> | Hk]; [reflexivity|]); by apply elem_of_nil in Hk.

Lemma string_slot_other slot : string_slot slot → cell_of slot = TOther.
Proof.
  intros [k Hk | | key]; [each_named Hk|done|]. rewrite hash_str; [done|]. set_solver.
Qed.

Lemma cell_of_balance x : account_ok x → cell_of (BALANCES_AT + x) = TBalance x.
Proof.
  intros Hx. unfold account_ok in Hx. unfold cell_of.
  replace ((BALANCES_AT <=? BALANCES_AT + x) && (BALANCES_AT + x <? BALANCES_AT + 2 ^ 160)) with true by lia.
  f_equal. lia.
Qed.
Lemma cell_of_admin x : account_ok x → cell_of (ADMINS_AT + x) = TAdmin x.
Proof.
  intros Hx. unfold account_ok in Hx. unfold cell_of. assert (BALANCES_AT + 2 ^ 160 < ADMINS_AT) by done.
  replace ((BALANCES_AT <=? ADMINS_AT + x) && (ADMINS_AT + x <? BALANCES_AT + 2 ^ 160)) with false by lia.
  replace ((ADMINS_AT <=? ADMINS_AT + x) && (ADMINS_AT + x <? ADMINS_AT + 2 ^ 160)) with true by lia.
  f_equal. lia.
Qed.

Lemma slot_cell t slot : slot_is t slot → cell_of slot = t.
Proof.
  intros Hs. destruct Hs as [x Hx| | |x Hx| |role x Hr Hne Hx|role|k Hk|owner spender|owner|k Hk|id|slot Hs|slot i Hs Hi];
    try reflexivity.
  - rewrite mapping_demo, decode_word by (first [apply account_word; assumption | by_calc]). unfold hash_pair.
    replace (x <? 2 ^ 160) with true by (unfold account_ok in Hx; lia). by apply cell_of_balance.
  - unfold role_key. rewrite (mapping_demo (slot_at SLOT_ROLES)) by by_calc.
    change (hash_pair (be_decode (be_encode 32 ROLE_DEFAULT_ADMIN)) (slot_at SLOT_ROLES)) with ADMIN_BASE.
    rewrite mapping_demo, decode_word by (first [apply account_word; assumption | by_calc]). unfold hash_pair.
    replace (x <? 2 ^ 160) with true by (unfold account_ok in Hx; lia). by apply cell_of_admin.
  - unfold role_key. rewrite (mapping_demo (slot_at SLOT_ROLES)), decode_word by (first [assumption | by_calc]).
    assert (E : hash_pair role (slot_at SLOT_ROLES) = ROLE_BASE).
    { unfold hash_pair. apply Z.eqb_neq in Hne. change ROLE_DEFAULT_ADMIN with 0 in Hne. by rewrite Hne. }
    rewrite E, mapping_demo by by_calc. unfold hash_pair. done.
  - by rewrite mapping_demo by by_calc.
  - each_named Hk.
  - rewrite (mapping_demo (slot_at SLOT_ALLOWANCES)), hash_pair_other by by_calc. by rewrite mapping_demo by by_calc.
  - by rewrite mapping_demo, hash_pair_other by by_calc.
  - each_named Hk.
  - rewrite hash_str; [done|]. set_solver.
  - by apply string_slot_other.
  - rewrite hash_slot. unfold wrap256. rewrite Z.mod_small by lia. by apply cell_small.
Qed.

#[export] Instance demo_layout : Layout.
Proof. intros t t' slot Ht%slot_cell Ht'%slot_cell. congruence. Qed.
#[export] Instance demo_marker : MarkerHash.
Proof. by split. Qed.

(** ** The journal *)

#[export] Instance demo_gas : StorageGas := {|
  cold_storage_cost := 2100;
  warm_storage_read_cost := 100;
  call_stipend := 2300;
  sstore_static_gas := 100;
  sstore_dynamic_gas := λ _ _, 2800;
  sstore_refund := λ _, 4800;
|}.

#[export] Instance demo_host : Cas20Host := {|
  Host := World;
  host_sload := λ w a k, (inr (w_get w a k, false), w);
  host_sstore := λ w a k v,
    (inr ({| original_value := w_get w a k; present_value := w_get w a k; new_value := v |}, false), w_set a k v w);
  host_code_hash := λ w a, (inr (w_code_hash w a, false), w);
  host_set_code := λ w a code, (inr tt, w_set_code a (keccak256 code) w);
  host_log := λ w l, w_log l w;
  host_timestamp := w_time;
  host_chain_id := w_chain;
|}.

#[export] Instance demo_host_laws : Cas20HostLaws demo_keccak demo_host.
Proof. refine {| view := (λ w, w) : Host → World |}; naive_solver. Defined.

(** ** Creating a token *)

Definition ALICE : Z := 0xa11ce.
Definition BOB : Z := 0xb0b.

(** A chain with every feature switched on. *)
Definition genesis : World := {|
  w_storage := {[ (ACTIVATION_REGISTRY_ADDRESS, 0) := 1 ]};
  w_code := ∅; w_logs := []; w_time := 1000; w_chain := 56;
|}.

Definition call_env (self from : Z) : Env :=
  {| self_addr := self; caller := from; read_only := false; direct_call := true; value := 0 |}.
Definition call (sel : Z) (args : bytes) : bytes := be_encode 4 sel ++ args.
Definition words (ws : list Z) : bytes := concat (be_encode 32 <$> ws).

(** [createCAS20] of a stablecoin: its name, symbol and currency, Alice its
    admin, and one bootstrap call that mints 1000 to Bob. *)
Definition params : bytes :=
  abi_encode_struct [abi_word 1; abi_string [0x55; 0x53]; abi_string [0x55]; abi_word ALICE; abi_string [0x55; 0x53; 0x44]].
Definition init_calls : list bytes := [call SEL_MINT (words [BOB; 1000])].
Definition bytes_array (l : list bytes) : AbiPart :=
  Dynamic (be_encode 32 (zlen l) ++ encode_tuple (abi_bytes <$> l)).
Definition create_data : bytes :=
  call SEL_CREATE_CAS20 (encode_tuple [abi_word VARIANT_STABLECOIN; abi_word 7; abi_bytes params; bytes_array init_calls]).
Definition factory_env : Env := call_env FACTORY_ADDRESS ALICE.
Definition token : Z := derive_address VARIANT_STABLECOIN ALICE 7.

Definition world1 : Host := (run KFactory factory_env create_data genesis 1000000).2.

Lemma created_ok : (run KFactory factory_env create_data genesis 1000000).1 = Done (OReturn (enc_word token), 65623, 38400).
Proof. vm_compute. reflexivity. Qed.

Lemma genesis_empty a k : is_cas20_address a = true → w_get genesis a k = 0.
Proof.
  intros Ha. unfold w_get. cbn [w_storage genesis].
  rewrite lookup_singleton_ne; [done|]. intros [= <- _]. vm_compute in Ha. discriminate.
Qed.

Lemma calldata_check b : forallb (λ x, (0 <=? x) && (x <? 256)) b && (zlen b <? 2 ^ 64) = true → calldata_ok b.
Proof.
  rewrite andb_true_iff. intros [Hb Hl]. split; [|lia]. apply Forall_forall. intros x Hx.
  rewrite forallb_forall in Hb. specialize (Hb x ltac:(by apply list_elem_of_In)). unfold byte_ok. lia.
Qed.
Lemma create_calldata : calldata_ok create_data.
Proof. apply calldata_check. vm_compute. reflexivity. Qed.
Lemma history1 : history (H := demo_host) genesis world1.
Proof.
  unfold world1.
  apply (history_call (H := demo_host) genesis KFactory factory_env create_data genesis 1000000 (enc_word token) 65623 38400);
    [constructor|lia|apply create_calldata|by_calc|vm_compute; reflexivity|apply created_ok].
Qed.

(** Alice renounces, and nobody is an admin any more. *)
Definition renounce_data : bytes := call SEL_RENOUNCE_LAST_ADMIN [].
Definition world2 : Host := (run KStablecoin (call_env token ALICE) renounce_data world1 100000).2.
Lemma renounced_ok : (run KStablecoin (call_env token ALICE) renounce_data world1 100000).1 = Done (OReturn [], 9274, 9600).
Proof. vm_compute. reflexivity. Qed.
Lemma history2 : history (H := demo_host) genesis world2.
Proof.
  unfold world2.
  apply (history_call (H := demo_host) genesis KStablecoin (call_env token ALICE) renounce_data world1 100000 [] 9274 9600);
    [apply history1|lia|apply calldata_check; vm_compute; reflexivity|by_calc|vm_compute; reflexivity|apply renounced_ok].
Qed.

Lemma world2_ledger :
  balance world2 token BOB = 1000 ∧ supply world2 token = 1000 ∧ admins world1 token = 1 ∧ admins world2 token = 0.
Proof. vm_compute. done. Qed.

(** ** The theorems at work *)

Lemma create_bytes : Forall byte_ok create_data.
Proof. apply create_calldata. Qed.

(** With just enough gas the creation gives the same token. *)
Lemma created_cheaply : (run KFactory factory_env create_data genesis 68000).1 = Done (OReturn (enc_word token), 65623, 38400).
Proof. vm_compute. reflexivity. Qed.

Lemma calls_return_witness :
  ∃ o used refund, (run KFactory factory_env create_data genesis 40000).1 = Done (o, used, refund)
    ∧ 0 <= used <= 40000
    ∧ (match o with OOutOfGas | OFatal _ => used = 40000 | _ => True end)
    ∧ (refund ≠ 0 → ∃ d, o = OReturn d).
Proof. apply (calls_return (H := demo_host) KFactory factory_env create_data genesis 40000); [lia|apply create_bytes]. Defined.

Lemma gas_only_decides_completion_witness :
  OReturn (enc_word token) = OReturn (enc_word token)
  ∧ view (run KFactory factory_env create_data genesis 1000000).2 = view (run KFactory factory_env create_data genesis 68000).2.
Proof.
  eapply (gas_only_decides_completion (H := demo_host) KFactory factory_env create_data genesis genesis 1000000 68000);
    [lia|lia|apply create_bytes|reflexivity|apply created_ok|exact I|apply created_cheaply|exact I].
Defined.

Definition static_env : Env :=
  {| self_addr := FACTORY_ADDRESS; caller := ALICE; read_only := true; direct_call := true; value := 0 |}.
Lemma static_call_changes_nothing_witness :
  view (run KFactory static_env create_data genesis 1000000).2 = view (H := demo_host) genesis.
Proof. apply static_call_changes_nothing. reflexivity. Defined.

Lemma call_touches_own_account_witness :
  same_outside (touches KFactory factory_env) (view (H := demo_host) genesis) (view (run KFactory factory_env create_data genesis 1000000).2).
Proof. apply call_touches_own_account; [vm_compute; reflexivity|apply create_bytes]. Defined.

Lemma ledger_always_balances_witness :
  let w := view (H := demo_host) world2 in
  (∀ x, account_ok x → 0 <= balance w token x)
  ∧ total (balance w token) = supply w token
  ∧ supply w token <= cap w token <= NO_SUPPLY_CAP
  ∧ total (admin_flag w token) = admins w token.
Proof.
  apply (ledger_always_balances (H := demo_host) genesis world2 token);
    [exact genesis_empty|apply history2|vm_compute; reflexivity].
Defined.

(** Bob moves some of his tokens when nobody is an admin. *)
Definition transfer_data : bytes := call SEL_TRANSFER (words [ALICE; 10]).
Definition bob_env : Env := call_env token BOB.
Definition world3 : Host := (run KStablecoin bob_env transfer_data world2 100000).2.
Lemma transferred_ok : (run KStablecoin bob_env transfer_data world2 100000).1 = Done (OReturn (enc_bool true), 8158, 9600).
Proof. vm_compute. reflexivity. Qed.
Lemma history3 : history (H := demo_host) world2 world3.
Proof.
  unfold world3.
  apply (history_call (H := demo_host) world2 KStablecoin bob_env transfer_data world2 100000 (enc_bool true) 8158 9600);
    [constructor|lia|apply calldata_check; vm_compute; reflexivity|by_calc|vm_compute; reflexivity|apply transferred_ok].
Qed.

Lemma renouncement_is_final_witness :
  let w := view (H := demo_host) world2 in
  let w' := view (H := demo_host) world3 in
  admins w' token = 0
  ∧ (∀ role x, word_ok role → account_ok x → holds_role w' token role x = true → holds_role w token role x = true)
  ∧ (∀ role, admin_role_of token w' role = admin_role_of token w role).
Proof.
  apply (renouncement_is_final (H := demo_host) world2 world3 token);
    [vm_compute; reflexivity| |vm_compute; reflexivity|vm_compute; reflexivity|apply history3].
  apply (history_sound (H := demo_host) genesis); [exact genesis_empty|apply history2|vm_compute; reflexivity].
Defined.
End Cas20Demo.
